(** * adb/sockets.cpp: the asocket multiplexing layer

    A shallow embedding of [adb/sockets.cpp].  Heap objects ([asocket],
    [apacket]) live in finite maps indexed by their address; every C
    function becomes a state transformer over [world] in a small
    state-and-error monad.  Calls through the asocket function pointers
    ([s->close(s)], [s->ready(s)], ...) are resolved by a dispatcher on
    the value stored in the corresponding field. *)

From Stdlib Require Import ZArith List Bool Lia.
From Stdlib.Strings Require Import Byte String.
From stdpp Require Import base option list gmap.

Local Open Scope Z_scope.
Local Open Scope list_scope.

(** ** Data model *)

(** Addresses: [asocket*], [apacket*] and [atransport*].  A null pointer
    is [None] in an [option]. *)
Abbreviation addr := positive (only parsing).
Abbreviation pref := positive (only parsing).
Abbreviation tref := positive (only parsing).

(** Protocol commands stamped into [apacket::msg.command].  [A_NONE] is
    the zeroed header of a packet fresh from [get_apacket]. *)
Inductive command := A_NONE | A_OPEN | A_OKAY | A_CLSE | A_WRTE.

Record amessage := {
  msg_command : command;
  arg0 : Z;            (* unsigned *)
  arg1 : Z;            (* unsigned *)
  data_length : Z      (* unsigned *)
}.

(** [apacket]: [ptr] is kept as an offset into [data]; the capacity of
    the [data] array is the length of the list.  [len] is a [size_t] that
    counts bytes of [data]: sums and differences of such counts are taken
    in [Z], they stay far below [SIZE_MAX]. *)
Record apacket := {
  next : option pref;
  ptr : Z;
  len : Z;
  msg : amessage;
  data : list byte
}.

Inductive fde_event := FDE_READ | FDE_WRITE | FDE_ERROR.

(** [fdevent]: which events are armed, the watched fd, the force_eof flag. *)
Record fdevent := {
  fde_fd : Z;
  st_read : bool;
  st_write : bool;
  st_error : bool;
  force_eof : bool
}.

(** The functions that are ever stored in the asocket function pointers
    by this file. *)
Inductive enqueue_fn :=
  FN_local_socket_enqueue | FN_remote_socket_enqueue | FN_smart_socket_enqueue.
Inductive ready_fn :=
  FN_local_socket_ready | FN_local_socket_ready_notify
| FN_remote_socket_ready | FN_smart_socket_ready.
Inductive shutdown_fn := FN_remote_socket_shutdown.
Inductive close_fn :=
  FN_local_socket_close | FN_local_socket_close_notify
| FN_remote_socket_close | FN_smart_socket_close.

(** [asocket].  The intrusive [next]/[prev] links are represented by the
    two sequences [local_socket_list] and [local_socket_closing_list] of
    the [world]: a socket has non-null links exactly when it occurs in
    one of them. *)
Record asocket := {
  id : Z;                       (* unsigned *)
  closing : bool;
  has_write_error : bool;
  exit_on_close : bool;
  peer : option addr;
  fde : fdevent;
  fd : Z;
  pkt_first : option pref;
  pkt_last : option pref;
  transport : option tref;
  enqueue : enqueue_fn;
  ready : ready_fn;
  shutdown : option shutdown_fn;
  close : close_fn
}.

(** Result of one [adb_write] call as decided by the environment. *)
Inductive write_result :=
| W_bytes (n : positive)        (* that many bytes accepted, at most the count asked *)
| W_zero                        (* returned 0 *)
| W_error (errno : Z).          (* returned -1 with this errno *)

Inductive TransportType := kTransportUsb | kTransportLocal | kTransportAny.
Inductive ConnectionState := kCsOffline | kCsOnline.

(** What [handle_host_request] did: its return value, the transport it
    bound to the smart socket (if any), and the bytes it wrote to the
    reply fd. *)
Record host_reply := {
  hr_status : Z;
  hr_bind : option tref;
  hr_out : list byte
}.

(** The process state. *)
Record world := {
  socks : gmap positive asocket;            (* live asockets *)
  pkts : gmap positive apacket;             (* live apackets *)
  local_socket_next_id : Z;
  local_socket_list : list addr;
  local_socket_closing_list : list addr;
  wire : list (option tref * apacket);      (* packets handed to send_packet *)
  fd_out : list (Z * list byte);            (* bytes written to fds *)
  fd_closed : list Z;                       (* fds closed by fdevent_remove *)
  io_clock : nat                            (* number of adb_write calls so far *)
}.

(** Collaborators and constants declared outside [sockets.cpp]. *)
Record Env := {
  MAX_PAYLOAD : Z;
  MAX_PAYLOAD_V1 : Z;
  ADB_HOST : bool;
  EAGAIN : Z;
  write_oracle : nat -> write_result;
  transport_max_payload : tref -> Z;
  GetConnectionState : tref -> ConnectionState;
  handle_host_request :
    list byte -> TransportType -> option (list byte) -> Z -> addr -> host_reply;
  host_service_to_socket : list byte -> option (list byte) -> option asocket;
  acquire_one_transport : TransportType -> tref + list byte
}.

(** ** Field updates *)

Definition set_next (v : option pref) (p : apacket) : apacket :=
  {| next := v; ptr := ptr p; len := len p; msg := msg p; data := data p |}.
Definition set_ptr (v : Z) (p : apacket) : apacket :=
  {| next := next p; ptr := v; len := len p; msg := msg p; data := data p |}.
Definition set_len (v : Z) (p : apacket) : apacket :=
  {| next := next p; ptr := ptr p; len := v; msg := msg p; data := data p |}.
Definition set_msg (v : amessage) (p : apacket) : apacket :=
  {| next := next p; ptr := ptr p; len := len p; msg := v; data := data p |}.
Definition set_data (v : list byte) (p : apacket) : apacket :=
  {| next := next p; ptr := ptr p; len := len p; msg := msg p; data := v |}.

Definition set_command (v : command) (m : amessage) : amessage :=
  {| msg_command := v; arg0 := arg0 m; arg1 := arg1 m; data_length := data_length m |}.
Definition set_arg0 (v : Z) (m : amessage) : amessage :=
  {| msg_command := msg_command m; arg0 := v; arg1 := arg1 m; data_length := data_length m |}.
Definition set_arg1 (v : Z) (m : amessage) : amessage :=
  {| msg_command := msg_command m; arg0 := arg0 m; arg1 := v; data_length := data_length m |}.
Definition set_data_length (v : Z) (m : amessage) : amessage :=
  {| msg_command := msg_command m; arg0 := arg0 m; arg1 := arg1 m; data_length := v |}.

Definition fde_armed (ev : fde_event) (f : fdevent) : bool :=
  match ev with
  | FDE_READ => st_read f
  | FDE_WRITE => st_write f
  | FDE_ERROR => st_error f
  end.

Definition fde_arm (ev : fde_event) (b : bool) (f : fdevent) : fdevent :=
  match ev with
  | FDE_READ =>
      {| fde_fd := fde_fd f; st_read := b; st_write := st_write f;
         st_error := st_error f; force_eof := force_eof f |}
  | FDE_WRITE =>
      {| fde_fd := fde_fd f; st_read := st_read f; st_write := b;
         st_error := st_error f; force_eof := force_eof f |}
  | FDE_ERROR =>
      {| fde_fd := fde_fd f; st_read := st_read f; st_write := st_write f;
         st_error := b; force_eof := force_eof f |}
  end.

Definition set_id (v : Z) (s : asocket) : asocket :=
  {| id := v; closing := closing s; has_write_error := has_write_error s;
     exit_on_close := exit_on_close s; peer := peer s; fde := fde s; fd := fd s;
     pkt_first := pkt_first s; pkt_last := pkt_last s; transport := transport s;
     enqueue := enqueue s; ready := ready s; shutdown := shutdown s; close := close s |}.
Definition set_closing (v : bool) (s : asocket) : asocket :=
  {| id := id s; closing := v; has_write_error := has_write_error s;
     exit_on_close := exit_on_close s; peer := peer s; fde := fde s; fd := fd s;
     pkt_first := pkt_first s; pkt_last := pkt_last s; transport := transport s;
     enqueue := enqueue s; ready := ready s; shutdown := shutdown s; close := close s |}.
Definition set_has_write_error (v : bool) (s : asocket) : asocket :=
  {| id := id s; closing := closing s; has_write_error := v;
     exit_on_close := exit_on_close s; peer := peer s; fde := fde s; fd := fd s;
     pkt_first := pkt_first s; pkt_last := pkt_last s; transport := transport s;
     enqueue := enqueue s; ready := ready s; shutdown := shutdown s; close := close s |}.
Definition set_peer (v : option addr) (s : asocket) : asocket :=
  {| id := id s; closing := closing s; has_write_error := has_write_error s;
     exit_on_close := exit_on_close s; peer := v; fde := fde s; fd := fd s;
     pkt_first := pkt_first s; pkt_last := pkt_last s; transport := transport s;
     enqueue := enqueue s; ready := ready s; shutdown := shutdown s; close := close s |}.
Definition set_fde (v : fdevent) (s : asocket) : asocket :=
  {| id := id s; closing := closing s; has_write_error := has_write_error s;
     exit_on_close := exit_on_close s; peer := peer s; fde := v; fd := fd s;
     pkt_first := pkt_first s; pkt_last := pkt_last s; transport := transport s;
     enqueue := enqueue s; ready := ready s; shutdown := shutdown s; close := close s |}.
Definition set_pkt_first (v : option pref) (s : asocket) : asocket :=
  {| id := id s; closing := closing s; has_write_error := has_write_error s;
     exit_on_close := exit_on_close s; peer := peer s; fde := fde s; fd := fd s;
     pkt_first := v; pkt_last := pkt_last s; transport := transport s;
     enqueue := enqueue s; ready := ready s; shutdown := shutdown s; close := close s |}.
Definition set_pkt_last (v : option pref) (s : asocket) : asocket :=
  {| id := id s; closing := closing s; has_write_error := has_write_error s;
     exit_on_close := exit_on_close s; peer := peer s; fde := fde s; fd := fd s;
     pkt_first := pkt_first s; pkt_last := v; transport := transport s;
     enqueue := enqueue s; ready := ready s; shutdown := shutdown s; close := close s |}.
Definition set_transport (v : option tref) (s : asocket) : asocket :=
  {| id := id s; closing := closing s; has_write_error := has_write_error s;
     exit_on_close := exit_on_close s; peer := peer s; fde := fde s; fd := fd s;
     pkt_first := pkt_first s; pkt_last := pkt_last s; transport := v;
     enqueue := enqueue s; ready := ready s; shutdown := shutdown s; close := close s |}.
Definition set_ready (v : ready_fn) (s : asocket) : asocket :=
  {| id := id s; closing := closing s; has_write_error := has_write_error s;
     exit_on_close := exit_on_close s; peer := peer s; fde := fde s; fd := fd s;
     pkt_first := pkt_first s; pkt_last := pkt_last s; transport := transport s;
     enqueue := enqueue s; ready := v; shutdown := shutdown s; close := close s |}.
Definition set_shutdown (v : option shutdown_fn) (s : asocket) : asocket :=
  {| id := id s; closing := closing s; has_write_error := has_write_error s;
     exit_on_close := exit_on_close s; peer := peer s; fde := fde s; fd := fd s;
     pkt_first := pkt_first s; pkt_last := pkt_last s; transport := transport s;
     enqueue := enqueue s; ready := ready s; shutdown := v; close := close s |}.
Definition set_close (v : close_fn) (s : asocket) : asocket :=
  {| id := id s; closing := closing s; has_write_error := has_write_error s;
     exit_on_close := exit_on_close s; peer := peer s; fde := fde s; fd := fd s;
     pkt_first := pkt_first s; pkt_last := pkt_last s; transport := transport s;
     enqueue := enqueue s; ready := ready s; shutdown := shutdown s; close := v |}.

Definition with_socks (v : gmap positive asocket) (w : world) : world :=
  {| socks := v; pkts := pkts w; local_socket_next_id := local_socket_next_id w;
     local_socket_list := local_socket_list w;
     local_socket_closing_list := local_socket_closing_list w;
     wire := wire w; fd_out := fd_out w; fd_closed := fd_closed w;
     io_clock := io_clock w |}.
Definition with_pkts (v : gmap positive apacket) (w : world) : world :=
  {| socks := socks w; pkts := v; local_socket_next_id := local_socket_next_id w;
     local_socket_list := local_socket_list w;
     local_socket_closing_list := local_socket_closing_list w;
     wire := wire w; fd_out := fd_out w; fd_closed := fd_closed w;
     io_clock := io_clock w |}.
Definition with_next_id (v : Z) (w : world) : world :=
  {| socks := socks w; pkts := pkts w; local_socket_next_id := v;
     local_socket_list := local_socket_list w;
     local_socket_closing_list := local_socket_closing_list w;
     wire := wire w; fd_out := fd_out w; fd_closed := fd_closed w;
     io_clock := io_clock w |}.
Definition with_list (v : list addr) (w : world) : world :=
  {| socks := socks w; pkts := pkts w; local_socket_next_id := local_socket_next_id w;
     local_socket_list := v;
     local_socket_closing_list := local_socket_closing_list w;
     wire := wire w; fd_out := fd_out w; fd_closed := fd_closed w;
     io_clock := io_clock w |}.
Definition with_closing_list (v : list addr) (w : world) : world :=
  {| socks := socks w; pkts := pkts w; local_socket_next_id := local_socket_next_id w;
     local_socket_list := local_socket_list w;
     local_socket_closing_list := v;
     wire := wire w; fd_out := fd_out w; fd_closed := fd_closed w;
     io_clock := io_clock w |}.
Definition with_wire (v : list (option tref * apacket)) (w : world) : world :=
  {| socks := socks w; pkts := pkts w; local_socket_next_id := local_socket_next_id w;
     local_socket_list := local_socket_list w;
     local_socket_closing_list := local_socket_closing_list w;
     wire := v; fd_out := fd_out w; fd_closed := fd_closed w;
     io_clock := io_clock w |}.
Definition with_fd_out (v : list (Z * list byte)) (w : world) : world :=
  {| socks := socks w; pkts := pkts w; local_socket_next_id := local_socket_next_id w;
     local_socket_list := local_socket_list w;
     local_socket_closing_list := local_socket_closing_list w;
     wire := wire w; fd_out := v; fd_closed := fd_closed w;
     io_clock := io_clock w |}.
Definition with_fd_closed (v : list Z) (w : world) : world :=
  {| socks := socks w; pkts := pkts w; local_socket_next_id := local_socket_next_id w;
     local_socket_list := local_socket_list w;
     local_socket_closing_list := local_socket_closing_list w;
     wire := wire w; fd_out := fd_out w; fd_closed := v;
     io_clock := io_clock w |}.
Definition with_io_clock (v : nat) (w : world) : world :=
  {| socks := socks w; pkts := pkts w; local_socket_next_id := local_socket_next_id w;
     local_socket_list := local_socket_list w;
     local_socket_closing_list := local_socket_closing_list w;
     wire := wire w; fd_out := fd_out w; fd_closed := fd_closed w;
     io_clock := v |}.

(** ** The monad of the embedding *)

(** How a C function can end: it returns, the process exits ([exit(1)]),
    the process aborts ([fatal], a failed [CHECK]), it runs into undefined
    behaviour (null or dangling dereference, access outside a buffer), or
    the dispatcher ran out of fuel. *)
Inductive outcome (A : Type) : Type :=
| Ok (a : A) (w : world)
| Exit (code : Z) (w : world)
| Abort
| Fault
| OutOfFuel.
Arguments Ok {A} a w.
Arguments Exit {A} code w.
Arguments Abort {A}.
Arguments Fault {A}.
Arguments OutOfFuel {A}.

Definition M (A : Type) : Type := world -> outcome A.

Definition ret {A} (a : A) : M A := fun w => Ok a w.

Definition bind {A B} (m : M A) (k : A -> M B) : M B :=
  fun w =>
    match m w with
    | Ok a w' => k a w'
    | Exit c w' => Exit c w'
    | Abort => Abort
    | Fault => Fault
    | OutOfFuel => OutOfFuel
    end.

Declare Scope adb_scope.
Delimit Scope adb_scope with adb.
Notation "x <- m ;; k" := (bind m (fun x => k))
  (at level 100, m at next level, right associativity) : adb_scope.
Notation "m ;; k" := (bind m (fun _ => k))
  (at level 100, right associativity) : adb_scope.
Local Open Scope adb_scope.

Definition get : M world := fun w => Ok w w.
Definition modify (f : world -> world) : M unit := fun w => Ok tt (f w).
Definition fault {A} : M A := fun _ => Fault.
Definition abort {A} : M A := fun _ => Abort.
Definition exit {A} (code : Z) : M A := fun w => Exit code w.
Definition out_of_fuel {A} : M A := fun _ => OutOfFuel.

(** Dereferencing: reading or writing through a pointer that is not live
    is undefined behaviour. *)
Definition load (s : addr) : M asocket :=
  fun w => match socks w !! s with Some so => Ok so w | None => Fault end.

Definition store (s : addr) (f : asocket -> asocket) : M unit :=
  fun w => match socks w !! s with
           | Some so => Ok tt (with_socks (<[s := f so]> (socks w)) w)
           | None => Fault
           end.

Definition deref {A} (o : option A) : M A :=
  match o with Some a => ret a | None => fault end.

Definition loadp (p : pref) : M apacket :=
  fun w => match pkts w !! p with Some po => Ok po w | None => Fault end.

Definition storep (p : pref) (f : apacket -> apacket) : M unit :=
  fun w => match pkts w !! p with
           | Some po => Ok tt (with_pkts (<[p := f po]> (pkts w)) w)
           | None => Fault
           end.

(** [free(s)] *)
Definition free (s : addr) : M unit :=
  fun w => match socks w !! s with
           | Some _ => Ok tt (with_socks (delete s (socks w)) w)
           | None => Fault
           end.

(** A fresh address for [calloc]/[get_apacket]. *)
Definition fresh_key {V} (m : gmap positive V) : positive :=
  fresh (dom m).

(** ** The code, over a fixed environment *)

Section Sockets.

Variable E : Env.

(** *** Collaborators

    These functions are declared in [adb.h], [adb_io.h], [fdevent.h] and
    [transport.h]; only their call contracts are modelled. *)

(** Modelled from the spec: [get_apacket] hands out a packet that nobody
    else holds, with a cleared header and a [MAX_PAYLOAD] byte buffer. *)
Definition get_apacket : M pref :=
  fun w =>
    let p := fresh_key (pkts w) in
    let po := {| next := None; ptr := 0; len := 0;
                 msg := {| msg_command := A_NONE; arg0 := 0; arg1 := 0;
                           data_length := 0 |};
                 data := replicate (Z.to_nat (MAX_PAYLOAD E)) x00 |} in
    Ok p (with_pkts (<[p := po]> (pkts w)) w).

(** Modelled from the spec: [put_apacket] discards a packet. *)
Definition put_apacket (p : pref) : M unit :=
  fun w => match pkts w !! p with
           | Some _ => Ok tt (with_pkts (delete p (pkts w)) w)
           | None => Fault
           end.

(** Modelled from the spec: [send_packet] takes the packet over and puts
    it on the transport's queue, in program order. *)
Definition send_packet (p : pref) (t : option tref) : M unit :=
  po <- loadp p;;
  modify (fun w => with_wire (wire w ++ [(t, po)]) (with_pkts (delete p (pkts w)) w)).

(** Modelled from the spec: [fdevent_add]/[fdevent_del] arm and disarm
    readiness notification for the events given. *)
Definition fdevent_add (s : addr) (ev : fde_event) : M unit :=
  store s (fun so => set_fde (fde_arm ev true (fde so)) so).

Definition fdevent_del (s : addr) (ev : fde_event) : M unit :=
  store s (fun so => set_fde (fde_arm ev false (fde so)) so).

(** Modelled from the spec: [fdevent_remove] detaches the watcher, which
    also closes the fd. *)
Definition fdevent_remove (s : addr) : M unit :=
  so <- load s;;
  store s (fun so => set_fde (fde_arm FDE_READ false (fde_arm FDE_WRITE false
                               (fde_arm FDE_ERROR false (fde so)))) so);;
  modify (fun w => with_fd_closed (fd_closed w ++ [fde_fd (fde so)]) w).

(** Modelled from the spec: [fdevent_install] registers the callback for
    [fd]; no event is armed yet. *)
Definition fdevent_install (s : addr) (fd : Z) : M unit :=
  store s (set_fde {| fde_fd := fd; st_read := false; st_write := false;
                      st_error := false; force_eof := false |}).

(** [adb_write(fd, buf, count)]: the environment decides how the call
    ends; bytes that were accepted are appended to the fd's output.  The
    pair returned is the return value and [errno]. *)
Definition adb_write (fd : Z) (buf : list byte) (count : Z) : M (Z * Z) :=
  fun w =>
    if Z.of_nat (length buf) <? count then Fault
    else
      let w1 := with_io_clock (S (io_clock w)) w in
      match write_oracle E (io_clock w) with
      | W_bytes n =>
          let r := Z.min (Z.pos n) count in
          Ok (r, 0) (with_fd_out (fd_out w1 ++ [(fd, take (Z.to_nat r) buf)]) w1)
      | W_zero => Ok (0, 0) w1
      | W_error e => Ok (-1, e) w1
      end.

Definition bytes_of_string (s : string) : list byte := list_byte_of_string s.

Definition hex_digit (n : Z) : byte :=
  nth (Z.to_nat n) (bytes_of_string "0123456789abcdef") x00.

(** Modelled from the spec: the ["%04x"] rendering of a length. *)
Definition hex4 (n : Z) : list byte :=
  [hex_digit (n / 4096 mod 16); hex_digit (n / 256 mod 16);
   hex_digit (n / 16 mod 16); hex_digit (n mod 16)].

Definition write_fd (fd : Z) (bytes : list byte) : M unit :=
  modify (fun w => with_fd_out (fd_out w ++ [(fd, bytes)]) w).

(** Modelled from the spec: [SendOkay] and [SendFail] write a standard
    OKAY/FAIL framed reply. *)
Definition SendOkay (fd : Z) : M unit :=
  write_fd fd (bytes_of_string "OKAY").

Definition SendFail (fd : Z) (reason : list byte) : M unit :=
  write_fd fd (bytes_of_string "FAIL" ++ hex4 (Z.of_nat (length reason)) ++ reason).

(** *** The socket registry *)

Inductive socket_list := MainList | ClosingList.

Fixpoint find_local_socket_scan (l : list addr) (local_id peer_id : Z)
  : M (option addr) :=
  match l with
  | [] => ret None
  | s :: l' =>
      so <- load s;;
      if negb (id so =? local_id) then find_local_socket_scan l' local_id peer_id
      else if peer_id =? 0 then ret (Some s)
      else match peer so with
           | Some p =>
               po <- load p;;
               if id po =? peer_id then ret (Some s) else ret None
           | None => ret None
           end
  end.

Definition find_local_socket (local_id peer_id : Z) : M (option addr) :=
  w <- get;;
  find_local_socket_scan (local_socket_list w) local_id peer_id.

(** Insertion before the list head, that is at the tail. *)
Definition insert_local_socket (s : addr) (list : socket_list) : M unit :=
  _ <- load s;;
  match list with
  | MainList => modify (fun w => with_list (local_socket_list w ++ [s]) w)
  | ClosingList =>
      modify (fun w => with_closing_list (local_socket_closing_list w ++ [s]) w)
  end.

Definition install_local_socket (s : addr) : M unit :=
  w <- get;;
  store s (set_id (local_socket_next_id w));;
  modify (with_next_id ((local_socket_next_id w + 1) mod 2 ^ 32));;
  w <- get;;
  (if local_socket_next_id w =? 0 then abort else ret tt);;
  insert_local_socket s MainList.

Definition linked (s : addr) (w : world) : bool :=
  bool_decide (s ∈ local_socket_list w) || bool_decide (s ∈ local_socket_closing_list w).

Definition unlink (s : addr) (l : list addr) : list addr :=
  filter (fun x => x ≠ s) l.

Definition remove_socket (s : addr) : M unit :=
  _ <- load s;;
  w <- get;;
  if linked s w then
    modify (fun w => with_list (unlink s (local_socket_list w))
                       (with_closing_list (unlink s (local_socket_closing_list w)) w));;
    store s (set_id 0)
  else ret tt.



Definition get_max_payload (s : addr) : M Z :=
  so <- load s;;
  let max_payload := MAX_PAYLOAD E in
  let max_payload :=
    match transport so with
    | Some t => Z.min max_payload (transport_max_payload E t)
    | None => max_payload
    end in
  match peer so with
  | Some p =>
      po <- load p;;
      match transport po with
      | Some t => ret (Z.min max_payload (transport_max_payload E t))
      | None => ret max_payload
      end
  | None => ret max_payload
  end.

(** [s->peer], about to be dereferenced. *)
Definition peer_of (s : addr) : M addr :=
  so <- load s;;
  deref (peer so).

(** *** Remote sockets *)

Definition remote_socket_enqueue (s : addr) (p : pref) : M Z :=
  storep p (fun po => set_msg (set_command A_WRTE (msg po)) po);;
  q <- peer_of s;;
  qo <- load q;;
  storep p (fun po => set_msg (set_arg0 (id qo) (msg po)) po);;
  so <- load s;;
  storep p (fun po => set_msg (set_arg1 (id so) (msg po)) po);;
  storep p (fun po => set_msg (set_data_length (len po mod 2 ^ 32) (msg po)) po);;
  so <- load s;;
  send_packet p (transport so);;
  ret 1.

Definition remote_socket_ready (s : addr) : M unit :=
  p <- get_apacket;;
  storep p (fun po => set_msg (set_command A_OKAY (msg po)) po);;
  q <- peer_of s;;
  qo <- load q;;
  storep p (fun po => set_msg (set_arg0 (id qo) (msg po)) po);;
  so <- load s;;
  storep p (fun po => set_msg (set_arg1 (id so) (msg po)) po);;
  so <- load s;;
  send_packet p (transport so).

Definition remote_socket_shutdown (s : addr) : M unit :=
  p <- get_apacket;;
  storep p (fun po => set_msg (set_command A_CLSE (msg po)) po);;
  so <- load s;;
  (match peer so with
   | Some _ =>
       q <- peer_of s;;
       qo <- load q;;
       storep p (fun po => set_msg (set_arg0 (id qo) (msg po)) po)
   | None => ret tt
   end);;
  so <- load s;;
  storep p (fun po => set_msg (set_arg1 (id so) (msg po)) po);;
  so <- load s;;
  send_packet p (transport so).

(** [s->shutdown(s)] *)
Definition call_shutdown (f : shutdown_fn) (s : addr) : M unit :=
  match f with
  | FN_remote_socket_shutdown => remote_socket_shutdown s
  end.

(** *** Local sockets *)

Definition local_socket_ready (s : addr) : M unit :=
  fdevent_add s FDE_READ.

(** The loop of [local_socket_destroy] that disposes of unwritten data. *)
Fixpoint discard_packets (fuel : nat) (p : option pref) : M unit :=
  match p with
  | None => ret tt
  | Some a =>
      match fuel with
      | O => out_of_fuel
      | S fuel' =>
          po <- loadp a;;
          let n := next po in
          put_apacket a;;
          discard_packets fuel' n
      end
  end.

(** Every round of the loop frees a live packet, so one more round than
    there are live packets is enough. *)
Definition local_socket_destroy (s : addr) : M unit :=
  so <- load s;;
  let exit_on_close := exit_on_close so in
  fdevent_remove s;;
  so <- load s;;
  w <- get;;
  discard_packets (S (size (pkts w))) (pkt_first so);;
  remove_socket s;;
  free s;;
  if exit_on_close then exit 1 else ret tt.

Section WithCalls.

(** [s->close(s)] and [s->ready(s)] *)
Variable call_close : addr -> M unit.
Variable call_ready : addr -> M unit.

(** The tail of [local_socket_enqueue], from the label [enqueue]. *)
Definition local_socket_enqueue_tail (s : addr) (p : pref) : M Z :=
  storep p (set_next None);;
  so <- load s;;
  (match pkt_first so with
   | Some _ =>
       so <- load s;;
       l <- deref (pkt_last so);;
       storep l (set_next (Some p))
   | None => store s (set_pkt_first (Some p))
   end);;
  store s (set_pkt_last (Some p));;
  fdevent_add s FDE_WRITE;;
  ret 1.

(** The write loop of [local_socket_enqueue].  [Some v]: the function
    returned [v] from inside the loop; [None]: the loop was left. *)
Fixpoint local_socket_enqueue_write (fuel : nat) (s : addr) (p : pref)
  : M (option Z) :=
  match fuel with
  | O => out_of_fuel
  | S fuel' =>
      po <- loadp p;;
      if 0 <? len po then
        so <- load s;;
        res <- adb_write (fd so) (drop (Z.to_nat (ptr po)) (data po)) (len po);;
        let r := fst res in
        let errno := snd res in
        if 0 <? r then
          storep p (fun po => set_len (len po - r) po);;
          storep p (fun po => set_ptr (ptr po + r) po);;
          local_socket_enqueue_write fuel' s p
        else if (r =? 0) || negb (errno =? EAGAIN E) then
          put_apacket p;;
          store s (set_has_write_error true);;
          call_close s;;
          ret (Some 1)
        else ret None
      else ret None
  end.

(** Every round but the last writes at least one byte. *)
Definition local_socket_enqueue (s : addr) (p : pref) : M Z :=
  storep p (set_ptr 0);;
  so <- load s;;
  match pkt_first so with
  | Some _ => local_socket_enqueue_tail s p
  | None =>
      po <- loadp p;;
      res <- local_socket_enqueue_write (S (Z.to_nat (len po))) s p;;
      match res with
      | Some v => ret v
      | None =>
          po <- loadp p;;
          if len po =? 0 then
            put_apacket p;;
            ret 0
          else local_socket_enqueue_tail s p
      end
  end.

Definition local_socket_close (s : addr) : M unit :=
  so <- load s;;
  (match peer so with
   | Some _ =>
       q <- peer_of s;;
       qo <- load q;;
       (match shutdown qo with
        | Some f => q <- peer_of s;; call_shutdown f q
        | None => ret tt
        end);;
       q <- peer_of s;;
       store q (set_peer None);;
       q <- peer_of s;;
       call_close q;;
       store s (set_peer None)
   | None => ret tt
   end);;
  so <- load s;;
  if closing so || has_write_error so || bool_decide (pkt_first so = None) then
    local_socket_destroy s
  else
    store s (set_closing true);;
    fdevent_del s FDE_READ;;
    remove_socket s;;
    insert_local_socket s ClosingList;;
    so <- load s;;
    if st_write (fde so) then ret tt else abort.

Definition remote_socket_close (s : addr) : M unit :=
  so <- load s;;
  (match peer so with
   | Some _ =>
       q <- peer_of s;;
       store q (set_peer None);;
       q <- peer_of s;;
       call_close q
   | None => ret tt
   end);;
  free s.


(** [calloc] of an asocket whose fields are then filled in. *)
Definition alloc (so : asocket) : M addr :=
  fun w =>
    let s := fresh_key (socks w) in
    Ok s (with_socks (<[s := so]> (socks w)) w).

Definition zero_fde : fdevent :=
  {| fde_fd := 0; st_read := false; st_write := false; st_error := false;
     force_eof := false |}.

Definition create_local_socket (fd : Z) : M addr :=
  s <- alloc {| id := 0; closing := false; has_write_error := false;
                exit_on_close := false; peer := None; fde := zero_fde; fd := fd;
                pkt_first := None; pkt_last := None; transport := None;
                enqueue := FN_local_socket_enqueue; ready := FN_local_socket_ready;
                shutdown := None; close := FN_local_socket_close |};;
  install_local_socket s;;
  fdevent_install s fd;;
  ret s.

Definition create_remote_socket (id : Z) (t : option tref) : M addr :=
  if id =? 0 then abort
  else
    alloc {| id := id; closing := false; has_write_error := false;
             exit_on_close := false; peer := None; fde := zero_fde; fd := 0;
             pkt_first := None; pkt_last := None; transport := t;
             enqueue := FN_remote_socket_enqueue; ready := FN_remote_socket_ready;
             shutdown := Some FN_remote_socket_shutdown;
             close := FN_remote_socket_close |}.

(** [strlen]-terminated contents of the C string starting a buffer. *)
Fixpoint cstr (l : list byte) : list byte :=
  match l with
  | [] => []
  | c :: l' => if Byte.eqb c x00 then [] else c :: cstr l'
  end.

(** [strncmp(s1, s2, n) == 0] on C strings given by their contents. *)
Fixpoint strncmp_eq (s1 s2 : list byte) (n : nat) : bool :=
  match n with
  | O => true
  | S n' =>
      match s1, s2 with
      | [], [] => true
      | c1 :: t1, c2 :: t2 => Byte.eqb c1 c2 && strncmp_eq t1 t2 n'
      | _, _ => false
      end
  end.

Definition has_prefix (lit : string) (s : list byte) : bool :=
  strncmp_eq s (bytes_of_string lit) (length (bytes_of_string lit)).

(** [strchr(s, c)] for a character other than NUL, as an index. *)
Fixpoint strchr (s : list byte) (c : byte) : option nat :=
  match s with
  | [] => None
  | x :: s' => if Byte.eqb x c then Some O else S <$> strchr s' c
  end.

(** The character at an index of a C string; the terminator past its end. *)
Definition char_at (s : list byte) (i : nat) : byte := nth i s x00.

Definition isdigit (c : byte) : bool :=
  match c with
  | "0" | "1" | "2" | "3" | "4" | "5" | "6" | "7" | "8" | "9" => true
  | _ => false
  end%byte.

Fixpoint span_digits (s : list byte) : nat :=
  match s with
  | c :: s' => if isdigit c then S (span_digits s') else O
  | [] => O
  end.

Definition connect_to_remote (s : addr) (destination : list byte) : M unit :=
  p <- get_apacket;;
  let len := Z.of_nat (length destination) + 1 in
  mp <- get_max_payload s;;
  (* size_t: with a max payload of 0 the subtraction wraps to SIZE_MAX *)
  if (0 <? mp) && (mp - 1 <? len) then abort
  else
    storep p (fun po => set_msg (set_command A_OPEN (msg po)) po);;
    so <- load s;;
    storep p (fun po => set_msg (set_arg0 (id so) (msg po)) po);;
    storep p (fun po => set_msg (set_data_length (len mod 2 ^ 32) (msg po)) po);;
    po <- loadp p;;
    (if Z.of_nat (length (data po)) <? len then fault
     else storep p (set_data (destination ++ [x00] ++ drop (Z.to_nat len) (data po))));;
    so <- load s;;
    send_packet p (transport so).

Definition local_socket_ready_notify (s : addr) : M unit :=
  store s (set_ready FN_local_socket_ready);;
  store s (set_shutdown None);;
  store s (set_close FN_local_socket_close);;
  so <- load s;;
  SendOkay (fd so);;
  call_ready s.

Definition local_socket_close_notify (s : addr) : M unit :=
  store s (set_ready FN_local_socket_ready);;
  store s (set_shutdown None);;
  store s (set_close FN_local_socket_close);;
  so <- load s;;
  SendFail (fd so) (bytes_of_string "closed");;
  call_close s.

(** *** Smart sockets *)

Definition unhex_digit (c : byte) : option Z :=
  match c with
  | "0" | "1" | "2" | "3" | "4" | "5" | "6" | "7" | "8" | "9" =>
      Some (Z.of_N (Byte.to_N c) - Z.of_N (Byte.to_N "0"))
  | "a" | "b" | "c" | "d" | "e" | "f" =>
      Some (Z.of_N (Byte.to_N c) - Z.of_N (Byte.to_N "a") + 10)
  | "A" | "B" | "C" | "D" | "E" | "F" =>
      Some (Z.of_N (Byte.to_N c) - Z.of_N (Byte.to_N "A") + 10)
  | _ => None
  end%byte.

(** [None]: the loop read past the end of the buffer. *)
Fixpoint unhex_loop (s : list byte) (len : nat) (n : Z) {struct len} : option Z :=
  match len with
  | O => Some n
  | S len' =>
      match s with
      | [] => None
      | c :: s' =>
          match unhex_digit c with
          | Some c => unhex_loop s' len' (Z.lor (Z.shiftl n 4) c mod 2 ^ 32)
          | None => Some 4294967295
          end
      end
  end.

Definition unhex (s : list byte) (len : Z) : option Z :=
  unhex_loop s (Z.to_nat len) 0.

Definition prefixes : list string := ["usb:"; "product:"; "model:"; "device:"]%string.

(** The result is the index in [service] of the ':' just before the
    command, if there is one. *)
Definition skip_host_serial (service : list byte) : option nat :=
  match find (fun prefix => has_prefix prefix service) prefixes with
  | Some prefix =>
      let n := length (bytes_of_string prefix) in
      (fun i => n + i)%nat <$> strchr (drop n service) ":"%byte
  | None =>
      let off := if has_prefix "tcp:" service || has_prefix "udp:" service
                 then 4%nat else 0%nat in
      let off :=
        if Byte.eqb (char_at service off) "["%byte then
          match strchr (drop off service) "]"%byte with
          | Some i => (off + i)%nat
          | None => off
          end
        else off in
      match strchr (drop off service) ":"%byte with
      | None => None
      | Some i =>
          let colon_ptr := (off + i)%nat in
          if isdigit (char_at service (colon_ptr + 1)) then
            let serial_end :=
              (colon_ptr + 1 + span_digits (drop (colon_ptr + 1) service))%nat in
            if Byte.eqb (char_at service serial_end) ":"%byte then Some serial_end
            else Some colon_ptr
          else Some colon_ptr
      end
  end.

(** [memcpy(dst + off, src, n)] *)
Definition memcpy (dst : list byte) (off : Z) (src : list byte) (n : Z)
  : option (list byte) :=
  if (0 <=? off) && (0 <=? n) && (off + n <=? Z.of_nat (length dst))
     && (n <=? Z.of_nat (length src))
  then Some (take (Z.to_nat off) dst ++ take (Z.to_nat n) src
               ++ drop (Z.to_nat (off + n)) dst)
  else None.

(** From the label [fail]. *)
Definition smart_socket_fail (s : addr) : M Z :=
  call_close s;;
  ret (-1).

(** The request after the prefix match: where [service] points, if it is
    not null, with [serial] and [type]. *)
Record host_request := {
  hq_service : list byte;
  hq_serial : option (list byte);
  hq_type : TransportType
}.

Definition smart_socket_match_host (p : pref) : M (option host_request) :=
  po <- loadp p;;
  let service := cstr (drop 4 (data po)) in
  if has_prefix "host-serial:" service then
    let service := drop 12 service in
    match skip_host_serial service with
    | Some serial_end =>
        storep p (fun po => set_data (<[(16 + serial_end)%nat := x00]> (data po)) po);;
        ret (Some {| hq_service := drop (S serial_end) service;
                     hq_serial := Some (take serial_end service);
                     hq_type := kTransportAny |})
    | None =>
        ret (Some {| hq_service := service; hq_serial := None;
                     hq_type := kTransportAny |})
    end
  else if has_prefix "host-usb:" service then
    ret (Some {| hq_service := drop 9 service; hq_serial := None;
                 hq_type := kTransportUsb |})
  else if has_prefix "host-local:" service then
    ret (Some {| hq_service := drop 11 service; hq_serial := None;
                 hq_type := kTransportLocal |})
  else if has_prefix "host:" service then
    ret (Some {| hq_service := drop 5 service; hq_serial := None;
                 hq_type := kTransportAny |})
  else ret None.

(** The part of [smart_socket_enqueue] under [if (service)]. *)
Definition smart_socket_host_service (s : addr) (p : pref) (rq : host_request)
  : M Z :=
  q <- peer_of s;;
  qo <- load q;;
  let reply := handle_host_request E (hq_service rq) (hq_type rq) (hq_serial rq)
                 (fd qo) s in
  write_fd (fd qo) (hr_out reply);;
  (match hr_bind reply with
   | Some t => store s (set_transport (Some t))
   | None => ret tt
   end);;
  if hr_status reply =? 0 then smart_socket_fail s
  else if has_prefix "transport" (hq_service rq) then
    storep p (set_len 0);;
    ret 0
  else
    match host_service_to_socket E (hq_service rq) (hq_serial rq) with
    | None =>
        q <- peer_of s;;
        qo <- load q;;
        SendFail (fd qo) (bytes_of_string "unknown host service");;
        smart_socket_fail s
    | Some s2o =>
        s2 <- alloc s2o;;
        q <- peer_of s;;
        qo <- load q;;
        SendOkay (fd qo);;
        q <- peer_of s;;
        store q (set_ready FN_local_socket_ready);;
        q <- peer_of s;;
        store q (set_shutdown None);;
        q <- peer_of s;;
        store q (set_close FN_local_socket_close);;
        q <- peer_of s;;
        store q (set_peer (Some s2));;
        so <- load s;;
        store s2 (set_peer (peer so));;
        store s (set_peer None);;
        call_close s;;
        call_ready s2;;
        ret 0
    end.

(** The part of [smart_socket_enqueue] from the transport checks on. *)
Definition smart_socket_connect (s : addr) (p : pref) : M Z :=
  so <- load s;;
  match transport so with
  | None =>
      q <- peer_of s;;
      qo <- load q;;
      SendFail (fd qo) (bytes_of_string "device offline (no transport)");;
      smart_socket_fail s
  | Some t =>
      match GetConnectionState E t with
      | kCsOffline =>
          q <- peer_of s;;
          qo <- load q;;
          SendFail (fd qo) (bytes_of_string "device offline (transport offline)");;
          smart_socket_fail s
      | kCsOnline =>
          q <- peer_of s;;
          store q (set_ready FN_local_socket_ready_notify);;
          q <- peer_of s;;
          store q (set_shutdown None);;
          q <- peer_of s;;
          store q (set_close FN_local_socket_close_notify);;
          q <- peer_of s;;
          store q (set_peer None);;
          q <- peer_of s;;
          so <- load s;;
          store q (set_transport (transport so));;
          q <- peer_of s;;
          po <- loadp p;;
          connect_to_remote q (cstr (drop 4 (data po)));;
          store s (set_peer None);;
          call_close s;;
          ret 1
      end
  end.

(** The first statement of [smart_socket_enqueue]: [Some p] is the packet
    that holds everything received so far, [None] stands for [goto fail]. *)
Definition smart_socket_accumulate (s : addr) (p : pref) : M (option pref) :=
  so <- load s;;
  match pkt_first so with
  | None =>
      store s (set_pkt_first (Some p));;
      store s (set_pkt_last (Some p));;
      ret (Some p)
  | Some _ =>
      so <- load s;;
      first <- deref (pkt_first so);;
      fo <- loadp first;;
      po <- loadp p;;
      mp <- get_max_payload s;;
      if mp <? len fo + len po then
        put_apacket p;;
        ret None
      else
        d <- deref (memcpy (data fo) (len fo) (data po) (len po));;
        storep first (set_data d);;
        po <- loadp p;;
        storep first (fun fo => set_len (len fo + len po) fo);;
        put_apacket p;;
        so <- load s;;
        ret (pkt_first so)
  end.

(** How the framing part of [smart_socket_enqueue] ends: [return 0] to
    await more bytes, [goto fail], or a complete request of [len] bytes
    in packet [p]. *)
Inductive frame :=
| Frame_wait
| Frame_bad
| Frame_request (p : pref) (len : Z).

(** [smart_socket_enqueue] up to the NUL written behind the request. *)
Definition smart_socket_frame (s : addr) (p : pref) : M frame :=
  acc <- smart_socket_accumulate s p;;
  match acc with
  | None => ret Frame_bad
  | Some p =>
      po <- loadp p;;
      if len po <? 4 then ret Frame_wait
      else
        let p_len := len po in
        len <- deref (unhex (data po) 4);;
        if (len <? 1) || (MAX_PAYLOAD_V1 E <? len) then ret Frame_bad
        else
          if p_len <? (len + 4) mod 2 ^ 32 then ret Frame_wait
          else
            po <- loadp p;;
            (if Z.of_nat (length (data po)) <=? (len + 4) mod 2 ^ 32 then fault
             else storep p (fun po =>
                    set_data (<[Z.to_nat ((len + 4) mod 2 ^ 32) := x00]> (data po)) po));;
            ret (Frame_request p len)
  end.

(** [smart_socket_enqueue] from there on. *)
Definition smart_socket_dispatch (s : addr) (p : pref) : M Z :=
  rq <- (if ADB_HOST E then smart_socket_match_host p else ret None);;
  match rq with
  | Some rq => smart_socket_host_service s p rq
  | None =>
      ok <- (if ADB_HOST E then ret true
             else
               so <- load s;;
               match transport so with
               | Some _ => ret true
               | None =>
                   match acquire_one_transport E kTransportAny with
                   | inl t =>
                       store s (set_transport (Some t));;
                       ret true
                   | inr error_msg =>
                       q <- peer_of s;;
                       qo <- load q;;
                       SendFail (fd qo) error_msg;;
                       ret false
                   end
               end);;
      if ok : bool then smart_socket_connect s p else smart_socket_fail s
  end.

Definition smart_socket_enqueue (s : addr) (p : pref) : M Z :=
  f <- smart_socket_frame s p;;
  match f with
  | Frame_wait => ret 0
  | Frame_bad => smart_socket_fail s
  | Frame_request p _ => smart_socket_dispatch s p
  end.

Definition smart_socket_ready (s : addr) : M unit :=
  ret tt.

Definition smart_socket_close (s : addr) : M unit :=
  so <- load s;;
  (match pkt_first so with
   | Some a => put_apacket a
   | None => ret tt
   end);;
  so <- load s;;
  (match peer so with
   | Some _ =>
       q <- peer_of s;;
       store q (set_peer None);;
       q <- peer_of s;;
       call_close q;;
       store s (set_peer None)
   | None => ret tt
   end);;
  free s.

Definition create_smart_socket : M addr :=
  alloc {| id := 0; closing := false; has_write_error := false;
           exit_on_close := false; peer := None; fde := zero_fde; fd := 0;
           pkt_first := None; pkt_last := None; transport := None;
           enqueue := FN_smart_socket_enqueue; ready := FN_smart_socket_ready;
           shutdown := None; close := FN_smart_socket_close |}.

Definition connect_to_smartsocket (s : addr) : M unit :=
  ss <- create_smart_socket;;
  store s (set_peer (Some ss));;
  store ss (set_peer (Some s));;
  call_ready s.

(** *** [close_all_sockets] *)



End WithCalls.

(** *** Calls through the function pointers *)

Fixpoint ready_dispatch (fuel : nat) (s : addr) : M unit :=
  match fuel with
  | O => out_of_fuel
  | S fuel' =>
      so <- load s;;
      match ready so with
      | FN_local_socket_ready => local_socket_ready s
      | FN_local_socket_ready_notify =>
          local_socket_ready_notify (ready_dispatch fuel') s
      | FN_remote_socket_ready => remote_socket_ready s
      | FN_smart_socket_ready => smart_socket_ready s
      end
  end.

Fixpoint close_dispatch (fuel : nat) (s : addr) : M unit :=
  match fuel with
  | O => out_of_fuel
  | S fuel' =>
      so <- load s;;
      match close so with
      | FN_local_socket_close => local_socket_close (close_dispatch fuel') s
      | FN_local_socket_close_notify =>
          local_socket_close_notify (close_dispatch fuel') s
      | FN_remote_socket_close => remote_socket_close (close_dispatch fuel') s
      | FN_smart_socket_close => smart_socket_close (close_dispatch fuel') s
      end
  end.

(** A close unlinks the peer before it closes it, and the notify variants
    reset the pointers before they call through them: no chain of nested
    calls is longer than this (see [close_dispatch_safe] and
    [ready_dispatch_frame]). *)
Definition call_depth : nat := 4.

(** [s->close(s)], [s->ready(s)] and [s->enqueue(s, p)] *)
Definition asocket_close (s : addr) : M unit := close_dispatch call_depth s.
Definition asocket_ready (s : addr) : M unit := ready_dispatch call_depth s.

Definition asocket_enqueue (s : addr) (p : pref) : M Z :=
  so <- load s;;
  match enqueue so with
  | FN_local_socket_enqueue => local_socket_enqueue asocket_close s p
  | FN_remote_socket_enqueue => remote_socket_enqueue s p
  | FN_smart_socket_enqueue => smart_socket_enqueue asocket_close asocket_ready s p
  end.

End Sockets.

(** ** The fd event handler and the service sockets *)

(** Result of one [adb_read] call as decided by the environment. *)
Inductive read_result :=
| R_bytes (b : byte) (bs : list byte)   (* these bytes are there to be read *)
| R_eof                                 (* returned 0 *)
| R_fail (errno : Z).                   (* returned -1 with this errno *)

(** Collaborators of [local_socket_event_func] and of
    [create_local_service_socket] that are declared outside
    [sockets.cpp]. *)
Record Host := {
  read_oracle : nat -> read_result;
  service_to_fd : list byte -> option tref -> Z;
  getuid : Z;
  __android_log_is_debuggable : bool;
  create_jdwp_service_socket : M (option addr);
  create_jdwp_tracker_service_socket : M (option addr)
}.

Definition set_exit_on_close (v : bool) (s : asocket) : asocket :=
  {| id := id s; closing := closing s; has_write_error := has_write_error s;
     exit_on_close := v; peer := peer s; fde := fde s; fd := fd s;
     pkt_first := pkt_first s; pkt_last := pkt_last s; transport := transport s;
     enqueue := enqueue s; ready := ready s; shutdown := shutdown s; close := close s |}.

(** Modelled from the spec: the event bits of [fdevent.h]. *)
Definition fde_bit (e : fde_event) : Z :=
  match e with
  | FDE_READ => 1
  | FDE_WRITE => 2
  | FDE_ERROR => 4
  end.

(** [ev & FDE_x] *)
Definition has_event (ev : Z) (e : fde_event) : bool :=
  negb (Z.land ev (fde_bit e) =? 0).

(** [strcmp(s1, s2) == 0] on C strings given by their contents. *)
Definition strcmp_eq (s1 : list byte) (lit : string) : bool :=
  strncmp_eq s1 (bytes_of_string lit) (S (length (bytes_of_string lit))).

Section Events.

Variable E : Env.
Variable H : Host.

(** [s->close(s)], [s->ready(s)] and [s->enqueue(s, p)] *)
Variable call_close : addr -> M unit.
Variable call_ready : addr -> M unit.
Variable call_enqueue : addr -> pref -> M Z.

(** [adb_read(fd, x, count)], the [k]-th read of this event: the return
    value, [errno], and the bytes stored at [x]. *)
Definition adb_read (k : nat) (count : Z) : Z * Z * list byte :=
  match read_oracle H k with
  | R_bytes b bs =>
      let got := take (Z.to_nat count) (b :: bs) in
      (Z.of_nat (length got), 0, got)
  | R_eof => (0, 0, [])
  | R_fail e => (-1, e, [])
  end.

(** The inner loop of the [FDE_WRITE] part.  [Some tt]: the handler
    returned from inside the loop; [None]: the loop was left. *)
Fixpoint event_write_packet (fuel : nat) (fd : Z) (s : addr) (p : pref)
  : M (option unit) :=
  match fuel with
  | O => out_of_fuel
  | S fuel' =>
      po <- loadp p;;
      if 0 <? len po then
        res <- adb_write E fd (drop (Z.to_nat (ptr po)) (data po)) (len po);;
        let r := fst res in
        let errno := snd res in
        if (r =? -1) && (errno =? EAGAIN E) then ret (Some tt)
        else if negb (r =? -1) && (0 <? r) then
          storep p (fun po => set_ptr (ptr po + r) po);;
          storep p (fun po => set_len (len po - r) po);;
          event_write_packet fuel' fd s p
        else
          store s (set_has_write_error true);;
          call_close s;;
          ret (Some tt)
      else ret None
  end.

(** The outer loop of the [FDE_WRITE] part.  [true]: the handler
    returned from inside the loop.  Every round writes at least one byte
    of the packet or ends the loop. *)
Fixpoint event_write_queue (fuel : nat) (fd : Z) (s : addr) : M bool :=
  match fuel with
  | O => out_of_fuel
  | S fuel' =>
      so <- load s;;
      match pkt_first so with
      | None => ret false
      | Some p =>
          po <- loadp p;;
          res <- event_write_packet (S (Z.to_nat (len po))) fd s p;;
          match res with
          | Some _ => ret true
          | None =>
              po <- loadp p;;
              (if len po =? 0 then
                 store s (set_pkt_first (next po));;
                 so <- load s;;
                 (if bool_decide (pkt_first so = None)
                  then store s (set_pkt_last None) else ret tt);;
                 put_apacket p
               else ret tt);;
              event_write_queue fuel' fd s
          end
      end
  end.

(** The [FDE_WRITE] part.  [true]: the handler returned.  Every round of
    the outer loop frees a live packet, so one more round than there are
    live packets is enough. *)
Definition event_write (fd : Z) (s : addr) : M bool :=
  w <- get;;
  returned <- event_write_queue (S (size (pkts w))) fd s;;
  if returned : bool then ret true
  else
    so <- load s;;
    if closing so then
      call_close s;;
      ret true
    else
      fdevent_del s FDE_WRITE;;
      q <- peer_of s;;
      call_ready q;;
      ret false.

(** The read loop: the [k]-th read stores its bytes at offset [x] of the
    packet.  The result is [r], [avail] and [is_eof] when the loop is
    left. *)
Fixpoint event_read_loop (fuel : nat) (k : nat) (p : pref) (x avail r : Z)
  : M (Z * Z * bool) :=
  if 0 <? avail then
    match fuel with
    | O => out_of_fuel
    | S fuel' =>
        let '(r, errno, got) := adb_read k avail in
        if r =? -1 then
          if errno =? EAGAIN E then ret (r, avail, false)
          else ret (r, avail, true)
        else if 0 <? r then
          po <- loadp p;;
          d <- deref (memcpy (data po) x got r);;
          storep p (set_data d);;
          event_read_loop fuel' (S k) p (x + r) (avail - r) r
        else ret (r, avail, true)
    end
  else ret (r, avail, false).

(** The [FDE_READ] part.  [true]: the handler returned.  Every round of
    the read loop but the last takes at least one byte off [avail]. *)
Definition event_read (fd : Z) (s : addr) : M bool :=
  p <- get_apacket E;;
  max_payload <- get_max_payload E s;;
  res <- event_read_loop (S (Z.to_nat max_payload)) 0 p 0 max_payload 0;;
  let '(r, avail, is_eof) := res in
  so <- load s;;
  r <- (if (avail =? max_payload) || bool_decide (peer so = None) then
          put_apacket p;;
          ret (Some r)
        else
          storep p (set_len (max_payload - avail));;
          q <- peer_of s;;
          r <- call_enqueue q p;;
          if r <? 0 then ret None
          else
            (if 0 <? r then fdevent_del s FDE_READ else ret tt);;
            ret (Some r));;
  match r with
  | None => ret true
  | Some r =>
      so <- load s;;
      if (force_eof (fde so) && (r =? 0)) || is_eof then
        call_close s;;
        ret true
      else ret false
  end.

Definition local_socket_event_func (fd : Z) (ev : Z) (s : addr) : M unit :=
  returned <- (if has_event ev FDE_WRITE then event_write fd s else ret false);;
  if returned : bool then ret tt
  else
    returned <- (if has_event ev FDE_READ then event_read fd s else ret false);;
    if returned : bool then ret tt
    else if has_event ev FDE_ERROR then ret tt
    else ret tt.

(** [create_local_service_socket]; the two [jdwp] sockets are made
    outside this file. *)
Definition create_local_service_socket (name : list byte) (transport : option tref)
  : M (option addr) :=
  if negb (ADB_HOST E) && strcmp_eq name "jdwp" then create_jdwp_service_socket H
  else if negb (ADB_HOST E) && strcmp_eq name "track-jdwp" then
    create_jdwp_tracker_service_socket H
  else
    let fd := service_to_fd H name transport in
    if fd <? 0 then ret None
    else
      s <- create_local_socket fd;;
      (if negb (ADB_HOST E)
          && ((has_prefix "root:" name && negb (getuid H =? 0)
               && __android_log_is_debuggable H)
              || (has_prefix "unroot:" name && (getuid H =? 0))
              || has_prefix "usb:" name
              || has_prefix "tcpip:" name)
       then store s (set_exit_on_close true)
       else ret tt);;
      ret (Some s).

Definition create_host_service_socket (name : list byte) (serial : option (list byte))
  : M (option addr) :=
  match host_service_to_socket E name serial with
  | Some so => s <- alloc so;; ret (Some s)
  | None => ret None
  end.

End Events.

(** The handler as [fdevent] calls it, with the calls through the
    function pointers resolved. *)
Definition asocket_event (E : Env) (H : Host) (fd : Z) (ev : Z) (s : addr) : M unit :=
  local_socket_event_func E H (asocket_close E) (asocket_ready E) (asocket_enqueue E)
    fd ev s.

(** ** Vocabulary of the statements *)

Arguments set_next _ _ /.
Arguments set_ptr _ _ /.
Arguments set_len _ _ /.
Arguments set_msg _ _ /.
Arguments set_data _ _ /.
Arguments set_command _ _ /.
Arguments set_arg0 _ _ /.
Arguments set_arg1 _ _ /.
Arguments set_data_length _ _ /.
Arguments fde_arm !_ _ _ /.
Arguments fde_armed !_ _ /.
Arguments set_id _ _ /.
Arguments set_closing _ _ /.
Arguments set_has_write_error _ _ /.
Arguments set_peer _ _ /.
Arguments set_fde _ _ /.
Arguments set_pkt_first _ _ /.
Arguments set_pkt_last _ _ /.
Arguments set_transport _ _ /.
Arguments set_ready _ _ /.
Arguments set_shutdown _ _ /.
Arguments set_close _ _ /.
Arguments with_socks _ _ /.
Arguments with_pkts _ _ /.
Arguments with_next_id _ _ /.
Arguments with_list _ _ /.
Arguments with_closing_list _ _ /.
Arguments with_wire _ _ /.
Arguments with_fd_out _ _ /.
Arguments with_fd_closed _ _ /.
Arguments with_io_clock _ _ /.

(** The packets a remote socket emits. *)
Definition wrte_packet (so qo : asocket) (po : apacket) : apacket :=
  set_msg {| msg_command := A_WRTE; arg0 := id qo; arg1 := id so;
             data_length := len po |} po.

Definition control_packet (E : Env) (c : command) (a0 a1 : Z) : apacket :=
  {| next := None; ptr := 0; len := 0;
     msg := {| msg_command := c; arg0 := a0; arg1 := a1; data_length := 0 |};
     data := replicate (Z.to_nat (MAX_PAYLOAD E)) x00 |}.

(** One more packet on the wire. *)
Definition emit (t : option tref) (po : apacket) (w : world) : world :=
  with_wire (wire w ++ [(t, po)]) w.

(** [returns o P]: the run [o] does not exhaust the call depth, and if
    it comes back to the caller, its result and the state it leaves
    satisfy [P].  Undefined behaviour, [fatal] and [exit] do not come
    back. *)
Definition returns {A} (o : outcome A) (P : A -> world -> Prop) : Prop :=
  match o with
  | Ok a w => P a w
  | OutOfFuel => False
  | Exit _ _ | Abort | Fault => True
  end.

(** [chainb ps first l]: following the [next] links from [first] visits
    exactly the packets [l], all of them live, and ends in a null link. *)
Fixpoint chainb (ps : gmap positive apacket) (first : option pref) (l : list pref)
  : bool :=
  match l, first with
  | [], None => true
  | a :: l', Some b =>
      Pos.eqb a b &&
      match ps !! a with
      | Some po => chainb ps (next po) l'
      | None => false
      end
  | _, _ => false
  end.

(** The packets [l] returned to the allocator, head first. *)
Definition discard (l : list pref) (ps : gmap positive apacket)
  : gmap positive apacket :=
  foldl (fun m a => delete a m) ps l.

(** The world after [local_socket_destroy] of [s], whose queue was [l]. *)
Definition destroyed (s : addr) (so : asocket) (l : list pref) (w : world) : world :=
  {| socks := delete s (socks w);
     pkts := discard l (pkts w);
     local_socket_next_id := local_socket_next_id w;
     local_socket_list := unlink s (local_socket_list w);
     local_socket_closing_list := unlink s (local_socket_closing_list w);
     wire := wire w;
     fd_out := fd_out w;
     fd_closed := fd_closed w ++ [fde_fd (fde so)];
     io_clock := io_clock w |}.

(** The record of a socket whose close has been deferred. *)
Definition draining (linked : bool) (so : asocket) : asocket :=
  set_id (if linked then 0 else id so)
    (set_fde (fde_arm FDE_READ false (fde so)) (set_closing true so)).

(** The world after the deferred close of [s]. *)
Definition deferred (s : addr) (so : asocket) (w : world) : world :=
  {| socks := <[s := draining (linked s w) so]> (socks w);
     pkts := pkts w;
     local_socket_next_id := local_socket_next_id w;
     local_socket_list := unlink s (local_socket_list w);
     local_socket_closing_list := unlink s (local_socket_closing_list w) ++ [s];
     wire := wire w;
     fd_out := fd_out w;
     fd_closed := fd_closed w;
     io_clock := io_clock w |}.

(** The test of [local_socket_close] for immediate destruction. *)
Definition destroy_now (so : asocket) : bool :=
  closing so || has_write_error so || bool_decide (pkt_first so = None).

(** How [local_socket_close] ends for a socket [so] without peer. *)
Definition close_finish (s : addr) (so : asocket) (l : list pref) (w : world)
  : outcome unit :=
  if destroy_now so then
    if exit_on_close so then Exit 1 (destroyed s so l w)
    else Ok tt (destroyed s so l w)
  else if st_write (fde so) then Ok tt (deferred s so w)
  else Abort.

(** Modelled from the spec: a hex digit is one of [[0-9a-fA-F]]. *)
Definition is_xdigit (c : byte) : bool :=
  let n := Z.of_N (Byte.to_N c) in
  ((48 <=? n) && (n <=? 57)) || ((97 <=? n) && (n <=? 102))
  || ((65 <=? n) && (n <=? 70)).

(** The value [get_max_payload] computes for a socket with record [so]. *)
Definition max_payload_of (E : Env) (w : world) (so : asocket) : Z :=
  let m := match transport so with
           | Some t => Z.min (MAX_PAYLOAD E) (transport_max_payload E t)
           | None => MAX_PAYLOAD E
           end in
  match peer so with
  | Some q =>
      match socks w !! q with
      | Some qo =>
          match transport qo with
          | Some t => Z.min m (transport_max_payload E t)
          | None => m
          end
      | None => m
      end
  | None => m
  end.

(** The checks of [smart_socket_enqueue] on the packet [p], with record
    [po], that holds what has been received so far. *)
Definition frame_verdict (E : Env) (p : pref) (po : apacket) (w : world)
  : outcome frame :=
  if len po <? 4 then Ok Frame_wait w
  else
    match unhex (data po) 4 with
    | None => Fault
    | Some n =>
        if (n <? 1) || (MAX_PAYLOAD_V1 E <? n) then Ok Frame_bad w
        else if len po <? (n + 4) mod 2 ^ 32 then Ok Frame_wait w
        else if Z.of_nat (length (data po)) <=? (n + 4) mod 2 ^ 32 then Fault
        else Ok (Frame_request p n)
               (with_pkts (<[p := set_data (<[Z.to_nat ((n + 4) mod 2 ^ 32) := x00]>
                                        (data po)) po]>
                             (pkts w)) w)
    end.

(** The record of a local socket after one of the notify variants has
    put the plain functions back. *)
Definition notified (so : asocket) : asocket :=
  set_close FN_local_socket_close
    (set_shutdown None (set_ready FN_local_socket_ready so)).

(** The reply written by [local_socket_close_notify]. *)
Definition fail_closed : list byte :=
  bytes_of_string "FAIL" ++ hex4 6 ++ bytes_of_string "closed".

(** How [q->close(q)] ends for a socket [qo] that has no peer and whose
    queue is [l]. *)
Definition close_peerless (q : addr) (qo : asocket) (l : list pref) (w : world)
  : outcome unit :=
  match close qo with
  | FN_local_socket_close => close_finish q qo l w
  | FN_local_socket_close_notify =>
      close_finish q (notified qo) l
        (with_fd_out (fd_out w ++ [(fd qo, fail_closed)])
           (with_socks (<[q := notified qo]> (socks w)) w))
  | FN_remote_socket_close => Ok tt (with_socks (delete q (socks w)) w)
  | FN_smart_socket_close =>
      Ok tt (with_socks (delete q (socks w))
               (with_pkts (match pkt_first qo with
                           | Some a => delete a (pkts w)
                           | None => pkts w
                           end) w))
  end.

(** The packet heap after a smart socket has discarded its buffer. *)
Definition unqueue (first : option pref) (ps : gmap positive apacket)
  : gmap positive apacket :=
  match first with
  | Some a => delete a ps
  | None => ps
  end.

(** [s] is freed once the call [o] it made has returned. *)
Definition then_freed (s : addr) (o : outcome unit) : outcome unit :=
  match o with
  | Ok _ w => Ok tt (with_socks (delete s (socks w)) w)
  | o => o
  end.

(** The CLSE packet a remote socket [qo] sends from [shutdown]. *)
Definition clse_packet (E : Env) (w : world) (qo : asocket) : apacket :=
  control_packet E A_CLSE
    (match peer qo with
     | Some x => match socks w !! x with Some xo => id xo | None => 0 end
     | None => 0
     end) (id qo).

(** Step 1 of the pair teardown, in the order of the spec: with the peer
    [q] of [s] present, first [q->shutdown(q)] if defined, while [q] still
    points back; then the back-reference of [q] is nulled; then
    [q->close(q)], which leaves the world [w3]. *)
Definition peer_torn_down (E : Env) (cc : addr -> M unit) (w : world) (s : addr)
    (so : asocket) (w3 : world) : Prop :=
  match peer so with
  | None => w3 = w
  | Some q =>
      q ≠ s /\
      exists qo w1,
        socks w !! q = Some qo
        /\ match shutdown qo with
           | Some f => call_shutdown E f q w = Ok tt w1
           | None => w1 = w
           end
        /\ cc q (with_socks (<[q := set_peer None qo]> (socks w1)) w1) = Ok tt w3
  end.

(** The world after a smart socket [s] has failed a request: its buffer
    is discarded, its local peer [q] (queue [lq]) is unlinked from it and
    closed, and [s] is freed. *)
Definition smart_failed (s : addr) (so : asocket) (q : addr) (qo : asocket)
    (lq : list pref) (w : world) : world :=
  let w2 := with_socks (<[q := set_peer None qo]> (socks w))
              (with_pkts (unqueue (pkt_first so) (pkts w)) w) in
  let w3 := if destroy_now qo then destroyed q (set_peer None qo) lq w2
            else deferred q (set_peer None qo) w2 in
  with_socks (delete s (socks w3)) w3.

(** A smart socket [s] paired with a plain local socket [q] whose queue
    is [lq], as [connect_to_smartsocket] leaves them. *)
Definition smart_pair_ok (w : world) (s : addr) (so : asocket) (q : addr)
    (qo : asocket) (lq : list pref) : Prop :=
  socks w !! s = Some so /\ close so = FN_smart_socket_close
  /\ peer so = Some q /\ q ≠ s
  /\ socks w !! q = Some qo /\ close qo = FN_local_socket_close
  /\ exit_on_close qo = false
  /\ (destroy_now qo = false -> st_write (fde qo) = true)
  /\ chainb (pkts w) (pkt_first qo) lq = true.

(** Appending the packet [po] to what the smart socket holds would exceed
    [max_payload]. *)
Definition overflows (E : Env) (w : world) (so : asocket) (po : apacket) : bool :=
  match pkt_first so with
  | Some first =>
      match pkts w !! first with
      | Some fo => max_payload_of E w so <? len fo + len po
      | None => false
      end
  | None => false
  end.

(** The record of the packet that holds everything received once [po]
    has been taken in. *)
Definition accumulated (w : world) (so : asocket) (po : apacket) : option apacket :=
  match pkt_first so with
  | Some first =>
      match pkts w !! first with
      | Some fo =>
          match memcpy (data fo) (len fo) (data po) (len po) with
          | Some d => Some (set_len (len fo + len po) (set_data d fo))
          | None => None
          end
      | None => None
      end
  | None => Some po
  end.

(** The framed request ["000Chost:version"]. *)
Definition version_request : list byte :=
  bytes_of_string "000C" ++ bytes_of_string "host:version".

(** The world after [n] calls of [adb_write] on [fd] that accepted the
    byte strings [chunks]. *)
Definition written (fd : Z) (chunks : list (list byte)) (n : nat) (w : world)
  : world :=
  with_io_clock (io_clock w + n)%nat
    (with_fd_out (fd_out w ++ map (pair fd) chunks) w).

(** The error path of [local_socket_enqueue], after the failed write. *)
Definition local_socket_enqueue_failed (cc : addr -> M unit) (s : addr) (p : pref)
  : M (option Z) :=
  bind (put_apacket p) (fun _ =>
  bind (store s (set_has_write_error true)) (fun _ =>
  bind (cc s) (fun _ => ret (Some 1)))).

(** The world after the write loop of [local_socket_enqueue] has put [k]
    bytes of packet [p] on the fd in [chunks], and asked [stop] more
    times in vain. *)
Definition drained (fd : Z) (p : pref) (po : apacket) (k : Z)
    (chunks : list (list byte)) (stop : nat) (w : world) : world :=
  with_pkts (<[p := set_ptr (ptr po + k) (set_len (len po - k) po)]> (pkts w))
    (written fd chunks (length chunks + stop) w).

(** The closing list holds live sockets that are marked [closing], carry
    id 0 and are not on the main list. *)
Definition closing_list_ok (w : world) : Prop :=
  forall s, s ∈ local_socket_closing_list w ->
    (s ∉ local_socket_list w)
    /\ exists so, socks w !! s = Some so /\ id so = 0 /\ closing so = true.

(** A smart socket holds at most one packet: the queue head is also the
    queue tail, it is live and nothing follows it. *)
Definition smart_queue_ok (w : world) (so : asocket) : Prop :=
  match pkt_first so with
  | None => True
  | Some a =>
      pkt_last so = Some a /\ exists po, pkts w !! a = Some po /\ next po = None
  end.

(** The four ways in which [smart_socket_enqueue] returns, for the smart
    socket [s] that holds its bytes in packet [a] and is paired with the
    local socket [q] (record [qo], main list [main] at entry):
    - 0, still parsing: [s] lives on with [a] as its only packet, [q] is
      untouched;
    - -1, failed: [s] and [a] are freed and [q] has been closed as well;
    - 0, bound to a host service: [s] and [a] are freed, [q] lives on as a
      plain local socket paired with the service socket;
    - 1, forwarded to the remote side: [s] and [a] are freed, [q] lives
      on, unpaired, with the notify functions installed. *)
Definition enqueue_outcome (main : list addr) (s q : addr) (qo : asocket)
    (a : pref) (r : Z) (w' : world) : Prop :=
  (r = 0
   /\ (exists so' po',
          socks w' !! s = Some so' /\ pkt_first so' = Some a
          /\ pkt_last so' = Some a /\ pkts w' !! a = Some po' /\ next po' = None)
   /\ socks w' !! q = Some qo /\ local_socket_list w' = main)
  \/ (r = -1
      /\ socks w' !! s = None /\ pkts w' !! a = None
      /\ (q ∉ local_socket_list w')
      /\ (socks w' !! q = None
          \/ exists qo', socks w' !! q = Some qo' /\ closing qo' = true
                         /\ peer qo' = None))
  \/ (r = 0
      /\ socks w' !! s = None /\ pkts w' !! a = None
      /\ local_socket_list w' = main
      /\ exists qo' s2 s2o,
          socks w' !! q = Some qo' /\ peer qo' = Some s2 /\ s2 ≠ s
          /\ closing qo' = closing qo /\ close qo' = FN_local_socket_close
          /\ socks w' !! s2 = Some s2o /\ peer s2o = Some q)
  \/ (r = 1
      /\ socks w' !! s = None /\ pkts w' !! a = None
      /\ local_socket_list w' = main
      /\ exists qo',
          socks w' !! q = Some qo' /\ peer qo' = None
          /\ closing qo' = closing qo
          /\ close qo' = FN_local_socket_close_notify
          /\ ready qo' = FN_local_socket_ready_notify).

(** No write to an fd fails: each one takes some bytes or would block. *)
Definition write_never_fails (E : Env) : Prop :=
  forall i,
    match write_oracle E i with
    | W_bytes _ => True
    | W_zero => False
    | W_error e => e = EAGAIN E
    end.

(** The return convention in the words of the specification: an enqueue
    call that frees the socket it is made on returns a negative value. *)
Definition self_close_returns_negative (E : Env) : Prop :=
  forall s p w r w',
    is_Some (socks w !! s) ->
    asocket_enqueue E s p w = Ok r w' ->
    socks w' !! s = None -> r < 0.








(** ** Vocabulary for the rest of the file *)

Arguments set_exit_on_close _ _ /.

(** The value of a hex digit, upper or lower case. *)
Definition xdigit_value (c : byte) : Z :=
  let n := Z.of_N (Byte.to_N c) in
  if (48 <=? n) && (n <=? 57) then n - 48
  else if (97 <=? n) && (n <=? 102) then n - 87
  else if (65 <=? n) && (n <=? 70) then n - 55
  else 0.

(** The number a string of hex digits denotes, most significant digit
    first. *)
Definition hex_value (l : list byte) : Z :=
  fold_left (fun a c => 16 * a + xdigit_value c) l 0.

(** The ids handed out by [install_local_socket]: the next id is not 0,
    the main list holds no socket twice, and every socket on it is live
    with an id that is not 0, lies below the next id and is not shared
    with another socket of the list. *)
Definition ids_ok (w : world) : Prop :=
  0 < local_socket_next_id w < 2 ^ 32
  /\ NoDup (local_socket_list w)
  /\ (forall s, s ∈ local_socket_list w ->
        exists so, socks w !! s = Some so /\ 0 < id so < local_socket_next_id w)
  /\ (forall s1 s2 so1 so2,
        s1 ∈ local_socket_list w -> s2 ∈ local_socket_list w ->
        socks w !! s1 = Some so1 -> socks w !! s2 = Some so2 ->
        id so1 = id so2 -> s1 = s2).

(** The OPEN packet that [connect_to_remote] sends for the socket with
    id [local_id]: the destination and its terminator at the start of
    the buffer of a fresh packet, counted in [data_length]. *)
Definition open_packet (E : Env) (local_id : Z) (destination : list byte) : apacket :=
  {| next := None; ptr := 0; len := 0;
     msg := {| msg_command := A_OPEN; arg0 := local_id; arg1 := 0;
               data_length := Z.of_nat (length destination) + 1 |};
     data := destination ++ x00 ::
             replicate (Z.to_nat (MAX_PAYLOAD E) - S (length destination)) x00 |}.

(** The bytes of a queued packet that are still to be written. *)
Definition pending (po : apacket) : list byte :=
  take (Z.to_nat (len po)) (drop (Z.to_nat (ptr po)) (data po)).

(** The cursor of a queued packet lies within its buffer. *)
Definition cursor_ok (po : apacket) : Prop :=
  0 <= ptr po /\ 0 <= len po /\ ptr po + len po <= Z.of_nat (length (data po)).

(** The bytes that the queue [l] holds, in the order of the queue. *)
Definition backlog (ps : gmap positive apacket) (l : list pref) : list byte :=
  concat (map (fun a => match ps !! a with
                        | Some po => pending po
                        | None => []
                        end) l).

(** The packet [po] after [k] more of its bytes have been written. *)
Definition advanced (k : Z) (po : apacket) : apacket :=
  set_len (len po - k) (set_ptr (ptr po + k) po).

(** The reads of one event, from the [k]-th on, deliver the byte strings
    [chunks], none of them empty. *)
Fixpoint reads (H : Host) (k : nat) (chunks : list (list byte)) : Prop :=
  match chunks with
  | [] => True
  | c :: cs =>
      (exists b bs, c = b :: bs /\ read_oracle H k = R_bytes b bs)
      /\ reads H (S k) cs
  end.

(** The read after those would block. *)
Definition read_blocks (E : Env) (H : Host) (k : nat) : Prop :=
  read_oracle H k = R_fail (EAGAIN E).

(** The read after those reports the end of the input, or an error. *)
Definition read_ends (E : Env) (H : Host) (k : nat) : Prop :=
  read_oracle H k = R_eof
  \/ exists e, read_oracle H k = R_fail e /\ e <> EAGAIN E.

(** The packet in which the handler has collected the bytes [got]. *)
Definition read_packet (E : Env) (got : list byte) : apacket :=
  {| next := None; ptr := 0; len := Z.of_nat (length got);
     msg := {| msg_command := A_NONE; arg0 := 0; arg1 := 0; data_length := 0 |};
     data := got ++ replicate (Z.to_nat (MAX_PAYLOAD E) - length got) x00 |}.

(** ** Concrete scenarios *)

Module Scenario.

Definition header0 : amessage :=
  {| msg_command := A_NONE; arg0 := 0; arg1 := 0; data_length := 0 |}.

(** A packet holding the text [s] in a buffer of [cap] bytes. *)
Definition packet_of (s : string) (cap : nat) : apacket :=
  {| next := None; ptr := 0; len := Z.of_nat (String.length s); msg := header0;
     data := bytes_of_string s ++ replicate (cap - String.length s) x00 |}.

(** The host build: [handle_host_request] answers ["version"] itself and
    declines everything else; no host service is known. *)
Definition host_env : Env :=
  {| MAX_PAYLOAD := 64; MAX_PAYLOAD_V1 := 32; ADB_HOST := true; EAGAIN := 11;
     write_oracle := fun _ => W_error 11;
     transport_max_payload := fun _ => 64;
     GetConnectionState := fun _ => kCsOnline;
     handle_host_request := fun service _ _ _ _ =>
       if has_prefix "version" service
       then {| hr_status := 0; hr_bind := None;
               hr_out := bytes_of_string "OKAY00040029" |}
       else {| hr_status := -1; hr_bind := None; hr_out := [] |};
     host_service_to_socket := fun _ _ => None;
     acquire_one_transport := fun _ => inr (bytes_of_string "no devices/emulators found") |}.

(** The device build, with one online transport. *)
Definition device_env : Env :=
  {| MAX_PAYLOAD := 64; MAX_PAYLOAD_V1 := 32; ADB_HOST := false; EAGAIN := 11;
     write_oracle := fun n => match n with O => W_bytes 3 | _ => W_error 11 end;
     transport_max_payload := fun _ => 64;
     GetConnectionState := fun _ => kCsOnline;
     handle_host_request := fun _ _ _ _ _ =>
       {| hr_status := -1; hr_bind := None; hr_out := [] |};
     host_service_to_socket := fun _ _ => None;
     acquire_one_transport := fun _ => inl 7%positive |}.

(** A local socket on fd 10, registered with id 1, read-armed. *)
Definition local1 (q : option addr) : asocket :=
  {| id := 1; closing := false; has_write_error := false; exit_on_close := false;
     peer := q;
     fde := {| fde_fd := 10; st_read := true; st_write := false; st_error := false;
               force_eof := false |};
     fd := 10; pkt_first := None; pkt_last := None; transport := None;
     enqueue := FN_local_socket_enqueue; ready := FN_local_socket_ready;
     shutdown := None; close := FN_local_socket_close |}.

Definition smart2 (q : option addr) : asocket :=
  {| id := 0; closing := false; has_write_error := false; exit_on_close := false;
     peer := q; fde := zero_fde; fd := 0; pkt_first := None; pkt_last := None;
     transport := None;
     enqueue := FN_smart_socket_enqueue; ready := FN_smart_socket_ready;
     shutdown := None; close := FN_smart_socket_close |}.

(** A remote socket with the far side's id 5 on transport 7. *)
Definition remote3 (q : option addr) : asocket :=
  {| id := 5; closing := false; has_write_error := false; exit_on_close := false;
     peer := q; fde := zero_fde; fd := 0; pkt_first := None; pkt_last := None;
     transport := Some 7%positive;
     enqueue := FN_remote_socket_enqueue; ready := FN_remote_socket_ready;
     shutdown := Some FN_remote_socket_shutdown; close := FN_remote_socket_close |}.

Definition world_of (ss : gmap positive asocket) (ps : gmap positive apacket)
    (main : list addr) : world :=
  {| socks := ss; pkts := ps; local_socket_next_id := 2;
     local_socket_list := main; local_socket_closing_list := [];
     wire := []; fd_out := []; fd_closed := []; io_clock := 0 |}.

(** Local socket 1 paired with smart socket 2 (the state after
    [connect_to_smartsocket]); packet 100 is about to be enqueued. *)
Definition smart_pair (request : string) : world :=
  world_of {[ 1%positive := local1 (Some 2%positive);
              2%positive := smart2 (Some 1%positive) ]}
           {[ 100%positive := packet_of request 64 ]}
           [1%positive].

(** Local socket 1 paired with remote socket 3; packet 100 holds data. *)
Definition remote_pair (payload : string) : world :=
  world_of {[ 1%positive := local1 (Some 3%positive);
              3%positive := remote3 (Some 1%positive) ]}
           {[ 100%positive := packet_of payload 64 ]}
           [1%positive].

(** Local socket 1 with packet 100 still queued for its fd, paired with
    remote socket 3. *)
Definition local1_backlog (q : option addr) : asocket :=
  set_fde (fde_arm FDE_WRITE true (fde (local1 q)))
    (set_pkt_last (Some 100%positive) (set_pkt_first (Some 100%positive) (local1 q))).

Definition backlog_pair : world :=
  world_of {[ 1%positive := local1_backlog (Some 3%positive);
              3%positive := remote3 (Some 1%positive) ]}
           {[ 100%positive := packet_of "data" 64 ]}
           [1%positive].

(** The same after the remote socket has sent its CLSE and is gone. *)
Definition backlog_alone : world :=
  emit (Some 7%positive) (control_packet device_env A_CLSE 1 5)
    (world_of {[ 1%positive := local1_backlog (Some 3%positive) ]}
              {[ 100%positive := packet_of "data" 64 ]}
              [1%positive]).

(** The smart socket has taken in ["0010"] (packet 100) and packet 101
    brings the next bytes. *)
Definition smart2_partial (q : option addr) : asocket :=
  set_pkt_last (Some 100%positive) (set_pkt_first (Some 100%positive) (smart2 q)).

Definition smart_pair_partial : world :=
  world_of {[ 1%positive := local1 (Some 2%positive);
              2%positive := smart2_partial (Some 1%positive) ]}
           {[ 100%positive := packet_of "0010" 64;
              101%positive := packet_of "host:" 64 ]}
           [1%positive].

(** A build whose fd has been closed by the other side: every write
    fails with [EPIPE]. *)
Definition broken_pipe_env : Env :=
  {| MAX_PAYLOAD := 64; MAX_PAYLOAD_V1 := 32; ADB_HOST := false; EAGAIN := 11;
     write_oracle := fun _ => W_error 32;
     transport_max_payload := fun _ => 64;
     GetConnectionState := fun _ => kCsOnline;
     handle_host_request := fun _ _ _ _ _ =>
       {| hr_status := -1; hr_bind := None; hr_out := [] |};
     host_service_to_socket := fun _ _ => None;
     acquire_one_transport := fun _ => inl 7%positive |}.

(** A build whose fd takes every write whole. *)
Definition fast_env : Env :=
  {| MAX_PAYLOAD := 64; MAX_PAYLOAD_V1 := 32; ADB_HOST := false; EAGAIN := 11;
     write_oracle := fun _ => W_bytes 4096;
     transport_max_payload := fun _ => 64;
     GetConnectionState := fun _ => kCsOnline;
     handle_host_request := fun _ _ _ _ _ =>
       {| hr_status := -1; hr_bind := None; hr_out := [] |};
     host_service_to_socket := fun _ _ => None;
     acquire_one_transport := fun _ => inl 7%positive |}.

(** Local socket 1 alone, with packet 100 about to be written to it. *)
Definition local_alone (payload : string) : world :=
  world_of {[ 1%positive := local1 None ]}
           {[ 100%positive := packet_of payload 64 ]}
           [1%positive].

End Scenario.

(** ** More scenarios *)

Module Scenario2.

(** A host build whose [handle_host_request] takes the transport
    requests: it binds transport 7 and answers OKAY. *)
Definition switch_env : Env :=
  {| MAX_PAYLOAD := 64; MAX_PAYLOAD_V1 := 32; ADB_HOST := true; EAGAIN := 11;
     write_oracle := fun _ => W_error 11;
     transport_max_payload := fun _ => 64;
     GetConnectionState := fun _ => kCsOnline;
     handle_host_request := fun service _ _ _ _ =>
       if has_prefix "transport" service
       then {| hr_status := 1; hr_bind := Some 7%positive;
               hr_out := bytes_of_string "OKAY" |}
       else {| hr_status := -1; hr_bind := None; hr_out := [] |};
     host_service_to_socket := fun _ _ => None;
     acquire_one_transport := fun _ => inr (bytes_of_string "no devices/emulators found") |}.

(** Local socket 1 paired with smart socket 2; the packets 100 and 101
    bring one request each. *)
Definition two_requests (first second : string) : world :=
  Scenario.world_of
    {[ 1%positive := Scenario.local1 (Some 2%positive);
       2%positive := Scenario.smart2 (Some 1%positive) ]}
    {[ 100%positive := Scenario.packet_of first 64;
       101%positive := Scenario.packet_of second 64 ]}
    [1%positive].

(** Local socket 1 once its request has been forwarded on transport 7:
    it has no peer and carries the notify variants. *)
Definition awaiting1 : asocket :=
  set_transport (Some 7%positive)
    (set_close FN_local_socket_close_notify
       (set_ready FN_local_socket_ready_notify (Scenario.local1 None))).

Definition awaiting : world :=
  Scenario.world_of {[ 1%positive := awaiting1 ]} ∅ [1%positive].

(** The collaborators of the fd event handler.  The fd delivers the
    bytes of [input] to the first read; further reads end as [after]
    says. *)
Definition host_reading (input : string) (after : read_result) : Host :=
  {| read_oracle := fun k =>
       match k, bytes_of_string input with
       | O, b :: bs => R_bytes b bs
       | _, _ => after
       end;
     service_to_fd := fun _ _ => 12;
     getuid := 2000;
     __android_log_is_debuggable := false;
     create_jdwp_service_socket := ret None;
     create_jdwp_tracker_service_socket := ret None |}.

(** A second local socket, on fd 11, registered with id 2. *)
Definition local4 (q : option addr) : asocket :=
  {| id := 2; closing := false; has_write_error := false; exit_on_close := false;
     peer := q;
     fde := {| fde_fd := 11; st_read := true; st_write := false; st_error := false;
               force_eof := false |};
     fd := 11; pkt_first := None; pkt_last := None; transport := None;
     enqueue := FN_local_socket_enqueue; ready := FN_local_socket_ready;
     shutdown := None; close := FN_local_socket_close |}.

(** Two local sockets paired with each other, as a client's socket and
    the socket of a host service are. *)
Definition local_pair : world :=
  {| socks := {[ 1%positive := Scenario.local1 (Some 4%positive);
                 4%positive := local4 (Some 1%positive) ]};
     pkts := ∅; local_socket_next_id := 3;
     local_socket_list := [1%positive; 4%positive];
     local_socket_closing_list := [];
     wire := []; fd_out := []; fd_closed := []; io_clock := 0 |}.

End Scenario2.

(** ** Running the monad *)

Local Open Scope adb_scope.

Lemma bind_ok {A B} (m : M A) (k : A -> M B) w a w1 :
  m w = Ok a w1 -> bind m k w = k a w1.
Proof. intros H. unfold bind. now rewrite H. Qed.

Lemma bind_assoc {A B C} (m : M A) (f : A -> M B) (g : B -> M C) w :
  bind (bind m f) g w = bind m (fun x => bind (f x) g) w.
Proof. unfold bind. destruct (m w); reflexivity. Qed.

Lemma load_ok w s so : socks w !! s = Some so -> load s w = Ok so w.
Proof. intros H. unfold load. now rewrite H. Qed.

Lemma store_ok w s so f :
  socks w !! s = Some so -> store s f w = Ok tt (with_socks (<[s := f so]> (socks w)) w).
Proof. intros H. unfold store. now rewrite H. Qed.

Lemma loadp_ok w p po : pkts w !! p = Some po -> loadp p w = Ok po w.
Proof. intros H. unfold loadp. now rewrite H. Qed.

Lemma storep_ok w p po f :
  pkts w !! p = Some po -> storep p f w = Ok tt (with_pkts (<[p := f po]> (pkts w)) w).
Proof. intros H. unfold storep. now rewrite H. Qed.

Lemma free_ok w s so :
  socks w !! s = Some so -> free s w = Ok tt (with_socks (delete s (socks w)) w).
Proof. intros H. unfold free. now rewrite H. Qed.

Lemma put_apacket_ok w p po :
  pkts w !! p = Some po -> put_apacket p w = Ok tt (with_pkts (delete p (pkts w)) w).
Proof. intros H. unfold put_apacket. now rewrite H. Qed.

Lemma peer_of_ok w s so q :
  socks w !! s = Some so -> peer so = Some q -> peer_of s w = Ok q w.
Proof. intros H Hq. unfold peer_of, bind, load. rewrite H, Hq. reflexivity. Qed.

Lemma send_packet_ok w p po t :
  pkts w !! p = Some po ->
  send_packet p t w = Ok tt (with_wire (wire w ++ [(t, po)]) (with_pkts (delete p (pkts w)) w)).
Proof. intros H. unfold send_packet, bind, loadp. rewrite H. reflexivity. Qed.

Lemma fresh_key_None {V} (m : gmap positive V) : m !! fresh_key m = None.
Proof. apply not_elem_of_dom. unfold fresh_key. apply is_fresh. Qed.

Lemma get_apacket_ok E w :
  get_apacket E w =
    Ok (fresh_key (pkts w))
       (with_pkts (<[fresh_key (pkts w) := control_packet E A_NONE 0 0]> (pkts w)) w).
Proof. reflexivity. Qed.

Ltac wsimpl :=
  cbn [socks pkts local_socket_next_id local_socket_list local_socket_closing_list
       wire fd_out fd_closed io_clock
       with_socks with_pkts with_next_id with_list with_closing_list with_wire
       with_fd_out with_fd_closed with_io_clock emit].

Ltac rsimpl :=
  cbn [next ptr len msg data msg_command arg0 arg1 data_length
       set_next set_ptr set_len set_msg set_data
       set_command set_arg0 set_arg1 set_data_length
       fde_fd st_read st_write st_error force_eof fde_armed fde_arm
       id closing has_write_error exit_on_close peer fde fd pkt_first pkt_last
       transport enqueue ready shutdown close
       set_id set_closing set_has_write_error set_peer set_fde set_pkt_first
       set_pkt_last set_transport set_ready set_shutdown set_close
       control_packet wrte_packet].

Ltac msimpl := wsimpl; rsimpl; rewrite ?insert_insert_eq.

Ltac lookup_tac :=
  wsimpl;
  repeat first
    [ eassumption
    | rewrite lookup_insert_eq
    | rewrite lookup_insert_ne by congruence
    | rewrite lookup_delete_ne by congruence
    | reflexivity ].

(** Extended below with the equations of compound statements. *)
Ltac call_ok := fail.

Ltac heap_ok :=
  first
    [ apply load_ok; lookup_tac
    | eapply store_ok; lookup_tac
    | apply loadp_ok; lookup_tac
    | eapply storep_ok; lookup_tac
    | eapply free_ok; lookup_tac
    | eapply put_apacket_ok; lookup_tac
    | eapply peer_of_ok; [ lookup_tac | cbn; eassumption || reflexivity ]
    | eapply send_packet_ok; lookup_tac
    | apply get_apacket_ok
    | call_ok ].

Ltac prim_ok := first [ heap_ok | reflexivity ].

(** One statement of a function body. *)
Ltac mstep :=
  first
    [ rewrite bind_assoc
    | erewrite bind_ok; [ | solve [ prim_ok ] ]; cbv beta; msimpl ].

(** The last statement of a function body. *)
Ltac mfin :=
  match goal with
  | |- ?m ?w = _ =>
      let H := fresh in
      eassert (H : m w = _) by (solve [ heap_ok ]);
      rewrite H; clear H; msimpl
  | |- ?m ?w = _ -> _ =>
      let H := fresh in
      eassert (H : m w = _) by (solve [ heap_ok ]);
      rewrite H; clear H; msimpl
  | |- returns (?m ?w) _ =>
      let H := fresh in
      eassert (H : m w = _) by (solve [ heap_ok ]);
      rewrite H; clear H; msimpl; cbn [returns]
  end.

(** ** Remote sockets *)

Lemma remote_socket_enqueue_ok w s so q qo p po :
  socks w !! s = Some so -> peer so = Some q -> socks w !! q = Some qo ->
  pkts w !! p = Some po -> 0 <= len po < 2 ^ 32 ->
  remote_socket_enqueue s p w =
    Ok 1 (emit (transport so) (wrte_packet so qo po) (with_pkts (delete p (pkts w)) w)).
Proof.
  intros Hs Hp Hq Hpk Hlen.
  unfold remote_socket_enqueue.
  repeat mstep.
  unfold ret. rewrite Z.mod_small by lia. rewrite delete_insert_eq.
  reflexivity.
Qed.

Lemma remote_socket_ready_ok E w s so q qo :
  socks w !! s = Some so -> peer so = Some q -> socks w !! q = Some qo ->
  remote_socket_ready E s w =
    Ok tt (emit (transport so) (control_packet E A_OKAY (id qo) (id so)) w).
Proof.
  intros Hs Hp Hq.
  unfold remote_socket_ready.
  repeat mstep. mfin.
  rewrite delete_insert_eq, delete_id by apply fresh_key_None.
  destruct w; reflexivity.
Qed.

Lemma remote_socket_shutdown_ok E w s so :
  socks w !! s = Some so ->
  (forall q, peer so = Some q -> is_Some (socks w !! q)) ->
  remote_socket_shutdown E s w =
    Ok tt (emit (transport so)
             (control_packet E A_CLSE
                (match peer so with
                 | Some q => match socks w !! q with Some qo => id qo | None => 0 end
                 | None => 0
                 end) (id so)) w).
Proof.
  intros Hs Hq.
  unfold remote_socket_shutdown.
  repeat mstep.
  destruct (peer so) as [q|] eqn:Hp.
  - destruct (Hq q eq_refl) as [qo Hqo]. rewrite Hqo.
    repeat mstep. mfin.
    rewrite delete_insert_eq, delete_id by apply fresh_key_None.
    destruct w; reflexivity.
  - repeat mstep. mfin.
    rewrite delete_insert_eq, delete_id by apply fresh_key_None.
    destruct w; reflexivity.
Qed.


(** ** Packet queues *)

Lemma chainb_cons ps first a l :
  chainb ps first (a :: l) = true ->
  first = Some a /\ exists po, ps !! a = Some po /\ chainb ps (next po) l = true.
Proof.
  cbn. destruct first as [b|]; [|discriminate].
  intros H. apply andb_true_iff in H as [Hab H].
  apply Pos.eqb_eq in Hab. subst b.
  destruct (ps !! a) as [po|]; [|discriminate]. eauto.
Qed.

Lemma chainb_nil ps first : chainb ps first [] = true -> first = None.
Proof. cbn. destruct first; [discriminate|reflexivity]. Qed.

Lemma chainb_det ps first l1 l2 :
  chainb ps first l1 = true -> chainb ps first l2 = true -> l1 = l2.
Proof.
  revert first l2. induction l1 as [|a l1 IH]; intros first l2 H1 H2.
  - apply chainb_nil in H1. subst. destruct l2; [reflexivity|discriminate].
  - apply chainb_cons in H1 as (-> & po & Hpo & H1).
    destruct l2 as [|b l2]; [discriminate|].
    apply chainb_cons in H2 as (Hb & po' & Hpo' & H2).
    injection Hb as <-. rewrite Hpo in Hpo'. injection Hpo' as <-.
    f_equal. eauto.
Qed.

Lemma chainb_suffix ps first l a :
  chainb ps first l = true -> a ∈ l ->
  exists l1 l2, l = l1 ++ a :: l2 /\ chainb ps (Some a) (a :: l2) = true.
Proof.
  revert first. induction l as [|b l IH]; intros first H Ha.
  - inversion Ha.
  - pose proof H as H0.
    apply chainb_cons in H as (-> & po & Hpo & H).
    destruct (decide (a = b)) as [->|Hne].
    + exists [], l. split; [reflexivity|exact H0].
    + assert (a ∈ l) as Hal by (inversion Ha; subst; congruence).
      destruct (IH _ H Hal) as (l1 & l2 & -> & Hc).
      exists (b :: l1), l2. split; [reflexivity|exact Hc].
Qed.

Lemma chainb_head_fresh ps a l :
  chainb ps (Some a) (a :: l) = true -> a ∉ l.
Proof.
  intros H Ha.
  pose proof H as H0. apply chainb_cons in H0 as (_ & po & Hpo & Hl).
  destruct (chainb_suffix _ _ _ _ Hl Ha) as (l1 & l2 & -> & Hc).
  pose proof (chainb_det _ _ _ _ H Hc) as Heq.
  apply (f_equal (@length _)) in Heq. cbn in Heq.
  rewrite length_app in Heq. cbn in Heq. lia.
Qed.

Lemma chainb_delete ps first l a :
  a ∉ l -> chainb ps first l = true -> chainb (delete a ps) first l = true.
Proof.
  revert first. induction l as [|b l IH]; intros first Ha H.
  - exact H.
  - apply chainb_cons in H as (-> & po & Hpo & H).
    cbn. rewrite Pos.eqb_refl. cbn.
    rewrite lookup_delete_ne by (intros ->; apply Ha; left).
    rewrite Hpo. apply IH; [|exact H].
    intros Hin. apply Ha. now right.
Qed.

Lemma chainb_length ps first l :
  chainb ps first l = true -> (length l <= size ps)%nat.
Proof.
  revert ps first. induction l as [|a l IH]; intros ps first H.
  - cbn. lia.
  - pose proof H as H0. apply chainb_cons in H as (-> & po & Hpo & H).
    apply chainb_head_fresh in H0.
    pose proof (IH _ _ (chainb_delete _ _ _ _ H0 H)) as Hlen.
    rewrite map_size_delete, Hpo in Hlen.
    assert (size ps <> 0)%nat.
    { intros Hz. apply map_size_empty_inv in Hz. subst. rewrite lookup_empty in Hpo.
      discriminate. }
    cbn. lia.
Qed.

Lemma lookup_discard l ps a :
  discard l ps !! a = if bool_decide (a ∈ l) then None else ps !! a.
Proof.
  unfold discard. revert ps. induction l as [|b l IH]; intros ps; cbn.
  - reflexivity.
  - rewrite IH. destruct (decide (a = b)) as [->|Hne].
    + rewrite lookup_delete_eq.
      rewrite (bool_decide_eq_true_2 (b ∈ b :: l)) by left.
      now destruct (bool_decide (b ∈ l)).
    + rewrite lookup_delete_ne by congruence.
      destruct (bool_decide (a ∈ l)) eqn:Hl.
      * apply bool_decide_eq_true_1 in Hl.
        rewrite (bool_decide_eq_true_2 (a ∈ b :: l)) by now right.
        reflexivity.
      * apply bool_decide_eq_false_1 in Hl.
        rewrite (bool_decide_eq_false_2 (a ∈ b :: l)); [reflexivity|].
        intros Hin. inversion Hin; subst; congruence.
Qed.

Lemma discard_packets_ok fuel first l w :
  chainb (pkts w) first l = true -> (length l < fuel)%nat ->
  discard_packets fuel first w = Ok tt (with_pkts (discard l (pkts w)) w).
Proof.
  revert fuel first w. induction l as [|a l IH]; intros fuel first w H Hfuel.
  - apply chainb_nil in H. subst. destruct fuel, w; reflexivity.
  - pose proof H as H0. apply chainb_cons in H as (-> & po & Hpo & H).
    apply chainb_head_fresh in H0.
    destruct fuel as [|fuel]; [cbn in Hfuel; lia|].
    cbn [discard_packets].
    repeat mstep.
    rewrite IH.
    + msimpl. reflexivity.
    + msimpl. now apply chainb_delete.
    + cbn in Hfuel. lia.
Qed.

(** ** The registry *)

Lemma unlink_notin s (l : list positive) : s ∉ l -> unlink s l = l.
Proof.
  intros Hs. unfold unlink. induction l as [|a l IH]; [reflexivity|].
  rewrite filter_cons. destruct (decide (a ≠ s)) as [Hne|Heq].
  - f_equal. apply IH. intros Hin. apply Hs. now right.
  - destruct (decide (a = s)) as [->|Hn]; [|contradiction].
    exfalso. apply Hs. left.
Qed.

Lemma elem_of_unlink s x (l : list positive) : x ∈ unlink s l <-> x ∈ l /\ x ≠ s.
Proof. unfold unlink. rewrite list_elem_of_filter. tauto. Qed.

Lemma not_elem_of_unlink s (l : list positive) : s ∉ unlink s l.
Proof. rewrite elem_of_unlink. tauto. Qed.

Lemma unlink_unlinked s w :
  linked s w = false ->
  unlink s (local_socket_list w) = local_socket_list w /\
  unlink s (local_socket_closing_list w) = local_socket_closing_list w.
Proof.
  unfold linked. intros H. apply orb_false_iff in H as [H1 H2].
  apply bool_decide_eq_false_1 in H1. apply bool_decide_eq_false_1 in H2.
  split; now apply unlink_notin.
Qed.

Lemma remove_socket_ok w s so :
  socks w !! s = Some so ->
  remove_socket s w =
    Ok tt (with_socks (<[s := set_id (if linked s w then 0 else id so) so]> (socks w))
            (with_list (unlink s (local_socket_list w))
               (with_closing_list (unlink s (local_socket_closing_list w)) w))).
Proof.
  intros Hs. unfold remove_socket.
  repeat mstep.
  destruct (linked s w) eqn:Hl.
  - repeat mstep. mfin. reflexivity.
  - destruct (unlink_unlinked _ _ Hl) as [-> ->].
    unfold ret. destruct w, so; cbn in *. rewrite insert_id by exact Hs.
    reflexivity.
Qed.

Lemma fdevent_add_ok w s so ev :
  socks w !! s = Some so ->
  fdevent_add s ev w =
    Ok tt (with_socks (<[s := set_fde (fde_arm ev true (fde so)) so]> (socks w)) w).
Proof. intros Hs. unfold fdevent_add. mfin. reflexivity. Qed.

Lemma fdevent_del_ok w s so ev :
  socks w !! s = Some so ->
  fdevent_del s ev w =
    Ok tt (with_socks (<[s := set_fde (fde_arm ev false (fde so)) so]> (socks w)) w).
Proof. intros Hs. unfold fdevent_del. mfin. reflexivity. Qed.

Lemma insert_local_socket_ok w s so list :
  socks w !! s = Some so ->
  insert_local_socket s list w =
    Ok tt (match list with
           | MainList => with_list (local_socket_list w ++ [s]) w
           | ClosingList =>
               with_closing_list (local_socket_closing_list w ++ [s]) w
           end).
Proof.
  intros Hs. unfold insert_local_socket. repeat mstep. now destruct list.
Qed.

Ltac call_ok ::=
  first
    [ eapply remove_socket_ok; lookup_tac
    | eapply insert_local_socket_ok; lookup_tac ].

(** ** Closing a local socket *)

Lemma local_socket_destroy_ok w s so l :
  socks w !! s = Some so ->
  chainb (pkts w) (pkt_first so) l = true ->
  local_socket_destroy s w =
    if exit_on_close so then Exit 1 (destroyed s so l w)
    else Ok tt (destroyed s so l w).
Proof.
  intros Hs Hl. unfold local_socket_destroy, fdevent_remove.
  repeat mstep.
  erewrite bind_ok;
    [|apply discard_packets_ok with (l := l);
      [exact Hl|apply chainb_length in Hl; wsimpl; lia]].
  msimpl.
  repeat mstep.
  rewrite delete_insert_eq.
  unfold destroyed, exit, ret.
  destruct (exit_on_close so); reflexivity.
Qed.

Lemma local_socket_close_peerless E cc w s so l :
  socks w !! s = Some so ->
  peer so = None ->
  chainb (pkts w) (pkt_first so) l = true ->
  local_socket_close E cc s w = close_finish s so l w.
Proof.
  intros Hs Hp Hl. unfold local_socket_close, close_finish, destroy_now.
  repeat mstep. rewrite Hp. repeat mstep.
  destruct (closing so || has_write_error so || bool_decide (pkt_first so = None)).
  - now apply local_socket_destroy_ok.
  - repeat mstep.
    unfold deferred, draining, ret, abort, linked. msimpl.
    destruct (st_write (fde so)); reflexivity.
Qed.


(** ** Request framing *)

Lemma unhex_digit_hex_digit d :
  0 <= d < 16 -> unhex_digit (hex_digit d) = Some d.
Proof.
  intros Hd.
  assert (H : In d (map Z.of_nat (seq 0 16))).
  { apply in_map_iff. exists (Z.to_nat d). split; [lia|]. apply in_seq. lia. }
  cbn in H.
  repeat (destruct H as [<-|H]; [reflexivity|]). destruct H.
Qed.

Lemma lor_shiftl_4 a d :
  0 <= a -> 0 <= d < 16 -> Z.lor (Z.shiftl a 4) d = 16 * a + d.
Proof.
  intros Ha Hd.
  rewrite Z.shiftl_mul_pow2 by lia.
  change (2 ^ 4) with 16.
  assert (Hland : Z.land (a * 16) d = 0).
  { apply Z.bits_inj'. intros i Hi. rewrite Z.land_spec, Z.bits_0.
    destruct (Z.lt_ge_cases i 4).
    - replace (a * 16) with (a * 2 ^ 4) by lia.
      rewrite Z.mul_pow2_bits_low by lia. reflexivity.
    - rewrite (Z.bits_above_log2 d i), andb_false_r; [reflexivity|lia|].
      destruct (Z.eq_dec d 0) as [->|]; [cbn; lia|].
      apply Z.log2_lt_pow2; [lia|].
      apply Z.lt_le_trans with (2 ^ 4); [cbn; lia|].
      apply Z.pow_le_mono_r; lia. }
  rewrite <- Z.lxor_lor, <- Z.add_nocarry_lxor by exact Hland.
  lia.
Qed.

Lemma unhex_step a d :
  0 <= a < 2 ^ 28 -> 0 <= d < 16 ->
  Z.lor (Z.shiftl a 4) d mod 2 ^ 32 = 16 * a + d.
Proof.
  intros Ha Hd. rewrite lor_shiftl_4 by lia.
  change (2 ^ 28) with 268435456 in Ha. change (2 ^ 32) with 4294967296.
  apply Z.mod_small. lia.
Qed.

Lemma unhex_hex4 n rest :
  0 <= n < 65536 -> unhex (hex4 n ++ rest) 4 = Some n.
Proof.
  intros Hn. unfold unhex, hex4.
  change (Z.to_nat 4) with 4%nat.
  cbn [unhex_loop app].
  assert (H3 : 0 <= n / 4096 mod 16 < 16) by (apply Z.mod_pos_bound; lia).
  assert (H2 : 0 <= n / 256 mod 16 < 16) by (apply Z.mod_pos_bound; lia).
  assert (H1 : 0 <= n / 16 mod 16 < 16) by (apply Z.mod_pos_bound; lia).
  assert (H0 : 0 <= n mod 16 < 16) by (apply Z.mod_pos_bound; lia).
  rewrite !unhex_digit_hex_digit by assumption.
  change (2 ^ 28) with 268435456 in *.
  rewrite (unhex_step 0) by (change (2 ^ 28) with 268435456; lia).
  rewrite (unhex_step (16 * 0 + _)) by (change (2 ^ 28) with 268435456; lia).
  rewrite (unhex_step (16 * _ + _)) by (change (2 ^ 28) with 268435456; lia).
  rewrite (unhex_step (16 * _ + _)) by (change (2 ^ 28) with 268435456; lia).
  f_equal.
  assert (n / 4096 < 16) by (apply Z.div_lt_upper_bound; lia).
  rewrite (Z.mod_small (n / 4096)) by (split; [apply Z.div_pos; lia|lia]).
  pose proof (Z.div_mod n 16 ltac:(lia)).
  pose proof (Z.div_mod (n / 16) 16 ltac:(lia)).
  pose proof (Z.div_mod (n / 16 / 16) 16 ltac:(lia)).
  replace (n / 256) with (n / 16 / 16) by (rewrite Z.div_div by lia; reflexivity).
  replace (n / 4096) with (n / 16 / 16 / 16)
    by (rewrite !Z.div_div by lia; reflexivity).
  lia.
Qed.

Lemma unhex_digit_xdigit c :
  unhex_digit c = None <-> is_xdigit c = false.
Proof. destruct c; vm_compute; split; congruence. Qed.

Lemma unhex_digit_range c d : unhex_digit c = Some d -> 0 <= d < 16.
Proof. destruct c; vm_compute; intros [= <-]; split; congruence. Qed.

Lemma unhex_bad_digit (s : list byte) c0 c1 c2 c3 rest :
  s = c0 :: c1 :: c2 :: c3 :: rest ->
  is_xdigit c0 && is_xdigit c1 && is_xdigit c2 && is_xdigit c3 = false ->
  unhex s 4 = Some 4294967295.
Proof.
  intros -> H. unfold unhex. change (Z.to_nat 4) with 4%nat. cbn [unhex_loop].
  destruct (unhex_digit c0) as [d0|] eqn:H0; [|reflexivity].
  destruct (unhex_digit c1) as [d1|] eqn:H1; [|reflexivity].
  destruct (unhex_digit c2) as [d2|] eqn:H2; [|reflexivity].
  destruct (unhex_digit c3) as [d3|] eqn:H3; [|reflexivity].
  exfalso.
  assert (Hx : forall c d, unhex_digit c = Some d -> is_xdigit c = true).
  { intros c d Hc. destruct (is_xdigit c) eqn:Hi; [reflexivity|].
    apply unhex_digit_xdigit in Hi. congruence. }
  rewrite (Hx _ _ H0), (Hx _ _ H1), (Hx _ _ H2), (Hx _ _ H3) in H. discriminate.
Qed.

Lemma get_max_payload_ok E w s so :
  socks w !! s = Some so ->
  (forall q, peer so = Some q -> is_Some (socks w !! q)) ->
  get_max_payload E s w = Ok (max_payload_of E w so) w.
Proof.
  intros Hs Hq. unfold get_max_payload, max_payload_of.
  repeat mstep.
  destruct (peer so) as [q|]; [|now destruct (transport so)].
  destruct (Hq q eq_refl) as [qo Hqo]. rewrite Hqo.
  repeat mstep.
  now destruct (transport so), (transport qo).
Qed.

Lemma deref_ok {A} (o : option A) a w : o = Some a -> deref o w = Ok a w.
Proof. now intros ->. Qed.

Ltac call_ok ::=
  first
    [ eapply remove_socket_ok; lookup_tac
    | eapply insert_local_socket_ok; lookup_tac
    | eapply deref_ok; eassumption
    | apply get_max_payload_ok; [ lookup_tac | assumption ] ].

Lemma frame_verdict_ok E w p po :
  pkts w !! p = Some po ->
  (if len po <? 4 then ret Frame_wait
   else
     let p_len := len po in
     len <- deref (unhex (data po) 4);;
     if (len <? 1) || (MAX_PAYLOAD_V1 E <? len) then ret Frame_bad
     else
       if p_len <? (len + 4) mod 2 ^ 32 then ret Frame_wait
       else
         po <- loadp p;;
         (if Z.of_nat (length (data po)) <=? (len + 4) mod 2 ^ 32 then fault
          else storep p (fun po =>
                 set_data (<[Z.to_nat ((len + 4) mod 2 ^ 32) := x00]> (data po)) po));;
         ret (Frame_request p len)) w
  = frame_verdict E p po w.
Proof.
  intros Hp. unfold frame_verdict.
  destruct (len po <? 4); [reflexivity|].
  cbv zeta.
  destruct (unhex (data po) 4) as [n|]; [|reflexivity].
  repeat mstep.
  destruct ((n <? 1) || (MAX_PAYLOAD_V1 E <? n)); [reflexivity|].
  destruct (len po <? (n + 4) mod 2 ^ 32); [reflexivity|].
  repeat mstep.
  destruct (Z.of_nat (length (data po)) <=? (n + 4) mod 2 ^ 32); [reflexivity|].
  repeat mstep. reflexivity.
Qed.

Lemma smart_socket_frame_first E w s so p po :
  socks w !! s = Some so -> pkt_first so = None ->
  pkts w !! p = Some po ->
  smart_socket_frame E s p w =
    frame_verdict E p po
      (with_socks (<[s := set_pkt_last (Some p) (set_pkt_first (Some p) so)]> (socks w)) w).
Proof.
  intros Hs Hf Hp. unfold smart_socket_frame, smart_socket_accumulate.
  repeat mstep. rewrite Hf. repeat mstep.
  apply frame_verdict_ok. exact Hp.
Qed.

Lemma smart_socket_frame_append E w s so first fo p po :
  socks w !! s = Some so -> pkt_first so = Some first ->
  (forall q, peer so = Some q -> is_Some (socks w !! q)) ->
  pkts w !! first = Some fo -> pkts w !! p = Some po -> first <> p ->
  smart_socket_frame E s p w =
    if max_payload_of E w so <? len fo + len po then
      Ok Frame_bad (with_pkts (delete p (pkts w)) w)
    else
      match memcpy (data fo) (len fo) (data po) (len po) with
      | None => Fault
      | Some d =>
          frame_verdict E first (set_len (len fo + len po) (set_data d fo))
            (with_pkts (delete p (<[first := set_len (len fo + len po) (set_data d fo)]>
                                    (pkts w))) w)
      end.
Proof.
  intros Hs Hf Hq Hfo Hp Hne. unfold smart_socket_frame, smart_socket_accumulate.
  repeat mstep. rewrite Hf. repeat mstep.
  destruct (max_payload_of E w so <? len fo + len po).
  - repeat mstep. reflexivity.
  - destruct (memcpy (data fo) (len fo) (data po) (len po)) as [d|]; [|reflexivity].
    repeat mstep. rewrite Hf. repeat mstep.
    apply (frame_verdict_ok E _ first (set_len (len fo + len po) (set_data d fo))).
    msimpl.
    rewrite lookup_delete_ne by congruence. now rewrite lookup_insert_eq.
Qed.

Lemma cstr_app_nul (l rest : list byte) :
  x00 ∉ l -> cstr (l ++ x00 :: rest) = l.
Proof.
  induction l as [|c l IH]; intros Hl; cbn.
  - reflexivity.
  - destruct (Byte.eqb c x00) eqn:Hc.
    + apply Byte.byte_dec_bl in Hc. subst. exfalso. apply Hl. left.
    + f_equal. apply IH. intros Hin. apply Hl. now right.
Qed.

Lemma hex4_length n : length (hex4 n) = 4%nat.
Proof. reflexivity. Qed.

(** The buffer after the terminator has been written behind a request of
    [payload] that follows a 4-byte header [h]. *)
Lemma terminate_request (h payload rest : list byte) c :
  length h = 4%nat ->
  <[Z.to_nat (Z.of_nat (length payload) + 4) := x00]> (h ++ payload ++ c :: rest)
  = h ++ payload ++ x00 :: rest.
Proof.
  intros Hh.
  replace (Z.to_nat (Z.of_nat (length payload) + 4))
    with (length h + (length payload + 0))%nat by lia.
  rewrite insert_app_r, insert_app_r. reflexivity.
Qed.


(** C6: a remote endpoint with a live peer turns enqueue into a WRTE
    packet carrying [arg0 = peer.id], [arg1 = self.id] and
    [data_length = packet length] and returns 1; ready sends OKAY and
    shutdown sends CLSE, both with [arg0 = peer.id] and [arg1 = self.id]. *)
Theorem remote_socket_packets E w s so q qo p po :
  socks w !! s = Some so -> peer so = Some q -> socks w !! q = Some qo ->
  pkts w !! p = Some po -> 0 <= len po < 2 ^ 32 ->
  remote_socket_enqueue s p w =
    Ok 1 (emit (transport so) (wrte_packet so qo po)
            (with_pkts (delete p (pkts w)) w))
  /\ remote_socket_ready E s w =
       Ok tt (emit (transport so) (control_packet E A_OKAY (id qo) (id so)) w)
  /\ remote_socket_shutdown E s w =
       Ok tt (emit (transport so) (control_packet E A_CLSE (id qo) (id so)) w).
Proof.
  intros Hs Hp Hq Hpk Hlen. split; [|split].
  - eapply remote_socket_enqueue_ok; eassumption.
  - eapply remote_socket_ready_ok; eassumption.
  - rewrite (remote_socket_shutdown_ok E w s so Hs).
    + now rewrite Hp, Hq.
    + intros q' Hq'. rewrite Hp in Hq'. injection Hq' as <-. now exists qo.
Qed.

Lemma remote_socket_packets_witness :
  let w := Scenario.remote_pair "hello" in
  remote_socket_enqueue 3 100 w =
    Ok 1 (emit (Some 7%positive)
            (wrte_packet (Scenario.remote3 (Some 1%positive))
               (Scenario.local1 (Some 3%positive)) (Scenario.packet_of "hello" 64))
            (with_pkts (delete 100%positive (pkts w)) w))
  /\ remote_socket_ready Scenario.device_env 3 w =
       Ok tt (emit (Some 7%positive) (control_packet Scenario.device_env A_OKAY 1 5) w)
  /\ remote_socket_shutdown Scenario.device_env 3 w =
       Ok tt (emit (Some 7%positive) (control_packet Scenario.device_env A_CLSE 1 5) w).
Proof.
  apply (remote_socket_packets Scenario.device_env (Scenario.remote_pair "hello")
           3%positive (Scenario.remote3 (Some 1%positive)) 1%positive
           (Scenario.local1 (Some 3%positive)) 100%positive
           (Scenario.packet_of "hello" 64)).
  - reflexivity.
  - reflexivity.
  - reflexivity.
  - reflexivity.
  - vm_compute. split; congruence.
Defined.


(** C8: a request of [L] payload bytes, [1 <= L <= MAX_PAYLOAD_V1], sent
    as the ["%04x"] rendering of [L] followed by the payload, is framed by
    the smart socket as a request of exactly [L] bytes whose text is the
    payload: the bytes behind the header are the payload, a NUL follows
    them, and the C string at [data + 4] is the payload when that contains
    no NUL itself. *)
Theorem framing_round_trip E w s so p po (payload : list byte) c rest :
  let L := Z.of_nat (length payload) in
  1 <= L <= MAX_PAYLOAD_V1 E -> MAX_PAYLOAD_V1 E < 65536 ->
  socks w !! s = Some so -> pkt_first so = None ->
  pkts w !! p = Some po ->
  len po = 4 + L -> data po = hex4 L ++ payload ++ c :: rest ->
  exists w' po',
    smart_socket_frame E s p w = Ok (Frame_request p L) w'
    /\ pkts w' !! p = Some po'
    /\ take (length payload) (drop 4 (data po')) = payload
    /\ data po' !! (4 + length payload)%nat = Some x00
    /\ (x00 ∉ payload -> cstr (drop 4 (data po')) = payload).
Proof.
  intros L HL HV Hs Hf Hp Hlen Hdata.
  rewrite (smart_socket_frame_first E w s so p po Hs Hf Hp).
  unfold frame_verdict. rewrite Hlen, Hdata.
  destruct (Z.ltb_spec (4 + L) 4) as [?|_]; [lia|].
  rewrite unhex_hex4 by lia.
  destruct (Z.ltb_spec L 1) as [?|_]; [lia|].
  destruct (Z.ltb_spec (MAX_PAYLOAD_V1 E) L) as [?|_]; [lia|].
  cbn [orb].
  rewrite (Z.mod_small (L + 4)) by (change (2 ^ 32) with 4294967296; lia).
  destruct (Z.ltb_spec (4 + L) (L + 4)) as [?|_]; [lia|].
  destruct (Z.leb_spec (Z.of_nat (length (hex4 L ++ payload ++ c :: rest))) (L + 4))
    as [Hcap|_].
  { rewrite !length_app, hex4_length in Hcap. cbn in Hcap. lia. }
  eexists _, _. split; [reflexivity|].
  msimpl. rewrite lookup_insert_eq. split; [reflexivity|].
  cbn [data set_data]. unfold L.
  rewrite terminate_request by apply hex4_length.
  change (drop 4 (hex4 (Z.of_nat (length payload)) ++ payload ++ x00 :: rest))
    with (payload ++ x00 :: rest).
  split; [|split].
  - now rewrite take_app_length.
  - change (hex4 (Z.of_nat (length payload)) ++ payload ++ x00 :: rest)
      with (hex4 (Z.of_nat (length payload)) ++ (payload ++ x00 :: rest)).
    rewrite lookup_app_r by (rewrite hex4_length; lia).
    rewrite hex4_length.
    replace (4 + length payload - 4)%nat with (length payload + 0)%nat by lia.
    now rewrite lookup_app_r, Nat.add_comm, Nat.add_sub by lia.
  - apply cstr_app_nul.
Qed.

Lemma framing_round_trip_witness :
  exists w' po',
    smart_socket_frame Scenario.host_env 2 100
      (Scenario.smart_pair "000chost:version") =
      Ok (Frame_request 100 12) w'
    /\ pkts w' !! 100%positive = Some po'
    /\ take 12 (drop 4 (data po')) = bytes_of_string "host:version"
    /\ data po' !! 16%nat = Some x00
    /\ (x00 ∉ bytes_of_string "host:version" ->
        cstr (drop 4 (data po')) = bytes_of_string "host:version").
Proof.
  apply (framing_round_trip Scenario.host_env (Scenario.smart_pair "000chost:version")
           2%positive (Scenario.smart2 (Some 1%positive)) 100%positive
           (Scenario.packet_of "000chost:version" 64)
           (bytes_of_string "host:version") x00 (replicate 47 x00)).
  - vm_compute. split; congruence.
  - reflexivity.
  - reflexivity.
  - reflexivity.
  - reflexivity.
  - reflexivity.
  - reflexivity.
Defined.


(** ** Calls through the close pointer *)

Lemma write_fd_ok fd bytes w :
  write_fd fd bytes w = Ok tt (with_fd_out (fd_out w ++ [(fd, bytes)]) w).
Proof. reflexivity. Qed.

Lemma chainb_cons' ps a l :
  chainb ps (Some a) l = true -> exists po, ps !! a = Some po.
Proof.
  destruct l as [|b l]; [discriminate|].
  intros H. apply chainb_cons in H as (Hb & po & Hpo & _).
  injection Hb as <-. eauto.
Qed.

Lemma close_dispatch_S E n s w :
  close_dispatch E (S n) s w =
    (so <- load s;;
     match close so with
     | FN_local_socket_close => local_socket_close E (close_dispatch E n) s
     | FN_local_socket_close_notify =>
         local_socket_close_notify (close_dispatch E n) s
     | FN_remote_socket_close => remote_socket_close (close_dispatch E n) s
     | FN_smart_socket_close => smart_socket_close (close_dispatch E n) s
     end) w.
Proof. reflexivity. Qed.

Lemma close_dispatch_local E n w s so l :
  socks w !! s = Some so -> close so = FN_local_socket_close ->
  peer so = None -> chainb (pkts w) (pkt_first so) l = true ->
  close_dispatch E (S n) s w = close_finish s so l w.
Proof.
  intros Hs Hc Hp Hl. cbn [close_dispatch].
  repeat mstep. rewrite Hc.
  now apply local_socket_close_peerless.
Qed.

Lemma close_dispatch_peerless E n w q qo l :
  socks w !! q = Some qo -> peer qo = None ->
  chainb (pkts w) (pkt_first qo) l = true ->
  close_dispatch E (S (S n)) q w = close_peerless q qo l w.
Proof.
  intros Hq Hp Hl. unfold close_peerless.
  destruct (close qo) eqn:Hc.
  - now apply close_dispatch_local.
  - cbn [close_dispatch]. repeat mstep. rewrite Hc.
    unfold local_socket_close_notify, SendFail.
    repeat mstep.
    apply (local_socket_close_peerless E _ _ q (notified qo) l).
    + msimpl. now rewrite lookup_insert_eq.
    + exact Hp.
    + exact Hl.
  - cbn [close_dispatch]. repeat mstep. rewrite Hc.
    unfold remote_socket_close. repeat mstep. rewrite Hp. repeat mstep. mfin.
    reflexivity.
  - cbn [close_dispatch]. repeat mstep. rewrite Hc.
    unfold smart_socket_close. repeat mstep.
    destruct (pkt_first qo) as [a|] eqn:Hf.
    + apply chainb_cons' in Hl as Hl'. destruct Hl' as (po & Hpo).
      repeat mstep. rewrite Hp. repeat mstep. mfin. reflexivity.
    + repeat mstep. rewrite Hp. repeat mstep. mfin. reflexivity.
Qed.

Ltac call_ok ::=
  first
    [ eapply remove_socket_ok; lookup_tac
    | eapply insert_local_socket_ok; lookup_tac
    | eapply deref_ok; eassumption
    | apply get_max_payload_ok; [ lookup_tac | assumption ]
    | apply write_fd_ok ].

(** Run the first statement when it is a call whose outcome is known by
    an equation. *)
Lemma bind_eq {A B} (m : M A) (k : A -> M B) w o :
  m w = o ->
  bind m k w = match o with
               | Ok a w' => k a w'
               | Exit c w' => Exit c w'
               | Abort => Abort
               | Fault => Fault
               | OutOfFuel => OutOfFuel
               end.
Proof. intros <-. reflexivity. Qed.

Lemma chainb_unqueue ps first l (hd : option positive) :
  (forall a, hd = Some a -> a ∉ l) ->
  chainb ps first l = true -> chainb (unqueue hd ps) first l = true.
Proof.
  intros Hhd Hl. destruct hd as [a|]; [|exact Hl].
  apply chainb_delete; [|exact Hl]. now apply Hhd.
Qed.

Lemma smart_socket_close_paired E n w s so q qo lq :
  socks w !! s = Some so -> close so = FN_smart_socket_close ->
  peer so = Some q -> q <> s -> socks w !! q = Some qo ->
  (forall a, pkt_first so = Some a -> is_Some (pkts w !! a) /\ a ∉ lq) ->
  chainb (pkts w) (pkt_first qo) lq = true ->
  close_dispatch E (S (S (S n))) s w =
    then_freed s
      (close_peerless q (set_peer None qo) lq
         (with_socks (<[q := set_peer None qo]> (socks w))
            (with_pkts (unqueue (pkt_first so) (pkts w)) w))).
Proof.
  intros Hs Hc Hp Hne Hq Hhd Hl.
  rewrite close_dispatch_S. repeat mstep. rewrite Hc.
  unfold smart_socket_close. repeat mstep.
  assert (Hl' : chainb (unqueue (pkt_first so) (pkts w)) (pkt_first qo) lq = true).
  { apply chainb_unqueue; [|exact Hl]. intros a Ha. now apply Hhd. }
  assert (Hstep :
    (match pkt_first so with Some a => put_apacket a | None => ret tt end) w
    = Ok tt (with_pkts (unqueue (pkt_first so) (pkts w)) w)).
  { destruct (pkt_first so) as [a|] eqn:Hf.
    - destruct (Hhd a eq_refl) as [[po Hpo] _]. cbn [unqueue]. now mfin.
    - destruct w; reflexivity. }
  rewrite (bind_ok _ _ _ _ _ Hstep). clear Hstep. msimpl.
  repeat mstep. rewrite Hp. repeat mstep.
  erewrite bind_eq;
    [|apply (close_dispatch_peerless E n _ q (set_peer None qo) lq);
      [msimpl; now rewrite lookup_insert_eq|reflexivity|exact Hl']].
  unfold close_peerless, close_finish, destroy_now. rsimpl.
  destruct (close qo);
    repeat match goal with
           | |- context [if ?b then _ else _] => destruct b
           end;
    cbn [then_freed]; try reflexivity;
    unfold destroyed, deferred; msimpl; repeat mstep; mfin;
    rewrite ?delete_insert_eq; reflexivity.
Qed.


(** ** Closing a local socket that has a peer *)

Lemma remote_socket_shutdown_inv E w q qo w1 :
  socks w !! q = Some qo ->
  remote_socket_shutdown E q w = Ok tt w1 ->
  w1 = emit (transport qo) (clse_packet E w qo) w.
Proof.
  intros Hq H. unfold clse_packet.
  destruct (peer qo) as [x|] eqn:Hp.
  - destruct (socks w !! x) as [xo|] eqn:Hx.
    + rewrite (remote_socket_shutdown_ok E w q qo Hq) in H.
      * rewrite Hp, Hx in H. now injection H as <-.
      * intros x' Hx'. rewrite Hp in Hx'. injection Hx' as <-. now exists xo.
    + exfalso. revert H. unfold remote_socket_shutdown.
      repeat mstep. rewrite Hp. rewrite bind_assoc.
      erewrite bind_ok by (eapply peer_of_ok; [lookup_tac|exact Hp]).
      msimpl. unfold bind, load. msimpl. rewrite Hx. discriminate.
  - rewrite (remote_socket_shutdown_ok E w q qo Hq) in H.
    + rewrite Hp in H. now injection H as <-.
    + intros x' Hx'. rewrite Hp in Hx'. discriminate.
Qed.

Lemma local_socket_close_paired E cc w s so w3 l :
  socks w !! s = Some so ->
  peer_torn_down E cc w s so w3 ->
  socks w3 !! s = Some so ->
  chainb (pkts w3) (pkt_first so) l = true ->
  local_socket_close E cc s w =
    close_finish s (set_peer None so) l
      (with_socks (<[s := set_peer None so]> (socks w3)) w3).
Proof.
  intros Hs Ht Hs3 Hl. unfold peer_torn_down in Ht.
  destruct (peer so) as [q|] eqn:Hp.
  - destruct Ht as (Hne & qo & w1 & Hq & Hsh & Hcc).
    unfold local_socket_close. repeat mstep. rewrite Hp. repeat mstep.
    assert (Hw1 : socks w1 = socks w).
    { destruct (shutdown qo) as [[]|]; [|now subst].
      cbn in Hsh. apply (remote_socket_shutdown_inv E w q qo w1 Hq) in Hsh.
      now subst. }
    assert (Hstep :
      (match shutdown qo with
       | Some f => q0 <- peer_of s;; call_shutdown E f q0
       | None => ret tt
       end) w = Ok tt w1).
    { destruct (shutdown qo) as [f|]; [|now subst].
      now repeat mstep. }
    rewrite (bind_ok _ _ _ _ _ Hstep). clear Hstep.
    assert (Hs1 : socks w1 !! s = Some so) by now rewrite Hw1.
    assert (Hq1 : socks w1 !! q = Some qo) by now rewrite Hw1.
    repeat mstep.
    rewrite (bind_ok _ _ _ _ _ Hcc).
    repeat mstep.
    fold (destroy_now (set_peer None so)).
    rewrite <- (local_socket_close_peerless E cc _ s (set_peer None so) l);
      [|msimpl; now rewrite lookup_insert_eq|reflexivity|exact Hl].
    unfold local_socket_close. repeat mstep. reflexivity.
  - subst w3.
    rewrite (local_socket_close_peerless E cc w s so l Hs Hp Hl).
    unfold close_finish, destroy_now, destroyed, deferred, draining, linked. msimpl.
    destruct so; cbn in *; subst.
    rewrite ?delete_insert_eq, ?insert_insert_eq.
    reflexivity.
Qed.


(** C4: [local_socket_close] first tears the pair down in the order
    shutdown of the peer (with its back-reference still set), back-reference
    nulled, close of the peer, own peer field nulled; afterwards it destroys
    the socket at once if and only if [closing] was already set, or
    [has_write_error], or the write queue is empty (exiting the process if
    [exit_on_close]); otherwise it sets [closing], disarms read-readiness,
    moves the socket from the main list to the closing list and leaves
    write-readiness armed. *)
Theorem local_socket_close_spec E cc w s so w3 l :
  socks w !! s = Some so ->
  peer_torn_down E cc w s so w3 ->
  socks w3 !! s = Some so ->
  chainb (pkts w3) (pkt_first so) l = true ->
  (destroy_now so = false -> st_write (fde so) = true) ->
  exists w',
    local_socket_close E cc s w =
      (if destroy_now so && exit_on_close so then Exit 1 w' else Ok tt w')
    /\ (socks w' !! s = None <->
        closing so = true \/ has_write_error so = true \/ pkt_first so = None)
    /\ (destroy_now so = true ->
        w' = destroyed s so l w3
        /\ (s ∉ local_socket_list w') /\ (s ∉ local_socket_closing_list w')
        /\ (forall a, a ∈ l -> pkts w' !! a = None)
        /\ fd_closed w' = fd_closed w3 ++ [fde_fd (fde so)])
    /\ (destroy_now so = false ->
        socks w' !! s = Some (draining (linked s w3) (set_peer None so))
        /\ closing (draining (linked s w3) (set_peer None so)) = true
        /\ peer (draining (linked s w3) (set_peer None so)) = None
        /\ st_read (fde (draining (linked s w3) (set_peer None so))) = false
        /\ st_write (fde (draining (linked s w3) (set_peer None so))) = true
        /\ local_socket_list w' = unlink s (local_socket_list w3)
        /\ (s ∉ local_socket_list w')
        /\ s ∈ local_socket_closing_list w'
        /\ pkts w' = pkts w3).
Proof.
  intros Hs Ht Hs3 Hl Hw.
  rewrite (local_socket_close_paired E cc w s so w3 l Hs Ht Hs3 Hl).
  assert (Hiff : destroy_now so = true <->
                 closing so = true \/ has_write_error so = true \/ pkt_first so = None).
  { unfold destroy_now. rewrite !orb_true_iff, bool_decide_eq_true. tauto. }
  unfold close_finish.
  change (destroy_now (set_peer None so)) with (destroy_now so).
  change (exit_on_close (set_peer None so)) with (exit_on_close so).
  change (st_write (fde (set_peer None so))) with (st_write (fde so)).
  destruct (destroy_now so) eqn:Hd.
  - exists (destroyed s so l w3). split; [|split; [|split]].
    + cbn [andb]. unfold destroyed. msimpl. rewrite delete_insert_eq.
      now destruct (exit_on_close so).
    + rewrite <- Hiff. unfold destroyed. msimpl. rewrite lookup_delete_eq. tauto.
    + intros _. unfold destroyed. msimpl.
      split; [reflexivity|].
      split; [apply not_elem_of_unlink|].
      split; [apply not_elem_of_unlink|].
      split; [|reflexivity].
      intros a Ha. rewrite lookup_discard.
      now rewrite bool_decide_eq_true_2.
    + discriminate.
  - rewrite (Hw eq_refl). cbn [andb].
    exists (deferred s (set_peer None so)
              (with_socks (<[s := set_peer None so]> (socks w3)) w3)).
    split; [reflexivity|].
    split; [|split; [discriminate|]].
    + rewrite <- Hiff. unfold deferred. msimpl. rewrite lookup_insert_eq.
      split; discriminate.
    + intros _. unfold deferred, linked. msimpl.
      rewrite lookup_insert_eq.
      split; [reflexivity|].
      split; [reflexivity|].
      split; [reflexivity|].
      split; [reflexivity|].
      split; [exact (Hw eq_refl)|].
      split; [reflexivity|].
      split; [apply not_elem_of_unlink|].
      split; [|reflexivity].
      apply elem_of_app. right. left.
Qed.

Lemma local_socket_close_spec_witness :
  exists w',
    local_socket_close Scenario.device_env (asocket_close Scenario.device_env) 1
      Scenario.backlog_pair = Ok tt w'
    /\ wire w' = [(Some 7%positive, control_packet Scenario.device_env A_CLSE 1 5)]
    /\ socks w' !! 3%positive = None
    /\ socks w' !! 1%positive =
         Some (draining true (set_peer None (Scenario.local1_backlog (Some 3%positive))))
    /\ local_socket_list w' = []
    /\ local_socket_closing_list w' = [1%positive].
Proof.
  destruct (local_socket_close_spec Scenario.device_env
              (asocket_close Scenario.device_env) Scenario.backlog_pair 1%positive
              (Scenario.local1_backlog (Some 3%positive)) Scenario.backlog_alone
              [100%positive])
    as (w' & Hrun & _ & _ & Hdefer).
  - reflexivity.
  - split; [discriminate|].
    exists (Scenario.remote3 (Some 1%positive)),
           (emit (Some 7%positive) (control_packet Scenario.device_env A_CLSE 1 5)
              Scenario.backlog_pair).
    split; [reflexivity|]. split; vm_compute; reflexivity.
  - reflexivity.
  - reflexivity.
  - reflexivity.
  - exists w'. split; [exact Hrun|].
    destruct (Hdefer eq_refl) as (H1 & _ & _ & _ & _ & H6 & _ & _ & _).
    assert (Hw : w' = deferred 1 (set_peer None (Scenario.local1_backlog (Some 3%positive)))
                   (with_socks (<[1%positive := set_peer None
                                    (Scenario.local1_backlog (Some 3%positive))]>
                                  (socks Scenario.backlog_alone)) Scenario.backlog_alone)).
    { vm_compute in Hrun. injection Hrun as <-. vm_compute. reflexivity. }
    subst w'. vm_compute. repeat split; reflexivity.
Defined.


(** ** The fail path of a smart socket *)

Lemma chainb_insert ps first l a x :
  a ∉ l -> chainb (<[a := x]> ps) first l = chainb ps first l.
Proof.
  revert first. induction l as [|b l IH]; intros first Ha; [reflexivity|].
  cbn. destruct first as [b'|]; [|reflexivity].
  destruct (Pos.eqb b b'); [|reflexivity]. cbn.
  rewrite lookup_insert_ne by (intros ->; apply Ha; left).
  destruct (ps !! b) as [po|]; [|reflexivity].
  apply IH. intros Hin. apply Ha. now right.
Qed.

Lemma smart_socket_fail_ok E w s so q qo lq :
  socks w !! s = Some so -> close so = FN_smart_socket_close ->
  peer so = Some q -> q <> s ->
  socks w !! q = Some qo -> close qo = FN_local_socket_close ->
  exit_on_close qo = false ->
  (destroy_now qo = false -> st_write (fde qo) = true) ->
  (forall a, pkt_first so = Some a -> is_Some (pkts w !! a) /\ a ∉ lq) ->
  chainb (pkts w) (pkt_first qo) lq = true ->
  smart_socket_fail (asocket_close E) s w = Ok (-1) (smart_failed s so q qo lq w).
Proof.
  intros Hs Hc Hp Hne Hq Hcq Hex Hw Hhd Hl.
  unfold smart_socket_fail, asocket_close, call_depth.
  erewrite bind_eq
    by (apply (smart_socket_close_paired E 1 w s so q qo lq); assumption).
  unfold close_peerless.
  change (close (set_peer None qo)) with (close qo). rewrite Hcq.
  unfold close_finish.
  change (destroy_now (set_peer None qo)) with (destroy_now qo).
  change (exit_on_close (set_peer None qo)) with (exit_on_close qo).
  change (st_write (fde (set_peer None qo))) with (st_write (fde qo)).
  unfold smart_failed. rewrite Hex.
  destruct (destroy_now qo) eqn:Hd.
  - reflexivity.
  - rewrite (Hw eq_refl). reflexivity.
Qed.

Lemma smart_failed_spec s so q qo lq w :
  let w' := smart_failed s so q qo lq w in
  q <> s ->
  socks w' !! s = None
  /\ (forall a, pkt_first so = Some a -> pkts w' !! a = None)
  /\ wire w' = wire w
  /\ fd_out w' = fd_out w
  /\ (q ∉ local_socket_list w')
  /\ socks w' !! q =
       (if destroy_now qo then None
        else Some (draining (linked q w) (set_peer None qo))).
Proof.
  intros w' Hne. subst w'. unfold smart_failed.
  destruct (destroy_now qo) eqn:Hd; unfold destroyed, deferred, linked; msimpl.
  - rewrite lookup_delete_eq.
    split; [reflexivity|]. split.
    { intros a Ha. rewrite lookup_discard, Ha. cbn [unqueue].
      rewrite lookup_delete_eq. now destruct (bool_decide _). }
    split; [reflexivity|]. split; [reflexivity|].
    split; [apply not_elem_of_unlink|].
    rewrite lookup_delete_ne by congruence. apply lookup_delete_eq.
  - rewrite lookup_delete_eq.
    split; [reflexivity|]. split.
    { intros a Ha. rewrite Ha. cbn [unqueue]. apply lookup_delete_eq. }
    split; [reflexivity|]. split; [reflexivity|].
    split; [apply not_elem_of_unlink|].
    rewrite lookup_delete_ne by congruence. apply lookup_insert_eq.
Qed.


(** ** [smart_socket_enqueue] by the verdict of the framing *)

Lemma smart_socket_enqueue_wait E cc cr s p w w1 :
  smart_socket_frame E s p w = Ok Frame_wait w1 ->
  smart_socket_enqueue E cc cr s p w = Ok 0 w1.
Proof. intros H. unfold smart_socket_enqueue. now rewrite (bind_ok _ _ _ _ _ H). Qed.

Lemma smart_socket_enqueue_bad E cc cr s p w w1 :
  smart_socket_frame E s p w = Ok Frame_bad w1 ->
  smart_socket_enqueue E cc cr s p w = smart_socket_fail cc s w1.
Proof. intros H. unfold smart_socket_enqueue. now rewrite (bind_ok _ _ _ _ _ H). Qed.

Lemma smart_socket_enqueue_request E cc cr s p w p' n w1 :
  smart_socket_frame E s p w = Ok (Frame_request p' n) w1 ->
  smart_socket_enqueue E cc cr s p w = smart_socket_dispatch E cc cr s p' w1.
Proof. intros H. unfold smart_socket_enqueue. now rewrite (bind_ok _ _ _ _ _ H). Qed.

(** The world in which the framing gives its verdict, with the packet
    [a] that holds the bytes received. *)
Lemma smart_socket_frame_accumulated E w s so q qo lq p po buf :
  smart_pair_ok w s so q qo lq ->
  pkts w !! p = Some po -> p ∉ lq ->
  (forall a, pkt_first so = Some a -> a <> p /\ (a ∉ lq) /\ is_Some (pkts w !! a)) ->
  overflows E w so po = false ->
  accumulated w so po = Some buf ->
  exists a so1 w1,
    smart_socket_frame E s p w = frame_verdict E a buf w1
    /\ smart_pair_ok w1 s so1 q qo lq
    /\ pkt_first so1 = Some a /\ pkts w1 !! a = Some buf /\ (a ∉ lq)
    /\ wire w1 = wire w.
Proof.
  intros (Hs & Hc & Hp & Hne & Hq & Hcq & Hex & Hw & Hl) Hpo Hplq Hhd Hov Hacc.
  unfold overflows in Hov. unfold accumulated in Hacc.
  destruct (pkt_first so) as [first|] eqn:Hf.
  - destruct (Hhd first eq_refl) as (Hfp & Hflq & [fo Hfo]).
    rewrite Hfo in Hov, Hacc.
    destruct (memcpy (data fo) (len fo) (data po) (len po)) as [d|] eqn:Hm;
      [|discriminate].
    injection Hacc as <-.
    exists first, so, (with_pkts (delete p (<[first := set_len (len fo + len po)
                                              (set_data d fo)]> (pkts w))) w).
    split.
    { rewrite (smart_socket_frame_append E w s so first fo p po Hs Hf); try assumption.
      - now rewrite Hov, Hm.
      - intros q' Hq'. rewrite Hp in Hq'. injection Hq' as <-. now exists qo. }
    split.
    { repeat split; try assumption. msimpl.
      apply chainb_delete; [assumption|]. now rewrite chainb_insert. }
    split; [assumption|]. split; [|split; [assumption|reflexivity]].
    msimpl. rewrite lookup_delete_ne by congruence. apply lookup_insert_eq.
  - injection Hacc as <-.
    exists p, (set_pkt_last (Some p) (set_pkt_first (Some p) so)),
      (with_socks (<[s := set_pkt_last (Some p) (set_pkt_first (Some p) so)]>
                     (socks w)) w).
    split; [now apply smart_socket_frame_first|].
    split.
    { repeat split; try assumption; msimpl.
      - apply lookup_insert_eq.
      - now rewrite lookup_insert_ne by congruence. }
    split; [reflexivity|]. split; [assumption|]. split; [assumption|reflexivity].
Qed.

Lemma smart_socket_enqueue_overflow E w s so q qo lq p po :
  smart_pair_ok w s so q qo lq ->
  pkts w !! p = Some po -> p ∉ lq ->
  (forall a, pkt_first so = Some a -> a <> p /\ (a ∉ lq) /\ is_Some (pkts w !! a)) ->
  overflows E w so po = true ->
  smart_socket_enqueue E (asocket_close E) (asocket_ready E) s p w =
    Ok (-1) (smart_failed s so q qo lq (with_pkts (delete p (pkts w)) w)).
Proof.
  intros (Hs & Hc & Hp & Hne & Hq & Hcq & Hex & Hw & Hl) Hpo Hplq Hhd Hov.
  unfold overflows in Hov.
  destruct (pkt_first so) as [first|] eqn:Hf; [|discriminate].
  destruct (Hhd first eq_refl) as (Hfp & Hflq & [fo Hfo]).
  rewrite Hfo in Hov.
  rewrite (smart_socket_enqueue_bad E _ _ s p w (with_pkts (delete p (pkts w)) w)).
  - apply smart_socket_fail_ok; try assumption; msimpl.
    + intros a Ha. rewrite Hf in Ha. injection Ha as <-.
      split; [|assumption]. rewrite lookup_delete_ne by congruence. now exists fo.
    + now apply chainb_delete.
  - rewrite (smart_socket_frame_append E w s so first fo p po Hs Hf); try assumption.
    + now rewrite Hov.
    + intros q' Hq'. rewrite Hp in Hq'. injection Hq' as <-. now exists qo.
Qed.

(** C3: with fewer than 4 bytes buffered, or with a length header that
    asks for more bytes than are buffered, [smart_socket_enqueue] returns
    0 and the smart socket lives on, holding the bytes; when one of the
    first 4 bytes is not a hex digit ([unhex] gives [0xFFFFFFFF]), or the
    length is outside [[1, MAX_PAYLOAD_V1]], or appending would exceed
    [max_payload], the smart socket closes itself and -1 is returned. *)
Theorem smart_socket_enqueue_framing E w s so q qo lq p po :
  MAX_PAYLOAD_V1 E + 4 < 2 ^ 32 ->
  smart_pair_ok w s so q qo lq ->
  pkts w !! p = Some po -> p ∉ lq ->
  (forall a, pkt_first so = Some a -> a <> p /\ (a ∉ lq) /\ is_Some (pkts w !! a)) ->
  let run := smart_socket_enqueue E (asocket_close E) (asocket_ready E) s p w in
  let closed := exists w', run = Ok (-1) w' /\ socks w' !! s = None in
  let waiting buf :=
    exists w' so' a,
      run = Ok 0 w' /\ socks w' !! s = Some so'
      /\ pkt_first so' = Some a /\ pkts w' !! a = Some buf in
  (overflows E w so po = true -> closed)
  /\ (forall buf,
        overflows E w so po = false -> accumulated w so po = Some buf ->
        (len buf < 4 -> waiting buf)
        /\ (4 <= len buf ->
            forall c0 c1 c2 c3 rest,
              data buf = c0 :: c1 :: c2 :: c3 :: rest ->
              is_xdigit c0 && is_xdigit c1 && is_xdigit c2 && is_xdigit c3 = false ->
              unhex (data buf) 4 = Some 4294967295 /\ closed)
        /\ (4 <= len buf ->
            forall n, unhex (data buf) 4 = Some n ->
              n < 1 \/ MAX_PAYLOAD_V1 E < n -> closed)
        /\ (4 <= len buf ->
            forall n, unhex (data buf) 4 = Some n ->
              1 <= n <= MAX_PAYLOAD_V1 E -> len buf < 4 + n -> waiting buf)).
Proof.
  intros HV Hpair Hpo Hplq Hhd run closed waiting.
  change (2 ^ 32) with 4294967296 in HV.
  split.
  - intros Hov. exists (smart_failed s so q qo lq (with_pkts (delete p (pkts w)) w)).
    split.
    + now apply (smart_socket_enqueue_overflow E w s so q qo lq p po).
    + destruct Hpair as (_ & _ & _ & Hne & _).
      now destruct (smart_failed_spec s so q qo lq (with_pkts (delete p (pkts w)) w) Hne).
  - intros buf Hov Hacc.
    destruct (smart_socket_frame_accumulated E w s so q qo lq p po buf
                Hpair Hpo Hplq Hhd Hov Hacc)
      as (a & so1 & w1 & Hframe & Hpair1 & Hf1 & Hbuf & Halq & _).
    assert (Hbad : frame_verdict E a buf w1 = Ok Frame_bad w1 -> closed).
    { intros Hv. rewrite Hv in Hframe.
      exists (smart_failed s so1 q qo lq w1).
      destruct Hpair1 as (Hs1 & Hc1 & Hp1 & Hne & Hq1 & Hcq & Hex & Hw & Hl).
      split.
      - unfold run. rewrite (smart_socket_enqueue_bad E _ _ s p w w1 Hframe).
        apply smart_socket_fail_ok; try assumption.
        intros a' Ha'. rewrite Hf1 in Ha'. injection Ha' as <-.
        split; [now exists buf|assumption].
      - now destruct (smart_failed_spec s so1 q qo lq w1 Hne). }
    assert (Hwait : frame_verdict E a buf w1 = Ok Frame_wait w1 -> waiting buf).
    { intros Hv. rewrite Hv in Hframe.
      exists w1, so1, a.
      destruct Hpair1 as (Hs1 & _).
      split; [|auto].
      unfold run. now apply smart_socket_enqueue_wait. }
    assert (Hlate : forall n, 4 <= len buf -> unhex (data buf) 4 = Some n ->
              n < 1 \/ MAX_PAYLOAD_V1 E < n -> closed).
    { intros n Hlen Hn Hrange. apply Hbad. unfold frame_verdict.
      destruct (Z.ltb_spec (len buf) 4) as [?|_]; [lia|].
      rewrite Hn.
      destruct (Z.ltb_spec n 1), (Z.ltb_spec (MAX_PAYLOAD_V1 E) n);
        try reflexivity; lia. }
    split; [|split; [|split]].
    + intros Hlen. apply Hwait. unfold frame_verdict.
      destruct (Z.ltb_spec (len buf) 4) as [_|?]; [reflexivity|lia].
    + intros Hlen c0 c1 c2 c3 rest Hdata Hx.
      pose proof (unhex_bad_digit (data buf) c0 c1 c2 c3 rest Hdata Hx) as Hn.
      split; [exact Hn|].
      apply (Hlate 4294967295 Hlen Hn). lia.
    + intros Hlen n Hn Hrange. now apply (Hlate n).
    + intros Hlen n Hn Hrange Hshort. apply Hwait. unfold frame_verdict.
      destruct (Z.ltb_spec (len buf) 4) as [?|_]; [lia|].
      rewrite Hn.
      destruct (Z.ltb_spec n 1) as [?|_]; [lia|].
      destruct (Z.ltb_spec (MAX_PAYLOAD_V1 E) n) as [?|_]; [lia|].
      cbn [orb].
      rewrite (Z.mod_small (n + 4)) by (change (2 ^ 32) with 4294967296; lia).
      destruct (Z.ltb_spec (len buf) (n + 4)) as [_|?]; [reflexivity|lia].
Qed.

Lemma smart_socket_enqueue_framing_witness :
  exists w' so' a,
    smart_socket_enqueue Scenario.host_env (asocket_close Scenario.host_env)
      (asocket_ready Scenario.host_env) 2 100 (Scenario.smart_pair "0010host:")
      = Ok 0 w'
    /\ socks w' !! 2%positive = Some so'
    /\ pkt_first so' = Some a
    /\ pkts w' !! a = Some (Scenario.packet_of "0010host:" 64).
Proof.
  destruct (smart_socket_enqueue_framing Scenario.host_env
              (Scenario.smart_pair "0010host:") 2%positive
              (Scenario.smart2 (Some 1%positive)) 1%positive
              (Scenario.local1 (Some 2%positive)) [] 100%positive
              (Scenario.packet_of "0010host:" 64)) as [_ H].
  - vm_compute. reflexivity.
  - repeat split; try reflexivity; discriminate.
  - reflexivity.
  - apply not_elem_of_nil.
  - discriminate.
  - destruct (H (Scenario.packet_of "0010host:" 64) eq_refl eq_refl)
      as (_ & _ & _ & Hwait).
    apply (Hwait ltac:(vm_compute; congruence) 16 eq_refl).
    + vm_compute. split; congruence.
    + vm_compute. reflexivity.
Defined.


(** ** A host request that is handled on the spot *)

Lemma smart_socket_match_host_version w p po rest :
  pkts w !! p = Some po ->
  data po = version_request ++ x00 :: rest ->
  smart_socket_match_host p w =
    Ok (Some {| hq_service := bytes_of_string "version"; hq_serial := None;
                hq_type := kTransportAny |}) w.
Proof.
  intros Hp Hd. unfold smart_socket_match_host.
  repeat mstep. rewrite Hd. reflexivity.
Qed.

Lemma smart_socket_host_service_handled E w s so q qo lq p rq :
  smart_pair_ok w s so q qo lq ->
  (forall a, pkt_first so = Some a -> is_Some (pkts w !! a) /\ a ∉ lq) ->
  hr_status (handle_host_request E (hq_service rq) (hq_type rq) (hq_serial rq)
               (fd qo) s) = 0 ->
  exists so1,
    smart_socket_host_service E (asocket_close E) (asocket_ready E) s p rq w =
      Ok (-1) (smart_failed s so1 q qo lq
                 (with_socks (<[s := so1]> (socks w))
                    (with_fd_out
                       (fd_out w ++
                        [(fd qo, hr_out (handle_host_request E (hq_service rq)
                                           (hq_type rq) (hq_serial rq) (fd qo) s))])
                       w)))
    /\ pkt_first so1 = pkt_first so.
Proof.
  intros (Hs & Hc & Hp & Hne & Hq & Hcq & Hex & Hw & Hl) Hhd Hst.
  unfold smart_socket_host_service.
  repeat mstep.
  set (reply := handle_host_request E (hq_service rq) (hq_type rq) (hq_serial rq)
                  (fd qo) s) in *.
  destruct (hr_bind reply) as [t|].
  - exists (set_transport (Some t) so).
    repeat mstep. rewrite Hst. cbn [Z.eqb].
    split; [|reflexivity].
    apply smart_socket_fail_ok; try assumption; msimpl.
    + apply lookup_insert_eq.
    + now rewrite lookup_insert_ne by congruence.
  - exists so.
    repeat mstep. rewrite Hst. cbn [Z.eqb].
    split; [|reflexivity].
    rewrite insert_id by exact Hs.
    apply smart_socket_fail_ok; assumption.
Qed.

Lemma smart_socket_frame_request E w s so p po (h payload : list byte) c rest :
  let L := Z.of_nat (length payload) in
  1 <= L <= MAX_PAYLOAD_V1 E -> MAX_PAYLOAD_V1 E + 4 < 2 ^ 32 ->
  length h = 4%nat -> unhex (h ++ payload ++ c :: rest) 4 = Some L ->
  socks w !! s = Some so -> pkt_first so = None ->
  pkts w !! p = Some po ->
  len po = 4 + L -> data po = h ++ payload ++ c :: rest ->
  smart_socket_frame E s p w =
    Ok (Frame_request p L)
       (with_pkts (<[p := set_data (h ++ payload ++ x00 :: rest) po]> (pkts w))
          (with_socks (<[s := set_pkt_last (Some p) (set_pkt_first (Some p) so)]>
                         (socks w)) w)).
Proof.
  intros L HL HV Hh Hn Hs Hf Hp Hlen Hdata.
  change (2 ^ 32) with 4294967296 in HV.
  rewrite (smart_socket_frame_first E w s so p po Hs Hf Hp).
  unfold frame_verdict. rewrite Hlen, Hdata, Hn.
  destruct (Z.ltb_spec (4 + L) 4) as [?|_]; [lia|].
  destruct (Z.ltb_spec L 1) as [?|_]; [lia|].
  destruct (Z.ltb_spec (MAX_PAYLOAD_V1 E) L) as [?|_]; [lia|].
  cbn [orb].
  rewrite (Z.mod_small (L + 4)) by (change (2 ^ 32) with 4294967296; lia).
  destruct (Z.ltb_spec (4 + L) (L + 4)) as [?|_]; [lia|].
  destruct (Z.leb_spec (Z.of_nat (length (h ++ payload ++ c :: rest))) (L + 4))
    as [Hcap|_].
  { rewrite !length_app, Hh in Hcap. cbn in Hcap. lia. }
  unfold L. cbn [set_data data].
  rewrite terminate_request by exact Hh.
  reflexivity.
Qed.

(** The world after the version request has been answered and the pair
    torn down. *)
Lemma host_version_enqueue E w s so q qo lq p po c rest :
  ADB_HOST E = true ->
  12 <= MAX_PAYLOAD_V1 E -> MAX_PAYLOAD_V1 E + 4 < 2 ^ 32 ->
  smart_pair_ok w s so q qo lq -> pkt_first so = None ->
  pkts w !! p = Some po -> p ∉ lq ->
  len po = 16 -> data po = version_request ++ c :: rest ->
  hr_status (handle_host_request E (bytes_of_string "version") kTransportAny None
               (fd qo) s) = 0 ->
  exists so1 w1,
    smart_socket_enqueue E (asocket_close E) (asocket_ready E) s p w =
      Ok (-1) (smart_failed s so1 q qo lq w1)
    /\ pkt_first so1 = Some p
    /\ wire w1 = wire w
    /\ fd_out w1 =
         fd_out w ++
         [(fd qo, hr_out (handle_host_request E (bytes_of_string "version")
                            kTransportAny None (fd qo) s))]
    /\ local_socket_list w1 = local_socket_list w
    /\ local_socket_closing_list w1 = local_socket_closing_list w
    /\ fd_closed w1 = fd_closed w.
Proof.
  intros HH HV1 HV2 Hpair Hf Hp Hplq Hlen Hdata Hst.
  pose proof Hpair as (Hs & Hc & Hpe & Hne & Hq & Hcq & Hex & Hw & Hl).
  set (so0 := set_pkt_last (Some p) (set_pkt_first (Some p) so)).
  set (po1 := set_data (bytes_of_string "000C" ++ bytes_of_string "host:version"
                          ++ x00 :: rest) po).
  set (w0 := with_pkts (<[p := po1]> (pkts w))
               (with_socks (<[s := so0]> (socks w)) w)).
  assert (Hframe : smart_socket_frame E s p w = Ok (Frame_request p 12) w0).
  { apply (smart_socket_frame_request E w s so p po (bytes_of_string "000C")
             (bytes_of_string "host:version") c rest);
      first [ assumption | reflexivity | cbn; lia
            | unfold version_request in Hdata; now rewrite <- app_assoc in Hdata ]. }
  rewrite (smart_socket_enqueue_request E _ _ s p w p 12 w0 Hframe).
  unfold smart_socket_dispatch. rewrite HH.
  erewrite bind_ok
    by (apply (smart_socket_match_host_version w0 p po1 rest);
        [unfold w0; msimpl; apply lookup_insert_eq|reflexivity]).
  assert (Hpair0 : smart_pair_ok w0 s so0 q qo lq).
  { unfold w0. repeat split; try assumption; msimpl.
    - apply lookup_insert_eq.
    - now rewrite lookup_insert_ne by congruence.
    - now rewrite chainb_insert. }
  destruct (smart_socket_host_service_handled E w0 s so0 q qo lq p
              {| hq_service := bytes_of_string "version"; hq_serial := None;
                 hq_type := kTransportAny |} Hpair0) as (so1 & Hrun & Hf1).
  - intros a Ha. injection Ha as <-. split; [|assumption].
    unfold w0. msimpl. rewrite lookup_insert_eq. now eexists.
  - exact Hst.
  - eexists so1, _. split; [exact Hrun|].
    split; [exact Hf1|]. repeat split.
Qed.



(** What [smart_failed] leaves of the peer [q]. *)
Lemma smart_failed_peer s so q qo lq w :
  let w' := smart_failed s so q qo lq w in
  q <> s ->
  (destroy_now qo = true ->
   fd_closed w' = fd_closed w ++ [fde_fd (fde qo)]
   /\ (q ∉ local_socket_closing_list w')
   /\ forall a, a ∈ lq -> pkts w' !! a = None)
  /\ (destroy_now qo = false ->
      fd_closed w' = fd_closed w
      /\ q ∈ local_socket_closing_list w').
Proof.
  intros w' Hne. subst w'. unfold smart_failed. split; intros Hd; rewrite Hd.
  - unfold destroyed. msimpl.
    split; [reflexivity|]. split; [apply not_elem_of_unlink|].
    intros a Ha. rewrite lookup_discard. now rewrite bool_decide_eq_true_2.
  - unfold deferred. msimpl.
    split; [reflexivity|].
    apply elem_of_app. right. apply list_elem_of_singleton. reflexivity.
Qed.

(** C2, as the code has it: when a smart socket receives the complete
    request ["000Chost:version"] and [handle_host_request] returns 0, the
    smart socket frees its buffer and itself and returns -1, no packet is
    put on any transport, and the close cascades to the peer: the local
    peer is unlinked from the smart socket and closed, that is destroyed
    at once, its fd closed and its queue freed, when its queue is empty
    or it is already closing or has a write error, and otherwise marked
    closing and moved from the main list to the closing list, still
    watching for writability. *)
Theorem host_request_handled_tears_down E w s so q qo lq p po c rest :
  ADB_HOST E = true ->
  12 <= MAX_PAYLOAD_V1 E -> MAX_PAYLOAD_V1 E + 4 < 2 ^ 32 ->
  smart_pair_ok w s so q qo lq -> pkt_first so = None ->
  pkts w !! p = Some po -> p ∉ lq ->
  len po = 16 -> data po = version_request ++ c :: rest ->
  hr_status (handle_host_request E (bytes_of_string "version") kTransportAny None
               (fd qo) s) = 0 ->
  exists w',
    smart_socket_enqueue E (asocket_close E) (asocket_ready E) s p w = Ok (-1) w'
    /\ socks w' !! s = None
    /\ pkts w' !! p = None
    /\ wire w' = wire w
    /\ (q ∉ local_socket_list w')
    /\ socks w' !! q =
         (if destroy_now qo then None
          else Some (draining (linked q w) (set_peer None qo)))
    /\ (destroy_now qo = true ->
        fd_closed w' = fd_closed w ++ [fde_fd (fde qo)]
        /\ (q ∉ local_socket_closing_list w')
        /\ forall a, a ∈ lq -> pkts w' !! a = None)
    /\ (destroy_now qo = false ->
        fd_closed w' = fd_closed w
        /\ q ∈ local_socket_closing_list w'
        /\ exists qo',
            socks w' !! q = Some qo'
            /\ closing qo' = true /\ peer qo' = None
            /\ st_read (fde qo') = false /\ st_write (fde qo') = true
            /\ pkt_first qo' = pkt_first qo).
Proof.
  intros HH HV1 HV2 Hpair Hf Hp Hplq Hlen Hdata Hst.
  destruct (host_version_enqueue E w s so q qo lq p po c rest
              HH HV1 HV2 Hpair Hf Hp Hplq Hlen Hdata Hst)
    as (so1 & w1 & Hrun & Hf1 & Hwire & _ & Hmain & Hclosing & Hfdc).
  destruct Hpair as (_ & _ & _ & Hne & _ & _ & _ & Hw & _).
  destruct (smart_failed_spec s so1 q qo lq w1 Hne)
    as (Hs' & Hp' & Hwire' & _ & Hq1 & Hq2).
  destruct (smart_failed_peer s so1 q qo lq w1 Hne) as (Hgone & Hkept).
  exists (smart_failed s so1 q qo lq w1).
  split; [exact Hrun|]. split; [exact Hs'|]. split; [now apply Hp'|].
  split; [congruence|]. split; [exact Hq1|].
  split; [rewrite Hq2; unfold linked; now rewrite Hmain, Hclosing|].
  split.
  - intros Hd. destruct (Hgone Hd) as (H1 & H2 & H3).
    split; [now rewrite H1, Hfdc|]. now split.
  - intros Hd. destruct (Hkept Hd) as (H1 & H2).
    split; [now rewrite H1, Hfdc|]. split; [exact H2|].
    rewrite Hd in Hq2. eexists. split; [exact Hq2|].
    unfold draining. rsimpl.
    split; [reflexivity|]. split; [reflexivity|]. split; [reflexivity|].
    split; [exact (Hw Hd)|reflexivity].
Qed.

Lemma host_request_handled_tears_down_witness :
  exists w',
    smart_socket_enqueue Scenario.host_env (asocket_close Scenario.host_env)
      (asocket_ready Scenario.host_env) 2 100 (Scenario.smart_pair "000Chost:version")
      = Ok (-1) w'
    /\ socks w' !! 2%positive = None
    /\ pkts w' !! 100%positive = None
    /\ wire w' = []
    /\ (1%positive ∉ local_socket_list w')
    /\ socks w' !! 1%positive = None
    /\ fd_closed w' = [10].
Proof.
  destruct (host_request_handled_tears_down Scenario.host_env
           (Scenario.smart_pair "000Chost:version") 2%positive
           (Scenario.smart2 (Some 1%positive)) 1%positive
           (Scenario.local1 (Some 2%positive)) [] 100%positive
           (Scenario.packet_of "000Chost:version" 64) x00 (replicate 47 x00))
    as (w' & Hrun & Hs & Hp & Hwire & Hmain & Hq & Hgone & _).
  - reflexivity.
  - vm_compute. congruence.
  - vm_compute. reflexivity.
  - repeat split; try reflexivity; discriminate.
  - reflexivity.
  - reflexivity.
  - apply not_elem_of_nil.
  - reflexivity.
  - reflexivity.
  - reflexivity.
  - exists w'. split; [exact Hrun|]. split; [exact Hs|]. split; [exact Hp|].
    split; [exact Hwire|]. split; [exact Hmain|]. split; [exact Hq|].
    exact (proj1 (Hgone eq_refl)).
Defined.

(** C2, as stated, fails: on ["000Chost:version"] the peer (local
    socket 1) does not stay as it was, it is destroyed and its fd 10
    closed. *)
Lemma host_version_peer_closed :
  exists w',
    asocket_enqueue Scenario.host_env 2 100 (Scenario.smart_pair "000Chost:version")
      = Ok (-1) w'
    /\ socks (Scenario.smart_pair "000Chost:version") !! 1%positive
       = Some (Scenario.local1 (Some 2%positive))
    /\ socks w' !! 1%positive = None
    /\ fd_closed w' = [10].
Proof.
  vm_compute. eexists. repeat split.
Qed.


(** ** Writing a packet to the fd *)

Lemma adb_write_ok E fd buf count w :
  Z.of_nat (length buf) >= count ->
  adb_write E fd buf count w =
    match write_oracle E (io_clock w) with
    | W_bytes n =>
        Ok (Z.min (Z.pos n) count, 0)
           (written fd [take (Z.to_nat (Z.min (Z.pos n) count)) buf] 1 w)
    | W_zero => Ok (0, 0) (written fd [] 1 w)
    | W_error e => Ok (-1, e) (written fd [] 1 w)
    end.
Proof.
  intros Hlen. unfold adb_write, written.
  destruct (Z.ltb_spec (Z.of_nat (length buf)) count) as [?|_]; [lia|].
  destruct (write_oracle E (io_clock w)); cbn [map];
    rewrite ?app_nil_r, Nat.add_1_r; destruct w; reflexivity.
Qed.

Lemma written_written fd c1 n1 c2 n2 w :
  written fd c2 n2 (written fd c1 n1 w) = written fd (c1 ++ c2) (n1 + n2) w.
Proof.
  unfold written. destruct w; cbn. rewrite map_app, <- app_assoc, Nat.add_assoc.
  reflexivity.
Qed.

Lemma local_socket_enqueue_write_S E cc fuel w s so p po :
  socks w !! s = Some so -> pkts w !! p = Some po ->
  0 <= ptr po -> ptr po + len po <= Z.of_nat (length (data po)) ->
  local_socket_enqueue_write E cc (S fuel) s p w =
    if 0 <? len po then
      match write_oracle E (io_clock w) with
      | W_bytes m =>
          let r := Z.min (Z.pos m) (len po) in
          local_socket_enqueue_write E cc fuel s p
            (with_pkts (<[p := set_ptr (ptr po + r) (set_len (len po - r) po)]> (pkts w))
               (written (fd so)
                  [take (Z.to_nat r) (drop (Z.to_nat (ptr po)) (data po))] 1 w))
      | W_zero => local_socket_enqueue_failed cc s p (written (fd so) [] 1 w)
      | W_error e =>
          if e =? EAGAIN E then Ok None (written (fd so) [] 1 w)
          else local_socket_enqueue_failed cc s p (written (fd so) [] 1 w)
      end
    else Ok None w.
Proof.
  intros Hs Hp Hptr Hcap.
  cbn [local_socket_enqueue_write]. repeat mstep.
  destruct (Z.ltb_spec 0 (len po)) as [Hpos|Hzero]; [|reflexivity].
  repeat mstep.
  assert (Hbuf : Z.of_nat (length (drop (Z.to_nat (ptr po)) (data po))) >= len po).
  { rewrite length_drop. lia. }
  rewrite (bind_eq _ _ _ _ (adb_write_ok E (fd so) _ (len po) w Hbuf)).
  destruct (write_oracle E (io_clock w)) as [m| |e].
  - cbn [fst snd].
    destruct (Z.ltb_spec 0 (Z.min (Z.pos m) (len po))) as [_|?]; [|lia].
    unfold written. repeat mstep. reflexivity.
  - reflexivity.
  - cbn [fst snd Z.ltb Z.eqb orb Z.compare].
    now destruct (e =? EAGAIN E).
Qed.

Lemma local_socket_enqueue_write_spec E cc fuel :
  forall w s so p po,
    socks w !! s = Some so -> pkts w !! p = Some po ->
    0 <= ptr po -> 0 <= len po ->
    ptr po + len po <= Z.of_nat (length (data po)) ->
    (Z.to_nat (len po) < fuel)%nat ->
    exists (chunks : list (list byte)) (k : Z),
      0 <= k <= len po
      /\ concat chunks = take (Z.to_nat k) (drop (Z.to_nat (ptr po)) (data po))
      /\ (forall i, (i < length chunks)%nat ->
                    exists m, write_oracle E (io_clock w + i) = W_bytes m)
      /\ ((k = len po
           /\ local_socket_enqueue_write E cc fuel s p w =
                Ok None (drained (fd so) p po k chunks 0 w))
          \/ (k < len po
              /\ write_oracle E (io_clock w + length chunks) = W_error (EAGAIN E)
              /\ local_socket_enqueue_write E cc fuel s p w =
                   Ok None (drained (fd so) p po k chunks 1 w))
          \/ (k < len po
              /\ (write_oracle E (io_clock w + length chunks) = W_zero
                  \/ exists e, write_oracle E (io_clock w + length chunks) = W_error e
                               /\ e <> EAGAIN E)
              /\ local_socket_enqueue_write E cc fuel s p w =
                   local_socket_enqueue_failed cc s p
                     (drained (fd so) p po k chunks 1 w))).
Proof.
  induction fuel as [|fuel IH]; intros w s so p po Hs Hp Hptr Hlen Hcap Hfuel;
    [lia|].
  assert (Hid : forall stop, drained (fd so) p po 0 [] stop w = written (fd so) [] stop w).
  { intros stop. unfold drained. rewrite Z.add_0_r, Z.sub_0_r.
    replace (set_ptr (ptr po) (set_len (len po) po)) with po by now destruct po.
    rewrite insert_id by exact Hp. unfold written. now destruct w. }
  assert (Hw0 : written (fd so) [] 0 w = w).
  { unfold written. cbn. rewrite app_nil_r, Nat.add_0_r. now destruct w. }
  rewrite (local_socket_enqueue_write_S E cc fuel w s so p po Hs Hp Hptr Hcap).
  destruct (Z.ltb_spec 0 (len po)) as [Hpos|Hzero].
  2:{ exists [], 0. split; [lia|]. split; [reflexivity|].
      split; [cbn; intros; lia|].
      left. split; [lia|]. now rewrite Hid, Hw0. }
  destruct (write_oracle E (io_clock w)) as [m| |e] eqn:Horacle.
  - (* some bytes were accepted *)
    cbv zeta.
    set (r := Z.min (Z.pos m) (len po)).
    assert (Hr : 0 < r <= len po) by (unfold r; lia).
    set (buf := take (Z.to_nat r) (drop (Z.to_nat (ptr po)) (data po))).
    set (po' := set_ptr (ptr po + r) (set_len (len po - r) po)).
    set (w' := with_pkts (<[p := po']> (pkts w)) (written (fd so) [buf] 1 w)).
    destruct (IH w' s so p po') as (chunks & k & Hk & Hcat & Hor & Hcases).
    { exact Hs. }
    { unfold w'. cbn. apply lookup_insert_eq. }
    { cbn. lia. }
    { cbn. lia. }
    { cbn. lia. }
    { cbn. lia. }
    exists (buf :: chunks), (r + k).
    cbn [ptr len data po' set_ptr set_len] in Hk, Hcat.
    split; [lia|]. split.
    { cbn [concat]. rewrite Hcat. unfold buf.
      replace (Z.to_nat (ptr po + r)) with (Z.to_nat (ptr po) + Z.to_nat r)%nat by lia.
      rewrite <- drop_drop, take_take_drop. f_equal. lia. }
    split.
    { intros [|i] Hi.
      - rewrite Nat.add_0_r. eauto.
      - cbn in Hi. destruct (Hor i ltac:(lia)) as [m' Hm'].
        exists m'. rewrite <- Hm'. unfold w'. cbn. f_equal. lia. }
    assert (Hw1 : forall stop,
      drained (fd so) p po' k chunks stop w'
      = drained (fd so) p po (r + k) (buf :: chunks) stop w).
    { intros stop. unfold drained, w', po', written. cbn.
      rewrite insert_insert_eq.
      replace (ptr po + r + k) with (ptr po + (r + k)) by lia.
      replace (len po - r - k) with (len po - (r + k)) by lia.
      rewrite <- app_assoc. cbn.
      replace (io_clock w + 1 + (length chunks + stop))%nat
        with (io_clock w + S (length chunks + stop))%nat by lia.
      reflexivity. }
    assert (Hclock : (io_clock w' + length chunks
                      = io_clock w + length (buf :: chunks))%nat).
    { unfold w'. cbn. lia. }
    rewrite !Hw1, Hclock in Hcases.
    destruct Hcases as [(Hk1 & Hrun)|[(Hk1 & Ho & Hrun)|(Hk1 & Ho & Hrun)]].
    + left. split; [cbn in Hk1; lia|exact Hrun].
    + right; left. split; [cbn in Hk1; lia|]. split; [exact Ho|exact Hrun].
    + right; right. split; [cbn in Hk1; lia|]. split; [exact Ho|exact Hrun].
  - (* the write returned 0 *)
    exists [], 0. split; [lia|]. split; [reflexivity|].
    split; [cbn; intros; lia|].
    right; right. split; [lia|]. cbn [length]. rewrite Nat.add_0_r.
    split; [left; exact Horacle|].
    rewrite !Hid. reflexivity.
  - (* the write failed *)
    exists [], 0. split; [lia|]. split; [reflexivity|].
    split; [cbn; intros; lia|].
    cbn [length]. rewrite Nat.add_0_r. rewrite !Hid.
    destruct (Z.eqb_spec e (EAGAIN E)) as [->|Hne].
    + right; left. split; [lia|]. split; [exact Horacle|reflexivity].
    + right; right. split; [lia|]. split; [right; eauto|reflexivity].
Qed.

(** ** Queueing a packet *)

Lemma local_socket_enqueue_tail_first w s so p po :
  socks w !! s = Some so -> pkt_first so = None -> pkts w !! p = Some po ->
  local_socket_enqueue_tail s p w =
    Ok 1 (with_socks
            (<[s := set_fde (fde_arm FDE_WRITE true (fde so))
                      (set_pkt_last (Some p) (set_pkt_first (Some p) so))]> (socks w))
            (with_pkts (<[p := set_next None po]> (pkts w)) w)).
Proof.
  intros Hs Hf Hp. unfold local_socket_enqueue_tail.
  repeat mstep. rewrite Hf. repeat mstep. msimpl. rewrite ?Hf. reflexivity.
Qed.

Lemma local_socket_enqueue_tail_append w s so first last lo p po :
  socks w !! s = Some so -> pkt_first so = Some first -> pkt_last so = Some last ->
  pkts w !! last = Some lo -> pkts w !! p = Some po -> last <> p ->
  local_socket_enqueue_tail s p w =
    Ok 1 (with_socks
            (<[s := set_fde (fde_arm FDE_WRITE true (fde so))
                      (set_pkt_last (Some p) so)]> (socks w))
            (with_pkts (<[last := set_next (Some p) lo]>
                          (<[p := set_next None po]> (pkts w))) w)).
Proof.
  intros Hs Hf Hl Hlo Hp Hne. unfold local_socket_enqueue_tail.
  repeat mstep. rewrite Hf. repeat mstep. msimpl. rewrite ?Hf. reflexivity.
Qed.

Lemma chainb_last_elem ps first l a :
  chainb ps first l = true -> last l = Some a -> a ∈ l.
Proof.
  intros _. revert a. induction l as [|b l IH]; intros a Ha; [discriminate|].
  destruct l as [|c l].
  - injection Ha as <-. left.
  - right. apply IH. exact Ha.
Qed.

Lemma chainb_snoc ps first l a lo p po :
  chainb ps first l = true -> last l = Some a -> ps !! a = Some lo ->
  p ∉ l -> next po = None ->
  chainb (<[a := set_next (Some p) lo]> (<[p := po]> ps)) first (l ++ [p]) = true.
Proof.
  revert first. induction l as [|b l IH]; intros first Hc Ha Hlo Hp Hn;
    [discriminate|].
  pose proof Hc as Hc0.
  apply chainb_cons in Hc as (-> & bo & Hbo & Hc).
  assert (Hbp : b <> p) by (intros ->; apply Hp; left).
  assert (Hpl : p ∉ l) by (intros Hin; apply Hp; now right).
  cbn [app chainb]. rewrite Pos.eqb_refl. cbn [andb].
  destruct l as [|c l].
  - injection Ha as <-. apply chainb_nil in Hc.
    rewrite lookup_insert_eq. cbn [next set_next app chainb].
    rewrite Pos.eqb_refl. cbn [andb].
    rewrite lookup_insert_ne by congruence. rewrite lookup_insert_eq.
    now rewrite Hn.
  - assert (Hba : b <> a).
    { intros ->. apply (chainb_head_fresh _ _ _ Hc0).
      apply (chainb_last_elem ps (next bo)); assumption. }
    rewrite lookup_insert_ne by congruence.
    rewrite lookup_insert_ne by congruence.
    rewrite Hbo. apply IH; assumption.
Qed.

(** The write loop of [local_socket_enqueue] on an empty queue: [k]
    bytes go out in [chunks]; then the packet is used up, or the fd would
    block, or the write fails and the socket closes itself. *)
Lemma local_socket_enqueue_write_through E cc w s so p po :
  socks w !! s = Some so -> pkts w !! p = Some po ->
  0 <= len po <= Z.of_nat (length (data po)) ->
  pkt_first so = None ->
  exists (chunks : list (list byte)) (k : Z),
    0 <= k <= len po
    /\ concat chunks = take (Z.to_nat k) (data po)
    /\ (forall i, (i < length chunks)%nat ->
                  exists m, write_oracle E (io_clock w + i) = W_bytes m)
    /\ ((k = len po
         /\ exists w',
             local_socket_enqueue E cc s p w = Ok 0 w'
             /\ pkts w' !! p = None
             /\ socks w' = socks w
             /\ fd_out w' = fd_out w ++ map (pair (fd so)) chunks)
        \/ (k < len po
            /\ write_oracle E (io_clock w + length chunks) = W_error (EAGAIN E)
            /\ exists w' so',
                local_socket_enqueue E cc s p w = Ok 1 w'
                /\ socks w' !! s = Some so'
                /\ pkt_first so' = Some p /\ pkt_last so' = Some p
                /\ st_write (fde so') = true
                /\ pkts w' !! p =
                     Some (set_next None (set_ptr k (set_len (len po - k) po)))
                /\ fd_out w' = fd_out w ++ map (pair (fd so)) chunks)
        \/ (k < len po
            /\ (write_oracle E (io_clock w + length chunks) = W_zero
                \/ exists e, write_oracle E (io_clock w + length chunks) = W_error e
                             /\ e <> EAGAIN E)
            /\ local_socket_enqueue E cc s p w =
                 (cc s;; ret 1)
                   (with_socks (<[s := set_has_write_error true so]> (socks w))
                      (with_pkts (delete p (pkts w))
                         (written (fd so) chunks (length chunks + 1) w))))).
Proof.
  intros Hs Hp Hlen Hf.
  set (po0 := set_ptr 0 po).
  set (w0 := with_pkts (<[p := po0]> (pkts w)) w).
  assert (Hrun : forall k : option Z -> M Z,
    local_socket_enqueue E cc s p w =
      bind (local_socket_enqueue_write E cc (S (Z.to_nat (len po))) s p)
        (fun res =>
           match res with
           | Some v => ret v
           | None =>
               po <- loadp p;;
               if len po =? 0 then put_apacket p;; ret 0
               else local_socket_enqueue_tail s p
           end) w0).
  { intros _. unfold local_socket_enqueue. repeat mstep. rewrite Hf.
    repeat mstep. reflexivity. }
  specialize (Hrun (fun _ => ret 0)).
  destruct (local_socket_enqueue_write_spec E cc (S (Z.to_nat (len po))) w0 s so p po0)
    as (chunks & k & Hk & Hcat & Hor & Hcases).
  { exact Hs. }
  { unfold w0. cbn. apply lookup_insert_eq. }
  { cbn. lia. }
  { cbn. lia. }
  { cbn. lia. }
  { cbn. lia. }
  cbn [ptr len data po0 set_ptr] in Hk, Hcat, Hcases.
  exists chunks, k. split; [exact Hk|]. split; [exact Hcat|].
  split; [exact Hor|].
  destruct Hcases as [(Hk1 & Hloop)|[(Hk1 & Ho & Hloop)|(Hk1 & Ho & Hloop)]].
  + left. split; [exact Hk1|].
    eexists. split.
    { rewrite Hrun, (bind_ok _ _ _ _ _ Hloop).
      unfold drained, written, w0. repeat mstep.
      change (len po0) with (len po).
      destruct (Z.eqb_spec (len po - k) 0) as [_|?]; [|lia].
      repeat mstep. reflexivity. }
    cbn. rewrite lookup_delete_eq. repeat split.
  + right; left. split; [exact Hk1|]. split; [exact Ho|].
    eexists _, _. split.
    { rewrite Hrun, (bind_ok _ _ _ _ _ Hloop).
      unfold drained, written, w0. repeat mstep.
      change (len po0) with (len po).
      destruct (Z.eqb_spec (len po - k) 0) as [?|_]; [lia|].
      apply (local_socket_enqueue_tail_first _ s so p); msimpl.
      - exact Hs.
      - exact Hf.
      - apply lookup_insert_eq. }
    cbn. rewrite !lookup_insert_eq. repeat split.
  + right; right. split; [exact Hk1|]. split; [exact Ho|].
    rewrite Hrun. unfold bind at 1. rewrite Hloop.
    unfold local_socket_enqueue_failed, drained, written, w0.
    repeat mstep. rewrite delete_insert_eq.
    unfold bind. destruct (cc s _); reflexivity.
Qed.


(** [local_socket_enqueue] on a socket with a backlog [l]: the packet
    goes to the tail and nothing is written. *)
Lemma local_socket_enqueue_backlog E cc w s so p po l tail :
  socks w !! s = Some so -> pkts w !! p = Some po ->
  chainb (pkts w) (pkt_first so) l = true -> last l = Some tail ->
  pkt_last so = Some tail -> p ∉ l ->
  exists w' so',
    local_socket_enqueue E cc s p w = Ok 1 w'
    /\ socks w' !! s = Some so'
    /\ pkt_first so' = pkt_first so /\ pkt_last so' = Some p
    /\ chainb (pkts w') (pkt_first so') (l ++ [p]) = true
    /\ st_write (fde so') = true
    /\ io_clock w' = io_clock w /\ fd_out w' = fd_out w.
Proof.
  intros Hs Hp Hl Hlast Hpl Hpin.
  destruct l as [|a l0] eqn:El; [discriminate|]. rewrite <- El in *.
  assert (Hf : pkt_first so = Some a).
  { rewrite El in Hl. now apply chainb_cons in Hl as (-> & _). }
  assert (Hin : tail ∈ l) by (eapply chainb_last_elem; eassumption).
  destruct (chainb_suffix _ _ _ _ Hl Hin) as (l1 & l2 & _ & Hc).
  apply chainb_cons in Hc as (_ & lo & Hlo & _).
  assert (Hne : tail <> p) by (intros ->; contradiction).
  eexists _, _. split.
  { unfold local_socket_enqueue. repeat mstep. rewrite Hf.
    apply (local_socket_enqueue_tail_append _ s so a tail lo p (set_ptr 0 po));
      try assumption; msimpl.
    - now rewrite lookup_insert_ne by congruence.
    - apply lookup_insert_eq. }
  msimpl. rewrite lookup_insert_eq.
  split; [reflexivity|]. split; [reflexivity|]. split; [reflexivity|].
  split; [|repeat split].
  cbn [pkt_first].
  now apply (chainb_snoc (pkts w) (pkt_first so) l tail lo p).
Qed.

(** C5: with a non-empty write queue [local_socket_enqueue] appends the
    packet and returns 1 without touching the fd; otherwise it writes
    without blocking, advancing the cursor of the packet after each
    partial write: once the whole packet is out the packet is freed and 0
    returned, on [EAGAIN] the remainder is queued, write-readiness armed
    and 1 returned. *)
Theorem local_socket_enqueue_spec E cc w s so p po :
  socks w !! s = Some so -> pkts w !! p = Some po ->
  0 <= len po <= Z.of_nat (length (data po)) ->
  (forall l tail,
      chainb (pkts w) (pkt_first so) l = true -> last l = Some tail ->
      pkt_last so = Some tail -> p ∉ l ->
      exists w' so',
        local_socket_enqueue E cc s p w = Ok 1 w'
        /\ socks w' !! s = Some so'
        /\ pkt_first so' = pkt_first so /\ pkt_last so' = Some p
        /\ chainb (pkts w') (pkt_first so') (l ++ [p]) = true
        /\ st_write (fde so') = true
        /\ io_clock w' = io_clock w /\ fd_out w' = fd_out w)
  /\ (pkt_first so = None ->
      exists (chunks : list (list byte)) (k : Z),
        0 <= k <= len po
        /\ concat chunks = take (Z.to_nat k) (data po)
        /\ (forall i, (i < length chunks)%nat ->
                      exists m, write_oracle E (io_clock w + i) = W_bytes m)
        /\ ((k = len po
             /\ exists w',
                 local_socket_enqueue E cc s p w = Ok 0 w'
                 /\ pkts w' !! p = None
                 /\ socks w' = socks w
                 /\ fd_out w' = fd_out w ++ map (pair (fd so)) chunks)
            \/ (k < len po
                /\ write_oracle E (io_clock w + length chunks) = W_error (EAGAIN E)
                /\ exists w' so',
                    local_socket_enqueue E cc s p w = Ok 1 w'
                    /\ socks w' !! s = Some so'
                    /\ pkt_first so' = Some p /\ pkt_last so' = Some p
                    /\ st_write (fde so') = true
                    /\ pkts w' !! p =
                         Some (set_next None (set_ptr k (set_len (len po - k) po)))
                    /\ fd_out w' = fd_out w ++ map (pair (fd so)) chunks)
            \/ (k < len po
                /\ (write_oracle E (io_clock w + length chunks) = W_zero
                    \/ exists e, write_oracle E (io_clock w + length chunks) = W_error e
                                 /\ e <> EAGAIN E)))).
Proof.
  intros Hs Hp Hlen. split.
  - intros l tail Hl Hlast Hpl Hpin.
    now apply (local_socket_enqueue_backlog E cc w s so p po l tail).
  - intros Hf.
    destruct (local_socket_enqueue_write_through E cc w s so p po Hs Hp Hlen Hf)
      as (chunks & k & Hk & Hcat & Hor & Hcases).
    exists chunks, k. split; [exact Hk|]. split; [exact Hcat|].
    split; [exact Hor|].
    destruct Hcases as [H|[H|(Hk1 & Ho & _)]].
    + left. exact H.
    + right; left. exact H.
    + right; right. split; [exact Hk1|exact Ho].
Qed.

Lemma local_socket_enqueue_spec_witness :
  exists (chunks : list (list byte)) (k : Z) w' so',
    concat chunks = take (Z.to_nat k) (bytes_of_string "hello")
    /\ k = 3
    /\ local_socket_enqueue Scenario.device_env (asocket_close Scenario.device_env)
         1 100 (Scenario.remote_pair "hello") = Ok 1 w'
    /\ socks w' !! 1%positive = Some so'
    /\ pkt_first so' = Some 100%positive /\ st_write (fde so') = true
    /\ (ptr <$> pkts w' !! 100%positive) = Some 3
    /\ (len <$> pkts w' !! 100%positive) = Some 2
    /\ fd_out w' = [(10, bytes_of_string "hel")].
Proof.
  destruct (local_socket_enqueue_spec Scenario.device_env
              (asocket_close Scenario.device_env) (Scenario.remote_pair "hello")
              1%positive (Scenario.local1 (Some 3%positive)) 100%positive
              (Scenario.packet_of "hello" 64)) as [_ HB].
  - reflexivity.
  - reflexivity.
  - vm_compute. split; congruence.
  - destruct (HB eq_refl) as (chunks & k & _ & _ & _ & _).
    exists [bytes_of_string "hel"], 3. vm_compute. eexists _, _. repeat split.
Defined.


(** ** The closing list *)

Lemma find_local_socket_scan_spec l local_id peer_id w r w' :
  find_local_socket_scan l local_id peer_id w = Ok r w' ->
  w' = w /\
  forall x, r = Some x ->
    x ∈ l /\ exists xo, socks w !! x = Some xo /\ id xo = local_id.
Proof.
  revert w. induction l as [|s l IH]; intros w H.
  - cbn in H. injection H as <- <-. split; [reflexivity|]. discriminate.
  - cbn [find_local_socket_scan] in H. unfold bind at 1, load in H.
    destruct (socks w !! s) as [so|] eqn:Hs; [|discriminate].
    destruct (Z.eqb_spec (id so) local_id) as [Hid|Hid]; cbn [negb] in H.
    + assert (Hx : forall x, Some s = Some x ->
                x ∈ s :: l /\ exists xo, socks w !! x = Some xo /\ id xo = local_id).
      { intros x [= <-]. split; [left|eauto]. }
      destruct (peer_id =? 0).
      { injection H as <- <-. auto. }
      destruct (peer so) as [q|].
      * unfold bind, load in H. destruct (socks w !! q) as [qo|]; [|discriminate].
        destruct (id qo =? peer_id); injection H as <- <-;
          (split; [reflexivity|]); [exact Hx|discriminate].
      * injection H as <- <-. split; [reflexivity|discriminate].
    + destruct (IH w H) as [-> Hr]. split; [reflexivity|].
      intros x Hx. destruct (Hr x Hx) as [Hin Hxo]. split; [now right|exact Hxo].
Qed.

Lemma closing_list_ok_destroyed s so l w :
  closing_list_ok w -> closing_list_ok (destroyed s so l w).
Proof.
  intros Hok x Hx. unfold destroyed in *. cbn in *.
  apply elem_of_unlink in Hx as [Hx Hne].
  destruct (Hok x Hx) as (Hmain & xo & Hxo & Hid & Hcl).
  split.
  - rewrite elem_of_unlink. tauto.
  - exists xo. rewrite lookup_delete_ne by congruence. auto.
Qed.

Lemma closing_list_ok_deferred s so w :
  closing_list_ok w -> s ∈ local_socket_list w ->
  closing_list_ok (deferred s so w).
Proof.
  intros Hok Hs x Hx. unfold deferred in *. cbn in *.
  apply elem_of_app in Hx as [Hx|Hx].
  - apply elem_of_unlink in Hx as [Hx Hne].
    destruct (Hok x Hx) as (Hmain & xo & Hxo & Hid & Hcl).
    split.
    + rewrite elem_of_unlink. tauto.
    + exists xo. rewrite lookup_insert_ne by congruence. auto.
  - apply list_elem_of_singleton in Hx. subst x.
    split; [apply not_elem_of_unlink|].
    eexists. rewrite lookup_insert_eq. split; [reflexivity|].
    unfold draining, linked. cbn.
    rewrite (bool_decide_eq_true_2 _ Hs). cbn. auto.
Qed.

Lemma closing_list_ok_unpeered s so w :
  socks w !! s = Some so ->
  closing_list_ok w ->
  closing_list_ok (with_socks (<[s := set_peer None so]> (socks w)) w).
Proof.
  intros Hs Hok x Hx. cbn in *.
  destruct (Hok x Hx) as (Hmain & xo & Hxo & Hid & Hcl).
  split; [exact Hmain|].
  destruct (decide (x = s)) as [->|Hne].
  - rewrite lookup_insert_eq. eexists. split; [reflexivity|].
    rewrite Hs in Hxo. injection Hxo as <-. cbn. auto.
  - rewrite lookup_insert_ne by congruence. eauto.
Qed.

Lemma install_local_socket_ok w s so :
  socks w !! s = Some so ->
  install_local_socket s w =
    if (local_socket_next_id w + 1) mod 2 ^ 32 =? 0 then Abort
    else Ok tt (with_list (local_socket_list w ++ [s])
                  (with_next_id ((local_socket_next_id w + 1) mod 2 ^ 32)
                     (with_socks (<[s := set_id (local_socket_next_id w) so]>
                                    (socks w)) w))).
Proof.
  intros Hs. unfold install_local_socket. repeat mstep.
  destruct ((local_socket_next_id w + 1) mod 2 ^ 32 =? 0); [reflexivity|].
  repeat mstep. mfin. reflexivity.
Qed.

(** C9: a deferred close takes the socket off the main list through
    [remove_socket], which sets its id to 0, and puts it on the closing
    list; so the sockets on the closing list have id 0 and are not on the
    main list, the registry operations keep it that way, and
    [find_local_socket], which scans the main list only, never returns a
    socket that is on the closing list. *)
Theorem closing_list_hidden :
  (forall E cc w s so w3 l,
      socks w !! s = Some so ->
      peer_torn_down E cc w s so w3 ->
      socks w3 !! s = Some so ->
      chainb (pkts w3) (pkt_first so) l = true ->
      (destroy_now so = false -> st_write (fde so) = true) ->
      s ∈ local_socket_list w3 ->
      closing_list_ok w3 ->
      exists w',
        local_socket_close E cc s w =
          (if destroy_now so && exit_on_close so then Exit 1 w' else Ok tt w')
        /\ closing_list_ok w'
        /\ (s ∉ local_socket_list w')
        /\ (destroy_now so = false ->
            (s ∈ local_socket_closing_list w')
            /\ exists so', socks w' !! s = Some so' /\ id so' = 0
                           /\ closing so' = true))
  /\ (forall w s so w',
         socks w !! s = Some so ->
         (s ∉ local_socket_closing_list w) ->
         install_local_socket s w = Ok tt w' ->
         closing_list_ok w -> closing_list_ok w')
  /\ (forall w local_id peer_id x w',
         closing_list_ok w ->
         find_local_socket local_id peer_id w = Ok (Some x) w' ->
         w' = w
         /\ (x ∈ local_socket_list w)
         /\ (x ∉ local_socket_closing_list w)
         /\ exists xo, socks w !! x = Some xo /\ id xo = local_id).
Proof.
  split; [|split].
  - intros E cc w s so w3 l Hs Ht Hs3 Hl Hw Hmain Hok.
    rewrite (local_socket_close_paired E cc w s so w3 l Hs Ht Hs3 Hl).
    set (w4 := with_socks (<[s := set_peer None so]> (socks w3)) w3).
    assert (Hok4 : closing_list_ok w4) by now apply closing_list_ok_unpeered.
    unfold close_finish.
    change (destroy_now (set_peer None so)) with (destroy_now so).
    change (exit_on_close (set_peer None so)) with (exit_on_close so).
    change (st_write (fde (set_peer None so))) with (st_write (fde so)).
    destruct (destroy_now so) eqn:Hd.
    + exists (destroyed s (set_peer None so) l w4).
      split; [now destruct (exit_on_close so)|].
      split; [now apply closing_list_ok_destroyed|].
      split; [apply not_elem_of_unlink|discriminate].
    + rewrite (Hw eq_refl). cbn [andb].
      exists (deferred s (set_peer None so) w4).
      split; [reflexivity|].
      split; [now apply closing_list_ok_deferred|].
      split; [apply not_elem_of_unlink|].
      intros _. split.
      * cbn. apply elem_of_app. right. left.
      * eexists. cbn. rewrite lookup_insert_eq. split; [reflexivity|].
        unfold linked. cbn. rewrite (bool_decide_eq_true_2 _ Hmain). auto.
  - intros w s so w' Hs Hncl Hrun Hok.
    rewrite (install_local_socket_ok w s so Hs) in Hrun.
    destruct ((local_socket_next_id w + 1) mod 2 ^ 32 =? 0); [discriminate|].
    injection Hrun as <-.
    intros x Hx. cbn in *.
    destruct (Hok x Hx) as (Hmain & xo & Hxo & Hid & Hcl).
    assert (Hne : x <> s) by (intros ->; contradiction).
    split.
    + rewrite elem_of_app, list_elem_of_singleton. tauto.
    + exists xo. rewrite lookup_insert_ne by congruence. auto.
  - intros w local_id peer_id x w' Hok Hrun.
    unfold find_local_socket in Hrun. unfold bind at 1, get in Hrun.
    apply find_local_socket_scan_spec in Hrun as [-> Hr].
    destruct (Hr x eq_refl) as [Hin Hxo].
    split; [reflexivity|]. split; [exact Hin|]. split; [|exact Hxo].
    intros Hcl. now destruct (Hok x Hcl).
Qed.

Lemma closing_list_hidden_witness :
  exists w',
    local_socket_close Scenario.device_env (asocket_close Scenario.device_env) 1
      Scenario.backlog_pair = Ok tt w'
    /\ closing_list_ok w'
    /\ (1%positive ∉ local_socket_list w')
    /\ (1%positive ∈ local_socket_closing_list w')
    /\ (exists so', socks w' !! 1%positive = Some so' /\ id so' = 0
                    /\ closing so' = true)
    /\ find_local_socket 1 0 w' = Ok None w'.
Proof.
  destruct closing_list_hidden as (Hclose & _ & _).
  destruct (Hclose Scenario.device_env (asocket_close Scenario.device_env)
              Scenario.backlog_pair 1%positive
              (Scenario.local1_backlog (Some 3%positive)) Scenario.backlog_alone
              [100%positive])
    as (w' & Hrun & Hok & Hmain & Hdefer).
  - reflexivity.
  - split; [discriminate|].
    exists (Scenario.remote3 (Some 1%positive)),
           (emit (Some 7%positive) (control_packet Scenario.device_env A_CLSE 1 5)
              Scenario.backlog_pair).
    split; [reflexivity|]. split; vm_compute; reflexivity.
  - reflexivity.
  - reflexivity.
  - reflexivity.
  - left.
  - intros x Hx. inversion Hx.
  - exists w'. destruct (Hdefer eq_refl) as (Hcl & Hso).
    split; [exact Hrun|]. split; [exact Hok|]. split; [exact Hmain|].
    split; [exact Hcl|]. split; [exact Hso|].
    vm_compute in Hrun. injection Hrun as <-. reflexivity.
Defined.


(** ** Calls through the ready pointer *)

Lemma ready_dispatch_S E n s w :
  ready_dispatch E (S n) s w =
    (so <- load s;;
     match ready so with
     | FN_local_socket_ready => local_socket_ready s
     | FN_local_socket_ready_notify =>
         local_socket_ready_notify (ready_dispatch E n) s
     | FN_remote_socket_ready => remote_socket_ready E s
     | FN_smart_socket_ready => smart_socket_ready s
     end) w.
Proof. reflexivity. Qed.

Lemma peer_of_none w s so :
  socks w !! s = Some so -> peer so = None -> peer_of s w = Fault.
Proof. intros H Hq. unfold peer_of, bind, load. rewrite H, Hq. reflexivity. Qed.

(** ** Forwarding a request to the remote side *)

Lemma cstr_terminated (dest rest : list byte) :
  cstr (dest ++ x00 :: rest) = cstr dest.
Proof.
  induction dest as [|c dest IH]; cbn; [reflexivity|].
  destruct (Byte.eqb c x00); [reflexivity|]. now f_equal.
Qed.



(** ** Runs that come back *)

Lemma returns_bind {A B} (m : M A) (k : A -> M B) w (P : B -> world -> Prop) :
  returns (m w) (fun a w1 => returns (k a w1) P) -> returns (bind m k w) P.
Proof. unfold bind. now destruct (m w). Qed.

Lemma returns_mono {A} (o : outcome A) (P Q : A -> world -> Prop) :
  returns o P -> (forall a w, P a w -> Q a w) -> returns o Q.
Proof. destruct o; cbn; auto. Qed.

Lemma returns_inv {A} (o : outcome A) (P : A -> world -> Prop) :
  returns o P -> o <> OutOfFuel /\ forall a w, o = Ok a w -> P a w.
Proof.
  destruct o; cbn; intros H; split; try discriminate; try contradiction.
  now intros a' w' [= <- <-].
Qed.

Lemma bind_inv {A B} (m : M A) (k : A -> M B) w r w' :
  bind m k w = Ok r w' -> exists a w1, m w = Ok a w1 /\ k a w1 = Ok r w'.
Proof. unfold bind. destruct (m w) as [a w1| | | |]; try discriminate. eauto. Qed.

Lemma alloc_ok so w :
  alloc so w =
    Ok (fresh_key (socks w)) (with_socks (<[fresh_key (socks w) := so]> (socks w)) w).
Proof. reflexivity. Qed.

(** A ready call only re-arms or re-labels the socket it is made on,
    writes to its fd and puts packets on the wire. *)
Lemma ready_dispatch_frame E n w s so :
  socks w !! s = Some so ->
  (forall x, peer so = Some x -> is_Some (socks w !! x)) ->
  returns (ready_dispatch E (S (S n)) s w) (fun _ w' =>
    (forall x, x <> s -> socks w' !! x = socks w !! x)
    /\ (exists so', socks w' !! s = Some so' /\ peer so' = peer so
                    /\ closing so' = closing so /\ pkt_first so' = pkt_first so
                    /\ pkt_last so' = pkt_last so)
    /\ pkts w' = pkts w
    /\ local_socket_list w' = local_socket_list w
    /\ local_socket_closing_list w' = local_socket_closing_list w).
Proof.
  intros Hs Hpeer.
  rewrite ready_dispatch_S. repeat mstep.
  destruct (ready so) eqn:Hr.
  - unfold local_socket_ready. mfin. cbn.
    split; [intros x Hx; now rewrite lookup_insert_ne by congruence|].
    rewrite lookup_insert_eq. split; [eexists; split; [reflexivity|]|]; auto.
  - unfold local_socket_ready_notify, SendOkay. repeat mstep.
    rewrite ready_dispatch_S. repeat mstep.
    unfold local_socket_ready. mfin. cbn.
    split; [intros x Hx; now rewrite lookup_insert_ne by congruence|].
    rewrite lookup_insert_eq. split; [eexists; split; [reflexivity|]|]; auto.
  - destruct (peer so) as [x|] eqn:Hp.
    + destruct (Hpeer x eq_refl) as [xo Hxo].
      rewrite (remote_socket_ready_ok E w s so x xo Hs Hp Hxo).
      cbn. split; [reflexivity|].
      split; [exists so; auto|]. auto.
    + unfold remote_socket_ready. repeat mstep.
      erewrite bind_eq by (eapply peer_of_none; [lookup_tac|exact Hp]).
      exact I.
  - unfold smart_socket_ready, ret. cbn.
    split; [reflexivity|]. split; [exists so; auto|]. auto.
Qed.

Lemma connect_to_remote_inv E w q qo dest :
  socks w !! q = Some qo -> peer qo = None ->
  returns (connect_to_remote E q dest w) (fun _ w' =>
    exists pk,
      w' = emit (transport qo) pk w
      /\ msg_command (msg pk) = A_OPEN /\ arg0 (msg pk) = id qo
      /\ cstr (data pk) = cstr dest).
Proof.
  intros Hq Hp. unfold connect_to_remote. repeat mstep.
  erewrite bind_ok
    by (apply get_max_payload_ok;
        [lookup_tac|intros x Hx; rewrite Hp in Hx; discriminate]).
  match goal with |- context [if ?b then abort else _] => destruct b end;
    [exact I|].
  repeat mstep.
  match goal with |- context [if ?b then fault else _] => destruct b eqn:Hcap end;
    [exact I|].
  repeat mstep. mfin.
  rewrite delete_insert_eq, delete_id by apply fresh_key_None.
  eexists. split; [destruct w; reflexivity|].
  cbn. split; [reflexivity|]. split; [reflexivity|].
  apply cstr_terminated.
Qed.
(** ** The ways out of [smart_socket_enqueue] *)

Lemma smart_socket_fail_outcome E w s so q qo lq a :
  smart_pair_ok w s so q qo lq ->
  pkt_first so = Some a -> is_Some (pkts w !! a) -> a ∉ lq ->
  exists w',
    smart_socket_fail (asocket_close E) s w = Ok (-1) w'
    /\ socks w' !! s = None /\ pkts w' !! a = None
    /\ (q ∉ local_socket_list w')
    /\ (socks w' !! q = None
        \/ exists qo', socks w' !! q = Some qo' /\ closing qo' = true
                       /\ peer qo' = None).
Proof.
  intros (Hs & Hc & Hp & Hne & Hq & Hcq & Hex & Hw & Hl) Hf Ha Halq.
  exists (smart_failed s so q qo lq w). split.
  - apply smart_socket_fail_ok; try assumption.
    intros a' Ha'. rewrite Hf in Ha'. injection Ha' as <-. auto.
  - destruct (smart_failed_spec s so q qo lq w Hne)
      as (Hs' & Hp' & _ & _ & Hq1 & Hq2).
    split; [exact Hs'|]. split; [now apply Hp'|]. split; [exact Hq1|].
    rewrite Hq2. destruct (destroy_now qo); [now left|].
    right. eexists. split; [reflexivity|]. now destruct (linked q w).
Qed.

Lemma smart_socket_match_host_ok w a buf :
  pkts w !! a = Some buf ->
  exists rq d,
    smart_socket_match_host a w =
      Ok rq (with_pkts (<[a := set_data d buf]> (pkts w)) w).
Proof.
  intros Ha.
  assert (Hid : forall rq : option host_request,
             exists rq' d, Ok rq w =
               Ok rq' (with_pkts (<[a := set_data d buf]> (pkts w)) w)).
  { intros rq. exists rq, (data buf).
    replace (set_data (data buf) buf) with buf by now destruct buf.
    rewrite insert_id by exact Ha. now destruct w. }
  unfold smart_socket_match_host. rewrite (bind_ok _ _ _ _ _ (loadp_ok _ _ _ Ha)).
  destruct (has_prefix "host-serial:" (cstr (drop 4 (data buf)))).
  - destruct (skip_host_serial (drop 12 (cstr (drop 4 (data buf))))) as [e|].
    + eexists _, _. repeat mstep. reflexivity.
    + apply Hid.
  - destruct (has_prefix "host-usb:" (cstr (drop 4 (data buf)))); [apply Hid|].
    destruct (has_prefix "host-local:" (cstr (drop 4 (data buf)))); [apply Hid|].
    destruct (has_prefix "host:" (cstr (drop 4 (data buf)))); apply Hid.
Qed.

Lemma chainb_single ps a po :
  ps !! a = Some po -> next po = None -> chainb ps (Some a) [a] = true.
Proof. intros Ha Hn. cbn. now rewrite Pos.eqb_refl, Ha, Hn. Qed.

Lemma smart_socket_fail_then E w s so q qo lq a buf main :
  smart_pair_ok w s so q qo lq ->
  pkt_first so = Some a -> pkts w !! a = Some buf -> a ∉ lq ->
  returns (smart_socket_fail (asocket_close E) s w) (enqueue_outcome main s q qo a).
Proof.
  intros Hwf Hf Ha Hlq.
  destruct (smart_socket_fail_outcome E w s so q qo lq a Hwf Hf (mk_is_Some _ _ Ha) Hlq)
    as (w2 & Heq & H).
  rewrite Heq. cbn [returns].
  right. left. split; [reflexivity|exact H].
Qed.

Lemma smart_socket_close_peerless E w s so a po :
  socks w !! s = Some so -> close so = FN_smart_socket_close ->
  peer so = None -> pkt_first so = Some a ->
  pkts w !! a = Some po -> next po = None ->
  asocket_close E s w =
    Ok tt (with_socks (delete s (socks w)) (with_pkts (delete a (pkts w)) w)).
Proof.
  intros Hs Hc Hp Hf Ha Hn. unfold asocket_close, call_depth.
  rewrite (close_dispatch_peerless E 2 w s so [a] Hs Hp).
  - unfold close_peerless. now rewrite Hc, Hf.
  - rewrite Hf. now apply (chainb_single _ _ po).
Qed.

Ltac call_ok ::=
  first
    [ eapply remove_socket_ok; lookup_tac
    | eapply insert_local_socket_ok; lookup_tac
    | eapply deref_ok; eassumption
    | apply get_max_payload_ok; [ lookup_tac | assumption ]
    | apply write_fd_ok
    | eapply smart_socket_close_peerless;
      [ lookup_tac | rsimpl; eassumption | reflexivity | rsimpl; eassumption
      | lookup_tac | assumption ] ].

Lemma smart_socket_host_service_outcome E w s so q qo lq a buf rq :
  smart_pair_ok w s so q qo lq ->
  pkt_first so = Some a -> pkt_last so = Some a ->
  pkts w !! a = Some buf -> next buf = None -> a ∉ lq ->
  returns (smart_socket_host_service E (asocket_close E) (asocket_ready E) s a rq w)
    (enqueue_outcome (local_socket_list w) s q qo a).
Proof.
  intros Hwf Hf Hla Ha Hn Hlq.
  pose proof Hwf as (Hs & Hc & Hp & Hne & Hq & Hcq & Hex & Hw & Hl).
  set (main := local_socket_list w).
  assert (Htail : forall w1 so1,
    smart_pair_ok w1 s so1 q qo lq ->
    pkt_first so1 = Some a -> pkt_last so1 = Some a ->
    pkts w1 !! a = Some buf -> local_socket_list w1 = main ->
    returns ((if hr_status (handle_host_request E (hq_service rq) (hq_type rq)
                     (hq_serial rq) (fd qo) s) =? 0
     then smart_socket_fail (asocket_close E) s
     else if has_prefix "transport" (hq_service rq)
     then storep a (set_len 0);; ret 0
     else match host_service_to_socket E (hq_service rq) (hq_serial rq) with
          | None =>
              q <- peer_of s;;
              qo <- load q;;
              SendFail (fd qo) (bytes_of_string "unknown host service");;
              smart_socket_fail (asocket_close E) s
          | Some s2o =>
              s2 <- alloc s2o;;
              q <- peer_of s;;
              qo <- load q;;
              SendOkay (fd qo);;
              q <- peer_of s;;
              store q (set_ready FN_local_socket_ready);;
              q <- peer_of s;;
              store q (set_shutdown None);;
              q <- peer_of s;;
              store q (set_close FN_local_socket_close);;
              q <- peer_of s;;
              store q (set_peer (Some s2));;
              so <- load s;;
              store s2 (set_peer (peer so));;
              store s (set_peer None);;
              asocket_close E s;;
              asocket_ready E s2;;
              ret 0
          end) w1) (enqueue_outcome main s q qo a)).
  { clearbody main. clear Hwf Hf Hla Ha Hs Hc Hp Hne Hq Hcq Hex Hw Hl.
    clear w so.
    intros w so Hwf Hf Hla Ha Hmain.
    pose proof Hwf as (Hs & Hc & Hp & Hne & Hq & Hcq & Hex & Hw & Hl).
    destruct (_ =? 0).
    { now apply (smart_socket_fail_then E w s so q qo lq a buf). }
    destruct (has_prefix _ _).
    { repeat mstep. unfold ret. cbn [returns]. left. split; [reflexivity|].
      split.
      - exists so, (set_len 0 buf). wsimpl. rewrite lookup_insert_eq.
        now destruct buf.
      - now wsimpl. }
    destruct (host_service_to_socket _ _ _) as [s2o|].
    2:{ unfold SendFail. repeat mstep.
        now apply (smart_socket_fail_then E _ s so q qo lq a buf). }
    rewrite (bind_ok _ _ _ _ _ (alloc_ok _ _)).
    pose proof (fresh_key_None (socks w)) as Hfr.
    set (s2 := fresh_key (socks w)) in *.
    assert (Hs2s : s2 <> s) by congruence.
    assert (Hs2q : s2 <> q) by congruence.
    unfold SendOkay. repeat mstep. rewrite Hp.
    repeat mstep.
    apply returns_bind. unfold asocket_ready, call_depth.
    eapply returns_mono.
    { eapply (ready_dispatch_frame E 2 _ s2).
      - wsimpl. rewrite lookup_delete_ne by congruence. lookup_tac.
      - rsimpl. intros x [= <-]. wsimpl.
        rewrite lookup_delete_ne by congruence.
        rewrite lookup_insert_ne by congruence.
        rewrite lookup_insert_ne by congruence.
        rewrite lookup_insert_eq. eauto. }
    intros [] w3 (Hoth & (s2o' & Hs2 & Hps2 & _) & Hpk & Hml & _).
    unfold ret. cbn [returns]. revert Hoth Hs2 Hps2 Hpk Hml. wsimpl. rsimpl.
    intros Hoth Hs2 Hps2 Hpk Hml.
    right. right. left. split; [reflexivity|].
    rewrite (Hoth s) by congruence. rewrite (Hoth q) by congruence.
    rewrite Hpk, Hml. wsimpl.
    split; [apply lookup_delete_eq|]. split; [apply lookup_delete_eq|].
    split; [exact Hmain|].
    eexists _, s2, s2o'.
    split; [lookup_tac|]. rsimpl.
    repeat split; try assumption; try reflexivity. }
  unfold smart_socket_host_service. repeat mstep.
  destruct (hr_bind _) as [t|].
  - repeat mstep. apply Htail with (so1 := set_transport (Some t) so); try assumption.
    + unfold smart_pair_ok. wsimpl. rewrite lookup_insert_eq.
      rewrite lookup_insert_ne by congruence. now rsimpl.
    + reflexivity.
  - repeat mstep. now apply Htail with (so1 := so).
Qed.

Lemma smart_socket_connect_outcome E w s so q qo lq a buf :
  smart_pair_ok w s so q qo lq ->
  pkt_first so = Some a -> pkt_last so = Some a ->
  pkts w !! a = Some buf -> next buf = None -> a ∉ lq ->
  returns (smart_socket_connect E (asocket_close E) s a w)
    (enqueue_outcome (local_socket_list w) s q qo a).
Proof.
  intros Hwf Hf Hla Ha Hn Hlq.
  pose proof Hwf as (Hs & Hc & Hp & Hne & Hq & Hcq & Hex & Hw & Hl).
  unfold smart_socket_connect. repeat mstep.
  destruct (transport so) as [t|] eqn:Ht.
  2:{ unfold SendFail. repeat mstep.
      now apply (smart_socket_fail_then E _ s so q qo lq a buf). }
  destruct (GetConnectionState E t).
  { unfold SendFail. repeat mstep.
    now apply (smart_socket_fail_then E _ s so q qo lq a buf). }
  repeat mstep.
  apply returns_bind. eapply returns_mono.
  { eapply connect_to_remote_inv; [lookup_tac|reflexivity]. }
  intros [] w2 (pk & -> & _).
  repeat mstep. unfold ret. cbn [returns].
  right. right. right. split; [reflexivity|]. wsimpl.
  split; [apply lookup_delete_eq|]. split; [apply lookup_delete_eq|].
  split; [reflexivity|].
  eexists. split; [lookup_tac|]. now rsimpl.
Qed.

Lemma smart_socket_dispatch_outcome E w s so q qo lq a buf :
  smart_pair_ok w s so q qo lq ->
  pkt_first so = Some a -> pkt_last so = Some a ->
  pkts w !! a = Some buf -> next buf = None -> a ∉ lq ->
  returns (smart_socket_dispatch E (asocket_close E) (asocket_ready E) s a w)
    (enqueue_outcome (local_socket_list w) s q qo a).
Proof.
  intros Hwf Hf Hla Ha Hn Hlq.
  pose proof Hwf as (Hs & Hc & Hp & Hne & Hq & Hcq & Hex & Hw & Hl).
  unfold smart_socket_dispatch.
  destruct (ADB_HOST E).
  - destruct (smart_socket_match_host_ok w a buf Ha) as (rq & d & Hm).
    rewrite (bind_ok _ _ _ _ _ Hm).
    assert (Hwf1 : smart_pair_ok (with_pkts (<[a:=set_data d buf]> (pkts w)) w)
                     s so q qo lq).
    { unfold smart_pair_ok. wsimpl. repeat split; try assumption.
      rewrite chainb_insert; assumption. }
    destruct rq as [rq|].
    + match goal with |- returns (_ ?w1) _ =>
      apply (smart_socket_host_service_outcome E w1 s so q qo lq a (set_data d buf)
               rq Hwf1) end; try assumption.
      wsimpl. apply lookup_insert_eq.
    + repeat mstep.
      match goal with |- returns (_ ?w1) _ =>
      apply (smart_socket_connect_outcome E w1 s so q qo lq a (set_data d buf) Hwf1) end;
        try assumption.
      wsimpl. apply lookup_insert_eq.
  - repeat mstep.
    destruct (transport so) as [t|] eqn:Ht.
    + repeat mstep.
      now apply (smart_socket_connect_outcome E w s so q qo lq a buf).
    + destruct (acquire_one_transport E kTransportAny) as [t|msg].
      * repeat mstep.
        match goal with |- returns (_ ?w1) _ =>
      apply (smart_socket_connect_outcome E w1 s (set_transport (Some t) so)
                 q qo lq a buf) end; try assumption.
        unfold smart_pair_ok. wsimpl. rewrite lookup_insert_eq.
        rewrite lookup_insert_ne by congruence. now rsimpl.
      * unfold SendFail. repeat mstep.
        now apply (smart_socket_fail_then E _ s so q qo lq a buf).
Qed.

Lemma frame_verdict_inv E a buf w :
  pkts w !! a = Some buf ->
  returns (frame_verdict E a buf w) (fun f w1 =>
    exists buf',
      w1 = with_pkts (<[a := buf']> (pkts w)) w
      /\ next buf' = next buf
      /\ (forall p' n, f = Frame_request p' n -> p' = a)).
Proof.
  intros Ha.
  assert (Hid : w = with_pkts (<[a := buf]> (pkts w)) w).
  { rewrite insert_id by exact Ha. now destruct w. }
  unfold frame_verdict.
  destruct (len buf <? 4).
  { exists buf. now repeat split. }
  destruct (unhex (data buf) 4) as [n|]; [|exact I].
  destruct ((n <? 1) || (MAX_PAYLOAD_V1 E <? n)).
  { exists buf. now repeat split. }
  destruct (len buf <? (n + 4) mod 2 ^ 32).
  { exists buf. now repeat split. }
  destruct (Z.of_nat (length (data buf)) <=? (n + 4) mod 2 ^ 32); [exact I|].
  cbn [returns]. eexists. split; [reflexivity|]. split; [reflexivity|].
  now intros p' n' [= <- _].
Qed.

(** What the first half of [smart_socket_enqueue] leaves behind: one
    packet [a], head and tail of the queue at once. *)
Lemma smart_socket_frame_single E w s so q qo lq p po :
  smart_pair_ok w s so q qo lq -> smart_queue_ok w so ->
  pkts w !! p = Some po -> next po = None -> p ∉ lq ->
  (forall a, pkt_first so = Some a -> a <> p /\ (a ∉ lq)) ->
  returns (smart_socket_frame E s p w) (fun f w1 =>
    local_socket_list w1 = local_socket_list w
    /\ exists so1 a buf,
        smart_pair_ok w1 s so1 q qo lq
        /\ pkt_first so1 = Some a /\ pkt_last so1 = Some a /\ (a ∉ lq)
        /\ pkts w1 !! a = Some buf /\ next buf = None
        /\ (forall p' n, f = Frame_request p' n -> p' = a)
        /\ match pkt_first so with
           | None => a = p
           | Some first => a = first /\ pkts w1 !! p = None
           end).
Proof.
  intros Hwf Hsingle Hpo Hn Hplq Hhd.
  pose proof Hwf as (Hs & Hc & Hp & Hne & Hq & Hcq & Hex & Hw & Hl).
  unfold smart_queue_ok in Hsingle.
  destruct (pkt_first so) as [first|] eqn:Hf.
  - destruct Hsingle as (Hla & fo & Hfo & Hfn).
    destruct (Hhd first eq_refl) as (Hfp & Hflq).
    rewrite (smart_socket_frame_append E w s so first fo p po Hs Hf); try assumption.
    2:{ intros q' Hq'. rewrite Hp in Hq'. injection Hq' as <-. now exists qo. }
    destruct (_ <? _).
    + cbn [returns]. split; [reflexivity|].
      exists so, first, fo. wsimpl.
      split.
      { unfold smart_pair_ok. wsimpl. repeat split; try assumption.
        now apply chainb_delete. }
      rewrite lookup_delete_ne by congruence.
      repeat split; try assumption; try discriminate.
      apply lookup_delete_eq.
    + destruct (memcpy _ _ _ _) as [d|]; [|exact I].
      eapply returns_mono.
      { apply frame_verdict_inv.
        wsimpl. rewrite lookup_delete_ne by congruence. apply lookup_insert_eq. }
      cbv beta. intros f w1 (buf' & -> & Hn' & Hreq). wsimpl.
      split; [reflexivity|].
      exists so, first, buf'.
      split.
      { unfold smart_pair_ok. wsimpl. repeat split; try assumption.
        rewrite chainb_insert by assumption.
        apply chainb_delete; [assumption|].
        now rewrite chainb_insert by assumption. }
      rewrite lookup_insert_eq.
      repeat split; try assumption.
      * now rewrite Hn'.
      * rewrite lookup_insert_ne by congruence. apply lookup_delete_eq.
  - rewrite (smart_socket_frame_first E w s so p po Hs Hf Hpo).
    eapply returns_mono.
    { apply frame_verdict_inv. exact Hpo. }
    cbv beta. intros f w1 (buf' & -> & Hn' & Hreq). wsimpl.
    split; [reflexivity|].
    exists (set_pkt_last (Some p) (set_pkt_first (Some p) so)), p, buf'.
    split.
    { unfold smart_pair_ok. wsimpl. rewrite lookup_insert_eq.
      rewrite lookup_insert_ne by congruence. rsimpl.
      repeat split; try assumption.
      now rewrite chainb_insert by assumption. }
    rewrite lookup_insert_eq.
    repeat split; try assumption; try reflexivity.
    now rewrite Hn'.
Qed.

Lemma smart_socket_enqueue_outcome E w s so q qo lq p po :
  smart_pair_ok w s so q qo lq -> smart_queue_ok w so ->
  pkts w !! p = Some po -> next po = None -> p ∉ lq ->
  (forall a, pkt_first so = Some a -> a <> p /\ (a ∉ lq)) ->
  returns (smart_socket_enqueue E (asocket_close E) (asocket_ready E) s p w)
    (enqueue_outcome (local_socket_list w) s q qo
       (match pkt_first so with Some first => first | None => p end)).
Proof.
  intros Hwf Hsingle Hpo Hn Hplq Hhd.
  unfold smart_socket_enqueue.
  apply returns_bind. eapply returns_mono.
  { exact (smart_socket_frame_single E w s so q qo lq p po
             Hwf Hsingle Hpo Hn Hplq Hhd). }
  cbv beta.
  intros f w1 (Hmain & so1 & a & buf & Hwf1 & Hf1 & Hl1 & Halq & Ha & Hnb & Hreq & Hwhich).
  assert (Hsame : match pkt_first so with Some first => first | None => p end = a).
  { destruct (pkt_first so); [now destruct Hwhich|congruence]. }
  rewrite Hsame, <- Hmain.
  destruct f as [| |p' n].
  - unfold ret. cbn [returns]. left. split; [reflexivity|].
    destruct Hwf1 as (Hs1 & _ & _ & _ & Hq1 & _).
    split; [now exists so1, buf|]. now split.
  - now apply (smart_socket_fail_then E w1 s so1 q qo lq a buf).
  - rewrite (Hreq p' n eq_refl).
    now apply (smart_socket_dispatch_outcome E w1 s so1 q qo lq a buf).
Qed.


(** ** One packet at most in a smart socket *)

Lemma smart_queue_chain w so l :
  smart_queue_ok w so -> chainb (pkts w) (pkt_first so) l = true ->
  (length l <= 1)%nat.
Proof.
  unfold smart_queue_ok. destruct (pkt_first so) as [a|].
  - intros (_ & po & Ha & Hn) Hl. destruct l as [|b l]; [cbn; lia|].
    apply chainb_cons in Hl as ([= <-] & po' & Ha' & Hl).
    rewrite Ha in Ha'. injection Ha' as <-. rewrite Hn in Hl.
    destruct l; [cbn; lia|discriminate].
  - intros _ Hl. destruct l; [cbn; lia|discriminate].
Qed.

Lemma enqueue_outcome_single main s q qo a r w' so' :
  enqueue_outcome main s q qo a r w' ->
  socks w' !! s = Some so' -> smart_queue_ok w' so'.
Proof.
  intros [(_ & (so1 & po1 & Hs & Hf & Hl & Ha & Hn) & _)
         |[(_ & Hs & _)|[(_ & Hs & _)|(_ & Hs & _)]]] Hlive;
    try congruence.
  rewrite Hs in Hlive. injection Hlive as <-.
  unfold smart_queue_ok. rewrite Hf. split; [exact Hl|]. now exists po1.
Qed.

(** ** The first statement of [smart_socket_enqueue] *)

Lemma smart_socket_accumulate_first E w s so p :
  socks w !! s = Some so -> pkt_first so = None ->
  smart_socket_accumulate E s p w =
    Ok (Some p)
       (with_socks (<[s := set_pkt_last (Some p) (set_pkt_first (Some p) so)]>
                      (socks w)) w).
Proof.
  intros Hs Hf. unfold smart_socket_accumulate.
  repeat mstep. rewrite Hf. repeat mstep. reflexivity.
Qed.

Lemma smart_socket_accumulate_append E w s so first fo p po :
  socks w !! s = Some so -> pkt_first so = Some first ->
  (forall q, peer so = Some q -> is_Some (socks w !! q)) ->
  pkts w !! first = Some fo -> pkts w !! p = Some po -> first <> p ->
  smart_socket_accumulate E s p w =
    if max_payload_of E w so <? len fo + len po then
      Ok None (with_pkts (delete p (pkts w)) w)
    else
      match memcpy (data fo) (len fo) (data po) (len po) with
      | None => Fault
      | Some d =>
          Ok (Some first)
             (with_pkts (delete p (<[first := set_len (len fo + len po) (set_data d fo)]>
                                     (pkts w))) w)
      end.
Proof.
  intros Hs Hf Hq Hfo Hp Hne. unfold smart_socket_accumulate.
  repeat mstep. rewrite Hf. repeat mstep.
  destruct (max_payload_of E w so <? len fo + len po).
  - repeat mstep. reflexivity.
  - destruct (memcpy (data fo) (len fo) (data po) (len po)) as [d|]; [|reflexivity].
    repeat mstep. rewrite Hf. reflexivity.
Qed.

Lemma chainb_live ps first l a :
  chainb ps first l = true -> a ∈ l -> is_Some (ps !! a).
Proof.
  intros Hl Ha.
  destruct (chainb_suffix _ _ _ _ Hl Ha) as (l1 & l2 & _ & Hc).
  destruct (chainb_cons' _ _ _ Hc) as (po & Hpo). now exists po.
Qed.

(** A packet fresh from [get_apacket], filled by the caller, is taken in
    by [smart_socket_enqueue] without breaking the queue. *)
Lemma smart_socket_enqueue_fresh E w s so q qo lq (fill : apacket -> apacket) :
  smart_pair_ok w s so q qo lq -> smart_queue_ok w so ->
  (forall a, pkt_first so = Some a -> a ∉ lq) ->
  (forall x, next (fill x) = next x) ->
  returns ((p0 <- get_apacket E;;
            storep p0 fill;;
            smart_socket_enqueue E (asocket_close E) (asocket_ready E) s p0) w)
    (fun _ w' => forall so', socks w' !! s = Some so' -> smart_queue_ok w' so').
Proof.
  intros Hwf Hsingle Hhd Hfill.
  pose proof Hwf as (Hs & Hc & Hp & Hne & Hq & Hcq & Hex & Hw & Hl).
  set (p0 := fresh_key (pkts w)).
  assert (Hp0 : pkts w !! p0 = None) by apply fresh_key_None.
  rewrite (bind_ok _ _ _ _ _ (get_apacket_ok E w)). fold p0.
  erewrite bind_ok by (apply storep_ok; cbn; apply lookup_insert_eq).
  cbn [pkts with_pkts]. rewrite insert_insert_eq.
  set (po0 := fill (control_packet E A_NONE 0 0)).
  set (w1 := with_pkts (<[p0 := po0]> (pkts w)) w).
  assert (Hp0lq : p0 ∉ lq).
  { intros Hin. destruct (chainb_live _ _ _ _ Hl Hin) as (x & Hx). congruence. }
  assert (Hhd0 : forall a, pkt_first so = Some a -> a <> p0 /\ (a ∉ lq)).
  { intros a Ha. split; [|now apply Hhd].
    unfold smart_queue_ok in Hsingle. rewrite Ha in Hsingle.
    destruct Hsingle as (_ & fo & Hfo & _). congruence. }
  eapply returns_mono.
  { apply (smart_socket_enqueue_outcome E w1 s so q qo lq p0 po0).
    - unfold smart_pair_ok, w1. wsimpl. repeat split; try assumption.
      now rewrite chainb_insert.
    - unfold smart_queue_ok in *. destruct (pkt_first so) as [a|] eqn:Ha; [|exact I].
      destruct Hsingle as (Hla & fo & Hfo & Hn). split; [exact Hla|].
      exists fo. split; [|exact Hn].
      unfold w1. wsimpl. rewrite lookup_insert_ne; [exact Hfo|].
      intros <-. congruence.
    - unfold w1. wsimpl. apply lookup_insert_eq.
    - unfold po0. rewrite Hfill. reflexivity.
    - exact Hp0lq.
    - exact Hhd0. }
  cbv beta. intros r w' Hout so' Hlive.
  exact (enqueue_outcome_single _ _ _ _ _ _ _ _ Hout Hlive).
Qed.

(** C10: a smart socket never holds more than one packet.  A new smart
    socket has an empty queue.  The first statement of
    [smart_socket_enqueue] either installs the incoming packet, as it
    is, as head and tail of the queue, or, with a head already there,
    copies the [len] bytes of the incoming packet into the head behind
    the bytes the head holds, adds [len] to the length of the head and
    frees the incoming packet (when the sum exceeds the payload limit it
    frees the incoming packet and fails); the [next] link of the head is
    never written.  So, for an incoming packet whose [next] link is
    null, the head is also the tail and its [next] link is null as long
    as the smart socket lives; this is so for every packet that comes
    from [get_apacket] and is filled by the caller without touching the
    link, as [local_socket_event_func] does before it calls [enqueue].
    A queue has at most one element, and [smart_socket_close], which
    frees [pkt_first] only, releases the whole queue. *)
Theorem smart_queue_single_packet E w s so q qo lq p po :
  smart_pair_ok w s so q qo lq -> smart_queue_ok w so ->
  pkts w !! p = Some po -> p ∉ lq ->
  (forall a, pkt_first so = Some a -> a <> p /\ (a ∉ lq)) ->
  (forall w0, exists s0 so0,
      create_smart_socket w0 =
        Ok s0 (with_socks (<[s0 := so0]> (socks w0)) w0)
      /\ socks w0 !! s0 = None /\ pkt_first so0 = None)
  /\ match pkt_first so with
     | None =>
         smart_socket_accumulate E s p w =
           Ok (Some p)
              (with_socks (<[s := set_pkt_last (Some p) (set_pkt_first (Some p) so)]>
                             (socks w)) w)
     | Some first =>
         forall fo, pkts w !! first = Some fo ->
           (max_payload_of E w so < len fo + len po ->
            smart_socket_accumulate E s p w =
              Ok None (with_pkts (delete p (pkts w)) w))
           /\ (len fo + len po <= max_payload_of E w so ->
               0 <= len fo -> 0 <= len po ->
               len fo + len po <= Z.of_nat (length (data fo)) ->
               len po <= Z.of_nat (length (data po)) ->
               smart_socket_accumulate E s p w =
                 Ok (Some first)
                    (with_pkts
                       (delete p
                          (<[first :=
                               {| next := next fo; ptr := ptr fo;
                                  len := len fo + len po; msg := msg fo;
                                  data := take (Z.to_nat (len fo)) (data fo)
                                            ++ take (Z.to_nat (len po)) (data po)
                                            ++ drop (Z.to_nat (len fo + len po))
                                                 (data fo) |}]>
                             (pkts w))) w))
     end
  /\ (next po = None ->
      returns (smart_socket_frame E s p w) (fun _ w1 =>
        exists so1 a,
          socks w1 !! s = Some so1 /\ pkt_first so1 = Some a
          /\ smart_queue_ok w1 so1
          /\ match pkt_first so with
             | None => a = p
             | Some first => a = first /\ pkts w1 !! p = None
             end)
      /\ returns (smart_socket_enqueue E (asocket_close E) (asocket_ready E) s p w)
           (fun _ w' => forall so', socks w' !! s = Some so' -> smart_queue_ok w' so'))
  /\ (forall fill : apacket -> apacket,
        (forall x, next (fill x) = next x) ->
        returns ((p0 <- get_apacket E;;
                  storep p0 fill;;
                  smart_socket_enqueue E (asocket_close E) (asocket_ready E) s p0) w)
          (fun _ w' => forall so', socks w' !! s = Some so' -> smart_queue_ok w' so'))
  /\ (forall l, chainb (pkts w) (pkt_first so) l = true -> (length l <= 1)%nat)
  /\ exists w',
       asocket_close E s w = Ok tt w' /\ socks w' !! s = None
       /\ (forall a, pkt_first so = Some a -> pkts w' !! a = None)
       /\ forall l a, chainb (pkts w) (pkt_first so) l = true -> a ∈ l ->
                      pkts w' !! a = None.
Proof.
  intros Hwf Hsingle Hpo Hplq Hhd.
  pose proof Hwf as (Hs & Hc & Hp & Hne & Hq & Hcq & Hex & Hw & Hl).
  split; [|split; [|split; [|split; [|split]]]].
  - intros w0. eexists _, _. split; [reflexivity|].
    split; [apply fresh_key_None|reflexivity].
  - destruct (pkt_first so) as [first|] eqn:Hf.
    + intros fo Hfo. destruct (Hhd first eq_refl) as (Hfp & _).
      assert (Hpeer : forall q', peer so = Some q' -> is_Some (socks w !! q')).
      { intros q' Hq'. rewrite Hp in Hq'. injection Hq' as <-. now exists qo. }
      rewrite (smart_socket_accumulate_append E w s so first fo p po
                 Hs Hf Hpeer Hfo Hpo Hfp).
      split.
      * intros Hover.
        destruct (Z.ltb_spec (max_payload_of E w so) (len fo + len po)) as [_|?];
          [reflexivity|lia].
      * intros Hfit H0 H1 H2 H3.
        destruct (Z.ltb_spec (max_payload_of E w so) (len fo + len po)) as [?|_];
          [lia|].
        unfold memcpy.
        destruct (Z.leb_spec 0 (len fo)) as [_|?]; [|lia].
        destruct (Z.leb_spec 0 (len po)) as [_|?]; [|lia].
        destruct (Z.leb_spec (len fo + len po) (Z.of_nat (length (data fo))))
          as [_|?]; [|lia].
        destruct (Z.leb_spec (len po) (Z.of_nat (length (data po)))) as [_|?]; [|lia].
        reflexivity.
    + now apply smart_socket_accumulate_first.
  - intros Hn. split.
    + eapply returns_mono.
      { exact (smart_socket_frame_single E w s so q qo lq p po
                 Hwf Hsingle Hpo Hn Hplq Hhd). }
      cbv beta.
      intros f w1 (_ & so1 & a & buf & Hwf1 & Hf1 & Hl1 & _ & Ha & Hnb & _ & Hwhich).
      exists so1, a. split; [apply Hwf1|]. split; [exact Hf1|].
      split; [|exact Hwhich].
      unfold smart_queue_ok. rewrite Hf1. split; [exact Hl1|]. now exists buf.
    + eapply returns_mono.
      { exact (smart_socket_enqueue_outcome E w s so q qo lq p po
                 Hwf Hsingle Hpo Hn Hplq Hhd). }
      cbv beta. intros r w' Hout so' Hlive.
      exact (enqueue_outcome_single _ _ _ _ _ _ _ _ Hout Hlive).
  - intros fill Hfill.
    apply (smart_socket_enqueue_fresh E w s so q qo lq fill Hwf Hsingle);
      [|exact Hfill].
    intros a Ha. now apply Hhd.
  - intros l. now apply smart_queue_chain.
  - assert (Hhd' : forall a, pkt_first so = Some a ->
                             is_Some (pkts w !! a) /\ (a ∉ lq)).
    { intros a Ha. split; [|now apply Hhd].
      unfold smart_queue_ok in Hsingle. rewrite Ha in Hsingle.
      destruct Hsingle as (_ & fo & Hfo & _). now exists fo. }
    pose proof (smart_socket_fail_ok E w s so q qo lq Hs Hc Hp Hne Hq Hcq Hex Hw
                  Hhd' Hl) as Hfail.
    unfold smart_socket_fail in Hfail.
    apply bind_inv in Hfail as ([] & w1 & Hclose & [= ->]).
    eexists. split; [exact Hclose|].
    destruct (smart_failed_spec s so q qo lq w Hne) as (Hs' & Hp' & _).
    split; [exact Hs'|]. split; [exact Hp'|].
    intros l a Hchain Ha.
    pose proof (smart_queue_chain w so l Hsingle Hchain) as Hlen.
    destruct l as [|b l]; [inversion Ha|].
    destruct l as [|b' l]; [|cbn in Hlen; lia].
    apply list_elem_of_singleton in Ha as ->.
    apply chainb_cons in Hchain as (Hb & _). now apply Hp'.
Qed.

Lemma smart_queue_single_packet_witness :
  returns (smart_socket_enqueue Scenario.host_env (asocket_close Scenario.host_env)
             (asocket_ready Scenario.host_env) 2 101 Scenario.smart_pair_partial)
    (fun _ w' => forall so', socks w' !! 2%positive = Some so' -> smart_queue_ok w' so')
  /\ exists w1 buf,
       smart_socket_accumulate Scenario.host_env 2 101 Scenario.smart_pair_partial
         = Ok (Some 100%positive) w1
       /\ pkts w1 !! 100%positive = Some buf
       /\ len buf = 9 /\ next buf = None
       /\ take 9 (data buf) = bytes_of_string "0010host:"
       /\ pkts w1 !! 101%positive = None.
Proof.
  destruct (smart_queue_single_packet Scenario.host_env Scenario.smart_pair_partial
           2%positive (Scenario.smart2_partial (Some 1%positive)) 1%positive
           (Scenario.local1 (Some 2%positive)) [] 101%positive
           (Scenario.packet_of "host:" 64))
    as (_ & Hacc & Hinv & _).
  - repeat split; try reflexivity; discriminate.
  - split; [reflexivity|]. eexists. split; reflexivity.
  - reflexivity.
  - apply not_elem_of_nil.
  - intros a [= <-]. split; [discriminate|apply not_elem_of_nil].
  - split; [exact (proj2 (Hinv eq_refl))|].
    destruct (Hacc (Scenario.packet_of "0010" 64) eq_refl) as (_ & Hcopy).
    eexists _, _. split.
    { apply Hcopy; vm_compute; discriminate. }
    vm_compute. repeat split.
Defined.


(** ** What the return value of an enqueue call tells the caller *)

Lemma enqueue_outcome_convention main s q qo a r w' :
  enqueue_outcome main s q qo a r w' ->
  (r = -1 \/ r = 0 \/ r = 1)
  /\ (r = -1 ->
      socks w' !! s = None /\ (q ∉ local_socket_list w')
      /\ (socks w' !! q = None
          \/ exists qo', socks w' !! q = Some qo' /\ closing qo' = true
                         /\ peer qo' = None))
  /\ (0 <= r ->
      local_socket_list w' = main
      /\ exists qo', socks w' !! q = Some qo' /\ closing qo' = closing qo)
  /\ (r = 1 ->
      socks w' !! s = None
      /\ exists qo', socks w' !! q = Some qo' /\ peer qo' = None)
  /\ (r = 0 ->
      is_Some (socks w' !! s)
      \/ (socks w' !! s = None
          /\ exists qo' s2,
               socks w' !! q = Some qo' /\ peer qo' = Some s2 /\ s2 ≠ s
               /\ is_Some (socks w' !! s2))).
Proof.
  intros [(-> & (so1 & po1 & Hs & _) & Hq & Hmain)
         |[(-> & Hs & _ & Hq1 & Hq2)
          |[(-> & Hs & _ & Hmain & qo' & s2 & s2o & Hq & Hp & Hne & Hcl & _ & Hs2 & _)
           |(-> & Hs & _ & Hmain & qo' & Hq & Hp & Hcl & _)]]].
  - split; [auto|]. split; [discriminate|].
    split; [intros _; split; [exact Hmain|now exists qo]|].
    split; [discriminate|]. intros _. left. now exists so1.
  - split; [auto|]. split; [intros _; auto|].
    split; [lia|]. split; discriminate.
  - split; [auto|]. split; [discriminate|].
    split; [intros _; split; [exact Hmain|now exists qo']|].
    split; [discriminate|]. intros _. right. split; [exact Hs|].
    exists qo', s2. split; [exact Hq|]. split; [exact Hp|].
    split; [exact Hne|]. now exists s2o.
  - split; [auto|]. split; [discriminate|].
    split; [intros _; split; [exact Hmain|now exists qo']|].
    split; [|discriminate]. intros _. split; [exact Hs|]. now exists qo'.
Qed.

(** C1, as the code has it: [smart_socket_enqueue] returns -1, 0 or 1.
    It returns -1 exactly on its failure path, after closing itself and
    its peer (the caller), so that a negative value tells the caller that
    the caller itself has been closed.  A non-negative value means that
    the caller is still live, open and registered as before; the smart
    socket itself only lives on when it waits for more bytes (0): after
    handing the caller to a host service socket (0) or forwarding the
    request to the remote side (1) it has detached and freed itself.
    [local_socket_enqueue] returns 0 or 1 and the socket lives on
    whenever no write fails. *)
Theorem enqueue_return_convention E :
  (forall w s so q qo lq p po,
      smart_pair_ok w s so q qo lq -> smart_queue_ok w so ->
      pkts w !! p = Some po -> next po = None -> p ∉ lq ->
      (forall a, pkt_first so = Some a -> a <> p /\ (a ∉ lq)) ->
      returns (smart_socket_enqueue E (asocket_close E) (asocket_ready E) s p w)
        (fun r w' =>
           (r = -1 \/ r = 0 \/ r = 1)
           /\ (r = -1 ->
               socks w' !! s = None /\ (q ∉ local_socket_list w')
               /\ (socks w' !! q = None
                   \/ exists qo', socks w' !! q = Some qo' /\ closing qo' = true
                                  /\ peer qo' = None))
           /\ (0 <= r ->
               local_socket_list w' = local_socket_list w
               /\ exists qo', socks w' !! q = Some qo' /\ closing qo' = closing qo)
           /\ (r = 1 ->
               socks w' !! s = None
               /\ exists qo', socks w' !! q = Some qo' /\ peer qo' = None)
           /\ (r = 0 ->
               is_Some (socks w' !! s)
               \/ (socks w' !! s = None
                   /\ exists qo' s2,
                        socks w' !! q = Some qo' /\ peer qo' = Some s2 /\ s2 ≠ s
                        /\ is_Some (socks w' !! s2)))))
  /\ (forall cc w s so p po,
        socks w !! s = Some so -> pkts w !! p = Some po ->
        0 <= len po <= Z.of_nat (length (data po)) ->
        write_never_fails E ->
        (pkt_first so = None
         \/ exists l tail,
              chainb (pkts w) (pkt_first so) l = true /\ last l = Some tail
              /\ pkt_last so = Some tail /\ (p ∉ l)) ->
        exists r w' so',
          local_socket_enqueue E cc s p w = Ok r w'
          /\ (r = 0 \/ r = 1)
          /\ socks w' !! s = Some so').
Proof.
  split.
  - intros w s so q qo lq p po Hwf Hsingle Hpo Hn Hplq Hhd.
    eapply returns_mono.
    { exact (smart_socket_enqueue_outcome E w s so q qo lq p po
               Hwf Hsingle Hpo Hn Hplq Hhd). }
    cbv beta. intros r w'. apply enqueue_outcome_convention.
  - intros cc w s so p po Hs Hp Hlen Hok [Hf|(l & tail & Hl & Hlast & Hpl & Hpin)].
    + destruct (local_socket_enqueue_write_through E cc w s so p po Hs Hp Hlen Hf)
        as (chunks & k & _ & _ & _ & Hcases).
      destruct Hcases as [(_ & w' & Hrun & _ & Hsocks & _)
                         |[(_ & _ & w' & so' & Hrun & Hs' & _)|(_ & Hbad & _)]].
      * exists 0, w', so. split; [exact Hrun|]. split; [now left|].
        now rewrite Hsocks.
      * exists 1, w', so'. split; [exact Hrun|]. split; [now right|exact Hs'].
      * exfalso. specialize (Hok (io_clock w + length chunks)%nat).
        destruct Hbad as [Hz|(e & He & Hne)].
        -- now rewrite Hz in Hok.
        -- rewrite He in Hok. contradiction.
    + destruct (local_socket_enqueue_backlog E cc w s so p po l tail
                  Hs Hp Hl Hlast Hpl Hpin) as (w' & so' & Hrun & Hs' & _).
      exists 1, w', so'. split; [exact Hrun|]. split; [now right|exact Hs'].
Qed.

Lemma enqueue_return_convention_witness :
  (exists w',
      smart_socket_enqueue Scenario.device_env (asocket_close Scenario.device_env)
        (asocket_ready Scenario.device_env) 2 100 (Scenario.smart_pair "0008shell:ls")
        = Ok 1 w'
      /\ socks w' !! 2%positive = None
      /\ exists qo', socks w' !! 1%positive = Some qo' /\ peer qo' = None)
  /\ (exists r w' so',
        local_socket_enqueue Scenario.fast_env (asocket_close Scenario.fast_env)
          1 100 (Scenario.local_alone "data") = Ok r w'
        /\ (r = 0 \/ r = 1)
        /\ socks w' !! 1%positive = Some so').
Proof.
  destruct (enqueue_return_convention Scenario.device_env) as [Hsmart _].
  destruct (enqueue_return_convention Scenario.fast_env) as [_ Hlocal].
  split.
  - specialize (Hsmart (Scenario.smart_pair "0008shell:ls")
                  2%positive (Scenario.smart2 (Some 1%positive)) 1%positive
                  (Scenario.local1 (Some 2%positive)) [] 100%positive
                  (Scenario.packet_of "0008shell:ls" 64)).
    apply returns_inv in Hsmart as [_ Hsmart].
    + eexists. split; [vm_compute; reflexivity|].
      refine (proj1 (proj2 (proj2 (proj2 (Hsmart 1 _ _)))) eq_refl).
      vm_compute. reflexivity.
    + repeat split; try reflexivity; discriminate.
    + exact I.
    + reflexivity.
    + reflexivity.
    + apply not_elem_of_nil.
    + discriminate.
  - apply (Hlocal (asocket_close Scenario.fast_env) (Scenario.local_alone "data")
             1%positive (Scenario.local1 None) 100%positive
             (Scenario.packet_of "data" 64)).
    + reflexivity.
    + reflexivity.
    + vm_compute. split; discriminate.
    + intros i. exact I.
    + left. reflexivity.
Defined.

(** C1, as stated, fails: on the device, the smart socket that forwards
    ["0008shell:ls"] to the remote side frees itself and returns 1. *)
Lemma smart_socket_forwards_and_returns_1 :
  ~ self_close_returns_negative Scenario.device_env.
Proof.
  intros H.
  specialize (H 2%positive 100%positive (Scenario.smart_pair "0008shell:ls") 1).
  specialize (H (match asocket_enqueue Scenario.device_env 2 100
                         (Scenario.smart_pair "0008shell:ls") with
                 | Ok _ w' => w'
                 | _ => Scenario.smart_pair "0008shell:ls"
                 end)).
  assert (Hneg : 1 < 0); [|lia].
  apply H.
  - vm_compute. eauto.
  - vm_compute. reflexivity.
  - vm_compute. reflexivity.
Qed.

(** The write-error path of [local_socket_enqueue] calls [s->close(s)]
    and then returns 1: here local socket 1, which has no peer, is
    destroyed by the call. *)
Lemma local_write_error_returns_1 :
  exists w',
    asocket_enqueue Scenario.broken_pipe_env 1 100 (Scenario.local_alone "data")
      = Ok 1 w'
    /\ socks w' !! 1%positive = None
    /\ pkts w' !! 100%positive = None
    /\ fd_closed w' = [10].
Proof.
  vm_compute. eexists. repeat split.
Qed.


(** ** Closing on any state of the registry *)




























Section Cascade.

Variable E : Env.
Variable cc : addr -> M unit.







End Cascade.



(** ** [close_all_sockets] *)







(** * Properties of the rest of the code *)

(** ** [unhex] *)

Lemma unhex_digit_value c :
  is_xdigit c = true -> unhex_digit c = Some (xdigit_value c).
Proof. destruct c; try discriminate; intros _; reflexivity. Qed.

Lemma xdigit_value_range c : 0 <= xdigit_value c < 16.
Proof. destruct c; vm_compute; split; congruence. Qed.

Lemma unhex_loop_value (l : list byte) :
  forall rest n, 0 <= n < 2 ^ 32 ->
    forallb is_xdigit l = true ->
    unhex_loop (l ++ rest) (length l) n =
      Some (fold_left (fun a c => 16 * a + xdigit_value c) l n mod 2 ^ 32).
Proof.
  induction l as [|c l IH]; intros rest n Hn Hall.
  - cbn. now rewrite Z.mod_small.
  - cbn in Hall. apply andb_true_iff in Hall as [Hc Hall].
    cbn [length app unhex_loop fold_left].
    rewrite (unhex_digit_value c Hc).
    pose proof (xdigit_value_range c) as Hd.
    rewrite lor_shiftl_4 by lia.
    rewrite IH; [|apply Z.mod_pos_bound; reflexivity|exact Hall].
    f_equal.
    clear IH Hall. revert n Hn.
    assert (Hgen : forall a b, a mod 2 ^ 32 = b mod 2 ^ 32 ->
              fold_left (fun a c => 16 * a + xdigit_value c) l a mod 2 ^ 32 =
              fold_left (fun a c => 16 * a + xdigit_value c) l b mod 2 ^ 32).
    { induction l as [|c' l IHl]; intros a b Hab; [exact Hab|].
      cbn [fold_left]. apply IHl.
      rewrite (Z.add_mod (16 * a)), (Z.add_mod (16 * b)) by discriminate.
      rewrite (Z.mul_mod 16 a), (Z.mul_mod 16 b) by discriminate.
      now rewrite Hab. }
    intros n Hn. apply Hgen. now rewrite Z.mod_mod.
Qed.

Lemma unhex_loop_bad (l : list byte) :
  forall n, forallb is_xdigit l = false ->
    unhex_loop l (length l) n = Some 4294967295.
Proof.
  induction l as [|c l IH]; intros n Hall; [discriminate|].
  cbn in Hall. cbn [length unhex_loop].
  destruct (is_xdigit c) eqn:Hc.
  - rewrite (unhex_digit_value c Hc). now apply IH.
  - apply unhex_digit_xdigit in Hc. now rewrite Hc.
Qed.

Lemma unhex_loop_more (l : list byte) :
  forall rest n, unhex_loop (l ++ rest) (length l) n = unhex_loop l (length l) n.
Proof.
  induction l as [|c l IH]; intros rest n; [reflexivity|].
  cbn [length app unhex_loop]. destruct (unhex_digit c); [apply IH|reflexivity].
Qed.

Lemma unhex_loop_short (l : list byte) :
  forall k n, (length l < k)%nat -> forallb is_xdigit l = true ->
    unhex_loop l k n = None.
Proof.
  induction l as [|c l IH]; intros k n Hk Hall.
  - destruct k; [cbn in Hk; lia|reflexivity].
  - destruct k; [cbn in Hk; lia|].
    cbn in Hall. apply andb_true_iff in Hall as [Hc Hall].
    cbn [unhex_loop]. rewrite (unhex_digit_value c Hc).
    apply IH; [cbn in Hk; lia|exact Hall].
Qed.

(** X1: [unhex(s, len)] is the number that the first [len] characters
    denote in base 16, upper and lower case digits alike, cut to 32 bits
    (so 0 for [len = 0]); it is [0xffffffff] as soon as one of these
    characters is not a hex digit; and with fewer than [len] characters
    in the buffer, all of them hex digits, it reads past the end. *)
Theorem unhex_value (s : list byte) (len : Z) :
  0 <= len ->
  let digits := take (Z.to_nat len) s in
  (len <= Z.of_nat (length s) ->
   unhex s len =
     Some (if forallb is_xdigit digits then hex_value digits mod 2 ^ 32
           else 4294967295))
  /\ (Z.of_nat (length s) < len -> forallb is_xdigit s = true ->
      unhex s len = None).
Proof.
  intros Hlen digits. unfold unhex. split.
  - intros Hfit.
    assert (Hl : length digits = Z.to_nat len).
    { unfold digits. rewrite length_take. lia. }
    rewrite <- (take_drop (Z.to_nat len) s) at 1. fold digits. rewrite <- Hl.
    destruct (forallb is_xdigit digits) eqn:Hall.
    + now apply unhex_loop_value.
    + rewrite unhex_loop_more. now apply unhex_loop_bad.
  - intros Hshort Hall. apply unhex_loop_short; [lia|exact Hall].
Qed.

Lemma unhex_value_witness :
  unhex (bytes_of_string "00aFxyz") 4 = Some 175
  /\ unhex (bytes_of_string "0g10") 4 = Some 4294967295
  /\ unhex (bytes_of_string "00a") 4 = None.
Proof.
  pose proof (unhex_value (bytes_of_string "00aFxyz") 4 ltac:(lia)) as [H1 _].
  pose proof (unhex_value (bytes_of_string "0g10") 4 ltac:(lia)) as [H2 _].
  pose proof (unhex_value (bytes_of_string "00a") 4 ltac:(lia)) as [_ H3].
  split; [|split].
  - apply H1. vm_compute. congruence.
  - apply H2. vm_compute. congruence.
  - apply H3; vm_compute; reflexivity.
Defined.


(** ** [skip_host_serial] *)

Lemma byte_eqb_refl (c : byte) : Byte.eqb c c = true.
Proof. now apply Byte.byte_dec_lb. Qed.

Lemma byte_eqb_neq (x y : byte) : x <> y -> Byte.eqb x y = false.
Proof.
  intros Hne. destruct (Byte.eqb x y) eqn:H; [|reflexivity].
  apply Byte.byte_dec_bl in H. contradiction.
Qed.

Lemma strchr_Some (s : list byte) c i :
  strchr s c = Some i -> s !! i = Some c /\ (c ∉ take i s).
Proof.
  revert i. induction s as [|x s IH]; intros i; [discriminate|].
  cbn [strchr]. destruct (Byte.eqb x c) eqn:Hx.
  - intros [= <-]. apply Byte.byte_dec_bl in Hx. subst x.
    split; [reflexivity|]. cbn. apply not_elem_of_nil.
  - destruct (strchr s c) as [j|]; [|discriminate].
    intros [= <-]. destruct (IH j eq_refl) as [H1 H2].
    split; [exact H1|]. cbn. apply not_elem_of_cons. split; [|exact H2].
    intros <-. rewrite byte_eqb_refl in Hx. discriminate.
Qed.

Lemma strchr_fresh (l rest : list byte) c :
  c ∉ l -> strchr (l ++ c :: rest) c = Some (length l).
Proof.
  induction l as [|x l IH]; intros Hl.
  - cbn. now rewrite byte_eqb_refl.
  - apply not_elem_of_cons in Hl as [Hne Hl]. cbn [app strchr length].
    rewrite (byte_eqb_neq x c) by congruence.
    now rewrite (IH Hl).
Qed.

Lemma strchr_None (s : list byte) c : c ∉ s -> strchr s c = None.
Proof.
  induction s as [|x s IH]; intros Hs; [reflexivity|].
  apply not_elem_of_cons in Hs as [Hne Hs]. cbn.
  rewrite (byte_eqb_neq x c) by congruence.
  now rewrite (IH Hs).
Qed.

Lemma char_at_lookup (s : list byte) i c :
  c <> x00 -> char_at s i = c -> s !! i = Some c.
Proof.
  unfold char_at. intros Hc H.
  destruct (s !! i) as [x|] eqn:Hi.
  - now rewrite (nth_lookup_Some _ _ x00 _ Hi) in H; subst.
  - apply lookup_ge_None in Hi. rewrite nth_overflow in H by lia. congruence.
Qed.

Lemma char_at_app_r (l s : list byte) i :
  char_at (l ++ s) (length l + i) = char_at s i.
Proof.
  unfold char_at. rewrite app_nth2 by lia. f_equal. lia.
Qed.

Lemma has_prefix_no_colon lit (s : list byte) :
  ":"%byte ∈ bytes_of_string lit -> ":"%byte ∉ s -> has_prefix lit s = false.
Proof.
  unfold has_prefix. generalize (bytes_of_string lit). clear lit.
  intros l. revert s. induction l as [|c l IH]; intros s Hl Hs.
  - now apply elem_of_nil in Hl.
  - cbn [length]. destruct s as [|x s]; [reflexivity|].
    apply not_elem_of_cons in Hs as [Hne Hs].
    apply elem_of_cons in Hl as [<-|Hl].
    + cbn [strncmp_eq]. now rewrite (byte_eqb_neq x ":") by congruence.
    + cbn [strncmp_eq]. rewrite (IH s Hl Hs). apply andb_false_r.
Qed.

Lemma strncmp_eq_0 (s1 s2 : list byte) : strncmp_eq s1 s2 0 = true.
Proof. now destruct s1. Qed.

Lemma has_prefix_here lit (rest : list byte) :
  has_prefix lit (bytes_of_string lit ++ rest) = true.
Proof.
  unfold has_prefix. induction (bytes_of_string lit) as [|c l IH].
  - apply strncmp_eq_0.
  - cbn. now rewrite byte_eqb_refl, IH.
Qed.

(** X2: the position [skip_host_serial] returns is that of a ':' of the
    service string; a service without any ':' gives a null pointer; and
    after one of the prefixes [usb:], [product:], [model:], [device:]
    the serial ends at the first ':' behind the prefix, whatever it
    holds. *)
Theorem skip_host_serial_colon (service : list byte) :
  (forall i, skip_host_serial service = Some i -> service !! i = Some ":"%byte)
  /\ (":"%byte ∉ service -> skip_host_serial service = None)
  /\ (forall prefix rest,
        prefix ∈ prefixes -> service = bytes_of_string prefix ++ rest ->
        skip_host_serial service =
          (fun i => length (bytes_of_string prefix) + i)%nat <$> strchr rest ":"%byte).
Proof.
  split; [|split].
  - intros i. unfold skip_host_serial.
    destruct (find _ prefixes) as [prefix|].
    { destruct (strchr _ _) as [j|] eqn:Hj; [|discriminate].
      intros [= <-]. apply strchr_Some in Hj as [Hj _].
      now rewrite lookup_drop in Hj. }
    set (off0 := if has_prefix "tcp:" service || has_prefix "udp:" service
                 then 4%nat else 0%nat).
    set (off := if Byte.eqb (char_at service off0) "[" then _ else _).
    destruct (strchr (drop off service) ":") as [j|] eqn:Hj; [|discriminate].
    apply strchr_Some in Hj as [Hj _]. rewrite lookup_drop in Hj.
    destruct (isdigit _); [|now intros [= <-]].
    destruct (Byte.eqb _ ":") eqn:Hend; [|now intros [= <-]].
    intros [= <-]. apply Byte.byte_dec_bl in Hend.
    now apply char_at_lookup.
  - intros Hno. unfold skip_host_serial.
    assert (Hpre : forall lit, ":"%byte ∈ bytes_of_string lit ->
                               has_prefix lit service = false).
    { intros lit Hlit. now apply has_prefix_no_colon. }
    assert (Hdrop : forall n, strchr (drop n service) ":" = None).
    { intros n. apply strchr_None. intros Hin. apply Hno.
      rewrite <- (take_drop n service). apply elem_of_app. now right. }
    cbn [find prefixes].
    rewrite !Hpre by (vm_compute; repeat constructor).
    cbn [orb].
    destruct (Byte.eqb _ "["); [destruct (strchr _ "]")|]; now rewrite Hdrop.
  - intros prefix rest Hin ->. unfold skip_host_serial.
    assert (Hfind : find (fun p => has_prefix p (bytes_of_string prefix ++ rest))
                      prefixes = Some prefix).
    { unfold prefixes in *.
      repeat (apply elem_of_cons in Hin as [->|Hin];
              [cbn [find]; now rewrite ?has_prefix_here|]).
      now apply elem_of_nil in Hin. }
    rewrite Hfind. now rewrite drop_app_length.
Qed.

Lemma skip_host_serial_colon_witness :
  bytes_of_string "[fe80::1]:5555:version" !! 14%nat = Some ":"%byte
  /\ skip_host_serial (bytes_of_string "version") = None
  /\ skip_host_serial (bytes_of_string "usb:1-4.2:shell") = Some 9%nat.
Proof.
  destruct (skip_host_serial_colon (bytes_of_string "[fe80::1]:5555:version"))
    as (H1 & _ & _).
  destruct (skip_host_serial_colon (bytes_of_string "version")) as (_ & H2 & _).
  destruct (skip_host_serial_colon (bytes_of_string "usb:1-4.2:shell")) as (_ & _ & H3).
  split; [|split].
  - apply H1. vm_compute. reflexivity.
  - apply H2. vm_compute. intros Hin.
    repeat (apply elem_of_cons in Hin as [Hin|Hin]; [discriminate|]).
    now apply elem_of_nil in Hin.
  - rewrite (H3 "usb:"%string (bytes_of_string "1-4.2:shell")).
    + reflexivity.
    + vm_compute. left.
    + reflexivity.
Defined.

Lemma span_digits_head (tail : list byte) :
  isdigit (char_at tail 0) = (0 <? span_digits tail)%nat.
Proof.
  destruct tail as [|c tail]; [reflexivity|].
  cbn. now destruct (isdigit c).
Qed.

(** X3: a serial of the form [[tcp:|udp:]<host>[:<port>]:<command>],
    where [<host>] holds no ':' or is an IPv6 literal in brackets, ends
    at the ':' before the command: what follows the host is taken for a
    port exactly if it is a run of one or more decimal digits followed
    by ':'. *)
Theorem skip_host_serial_port (proto host tail : list byte) :
  let service := proto ++ host ++ ":"%byte :: tail in
  find (fun prefix => has_prefix prefix service) prefixes = None ->
  (proto = [] /\ has_prefix "tcp:" service = false
   /\ has_prefix "udp:" service = false)
  \/ proto = bytes_of_string "tcp:" \/ proto = bytes_of_string "udp:" ->
  ((":"%byte ∉ host) /\ head host ≠ Some "["%byte)
  \/ (exists addr, host = "["%byte :: addr ++ ["]"%byte] /\ ("]"%byte ∉ addr)) ->
  skip_host_serial service =
    Some (let base := (length proto + length host)%nat in
          let d := span_digits tail in
          if (0 <? d)%nat && Byte.eqb (char_at tail d) ":"
          then (base + 1 + d)%nat else base).
Proof.
  intros service Hfind Hproto Hhost.
  unfold skip_host_serial. rewrite Hfind.
  set (off0 := if has_prefix "tcp:" service || has_prefix "udp:" service
               then 4%nat else 0%nat).
  assert (Hoff0 : off0 = length proto).
  { unfold off0. destruct Hproto as [(-> & -> & ->)|[->| ->]]; [reflexivity| |].
    - unfold service. now rewrite has_prefix_here.
    - unfold service. rewrite has_prefix_here. now rewrite orb_true_r. }
  assert (Hdrop0 : drop off0 service = host ++ ":"%byte :: tail).
  { rewrite Hoff0. unfold service. now rewrite drop_app_length. }
  assert (Hat0 : char_at service off0 = char_at (host ++ ":"%byte :: tail) 0).
  { rewrite Hoff0. unfold service.
    now rewrite <- (char_at_app_r proto (host ++ ":"%byte :: tail) 0), Nat.add_0_r. }
  set (off := if Byte.eqb (char_at service off0) "[" then _ else _).
  assert (Hcolon : strchr (drop off service) ":" =
                   Some (length proto + length host - off)%nat
                   /\ (off <= length proto + length host)%nat).
  { unfold off. rewrite Hat0, Hdrop0.
    destruct Hhost as [[Hno Hhd]|(addr & -> & Hno)].
    - assert (Hnb : Byte.eqb (char_at (host ++ ":"%byte :: tail) 0) "[" = false).
      { destruct host as [|c host]; [reflexivity|].
        cbn. apply byte_eqb_neq. intros ->. now apply Hhd. }
      rewrite Hnb, Hdrop0, Hoff0.
      rewrite (strchr_fresh host tail ":" Hno). split; [f_equal|]; lia.
    - assert (Hh : ("["%byte :: addr ++ ["]"%byte]) ++ ":"%byte :: tail =
                     "["%byte :: addr ++ "]"%byte :: ":"%byte :: tail).
      { cbn. now rewrite <- app_assoc. }
      rewrite Hh in *. clear Hh.
      cbn [char_at nth]. rewrite byte_eqb_refl.
      cbn [strchr]. rewrite (byte_eqb_neq "[" "]") by discriminate.
      rewrite (strchr_fresh addr _ "]" Hno).
      cbn [fmap option_fmap option_map].
      replace (drop (off0 + S (length addr)) service)
        with ("]"%byte :: ":"%byte :: tail).
      2:{ rewrite <- drop_drop, Hdrop0. cbn [drop].
          now rewrite drop_app_length. }
      cbn. rewrite length_app. cbn. split; [f_equal|]; lia. }
  destruct Hcolon as [Hcolon Hle]. rewrite Hcolon.
  replace (off + (length proto + length host - off))%nat
    with (length proto + length host)%nat by lia.
  assert (Hat : forall i, char_at service (length proto + length host + 1 + i) =
                          char_at tail i).
  { intros i. unfold service. rewrite app_assoc.
    replace (length proto + length host + 1 + i)%nat
      with (length (proto ++ host) + S i)%nat by (rewrite length_app; lia).
    now rewrite char_at_app_r. }
  assert (Hdrop : drop (length proto + length host + 1) service = tail).
  { unfold service. rewrite app_assoc.
    replace (length proto + length host + 1)%nat
      with (length (proto ++ host) + 1)%nat by (rewrite length_app; lia).
    rewrite <- drop_drop, drop_app_length. reflexivity. }
  rewrite <- (Nat.add_0_r (length proto + length host + 1)) at 1.
  rewrite Hat, Hdrop, Hat, span_digits_head.
  now destruct (0 <? span_digits tail)%nat, (Byte.eqb (char_at tail (span_digits tail)) ":").
Qed.

Lemma skip_host_serial_port_witness :
  skip_host_serial (bytes_of_string "[fe80::1]:5555:version") = Some 14%nat
  /\ skip_host_serial (bytes_of_string "tcp:emulator:shell:ls") = Some 12%nat.
Proof.
  split.
  - apply (skip_host_serial_port [] (bytes_of_string "[fe80::1]")
             (bytes_of_string "5555:version")).
    + reflexivity.
    + left. repeat split.
    + right. exists (bytes_of_string "fe80::1"). split; [reflexivity|].
      vm_compute. intros Hin.
      repeat (apply elem_of_cons in Hin as [Hin|Hin]; [discriminate|]).
      now apply elem_of_nil in Hin.
  - apply (skip_host_serial_port (bytes_of_string "tcp:") (bytes_of_string "emulator")
             (bytes_of_string "shell:ls")).
    + reflexivity.
    + right. left. reflexivity.
    + left. split; [|discriminate].
      vm_compute. intros Hin.
      repeat (apply elem_of_cons in Hin as [Hin|Hin]; [discriminate|]).
      now apply elem_of_nil in Hin.
Defined.

(** ** The host request prefixes *)

Lemma request_text (h text rest : list byte) :
  length h = 4%nat -> x00 ∉ text ->
  cstr (drop 4 (h ++ text ++ x00 :: rest)) = text.
Proof.
  intros Hh Hno. rewrite <- Hh, drop_app_length. now apply cstr_app_nul.
Qed.

Lemma not_elem_of_app_colon (a b : list byte) c :
  x00 ∉ a -> x00 ∉ b -> c <> x00 -> x00 ∉ a ++ c :: b.
Proof.
  intros Ha Hb Hc Hin. apply elem_of_app in Hin as [Hin|Hin]; [contradiction|].
  apply elem_of_cons in Hin as [Hin|Hin]; [congruence|contradiction].
Qed.

Lemma x00_not_in_literal (lit : string) (text : list byte) :
  forallb (fun c => negb (Byte.eqb c x00)) (bytes_of_string lit) = true ->
  x00 ∉ text -> x00 ∉ bytes_of_string lit ++ text.
Proof.
  intros Hlit Hno Hin. apply elem_of_app in Hin as [Hin|Hin]; [|contradiction].
  rewrite forallb_forall in Hlit. apply list_elem_of_In in Hin.
  specialize (Hlit _ Hin). now rewrite byte_eqb_refl in Hlit.
Qed.

Lemma strncmp_eq_shorter (s l1 l2 : list byte) m :
  strncmp_eq s (l1 ++ l2) (length l1 + m) = true ->
  strncmp_eq s l1 (length l1) = true.
Proof.
  revert s. induction l1 as [|c l1 IH]; intros s; [intros _; apply strncmp_eq_0|].
  destruct s as [|c1 t]; cbn; [discriminate|].
  rewrite !andb_true_iff. intros [? ?]. split; [assumption|]. now apply IH.
Qed.

Lemma smart_socket_match_host_plain w p po (h rest : list byte) prefix type service :
  pkts w !! p = Some po -> length h = 4%nat ->
  (prefix, type) ∈ [("host-usb:"%string, kTransportUsb);
                    ("host-local:"%string, kTransportLocal);
                    ("host:"%string, kTransportAny)] ->
  data po = h ++ bytes_of_string prefix ++ service ++ x00 :: rest ->
  x00 ∉ service ->
  smart_socket_match_host p w =
    Ok (Some {| hq_service := service; hq_serial := None; hq_type := type |}) w.
Proof.
  intros Hp Hh Hin Hdata Hno.
  unfold smart_socket_match_host. repeat mstep. rewrite Hdata.
  assert (Hpre : forallb (fun c => negb (Byte.eqb c x00)) (bytes_of_string prefix) = true).
  { repeat (apply elem_of_cons in Hin as [[= -> ->]|Hin]; [reflexivity|]).
    now apply elem_of_nil in Hin. }
  assert (Htext : cstr (drop 4 (h ++ bytes_of_string prefix ++ service ++ x00 :: rest)) =
                  bytes_of_string prefix ++ service).
  { rewrite (app_assoc (bytes_of_string prefix)).
    apply request_text; [exact Hh|]. now apply x00_not_in_literal. }
  rewrite Htext.
  repeat (apply elem_of_cons in Hin as [[= -> ->]|Hin];
          [cbn [has_prefix]; rewrite ?has_prefix_here; reflexivity|]).
  now apply elem_of_nil in Hin.
Qed.

Lemma smart_socket_match_host_other w p po (h text rest : list byte) :
  pkts w !! p = Some po -> length h = 4%nat ->
  data po = h ++ text ++ x00 :: rest -> x00 ∉ text ->
  has_prefix "host" text = false ->
  smart_socket_match_host p w = Ok None w.
Proof.
  intros Hp Hh Hdata Hno Hhost.
  unfold smart_socket_match_host. repeat mstep. rewrite Hdata.
  rewrite (request_text h text rest Hh Hno).
  assert (Hlonger : forall lit l2,
            bytes_of_string lit = bytes_of_string "host" ++ l2 ->
            has_prefix lit text = false).
  { intros lit l2 Hlit.
    destruct (has_prefix lit text) eqn:Hm; [|reflexivity].
    unfold has_prefix in Hm. rewrite Hlit, length_app in Hm.
    apply strncmp_eq_shorter in Hm. unfold has_prefix in Hhost. congruence. }
  rewrite (Hlonger "host-serial:"%string _ eq_refl).
  rewrite (Hlonger "host-usb:"%string _ eq_refl).
  rewrite (Hlonger "host-local:"%string _ eq_refl).
  rewrite (Hlonger "host:"%string _ eq_refl). reflexivity.
Qed.

(** X4: how [smart_socket_enqueue] classifies a request on the host.
    ["host-serial:<serial>:<command>"] is cut at the position that
    [skip_host_serial] returns: the ':' there is overwritten with NUL,
    what stands before it is the serial, what follows is the service;
    ["host-usb:"], ["host-local:"] and ["host:"] select the USB, the
    local and any transport, with the rest as service; a request that
    does not begin with ["host"] is no host request. *)
Theorem host_request_classified w p po (h rest : list byte) :
  pkts w !! p = Some po -> length h = 4%nat ->
  (forall serial cmd,
      data po = h ++ bytes_of_string "host-serial:" ++ serial ++ ":"%byte :: cmd
                  ++ x00 :: rest ->
      x00 ∉ serial -> x00 ∉ cmd ->
      skip_host_serial (serial ++ ":"%byte :: cmd) = Some (length serial) ->
      smart_socket_match_host p w =
        Ok (Some {| hq_service := cmd; hq_serial := Some serial;
                    hq_type := kTransportAny |})
           (with_pkts
              (<[p := set_data (h ++ bytes_of_string "host-serial:" ++ serial
                                  ++ x00 :: cmd ++ x00 :: rest) po]> (pkts w)) w))
  /\ (forall prefix type service,
        (prefix, type) ∈ [("host-usb:"%string, kTransportUsb);
                          ("host-local:"%string, kTransportLocal);
                          ("host:"%string, kTransportAny)] ->
        data po = h ++ bytes_of_string prefix ++ service ++ x00 :: rest ->
        x00 ∉ service ->
        smart_socket_match_host p w =
          Ok (Some {| hq_service := service; hq_serial := None; hq_type := type |}) w)
  /\ (forall text,
        data po = h ++ text ++ x00 :: rest -> x00 ∉ text ->
        has_prefix "host" text = false ->
        smart_socket_match_host p w = Ok None w).
Proof.
  intros Hp Hh. split; [|split].
  - intros serial cmd Hdata Hs Hc Hskip.
    unfold smart_socket_match_host. repeat mstep. rewrite Hdata.
    assert (Htext : cstr (drop 4 (h ++ bytes_of_string "host-serial:" ++ serial
                                    ++ ":"%byte :: cmd ++ x00 :: rest)) =
                    bytes_of_string "host-serial:" ++ serial ++ ":"%byte :: cmd).
    { replace (bytes_of_string "host-serial:" ++ serial ++ ":"%byte :: cmd ++ x00 :: rest)
        with ((bytes_of_string "host-serial:" ++ serial ++ ":"%byte :: cmd)
                ++ x00 :: rest)
        by (now rewrite <- !app_assoc).
      apply request_text; [exact Hh|].
      apply x00_not_in_literal; [reflexivity|].
      apply not_elem_of_app_colon; [assumption..|discriminate]. }
    rewrite Htext, has_prefix_here.
    change (drop 12 (bytes_of_string "host-serial:" ++ serial ++ ":"%byte :: cmd))
      with (serial ++ ":"%byte :: cmd).
    rewrite Hskip. repeat mstep.
    rewrite take_app_length.
    replace (drop (S (length serial)) (serial ++ ":"%byte :: cmd)) with cmd.
    2:{ change (S (length serial)) with (1 + length serial)%nat.
        rewrite Nat.add_comm, <- drop_drop, drop_app_length. reflexivity. }
    unfold ret. do 4 f_equal.
    replace (16 + length serial)%nat
      with (length (h ++ bytes_of_string "host-serial:") + (length serial + 0))%nat
      by (rewrite length_app, Hh; cbn; lia).
    rewrite Hdata.
    rewrite (app_assoc h), insert_app_r, insert_app_r. cbn [insert list_insert].
    now rewrite <- app_assoc.
  - intros prefix type service Hin Hdata Hno.
    now apply (smart_socket_match_host_plain w p po h rest prefix type service).
  - intros text Hdata Hno Hhost.
    now apply (smart_socket_match_host_other w p po h text rest).
Qed.

Ltac not_in_text :=
  vm_compute; let Hin := fresh "Hin" in intros Hin;
  repeat (apply elem_of_cons in Hin as [Hin|Hin]; [discriminate|]);
  now apply elem_of_nil in Hin.

Lemma host_request_classified_witness :
  exists w',
    smart_socket_match_host 100
      (Scenario.smart_pair "0023host-serial:emulator-5554:version")
    = Ok (Some {| hq_service := bytes_of_string "version";
                  hq_serial := Some (bytes_of_string "emulator-5554");
                  hq_type := kTransportAny |}) w'
    /\ data <$> pkts w' !! 100%positive
       = Some (bytes_of_string "0023host-serial:emulator-5554"
                 ++ x00 :: bytes_of_string "version" ++ replicate 27 x00).
Proof.
  eexists. split.
  - refine (proj1 (host_request_classified
                     (Scenario.smart_pair "0023host-serial:emulator-5554:version")
                     100%positive _ (bytes_of_string "0023") (replicate 26 x00) _ _)
                  (bytes_of_string "emulator-5554") (bytes_of_string "version")
                  _ _ _ _).
    + reflexivity.
    + reflexivity.
    + reflexivity.
    + not_in_text.
    + not_in_text.
    + reflexivity.
  - vm_compute. reflexivity.
Defined.


(** ** The registry: ids, lookup and removal *)

Lemma find_local_socket_scan_skip l1 l2 local_id peer_id w :
  (forall x, x ∈ l1 -> exists xo, socks w !! x = Some xo /\ id xo <> local_id) ->
  find_local_socket_scan (l1 ++ l2) local_id peer_id w =
  find_local_socket_scan l2 local_id peer_id w.
Proof.
  induction l1 as [|x l1 IH]; intros Hl1; [reflexivity|].
  destruct (Hl1 x ltac:(left)) as (xo & Hx & Hid).
  cbn [app find_local_socket_scan]. rewrite (bind_ok _ _ _ _ _ (load_ok _ _ _ Hx)).
  destruct (Z.eqb_spec (id xo) local_id) as [?|_]; [contradiction|].
  cbn [negb]. apply IH. intros y Hy. apply Hl1. now right.
Qed.

Lemma find_local_socket_scan_here s l local_id peer_id w so :
  socks w !! s = Some so -> id so = local_id ->
  find_local_socket_scan (s :: l) local_id peer_id w =
    if peer_id =? 0 then Ok (Some s) w
    else match peer so with
         | None => Ok None w
         | Some q =>
             match socks w !! q with
             | Some qo => Ok (if id qo =? peer_id then Some s else None) w
             | None => Fault
             end
         end.
Proof.
  intros Hs Hid. cbn [find_local_socket_scan].
  rewrite (bind_ok _ _ _ _ _ (load_ok _ _ _ Hs)).
  rewrite (proj2 (Z.eqb_eq _ _) Hid). cbn [negb].
  destruct (peer_id =? 0); [reflexivity|].
  destruct (peer so) as [q|]; [|reflexivity].
  unfold bind, load. destruct (socks w !! q) as [qo|]; [|reflexivity].
  now destruct (id qo =? peer_id).
Qed.

(** X5: [find_local_socket] is decided by the first socket of the main
    list that carries the id: with [peer_id] 0 it is the result; with
    another [peer_id] it is the result if its peer carries that id, and
    otherwise the result is null, whatever follows on the list.  With no
    such socket the result is null.  The state is left as it was. *)
Theorem find_local_socket_first_match w local_id peer_id :
  (forall x, x ∈ local_socket_list w -> is_Some (socks w !! x)) ->
  ((forall x xo, x ∈ local_socket_list w -> socks w !! x = Some xo ->
                 id xo <> local_id) ->
   find_local_socket local_id peer_id w = Ok None w)
  /\ (forall l1 s l2 so,
        local_socket_list w = l1 ++ s :: l2 ->
        socks w !! s = Some so -> id so = local_id ->
        (forall x xo, x ∈ l1 -> socks w !! x = Some xo -> id xo <> local_id) ->
        find_local_socket local_id peer_id w =
          if peer_id =? 0 then Ok (Some s) w
          else match peer so with
               | None => Ok None w
               | Some q =>
                   match socks w !! q with
                   | Some qo => Ok (if id qo =? peer_id then Some s else None) w
                   | None => Fault
                   end
               end).
Proof.
  intros Hlive. split.
  - intros Hnone. unfold find_local_socket, bind, get.
    rewrite <- (app_nil_r (local_socket_list w)).
    rewrite find_local_socket_scan_skip; [reflexivity|].
    intros x Hx. destruct (Hlive x Hx) as [xo Hxo]. eauto.
  - intros l1 s l2 so Hl Hs Hid Hl1. unfold find_local_socket, bind, get.
    rewrite Hl, find_local_socket_scan_skip.
    + now apply find_local_socket_scan_here.
    + intros x Hx. destruct (Hlive x) as [xo Hxo].
      { rewrite Hl. apply elem_of_app. now left. }
      eauto.
Qed.

Lemma find_local_socket_first_match_witness :
  find_local_socket 1 5 (Scenario.remote_pair "hello")
    = Ok (Some 1%positive) (Scenario.remote_pair "hello")
  /\ find_local_socket 1 6 (Scenario.remote_pair "hello")
    = Ok None (Scenario.remote_pair "hello")
  /\ find_local_socket 2 0 (Scenario.remote_pair "hello")
    = Ok None (Scenario.remote_pair "hello").
Proof.
  assert (Hlive : forall x, x ∈ local_socket_list (Scenario.remote_pair "hello") ->
                            is_Some (socks (Scenario.remote_pair "hello") !! x)).
  { intros x Hx. apply list_elem_of_singleton in Hx as ->. now eexists. }
  split; [|split].
  - apply (proj2 (find_local_socket_first_match _ 1 5 Hlive) [] 1%positive []
             (Scenario.local1 (Some 3%positive)) eq_refl eq_refl eq_refl).
    intros x xo Hx. now apply elem_of_nil in Hx.
  - apply (proj2 (find_local_socket_first_match _ 1 6 Hlive) [] 1%positive []
             (Scenario.local1 (Some 3%positive)) eq_refl eq_refl eq_refl).
    intros x xo Hx. now apply elem_of_nil in Hx.
  - apply (proj1 (find_local_socket_first_match _ 2 0 Hlive)).
    intros x xo Hx. apply list_elem_of_singleton in Hx as ->.
    intros [= <-]. discriminate.
Defined.

Lemma ids_ok_fresh_id w x xo :
  ids_ok w -> x ∈ local_socket_list w -> socks w !! x = Some xo ->
  id xo <> local_socket_next_id w.
Proof.
  intros (_ & _ & Hlive & _) Hx Hxo.
  destruct (Hlive x Hx) as (xo' & Hxo' & Hid). rewrite Hxo in Hxo'.
  injection Hxo' as <-. lia.
Qed.

Lemma create_local_socket_run w fd0 :
  ids_ok w ->
  (local_socket_next_id w = 2 ^ 32 - 1 -> create_local_socket fd0 w = Abort)
  /\ (local_socket_next_id w < 2 ^ 32 - 1 ->
      exists s so' w',
        create_local_socket fd0 w = Ok s w'
        /\ socks w !! s = None
        /\ socks w' = <[s := so']> (socks w)
        /\ id so' = local_socket_next_id w
        /\ fd so' = fd0 /\ fde_fd (fde so') = fd0 /\ peer so' = None
        /\ st_read (fde so') = false /\ st_write (fde so') = false
        /\ close so' = FN_local_socket_close
        /\ local_socket_list w' = local_socket_list w ++ [s]
        /\ local_socket_next_id w' = local_socket_next_id w + 1
        /\ pkts w' = pkts w /\ wire w' = wire w /\ fd_out w' = fd_out w
        /\ ids_ok w'
        /\ find_local_socket (id so') 0 w' = Ok (Some s) w').
Proof.
  intros Hok. pose proof Hok as (Hnext & Hnd & Hlive & Hinj).
  change (2 ^ 32) with 4294967296 in *.
  set (s := fresh_key (socks w)).
  assert (Hfresh : socks w !! s = None) by apply fresh_key_None.
  assert (Hnotin : s ∉ local_socket_list w).
  { intros Hin. destruct (Hlive s Hin) as (so & Hso & _). congruence. }
  split.
  - intros Hmax. unfold create_local_socket.
    rewrite (bind_ok _ _ _ _ _ (alloc_ok _ w)). fold s.
    erewrite bind_eq by (eapply install_local_socket_ok; cbn; apply lookup_insert_eq).
    cbn. rewrite Hmax. reflexivity.
  - intros Hlt.
    assert (Hmod : (local_socket_next_id w + 1) mod 4294967296
                   = local_socket_next_id w + 1) by (apply Z.mod_small; lia).
    pose (so' := {| id := local_socket_next_id w; closing := false;
                    has_write_error := false; exit_on_close := false; peer := None;
                    fde := {| fde_fd := fd0; st_read := false; st_write := false;
                              st_error := false; force_eof := false |};
                    fd := fd0; pkt_first := None; pkt_last := None; transport := None;
                    enqueue := FN_local_socket_enqueue; ready := FN_local_socket_ready;
                    shutdown := None; close := FN_local_socket_close |}).
    exists s, so'. eexists. split.
    { unfold create_local_socket.
      rewrite (bind_ok _ _ _ _ _ (alloc_ok _ w)). fold s.
      erewrite bind_eq by (eapply install_local_socket_ok; cbn; apply lookup_insert_eq).
      cbn [local_socket_next_id with_socks].
      change (2 ^ 32) with 4294967296. rewrite Hmod.
      destruct (Z.eqb_spec (local_socket_next_id w + 1) 0) as [?|_]; [lia|].
      unfold fdevent_install. repeat mstep. reflexivity. }
    cbn. rewrite ?insert_insert_eq. fold so'.
    split; [exact Hfresh|]. split; [reflexivity|].
    do 12 (split; [reflexivity|]).
    assert (Hok' : forall x, x ∈ local_socket_list w ++ [s] ->
              exists xo, <[s := so']> (socks w) !! x = Some xo
                         /\ 0 < id xo < local_socket_next_id w + 1).
    { intros x Hx. apply elem_of_app in Hx as [Hx|Hx].
      - destruct (Hlive x Hx) as (xo & Hxo & Hid). exists xo.
        rewrite lookup_insert_ne by (intros ->; contradiction). split; [exact Hxo|lia].
      - apply list_elem_of_singleton in Hx as ->.
        eexists. rewrite lookup_insert_eq. split; [reflexivity|]. cbn. lia. }
    split.
    { split; [cbn; lia|]. split.
      - apply NoDup_app. split; [exact Hnd|]. split; [|apply NoDup_singleton].
        intros x Hx Hxs. apply list_elem_of_singleton in Hxs as ->. contradiction.
      - split; [exact Hok'|].
        cbn. intros s1 s2 so1 so2 H1 H2 Hs1 Hs2 Heq.
        apply elem_of_app in H1 as [H1|H1]; apply elem_of_app in H2 as [H2|H2].
        + rewrite lookup_insert_ne in Hs1 by (intros ->; contradiction).
          rewrite lookup_insert_ne in Hs2 by (intros ->; contradiction).
          eapply Hinj; eassumption.
        + apply list_elem_of_singleton in H2 as ->.
          rewrite lookup_insert_ne in Hs1 by (intros ->; contradiction).
          rewrite lookup_insert_eq in Hs2. injection Hs2 as <-. cbn in Heq.
          now destruct (ids_ok_fresh_id w s1 so1 Hok H1 Hs1).
        + apply list_elem_of_singleton in H1 as ->.
          rewrite lookup_insert_ne in Hs2 by (intros ->; contradiction).
          rewrite lookup_insert_eq in Hs1. injection Hs1 as <-. cbn in Heq.
          now destruct (ids_ok_fresh_id w s2 so2 Hok H2 Hs2).
        + apply list_elem_of_singleton in H1 as ->.
          now apply list_elem_of_singleton in H2 as ->. }
    unfold find_local_socket, bind, get. cbn [local_socket_list].
    rewrite find_local_socket_scan_skip.
    + erewrite find_local_socket_scan_here;
        [reflexivity|cbn; apply lookup_insert_eq|reflexivity].
    + intros x Hx. destruct (Hlive x Hx) as (xo & Hxo & Hid). exists xo.
      cbn. rewrite lookup_insert_ne by (intros ->; contradiction).
      split; [exact Hxo|]. lia.
Qed.

(** X6: [create_local_socket] hands out ids that are never 0 and never
    in use: under [ids_ok] the new socket is a fresh object, it gets the
    next id, goes to the tail of the main list, watches [fd] with no
    event armed and has no peer; [ids_ok] holds again, and the socket is
    what [find_local_socket] returns for its id.  When the counter would
    wrap to 0 the call is fatal. *)
Theorem create_local_socket_registers w fd0 :
  ids_ok w ->
  (local_socket_next_id w = 2 ^ 32 - 1 -> create_local_socket fd0 w = Abort)
  /\ (local_socket_next_id w < 2 ^ 32 - 1 ->
      exists s so' w',
        create_local_socket fd0 w = Ok s w'
        /\ socks w !! s = None
        /\ socks w' = <[s := so']> (socks w)
        /\ id so' = local_socket_next_id w
        /\ fd so' = fd0 /\ fde_fd (fde so') = fd0 /\ peer so' = None
        /\ st_read (fde so') = false /\ st_write (fde so') = false
        /\ close so' = FN_local_socket_close
        /\ local_socket_list w' = local_socket_list w ++ [s]
        /\ local_socket_next_id w' = local_socket_next_id w + 1
        /\ pkts w' = pkts w /\ wire w' = wire w /\ fd_out w' = fd_out w
        /\ ids_ok w'
        /\ find_local_socket (id so') 0 w' = Ok (Some s) w').
Proof. exact (create_local_socket_run w fd0). Qed.

Ltac ids_ok_single :=
  split; [split; reflexivity|];
  split; [apply NoDup_singleton|];
  split;
  [ let x := fresh "x" in let Hx := fresh "Hx" in
    intros x Hx; apply list_elem_of_singleton in Hx as ->;
    eexists; split; [reflexivity|split; reflexivity]
  | let H1 := fresh "H" in let H2 := fresh "H" in
    intros ? ? ? ? H1 H2 _ _ _;
    apply list_elem_of_singleton in H1 as ->;
    now apply list_elem_of_singleton in H2 as -> ].

Lemma create_local_socket_registers_witness :
  exists s w',
    create_local_socket 11 (Scenario.remote_pair "hello") = Ok s w'
    /\ local_socket_list w' = [1%positive; s]
    /\ (id <$> socks w' !! s) = Some 2
    /\ find_local_socket 2 0 w' = Ok (Some s) w'.
Proof.
  destruct (proj2 (create_local_socket_registers (Scenario.remote_pair "hello") 11
                     ltac:(ids_ok_single)) ltac:(reflexivity))
    as (s & so' & w' & Hrun & _ & Hsocks & Hid & _ & _ & _ & _ & _ & _ & Hl & _
        & _ & _ & _ & _ & Hfind).
  exists s, w'. split; [exact Hrun|]. split; [exact Hl|].
  split; [rewrite Hsocks, lookup_insert_eq; cbn; now rewrite Hid|].
  rewrite Hid in Hfind. exact Hfind.
Defined.

Lemma NoDup_unlink s (l : list positive) : NoDup l -> NoDup (unlink s l).
Proof. apply NoDup_filter. Qed.

(** X7: [remove_socket] takes a registered socket off the main list and
    sets its id to 0; the other sockets keep their records, [ids_ok]
    still holds, [find_local_socket] no longer finds anything under the
    old id, and a second [remove_socket] changes nothing.  A socket that
    is on no list (a remote or a smart socket) is left as it is, id
    included. *)
Theorem remove_socket_forgets w s so :
  socks w !! s = Some so ->
  (linked s w = false -> remove_socket s w = Ok tt w)
  /\ (ids_ok w -> s ∈ local_socket_list w ->
      exists w',
        remove_socket s w = Ok tt w'
        /\ socks w' = <[s := set_id 0 so]> (socks w)
        /\ local_socket_list w' = unlink s (local_socket_list w)
        /\ (s ∉ local_socket_list w')
        /\ (forall x, x ≠ s -> x ∈ local_socket_list w -> x ∈ local_socket_list w')
        /\ ids_ok w'
        /\ (forall peer_id, find_local_socket (id so) peer_id w' = Ok None w')
        /\ remove_socket s w' = Ok tt w').
Proof.
  intros Hs. split.
  - intros Hl. rewrite (remove_socket_ok w s so Hs), Hl.
    destruct (unlink_unlinked _ _ Hl) as [-> ->].
    f_equal. destruct w, so; cbn in *. now rewrite insert_id by exact Hs.
  - intros Hok Hin. pose proof Hok as (Hnext & Hnd & Hlive & Hinj).
    assert (Hl : linked s w = true).
    { unfold linked. now rewrite (bool_decide_eq_true_2 _ Hin). }
    eexists. split; [rewrite (remove_socket_ok w s so Hs), Hl; reflexivity|].
    cbn [socks local_socket_list local_socket_next_id with_socks with_list
         with_closing_list].
    split; [reflexivity|]. split; [reflexivity|].
    split; [apply not_elem_of_unlink|].
    split; [intros x Hne Hx; now apply elem_of_unlink|].
    assert (Hrest : forall x, x ∈ unlink s (local_socket_list w) ->
              x ∈ local_socket_list w /\ x <> s
              /\ <[s := set_id 0 so]> (socks w) !! x = socks w !! x).
    { intros x Hx. apply elem_of_unlink in Hx as [Hx Hne].
      split; [exact Hx|]. split; [exact Hne|]. now rewrite lookup_insert_ne. }
    split; [|split].
    + split; [exact Hnext|]. split; [now apply NoDup_unlink|]. wsimpl. split.
      * intros x Hx. destruct (Hrest x Hx) as (Hx0 & _ & ->). now apply Hlive.
      * intros s1 s2 so1 so2 H1 H2.
        destruct (Hrest s1 H1) as (? & _ & ->), (Hrest s2 H2) as (? & _ & ->).
        now apply Hinj.
    + intros peer_id. unfold find_local_socket, bind, get. cbn [local_socket_list].
      rewrite <- (app_nil_r (unlink s (local_socket_list w))).
      rewrite find_local_socket_scan_skip; [reflexivity|].
      intros x Hx. destruct (Hrest x Hx) as (Hx0 & Hne & Hxo).
      destruct (Hlive x Hx0) as (xo & Hxo' & _). exists xo. wsimpl.
      rewrite Hxo. split; [exact Hxo'|].
      intros Hid. apply Hne. now apply (Hinj x s xo so).
    + match goal with |- remove_socket s ?W = _ => set (w' := W) end.
      assert (Hs' : socks w' !! s = Some (set_id 0 so)) by apply lookup_insert_eq.
      rewrite (remove_socket_ok w' s _ Hs').
      assert (Hl' : linked s w' = false).
      { unfold linked, w'. cbn.
        rewrite !bool_decide_eq_false_2; [reflexivity|apply not_elem_of_unlink..]. }
      rewrite Hl'. destruct (unlink_unlinked _ _ Hl') as [-> ->].
      f_equal. unfold w'. cbn. now rewrite insert_insert_eq.
Qed.

Lemma remove_socket_forgets_witness :
  remove_socket 3 (Scenario.remote_pair "hello") = Ok tt (Scenario.remote_pair "hello")
  /\ exists w',
      remove_socket 1 (Scenario.remote_pair "hello") = Ok tt w'
      /\ local_socket_list w' = []
      /\ (id <$> socks w' !! 1%positive) = Some 0
      /\ find_local_socket 1 0 w' = Ok None w'.
Proof.
  split.
  - apply (proj1 (remove_socket_forgets (Scenario.remote_pair "hello") 3%positive
                    (Scenario.remote3 (Some 1%positive)) eq_refl)).
    reflexivity.
  - destruct (proj2 (remove_socket_forgets (Scenario.remote_pair "hello") 1%positive
                       (Scenario.local1 (Some 3%positive)) eq_refl)
                ltac:(ids_ok_single) ltac:(left))
      as (w' & Hrun & Hsocks & Hl & _ & _ & _ & Hfind & _).
    exists w'. split; [exact Hrun|]. split; [rewrite Hl; reflexivity|].
    split; [rewrite Hsocks; reflexivity|]. apply (Hfind 0).
Defined.


(** ** Payload limits and the OPEN packet *)

Lemma max_payload_of_le E w so : max_payload_of E w so <= MAX_PAYLOAD E.
Proof.
  unfold max_payload_of.
  destruct (transport so), (peer so) as [q|]; try lia;
    destruct (socks w !! q) as [qo|]; try lia; destruct (transport qo); lia.
Qed.

(** X8: the two ends of a pair compute the same payload limit, whichever
    of them holds the transport: the least of [MAX_PAYLOAD] and the
    limits of the transports the two sockets refer to. *)
Theorem get_max_payload_pair E w s so q qo :
  socks w !! s = Some so -> socks w !! q = Some qo ->
  peer so = Some q -> peer qo = Some s ->
  exists m,
    get_max_payload E s w = Ok m w /\ get_max_payload E q w = Ok m w
    /\ m <= MAX_PAYLOAD E
    /\ (forall t, transport so = Some t \/ transport qo = Some t ->
                  m <= transport_max_payload E t)
    /\ (m = MAX_PAYLOAD E
        \/ exists t, (transport so = Some t \/ transport qo = Some t)
                     /\ m = transport_max_payload E t).
Proof.
  intros Hs Hq Hsq Hqs.
  exists (max_payload_of E w so).
  rewrite (get_max_payload_ok E w s so Hs)
    by (intros x Hx; rewrite Hsq in Hx; injection Hx as <-; eauto).
  rewrite (get_max_payload_ok E w q qo Hq)
    by (intros x Hx; rewrite Hqs in Hx; injection Hx as <-; eauto).
  split; [reflexivity|].
  unfold max_payload_of. rewrite Hsq, Hqs, Hs, Hq.
  split; [destruct (transport so), (transport qo); f_equal; lia|].
  split; [destruct (transport so), (transport qo); lia|].
  split.
  - intros t [Ht|Ht]; rewrite Ht; destruct (transport so), (transport qo); lia.
  - destruct (transport so) as [t1|], (transport qo) as [t2|]; [| | |now left].
    + destruct (Z.min_spec (Z.min (MAX_PAYLOAD E) (transport_max_payload E t1))
                  (transport_max_payload E t2)) as [[_ ->]|[_ ->]];
        [|right; exists t2; auto].
      destruct (Z.min_spec (MAX_PAYLOAD E) (transport_max_payload E t1))
        as [[_ ->]|[_ ->]]; [now left|right; exists t1; auto].
    + destruct (Z.min_spec (MAX_PAYLOAD E) (transport_max_payload E t1))
        as [[_ ->]|[_ ->]]; [now left|right; exists t1; auto].
    + destruct (Z.min_spec (MAX_PAYLOAD E) (transport_max_payload E t2))
        as [[_ ->]|[_ ->]]; [now left|right; exists t2; auto].
Qed.

Lemma get_max_payload_pair_witness :
  get_max_payload Scenario.device_env 1 (Scenario.remote_pair "hello")
    = Ok 64 (Scenario.remote_pair "hello")
  /\ get_max_payload Scenario.device_env 3 (Scenario.remote_pair "hello")
    = Ok 64 (Scenario.remote_pair "hello").
Proof.
  destruct (get_max_payload_pair Scenario.device_env (Scenario.remote_pair "hello")
              1%positive (Scenario.local1 (Some 3%positive)) 3%positive
              (Scenario.remote3 (Some 1%positive)) eq_refl eq_refl eq_refl eq_refl)
    as (m & H1 & H2 & _).
  assert (Hm : m = 64) by (vm_compute in H1; congruence).
  rewrite Hm in H1, H2. now split.
Defined.

Lemma connect_to_remote_run E w s so (destination : list byte) :
  socks w !! s = Some so ->
  (forall q, peer so = Some q -> is_Some (socks w !! q)) ->
  let mp := max_payload_of E w so in
  let len := Z.of_nat (length destination) + 1 in
  connect_to_remote E s destination w =
    if (0 <? mp) && (mp - 1 <? len) then Abort
    else if Z.of_nat (Z.to_nat (MAX_PAYLOAD E)) <? len then Fault
    else Ok tt (emit (transport so)
                  {| next := None; ptr := 0; len := 0;
                     msg := {| msg_command := A_OPEN; arg0 := id so; arg1 := 0;
                               data_length := len mod 2 ^ 32 |};
                     data := destination ++ x00 ::
                             drop (Z.to_nat len)
                               (replicate (Z.to_nat (MAX_PAYLOAD E)) x00) |} w).
Proof.
  intros Hs Hq mp len.
  unfold connect_to_remote. repeat mstep.
  change (max_payload_of E _ so) with mp. fold len.
  destruct ((0 <? mp) && (mp - 1 <? len)); [reflexivity|].
  repeat mstep. rewrite length_replicate.
  destruct (Z.of_nat (Z.to_nat (MAX_PAYLOAD E)) <? len); [reflexivity|].
  repeat mstep. mfin.
  rewrite delete_insert_eq, delete_id by apply fresh_key_None.
  unfold emit. destruct w; reflexivity.
Qed.

Lemma connect_to_remote_sends E w s so (destination : list byte) :
  socks w !! s = Some so ->
  (forall q, peer so = Some q -> is_Some (socks w !! q)) ->
  MAX_PAYLOAD E <= 2 ^ 32 ->
  0 < max_payload_of E w so ->
  Z.of_nat (length destination) + 1 <= max_payload_of E w so - 1 ->
  connect_to_remote E s destination w =
    Ok tt (emit (transport so) (open_packet E (id so) destination) w).
Proof.
  intros Hs Hq HM H0 H1.
  pose proof (max_payload_of_le E w so) as Hle.
  rewrite (connect_to_remote_run E w s so destination Hs Hq). cbv zeta.
  destruct (Z.ltb_spec 0 (max_payload_of E w so)) as [_|?]; [|lia].
  destruct (Z.ltb_spec (max_payload_of E w so - 1)
              (Z.of_nat (length destination) + 1)) as [?|_]; [lia|]. cbn [andb].
  destruct (Z.ltb_spec (Z.of_nat (Z.to_nat (MAX_PAYLOAD E)))
              (Z.of_nat (length destination) + 1)) as [?|_]; [lia|].
  unfold open_packet.
  rewrite Z.mod_small by (change (2 ^ 32) with 4294967296 in *; lia).
  rewrite drop_replicate.
  replace (Z.to_nat (MAX_PAYLOAD E) - Z.to_nat (Z.of_nat (length destination) + 1))%nat
    with (Z.to_nat (MAX_PAYLOAD E) - S (length destination))%nat by lia.
  reflexivity.
Qed.

(** X9: [connect_to_remote] sends exactly one packet, on the transport
    of the socket: an OPEN that carries the id of the socket in [arg0]
    and the destination with its terminator as payload; nothing else
    changes.  A destination that does not fit the payload limit is
    fatal.  With a payload limit of 0 the test does not reject
    anything (the subtraction wraps), and a destination larger than the
    packet buffer is copied past its end. *)
Theorem connect_to_remote_open E w s so (destination : list byte) :
  socks w !! s = Some so ->
  (forall q, peer so = Some q -> is_Some (socks w !! q)) ->
  MAX_PAYLOAD E <= 2 ^ 32 ->
  let mp := max_payload_of E w so in
  let len := Z.of_nat (length destination) + 1 in
  (0 < mp -> mp - 1 < len -> connect_to_remote E s destination w = Abort)
  /\ (0 < mp -> len <= mp - 1 ->
      connect_to_remote E s destination w =
        Ok tt (emit (transport so) (open_packet E (id so) destination) w))
  /\ (mp <= 0 -> Z.of_nat (Z.to_nat (MAX_PAYLOAD E)) < len ->
      connect_to_remote E s destination w = Fault).
Proof.
  intros Hs Hq HM mp len. split; [|split].
  - intros H0 H1. rewrite (connect_to_remote_run E w s so destination Hs Hq).
    cbv zeta. fold mp len.
    destruct (Z.ltb_spec 0 mp) as [_|?]; [|lia].
    destruct (Z.ltb_spec (mp - 1) len) as [_|?]; [reflexivity|lia].
  - intros H0 H1. now apply connect_to_remote_sends.
  - intros H0 H1. rewrite (connect_to_remote_run E w s so destination Hs Hq).
    cbv zeta. fold mp len.
    destruct (Z.ltb_spec 0 mp) as [?|_]; [lia|]. cbn [andb].
    destruct (Z.ltb_spec (Z.of_nat (Z.to_nat (MAX_PAYLOAD E))) len) as [_|?];
      [reflexivity|lia].
Qed.

Lemma connect_to_remote_open_witness :
  connect_to_remote Scenario.device_env 3 (bytes_of_string "shell:ls")
    (Scenario.remote_pair "hello")
  = Ok tt (emit (Some 7%positive)
             (open_packet Scenario.device_env 5 (bytes_of_string "shell:ls"))
             (Scenario.remote_pair "hello")).
Proof.
  apply (connect_to_remote_open Scenario.device_env (Scenario.remote_pair "hello")
           3%positive (Scenario.remote3 (Some 1%positive))
           (bytes_of_string "shell:ls")).
  - reflexivity.
  - intros q [= <-]. now eexists.
  - vm_compute. discriminate.
  - reflexivity.
  - vm_compute. discriminate.
Defined.

(** ** Requests that are forwarded to the remote side *)

Lemma smart_socket_connect_online E w s so q qo p po t (destination rest : list byte) h :
  socks w !! s = Some so -> close so = FN_smart_socket_close ->
  peer so = Some q -> q <> s -> socks w !! q = Some qo ->
  pkt_first so = Some p -> pkts w !! p = Some po -> next po = None ->
  transport so = Some t -> GetConnectionState E t = kCsOnline ->
  length h = 4%nat -> data po = h ++ destination ++ x00 :: rest ->
  x00 ∉ destination ->
  MAX_PAYLOAD E <= 2 ^ 32 ->
  Z.of_nat (length destination) + 1
    <= Z.min (MAX_PAYLOAD E) (transport_max_payload E t) - 1 ->
  smart_socket_connect E (asocket_close E) s p w =
    Ok 1 (emit (Some t) (open_packet E (id qo) destination)
            (with_pkts (delete p (pkts w))
               (with_socks
                  (delete s
                     (<[q := set_transport (Some t)
                               (set_peer None
                                  (set_close FN_local_socket_close_notify
                                     (set_shutdown None
                                        (set_ready FN_local_socket_ready_notify qo))))]>
                        (socks w))) w))).
Proof.
  intros Hs Hc Hp Hne Hq Hf Hpo Hn Ht Hon Hh Hdata Hno HM Hfit.
  unfold smart_socket_connect. repeat mstep. rewrite Ht, Hon.
  repeat mstep. rewrite Hdata.
  rewrite (request_text h destination rest Hh Hno).
  erewrite bind_ok.
  2:{ eapply connect_to_remote_sends.
      - lookup_tac.
      - rsimpl. intros x Hx. discriminate.
      - exact HM.
      - unfold max_payload_of. rsimpl. rewrite Ht. lia.
      - unfold max_payload_of. rsimpl. rewrite Ht. exact Hfit. }
  cbv beta. rsimpl. unfold emit. msimpl.
  repeat mstep. unfold ret. f_equal.
  rewrite delete_insert_eq, Ht. reflexivity.
Qed.

(** The socket of the client once its request is on its way to the
    remote side: no peer, the transport in use, and the notify variants
    in place that will report the outcome. *)
Lemma forwarded_dispatch E w s so q qo p po (payload rest : list byte) h t :
  socks w !! s = Some so -> close so = FN_smart_socket_close ->
  peer so = Some q -> q <> s -> socks w !! q = Some qo ->
  pkt_first so = Some p -> pkts w !! p = Some po -> next po = None ->
  length h = 4%nat -> data po = h ++ payload ++ x00 :: rest ->
  x00 ∉ payload ->
  ADB_HOST E = false \/ has_prefix "host" payload = false ->
  transport so = Some t
  \/ (ADB_HOST E = false /\ transport so = None
      /\ acquire_one_transport E kTransportAny = inl t) ->
  GetConnectionState E t = kCsOnline ->
  MAX_PAYLOAD E <= 2 ^ 32 ->
  Z.of_nat (length payload) + 1
    <= Z.min (MAX_PAYLOAD E) (transport_max_payload E t) - 1 ->
  smart_socket_dispatch E (asocket_close E) (asocket_ready E) s p w =
    Ok 1 (emit (Some t) (open_packet E (id qo) payload)
            (with_pkts (delete p (pkts w))
               (with_socks
                  (delete s
                     (<[q := set_transport (Some t)
                               (set_peer None
                                  (set_close FN_local_socket_close_notify
                                     (set_shutdown None
                                        (set_ready FN_local_socket_ready_notify qo))))]>
                        (socks w))) w))).
Proof.
  intros Hs Hc Hp Hne Hq Hf Hpo Hn Hh Hdata Hno Hother Htr Hon HM Hfit.
  unfold smart_socket_dispatch.
  assert (Hrq : (if ADB_HOST E then smart_socket_match_host p else ret None) w
                = Ok None w).
  { destruct (ADB_HOST E) eqn:HH; [|reflexivity].
    destruct Hother as [?|Hother]; [discriminate|].
    now apply (smart_socket_match_host_other w p po h payload rest). }
  rewrite (bind_ok _ _ _ _ _ Hrq).
  destruct Htr as [Ht|(HH & Ht & Hacq)].
  - assert (Hok : (if ADB_HOST E then ret true
                   else so <- load s;;
                        match transport so with
                        | Some _ => ret true
                        | None =>
                            match acquire_one_transport E kTransportAny with
                            | inl t => store s (set_transport (Some t));; ret true
                            | inr error_msg =>
                                q <- peer_of s;; qo <- load q;;
                                SendFail (fd qo) error_msg;; ret false
                            end
                        end) w = Ok true w).
    { destruct (ADB_HOST E); [reflexivity|]. repeat mstep. now rewrite Ht. }
    rewrite (bind_ok _ _ _ _ _ Hok).
    now apply (smart_socket_connect_online E w s so q qo p po t payload rest h).
  - rewrite HH. repeat mstep. rewrite Ht, Hacq. repeat mstep.
    match goal with |- smart_socket_connect _ _ _ _ ?W = _ =>
      rewrite (smart_socket_connect_online E W s (set_transport (Some t) so)
                 q qo p po t payload rest h)
    end; try assumption; try reflexivity.
    + f_equal. unfold emit. msimpl.
      rewrite (insert_insert_ne _ q s) by congruence.
      now rewrite delete_insert_eq.
    + wsimpl. apply lookup_insert_eq.
    + wsimpl. now rewrite lookup_insert_ne by congruence.
Qed.

(** X10: a complete request that is not a host request is forwarded.
    With an online transport (the one bound to the smart socket or, on
    the device, the one [acquire_one_transport] yields) a single OPEN
    packet goes out on it, carrying the id of the client's socket and
    the request text; the client's socket gets the notify variants and
    the transport and loses its peer; the smart socket and its buffer
    are freed; nothing is written to the client yet; 1 is returned. *)
Theorem forwarded_request_opens_remote E w s so q qo lq p po
    (payload : list byte) c rest t :
  let L := Z.of_nat (length payload) in
  1 <= L <= MAX_PAYLOAD_V1 E -> MAX_PAYLOAD_V1 E < 65536 ->
  MAX_PAYLOAD E <= 2 ^ 32 ->
  smart_pair_ok w s so q qo lq -> pkt_first so = None ->
  pkts w !! p = Some po -> next po = None ->
  len po = 4 + L -> data po = hex4 L ++ payload ++ c :: rest ->
  x00 ∉ payload ->
  ADB_HOST E = false \/ has_prefix "host" payload = false ->
  transport so = Some t
  \/ (ADB_HOST E = false /\ transport so = None
      /\ acquire_one_transport E kTransportAny = inl t) ->
  GetConnectionState E t = kCsOnline ->
  L + 1 <= Z.min (MAX_PAYLOAD E) (transport_max_payload E t) - 1 ->
  exists w' qo',
    smart_socket_enqueue E (asocket_close E) (asocket_ready E) s p w = Ok 1 w'
    /\ wire w' = wire w ++ [(Some t, open_packet E (id qo) payload)]
    /\ fd_out w' = fd_out w
    /\ socks w' !! s = None /\ pkts w' = delete p (pkts w)
    /\ socks w' !! q = Some qo'
    /\ peer qo' = None /\ transport qo' = Some t
    /\ ready qo' = FN_local_socket_ready_notify
    /\ close qo' = FN_local_socket_close_notify
    /\ shutdown qo' = None
    /\ id qo' = id qo /\ fd qo' = fd qo /\ fde qo' = fde qo
    /\ pkt_first qo' = pkt_first qo
    /\ local_socket_list w' = local_socket_list w
    /\ (forall x, x <> s -> x <> q -> socks w' !! x = socks w !! x).
Proof.
  intros L HL HV HM Hpair Hf Hpo Hn Hlen Hdata Hno Hother Htr Hon Hfit.
  pose proof Hpair as (Hs & Hc & Hp & Hne & Hq & Hcq & Hex & Hw & Hl).
  set (so0 := set_pkt_last (Some p) (set_pkt_first (Some p) so)).
  set (po1 := set_data (hex4 L ++ payload ++ x00 :: rest) po).
  set (w0 := with_pkts (<[p := po1]> (pkts w))
               (with_socks (<[s := so0]> (socks w)) w)).
  assert (Hframe : smart_socket_frame E s p w = Ok (Frame_request p L) w0).
  { apply (smart_socket_frame_request E w s so p po (hex4 L) payload c rest);
      try assumption; try reflexivity.
    - change (2 ^ 32) with 4294967296. lia.
    - apply unhex_hex4. fold L. lia. }
  rewrite (smart_socket_enqueue_request E _ _ s p w p L w0 Hframe).
  erewrite (forwarded_dispatch E w0 s so0 q qo p po1 payload rest (hex4 L) t);
    try eassumption; try reflexivity.
  - eexists _, _. split; [reflexivity|]. unfold emit, w0. msimpl.
    rewrite lookup_delete_eq, delete_insert_eq.
    rewrite lookup_delete_ne, lookup_insert_eq by congruence. rsimpl.
    repeat (split; [reflexivity|]).
    intros x Hxs Hxq.
    now rewrite lookup_delete_ne, !lookup_insert_ne by congruence.
  - unfold w0. msimpl. apply lookup_insert_eq.
  - unfold w0. msimpl. now rewrite lookup_insert_ne by congruence.
  - unfold w0. msimpl. apply lookup_insert_eq.
Qed.

Lemma forwarded_request_opens_remote_witness :
  exists w',
    smart_socket_enqueue Scenario.device_env (asocket_close Scenario.device_env)
      (asocket_ready Scenario.device_env) 2 100 (Scenario.smart_pair "0008shell:ls")
    = Ok 1 w'
    /\ wire w' = [(Some 7%positive,
                   open_packet Scenario.device_env 1 (bytes_of_string "shell:ls"))]
    /\ socks w' !! 2%positive = None.
Proof.
  destruct (forwarded_request_opens_remote Scenario.device_env
              (Scenario.smart_pair "0008shell:ls") 2%positive
              (Scenario.smart2 (Some 1%positive)) 1%positive
              (Scenario.local1 (Some 2%positive)) [] 100%positive
              (Scenario.packet_of "0008shell:ls" 64)
              (bytes_of_string "shell:ls") x00 (replicate 51 x00) 7%positive)
    as (w' & qo' & Hrun & Hwire & _ & Hs & _).
  - vm_compute. split; discriminate.
  - reflexivity.
  - vm_compute. discriminate.
  - repeat split; try reflexivity; discriminate.
  - reflexivity.
  - reflexivity.
  - reflexivity.
  - reflexivity.
  - reflexivity.
  - not_in_text.
  - left. reflexivity.
  - right. repeat split.
  - reflexivity.
  - vm_compute. discriminate.
  - exists w'. split; [exact Hrun|]. split; [exact Hwire|exact Hs].
Defined.

(** ** Requests that are refused *)

Lemma smart_socket_connect_refused E w s so q qo lq p (reason : list byte) :
  smart_pair_ok w s so q qo lq ->
  pkt_first so = Some p -> is_Some (pkts w !! p) -> p ∉ lq ->
  (transport so = None /\ reason = bytes_of_string "device offline (no transport)")
  \/ (exists t, transport so = Some t /\ GetConnectionState E t = kCsOffline
                /\ reason = bytes_of_string "device offline (transport offline)") ->
  smart_socket_connect E (asocket_close E) s p w =
    Ok (-1) (smart_failed s so q qo lq
               (with_fd_out (fd_out w ++
                  [(fd qo, bytes_of_string "FAIL"
                           ++ hex4 (Z.of_nat (length reason)) ++ reason)]) w)).
Proof.
  intros Hpair Hf Hpo Hplq Hwhy.
  pose proof Hpair as (Hs & Hc & Hp & Hne & Hq & Hcq & Hex & Hw & Hl).
  assert (Hfail : forall w1,
            socks w1 = socks w -> pkts w1 = pkts w ->
            smart_socket_fail (asocket_close E) s w1 =
              Ok (-1) (smart_failed s so q qo lq w1)).
  { intros w1 Hs1 Hp1.
    apply smart_socket_fail_ok; rewrite ?Hs1, ?Hp1; try assumption.
    intros a Ha. rewrite Hf in Ha. injection Ha as <-. auto. }
  unfold smart_socket_connect. repeat mstep.
  destruct Hwhy as [(Ht & ->)|(t & Ht & Hoff & ->)]; rewrite Ht; [|rewrite Hoff];
    unfold SendFail; repeat mstep; now apply Hfail.
Qed.

(** X11: a request that cannot be forwarded is refused with a reason.
    On the host a smart socket without a transport answers
    ["device offline (no transport)"]; on the device the message of
    [acquire_one_transport] is passed on when no transport can be had;
    a transport in the state [kCsOffline] gives
    ["device offline (transport offline)"].  In each case the client is
    sent FAIL, the length of the reason in four hex digits, and the
    reason; nothing is put on a transport; the smart socket frees its
    buffer and itself, closes the client's socket and returns -1. *)
Theorem refused_request_reports_failure E w s so q qo lq p po
    (payload : list byte) c rest (reason : list byte) :
  let L := Z.of_nat (length payload) in
  1 <= L <= MAX_PAYLOAD_V1 E -> MAX_PAYLOAD_V1 E < 65536 ->
  smart_pair_ok w s so q qo lq -> pkt_first so = None ->
  pkts w !! p = Some po -> p ∉ lq ->
  len po = 4 + L -> data po = hex4 L ++ payload ++ c :: rest ->
  x00 ∉ payload ->
  ADB_HOST E = false \/ has_prefix "host" payload = false ->
  (ADB_HOST E = true /\ transport so = None
   /\ reason = bytes_of_string "device offline (no transport)")
  \/ (ADB_HOST E = false /\ transport so = None
      /\ acquire_one_transport E kTransportAny = inr reason)
  \/ (exists t,
         (transport so = Some t
          \/ (ADB_HOST E = false /\ transport so = None
              /\ acquire_one_transport E kTransportAny = inl t))
         /\ GetConnectionState E t = kCsOffline
         /\ reason = bytes_of_string "device offline (transport offline)") ->
  exists w',
    smart_socket_enqueue E (asocket_close E) (asocket_ready E) s p w = Ok (-1) w'
    /\ fd_out w' = fd_out w ++
         [(fd qo, bytes_of_string "FAIL" ++ hex4 (Z.of_nat (length reason)) ++ reason)]
    /\ wire w' = wire w
    /\ socks w' !! s = None /\ pkts w' !! p = None
    /\ (q ∉ local_socket_list w')
    /\ socks w' !! q =
         (if destroy_now qo then None
          else Some (draining (linked q w) (set_peer None qo))).
Proof.
  intros L HL HV Hpair Hf Hpo Hplq Hlen Hdata Hno Hother Hwhy.
  pose proof Hpair as (Hs & Hc & Hp & Hne & Hq & Hcq & Hex & Hw & Hl).
  set (so0 := set_pkt_last (Some p) (set_pkt_first (Some p) so)).
  set (po1 := set_data (hex4 L ++ payload ++ x00 :: rest) po).
  set (w0 := with_pkts (<[p := po1]> (pkts w))
               (with_socks (<[s := so0]> (socks w)) w)).
  assert (Hframe : smart_socket_frame E s p w = Ok (Frame_request p L) w0).
  { apply (smart_socket_frame_request E w s so p po (hex4 L) payload c rest);
      try assumption; try reflexivity.
    - change (2 ^ 32) with 4294967296. lia.
    - apply unhex_hex4. fold L. lia. }
  rewrite (smart_socket_enqueue_request E _ _ s p w p L w0 Hframe).
  assert (Hp0 : pkts w0 !! p = Some po1) by (unfold w0; msimpl; apply lookup_insert_eq).
  assert (Hpair0 : smart_pair_ok w0 s so0 q qo lq).
  { unfold w0. repeat split; try assumption; msimpl.
    - apply lookup_insert_eq.
    - now rewrite lookup_insert_ne by congruence.
    - now rewrite chainb_insert. }
  assert (Hrq : (if ADB_HOST E then smart_socket_match_host p else ret None) w0
                = Ok None w0).
  { destruct (ADB_HOST E) eqn:HH; [|reflexivity].
    destruct Hother as [?|Hother]; [discriminate|].
    now apply (smart_socket_match_host_other w0 p po1 (hex4 L) payload rest). }
  assert (Hdone : forall so1 w1,
    smart_socket_dispatch E (asocket_close E) (asocket_ready E) s p w0 =
      Ok (-1) (smart_failed s so1 q qo lq w1) ->
    pkt_first so1 = Some p ->
    fd_out w1 = fd_out w ++
      [(fd qo, bytes_of_string "FAIL" ++ hex4 (Z.of_nat (length reason)) ++ reason)] ->
    wire w1 = wire w ->
    local_socket_list w1 = local_socket_list w ->
    local_socket_closing_list w1 = local_socket_closing_list w ->
    exists w',
      smart_socket_dispatch E (asocket_close E) (asocket_ready E) s p w0 = Ok (-1) w'
      /\ fd_out w' = fd_out w ++
           [(fd qo, bytes_of_string "FAIL" ++ hex4 (Z.of_nat (length reason)) ++ reason)]
      /\ wire w' = wire w
      /\ socks w' !! s = None /\ pkts w' !! p = None
      /\ (q ∉ local_socket_list w')
      /\ socks w' !! q =
           (if destroy_now qo then None
            else Some (draining (linked q w) (set_peer None qo)))).
  { intros so1 w1 Hrun Hf1 Hout Hwire Hmain Hclosing.
    destruct (smart_failed_spec s so1 q qo lq w1 Hne)
      as (Hs' & Hp' & Hwire' & Hout' & Hq1 & Hq2).
    eexists. split; [exact Hrun|].
    split; [congruence|]. split; [congruence|]. split; [exact Hs'|].
    split; [now apply Hp'|]. split; [exact Hq1|].
    rewrite Hq2. unfold linked. now rewrite Hmain, Hclosing. }
  assert (Hs0 : socks w0 !! s = Some so0) by apply Hpair0.
  assert (Hq0 : socks w0 !! q = Some qo) by apply Hpair0.
  assert (Hp0' : peer so0 = Some q) by apply Hpair0.
  unfold smart_socket_dispatch in *. rewrite (bind_ok _ _ _ _ _ Hrq) in *.
  destruct Hwhy as [(HH & Ht & ->)|[(HH & Ht & Hacq)|(t & Htr & Hoff & ->)]].
  - rewrite HH in *. eapply Hdone.
    + repeat mstep.
      apply (smart_socket_connect_refused E w0 s so0 q qo lq p
               (bytes_of_string "device offline (no transport)") Hpair0 eq_refl
               (mk_is_Some _ _ Hp0) Hplq).
      left. now split.
    + reflexivity.
    + reflexivity.
    + reflexivity.
    + reflexivity.
    + reflexivity.
  - rewrite HH in *. eapply (Hdone so0).
    + repeat mstep. change (transport so0) with (transport so).
      rewrite Ht, Hacq. unfold SendFail. repeat mstep.
      apply (smart_socket_fail_ok E _ s so0 q qo lq); try assumption;
        try apply Hpair0.
      intros a [= <-]. split; [now exists po1|assumption].
    + reflexivity.
    + reflexivity.
    + reflexivity.
    + reflexivity.
    + reflexivity.
  - destruct Htr as [Ht|(HH & Ht & Hacq)].
    + eapply (Hdone so0).
      * assert (Hok : (if ADB_HOST E then ret true
                   else so <- load s;;
                        match transport so with
                        | Some _ => ret true
                        | None =>
                            match acquire_one_transport E kTransportAny with
                            | inl t => store s (set_transport (Some t));; ret true
                            | inr error_msg =>
                                q <- peer_of s;; qo <- load q;;
                                SendFail (fd qo) error_msg;; ret false
                            end
                        end) w0 = Ok true w0).
        { destruct (ADB_HOST E); [reflexivity|]. repeat mstep.
          change (transport so0) with (transport so). now rewrite Ht. }
        rewrite (bind_ok _ _ _ _ _ Hok).
        apply (smart_socket_connect_refused E w0 s so0 q qo lq p
                 (bytes_of_string "device offline (transport offline)") Hpair0 eq_refl
                 (mk_is_Some _ _ Hp0) Hplq).
        right. exists t. now repeat split.
      * reflexivity.
      * reflexivity.
      * reflexivity.
      * reflexivity.
      * reflexivity.
    + rewrite HH in *. eapply (Hdone (set_transport (Some t) so0)).
      * repeat mstep. change (transport so0) with (transport so).
        rewrite Ht, Hacq. repeat mstep.
        match goal with |- smart_socket_connect _ _ _ _ ?W = _ =>
          apply (smart_socket_connect_refused E W s (set_transport (Some t) so0)
                   q qo lq p (bytes_of_string "device offline (transport offline)"))
        end.
        -- repeat split; try apply Hpair0; msimpl.
           ++ apply lookup_insert_eq.
           ++ now rewrite lookup_insert_ne by congruence.
        -- reflexivity.
        -- now exists po1.
        -- assumption.
        -- right. exists t. now repeat split.
      * reflexivity.
      * reflexivity.
      * reflexivity.
      * reflexivity.
      * reflexivity.
Qed.

Lemma refused_request_reports_failure_witness :
  exists w',
    smart_socket_enqueue Scenario.host_env (asocket_close Scenario.host_env)
      (asocket_ready Scenario.host_env) 2 100 (Scenario.smart_pair "0008shell:ls")
    = Ok (-1) w'
    /\ fd_out w' = [(10, bytes_of_string "FAIL001ddevice offline (no transport)")]
    /\ wire w' = []
    /\ socks w' !! 1%positive = None.
Proof.
  destruct (refused_request_reports_failure Scenario.host_env
              (Scenario.smart_pair "0008shell:ls") 2%positive
              (Scenario.smart2 (Some 1%positive)) 1%positive
              (Scenario.local1 (Some 2%positive)) [] 100%positive
              (Scenario.packet_of "0008shell:ls" 64)
              (bytes_of_string "shell:ls") x00 (replicate 51 x00)
              (bytes_of_string "device offline (no transport)"))
    as (w' & Hrun & Hout & Hwire & _ & _ & _ & Hq).
  - vm_compute. split; discriminate.
  - reflexivity.
  - repeat split; try reflexivity; discriminate.
  - reflexivity.
  - reflexivity.
  - apply not_elem_of_nil.
  - reflexivity.
  - reflexivity.
  - not_in_text.
  - right. reflexivity.
  - left. repeat split.
  - exists w'. split; [exact Hrun|]. split; [exact Hout|]. split; [exact Hwire|].
    exact Hq.
Defined.


(** ** Host requests that select a transport *)

Lemma smart_socket_host_service_transport E cc cr w s so q qo p po rq :
  socks w !! s = Some so -> peer so = Some q -> q <> s ->
  socks w !! q = Some qo -> pkts w !! p = Some po ->
  let reply := handle_host_request E (hq_service rq) (hq_type rq) (hq_serial rq)
                 (fd qo) s in
  hr_status reply <> 0 -> has_prefix "transport" (hq_service rq) = true ->
  smart_socket_host_service E cc cr s p rq w =
    Ok 0 (with_pkts (<[p := set_len 0 po]> (pkts w))
            (with_socks
               (<[s := match hr_bind reply with
                       | Some t => set_transport (Some t) so
                       | None => so
                       end]> (socks w))
               (with_fd_out (fd_out w ++ [(fd qo, hr_out reply)]) w))).
Proof.
  intros Hs Hp Hne Hq Hpo reply Hst Htr.
  unfold smart_socket_host_service. repeat mstep. fold reply.
  destruct (hr_bind reply) as [t|].
  - repeat mstep. destruct (Z.eqb_spec (hr_status reply) 0) as [?|_]; [contradiction|].
    rewrite Htr. repeat mstep. reflexivity.
  - repeat mstep. destruct (Z.eqb_spec (hr_status reply) 0) as [?|_]; [contradiction|].
    rewrite Htr. repeat mstep. unfold ret. f_equal.
    rewrite (insert_id _ s so Hs). reflexivity.
Qed.

(** The first packet of a smart socket holds the complete request
    [prefix ++ service]. *)
Lemma host_request_frame E w s so p po prefix (service : list byte) c rest :
  let L := Z.of_nat (length (bytes_of_string prefix ++ service)) in
  1 <= L <= MAX_PAYLOAD_V1 E -> MAX_PAYLOAD_V1 E < 65536 ->
  socks w !! s = Some so -> pkt_first so = None -> pkts w !! p = Some po ->
  len po = 4 + L ->
  data po = hex4 L ++ (bytes_of_string prefix ++ service) ++ c :: rest ->
  smart_socket_frame E s p w =
    Ok (Frame_request p L)
       (with_pkts
          (<[p := set_data (hex4 L ++ bytes_of_string prefix ++ service ++ x00 :: rest)
                    po]> (pkts w))
          (with_socks (<[s := set_pkt_last (Some p) (set_pkt_first (Some p) so)]>
                         (socks w)) w)).
Proof.
  intros L HL HV Hs Hf Hpo Hlen Hdata.
  rewrite (smart_socket_frame_request E w s so p po (hex4 L)
             (bytes_of_string prefix ++ service) c rest);
    try assumption; try reflexivity.
  - now rewrite <- app_assoc.
  - change (2 ^ 32) with 4294967296. lia.
  - apply unhex_hex4. fold L. lia.
Qed.

Lemma host_transport_switch_run E w s so q qo lq p po prefix type
    (service : list byte) c rest :
  let L := Z.of_nat (length (bytes_of_string prefix ++ service)) in
  let reply := handle_host_request E service type None (fd qo) s in
  ADB_HOST E = true ->
  1 <= L <= MAX_PAYLOAD_V1 E -> MAX_PAYLOAD_V1 E < 65536 ->
  smart_pair_ok w s so q qo lq -> pkt_first so = None ->
  pkts w !! p = Some po ->
  len po = 4 + L ->
  data po = hex4 L ++ (bytes_of_string prefix ++ service) ++ c :: rest ->
  (prefix, type) ∈ [("host-usb:"%string, kTransportUsb);
                    ("host-local:"%string, kTransportLocal);
                    ("host:"%string, kTransportAny)] ->
  x00 ∉ service ->
  has_prefix "transport" service = true ->
  hr_status reply <> 0 ->
  smart_socket_enqueue E (asocket_close E) (asocket_ready E) s p w =
    Ok 0 (with_pkts
            (<[p := set_len 0
                      (set_data (hex4 L ++ bytes_of_string prefix ++ service
                                   ++ x00 :: rest) po)]> (pkts w))
            (with_socks
               (<[s := let so0 := set_pkt_last (Some p) (set_pkt_first (Some p) so) in
                       match hr_bind reply with
                       | Some t => set_transport (Some t) so0
                       | None => so0
                       end]> (socks w))
               (with_fd_out (fd_out w ++ [(fd qo, hr_out reply)]) w))).
Proof.
  intros L reply HH HL HV Hpair Hf Hpo Hlen Hdata Hin Hno Htr Hst.
  pose proof Hpair as (Hs & Hc & Hp & Hne & Hq & Hcq & Hex & Hw & Hl).
  set (so0 := set_pkt_last (Some p) (set_pkt_first (Some p) so)).
  set (po1 := set_data (hex4 L ++ bytes_of_string prefix ++ service ++ x00 :: rest) po).
  set (w0 := with_pkts (<[p := po1]> (pkts w))
               (with_socks (<[s := so0]> (socks w)) w)).
  rewrite (smart_socket_enqueue_request E _ _ s p w p L w0
             (host_request_frame E w s so p po prefix service c rest
                HL HV Hs Hf Hpo Hlen Hdata)).
  assert (Hp0 : pkts w0 !! p = Some po1) by (unfold w0; msimpl; apply lookup_insert_eq).
  assert (Hs0 : socks w0 !! s = Some so0) by (unfold w0; msimpl; apply lookup_insert_eq).
  assert (Hq0 : socks w0 !! q = Some qo).
  { unfold w0. msimpl. now rewrite lookup_insert_ne by congruence. }
  unfold smart_socket_dispatch. rewrite HH.
  rewrite (bind_ok _ _ _ _ _
             (smart_socket_match_host_plain w0 p po1 (hex4 L) rest prefix type service
                Hp0 eq_refl Hin eq_refl Hno)).
  rewrite (smart_socket_host_service_transport E _ _ w0 s so0 q qo p po1
             {| hq_service := service; hq_serial := None; hq_type := type |}
             Hs0 Hp Hne Hq0 Hp0 Hst Htr).
  cbn [hq_service hq_type hq_serial]. fold reply. unfold w0. msimpl.
  reflexivity.
Qed.

(** X12: the host requests that select a transport (["host:transport..."]
    and the like) keep the smart socket for the request that follows.
    When [handle_host_request] returns a value other than 0 for a service
    that begins with ["transport"], what it has written is all the client
    is sent; the transport it has bound stays with the smart socket; the
    buffer is kept but emptied ([len] 0); the client's socket is
    untouched and 0 is returned. *)
Theorem host_transport_switch E w s so q qo lq p po prefix type
    (service : list byte) c rest :
  let L := Z.of_nat (length (bytes_of_string prefix ++ service)) in
  let reply := handle_host_request E service type None (fd qo) s in
  ADB_HOST E = true ->
  1 <= L <= MAX_PAYLOAD_V1 E -> MAX_PAYLOAD_V1 E < 65536 ->
  smart_pair_ok w s so q qo lq -> pkt_first so = None ->
  pkts w !! p = Some po -> p ∉ lq ->
  len po = 4 + L ->
  data po = hex4 L ++ (bytes_of_string prefix ++ service) ++ c :: rest ->
  (prefix, type) ∈ [("host-usb:"%string, kTransportUsb);
                    ("host-local:"%string, kTransportLocal);
                    ("host:"%string, kTransportAny)] ->
  x00 ∉ service ->
  has_prefix "transport" service = true ->
  hr_status reply <> 0 ->
  exists w' so' po',
    smart_socket_enqueue E (asocket_close E) (asocket_ready E) s p w = Ok 0 w'
    /\ fd_out w' = fd_out w ++ [(fd qo, hr_out reply)]
    /\ wire w' = wire w
    /\ smart_pair_ok w' s so' q qo lq
    /\ transport so' = match hr_bind reply with
                       | Some t => Some t
                       | None => transport so
                       end
    /\ pkt_first so' = Some p /\ pkt_last so' = Some p
    /\ pkts w' !! p = Some po'
    /\ len po' = 0 /\ next po' = next po
    /\ length (data po') = length (data po)
    /\ local_socket_list w' = local_socket_list w
    /\ (forall x, x <> p -> pkts w' !! x = pkts w !! x)
    /\ (forall x, x <> s -> socks w' !! x = socks w !! x).
Proof.
  intros L reply HH HL HV Hpair Hf Hpo Hplq Hlen Hdata Hin Hno Htr Hst.
  pose proof Hpair as (Hs & Hc & Hp & Hne & Hq & Hcq & Hex & Hw & Hl).
  rewrite (host_transport_switch_run E w s so q qo lq p po prefix type service c rest
             HH HL HV Hpair Hf Hpo Hlen Hdata Hin Hno Htr Hst).
  fold L reply.
  eexists _, _, _. split; [reflexivity|]. msimpl.
  split; [reflexivity|]. split; [reflexivity|].
  rewrite !lookup_insert_eq.
  split.
  { repeat split; try assumption; msimpl.
    - apply lookup_insert_eq.
    - destruct (hr_bind reply); exact Hc.
    - destruct (hr_bind reply); exact Hp.
    - now rewrite lookup_insert_ne by congruence.
    - now rewrite chainb_insert. }
  split; [now destruct (hr_bind reply)|].
  split; [now destruct (hr_bind reply)|].
  split; [now destruct (hr_bind reply)|].
  split; [reflexivity|]. split; [reflexivity|]. split; [reflexivity|].
  split.
  { cbn. rewrite Hdata, !length_app. cbn. rewrite ?length_app. cbn. lia. }
  split; [reflexivity|].
  split; intros x Hx; now rewrite lookup_insert_ne by congruence.
Qed.

(** The request that follows: its bytes are copied to the start of the
    emptied buffer. *)
Lemma emptied_buffer_frame E w s so first fo p po (payload tail : list byte) :
  let L := Z.of_nat (length payload) in
  1 <= L <= MAX_PAYLOAD_V1 E -> MAX_PAYLOAD_V1 E < 65536 ->
  socks w !! s = Some so -> pkt_first so = Some first ->
  (forall q, peer so = Some q -> is_Some (socks w !! q)) ->
  pkts w !! first = Some fo -> pkts w !! p = Some po -> first <> p ->
  len fo = 0 -> len po = 4 + L -> data po = hex4 L ++ payload ++ tail ->
  4 + L < Z.of_nat (length (data fo)) -> 4 + L <= max_payload_of E w so ->
  exists rest,
    smart_socket_frame E s p w =
      Ok (Frame_request first L)
         (with_pkts
            (<[first := set_len (4 + L)
                          (set_data (hex4 L ++ payload ++ x00 :: rest) fo)]>
               (delete p (pkts w))) w).
Proof.
  intros L HL HV Hs Hf Hq Hfo Hpo Hne Hlf Hlp Hdata Hcap Hmp.
  rewrite (smart_socket_frame_append E w s so first fo p po Hs Hf Hq Hfo Hpo Hne).
  rewrite Hlf, Hlp, Z.add_0_l.
  destruct (Z.ltb_spec (max_payload_of E w so) (4 + L)) as [?|_]; [lia|].
  assert (Htake : take (Z.to_nat (4 + L)) (data po) = hex4 L ++ payload).
  { rewrite Hdata, app_assoc. apply take_app_length'.
    rewrite length_app, hex4_length. lia. }
  destruct (drop (Z.to_nat (4 + L)) (data fo)) as [|c rest] eqn:Hdrop.
  { apply (f_equal length) in Hdrop. rewrite length_drop in Hdrop. cbn in Hdrop. lia. }
  exists rest.
  unfold memcpy. rewrite Z.add_0_l.
  assert (Hlenp : 4 + L <= Z.of_nat (length (data po))).
  { rewrite Hdata, !length_app, hex4_length. lia. }
  destruct (Z.leb_spec 0 0) as [_|?]; [|lia].
  destruct (Z.leb_spec 0 (4 + L)) as [_|?]; [|lia].
  destruct (Z.leb_spec (4 + L) (Z.of_nat (length (data fo)))) as [_|?]; [|lia].
  destruct (Z.leb_spec (4 + L) (Z.of_nat (length (data po)))) as [_|?]; [|lia].
  cbn [andb]. change (Z.to_nat 0) with 0%nat. rewrite take_0, app_nil_l.
  rewrite Htake, Hdrop, <- app_assoc.
  unfold frame_verdict. cbn [len data set_len set_data].
  destruct (Z.ltb_spec (4 + L) 4) as [?|_]; [lia|].
  rewrite unhex_hex4 by (fold L; lia).
  destruct (Z.ltb_spec L 1) as [?|_]; [lia|].
  destruct (Z.ltb_spec (MAX_PAYLOAD_V1 E) L) as [?|_]; [lia|].
  cbn [orb].
  rewrite (Z.mod_small (L + 4)) by (change (2 ^ 32) with 4294967296; lia).
  destruct (Z.ltb_spec (4 + L) (L + 4)) as [?|_]; [lia|].
  destruct (Z.leb_spec (Z.of_nat (length (hex4 L ++ payload ++ c :: rest))) (L + 4))
    as [Hc|_].
  { rewrite !length_app, hex4_length in Hc. cbn in Hc. lia. }
  msimpl. subst L. rewrite terminate_request by apply hex4_length.
  f_equal. f_equal.
  rewrite delete_insert_ne by congruence. now rewrite insert_insert_eq.
Qed.

(** X13: selecting a transport and then asking for a service, as a
    client does with two requests on one connection.  The first request
    (["host:transport..."], for which [handle_host_request] returns a
    value other than 0 and binds the transport [t]) returns 0 and leaves
    the smart socket in place;
    the second one, a request that does not begin with ["host"], is read from the
    start of the emptied buffer and forwarded: one OPEN packet with the
    id of the client's socket and the text of the second request goes
    out on [t], the client has been sent the reply to the first request
    and nothing else, both packets and the smart socket are freed, and 1
    is returned. *)
Theorem transport_then_request_forwarded E w s so q qo lq p po prefix type
    (service : list byte) c rest p2 po2 (payload2 tail2 : list byte) t :
  let L := Z.of_nat (length (bytes_of_string prefix ++ service)) in
  let L2 := Z.of_nat (length payload2) in
  let reply := handle_host_request E service type None (fd qo) s in
  ADB_HOST E = true ->
  MAX_PAYLOAD_V1 E < 65536 -> MAX_PAYLOAD E <= 2 ^ 32 ->
  smart_pair_ok w s so q qo lq -> pkt_first so = None -> transport qo = None ->
  pkts w !! p = Some po -> next po = None ->
  1 <= L <= MAX_PAYLOAD_V1 E -> len po = 4 + L ->
  data po = hex4 L ++ (bytes_of_string prefix ++ service) ++ c :: rest ->
  (prefix, type) ∈ [("host-usb:"%string, kTransportUsb);
                    ("host-local:"%string, kTransportLocal);
                    ("host:"%string, kTransportAny)] ->
  x00 ∉ service -> has_prefix "transport" service = true ->
  hr_status reply <> 0 -> hr_bind reply = Some t ->
  GetConnectionState E t = kCsOnline ->
  pkts w !! p2 = Some po2 -> p2 <> p ->
  1 <= L2 <= MAX_PAYLOAD_V1 E -> len po2 = 4 + L2 ->
  data po2 = hex4 L2 ++ payload2 ++ tail2 ->
  x00 ∉ payload2 -> has_prefix "host" payload2 = false ->
  4 + L2 < Z.of_nat (length (data po)) ->
  4 + L2 <= Z.min (MAX_PAYLOAD E) (transport_max_payload E t) ->
  L2 + 1 <= Z.min (MAX_PAYLOAD E) (transport_max_payload E t) - 1 ->
  exists w1 w2 qo',
    smart_socket_enqueue E (asocket_close E) (asocket_ready E) s p w = Ok 0 w1
    /\ smart_socket_enqueue E (asocket_close E) (asocket_ready E) s p2 w1 = Ok 1 w2
    /\ fd_out w2 = fd_out w ++ [(fd qo, hr_out reply)]
    /\ wire w2 = wire w ++ [(Some t, open_packet E (id qo) payload2)]
    /\ socks w2 !! s = None
    /\ pkts w2 = delete p (delete p2 (pkts w))
    /\ socks w2 !! q = Some qo'
    /\ peer qo' = None /\ transport qo' = Some t
    /\ ready qo' = FN_local_socket_ready_notify
    /\ close qo' = FN_local_socket_close_notify
    /\ local_socket_list w2 = local_socket_list w.
Proof.
  intros L L2 reply HH HV HM Hpair Hf Htq Hpo Hn HL Hlen Hdata Hin Hno Htr Hst Hbind
    Hon Hpo2 Hne2 HL2 Hlen2 Hdata2 Hno2 Hother Hcap Hmp Hfit.
  pose proof Hpair as (Hs & Hc & Hp & Hne & Hq & Hcq & Hex & Hw & Hl).
  rewrite (host_transport_switch_run E w s so q qo lq p po prefix type service c rest
             HH HL HV Hpair Hf Hpo Hlen Hdata Hin Hno Htr Hst).
  fold L reply. rewrite Hbind. cbv zeta.
  set (so1 := set_transport (Some t)
                (set_pkt_last (Some p) (set_pkt_first (Some p) so))).
  set (po1 := set_len 0
                (set_data (hex4 L ++ bytes_of_string prefix ++ service ++ x00 :: rest)
                   po)).
  set (w1 := with_pkts (<[p := po1]> (pkts w))
               (with_socks (<[s := so1]> (socks w))
                  (with_fd_out (fd_out w ++ [(fd qo, hr_out reply)]) w))).
  assert (Hs1 : socks w1 !! s = Some so1) by (unfold w1; msimpl; apply lookup_insert_eq).
  assert (Hq1 : socks w1 !! q = Some qo).
  { unfold w1. msimpl. now rewrite lookup_insert_ne by congruence. }
  assert (Hp1 : pkts w1 !! p = Some po1) by (unfold w1; msimpl; apply lookup_insert_eq).
  assert (Hp21 : pkts w1 !! p2 = Some po2).
  { unfold w1. msimpl. now rewrite lookup_insert_ne by congruence. }
  assert (Hmp1 : max_payload_of E w1 so1
                 = Z.min (MAX_PAYLOAD E) (transport_max_payload E t)).
  { unfold max_payload_of. change (transport so1) with (Some t).
    change (peer so1) with (peer so). now rewrite Hp, Hq1, Htq. }
  destruct (emptied_buffer_frame E w1 s so1 p po1 p2 po2 payload2 tail2)
    as (rest2 & Hframe); try assumption; try reflexivity.
  { intros x Hx. change (peer so1) with (peer so) in Hx. rewrite Hp in Hx.
    injection Hx as <-. now exists qo. }
  { congruence. }
  { replace (length (data po1)) with (length (data po)); [exact Hcap|].
    unfold po1. cbn [data set_len set_data]. rewrite Hdata, <- !app_assoc.
    rewrite !length_app. cbn [length]. lia. }
  { rewrite Hmp1. exact Hmp. }
  fold L2 in Hframe.
  set (po3 := set_len (4 + L2) (set_data (hex4 L2 ++ payload2 ++ x00 :: rest2) po1))
    in Hframe.
  set (w3 := with_pkts (<[p := po3]> (delete p2 (pkts w1))) w1) in Hframe.
  exists w1. eexists _, _. split; [reflexivity|].
  rewrite (smart_socket_enqueue_request E _ _ s p2 w1 p L2 w3 Hframe).
  rewrite (forwarded_dispatch E w3 s so1 q qo p po3 payload2 rest2 (hex4 L2) t);
    try assumption; try reflexivity.
  - unfold emit, w3, w1. msimpl.
    split; [reflexivity|]. wsimpl. split; [reflexivity|]. split; [reflexivity|].
    rewrite lookup_delete_eq. split; [reflexivity|].
    split.
    { rewrite delete_insert_eq.
      rewrite delete_insert_ne by congruence.
      now rewrite delete_insert_eq. }
    rewrite lookup_delete_ne, lookup_insert_eq by congruence. rsimpl.
    repeat (split; [reflexivity|]). reflexivity.
  - unfold w3. wsimpl. apply lookup_insert_eq.
  - now right.
  - now left.
Qed.

Lemma host_transport_switch_witness :
  exists w' so',
    smart_socket_enqueue Scenario2.switch_env (asocket_close Scenario2.switch_env)
      (asocket_ready Scenario2.switch_env) 2 100
      (Scenario.smart_pair "0012host:transport-any") = Ok 0 w'
    /\ fd_out w' = [(10, bytes_of_string "OKAY")]
    /\ socks w' !! 2%positive = Some so'
    /\ transport so' = Some 7%positive
    /\ (len <$> pkts w' !! 100%positive) = Some 0.
Proof.
  destruct (host_transport_switch Scenario2.switch_env
              (Scenario.smart_pair "0012host:transport-any") 2%positive
              (Scenario.smart2 (Some 1%positive)) 1%positive
              (Scenario.local1 (Some 2%positive)) [] 100%positive
              (Scenario.packet_of "0012host:transport-any" 64)
              "host:"%string kTransportAny (bytes_of_string "transport-any")
              x00 (replicate 41 x00))
    as (w' & so' & po' & Hrun & Hout & _ & Hpair & Htr & _ & _ & Hp & Hlen & _).
  - reflexivity.
  - vm_compute. split; discriminate.
  - reflexivity.
  - repeat split; try reflexivity; discriminate.
  - reflexivity.
  - reflexivity.
  - apply not_elem_of_nil.
  - reflexivity.
  - reflexivity.
  - right. right. left.
  - not_in_text.
  - reflexivity.
  - vm_compute. discriminate.
  - exists w', so'. split; [exact Hrun|]. split; [exact Hout|].
    split; [apply Hpair|]. split; [exact Htr|]. now rewrite Hp, <- Hlen.
Defined.

Lemma transport_then_request_forwarded_witness :
  exists w1 w2,
    smart_socket_enqueue Scenario2.switch_env (asocket_close Scenario2.switch_env)
      (asocket_ready Scenario2.switch_env) 2 100
      (Scenario2.two_requests "0012host:transport-any" "0008shell:ls") = Ok 0 w1
    /\ smart_socket_enqueue Scenario2.switch_env (asocket_close Scenario2.switch_env)
         (asocket_ready Scenario2.switch_env) 2 101 w1 = Ok 1 w2
    /\ fd_out w2 = [(10, bytes_of_string "OKAY")]
    /\ wire w2 = [(Some 7%positive,
                   open_packet Scenario2.switch_env 1 (bytes_of_string "shell:ls"))]
    /\ pkts w2 = ∅.
Proof.
  destruct (transport_then_request_forwarded Scenario2.switch_env
              (Scenario2.two_requests "0012host:transport-any" "0008shell:ls")
              2%positive (Scenario.smart2 (Some 1%positive)) 1%positive
              (Scenario.local1 (Some 2%positive)) [] 100%positive
              (Scenario.packet_of "0012host:transport-any" 64)
              "host:"%string kTransportAny (bytes_of_string "transport-any")
              x00 (replicate 41 x00) 101%positive
              (Scenario.packet_of "0008shell:ls" 64)
              (bytes_of_string "shell:ls") (replicate 52 x00) 7%positive)
    as (w1 & w2 & qo' & Hrun1 & Hrun2 & Hout & Hwire & _ & Hpk & _).
  - reflexivity.
  - reflexivity.
  - vm_compute. discriminate.
  - repeat split; try reflexivity; discriminate.
  - reflexivity.
  - reflexivity.
  - reflexivity.
  - reflexivity.
  - vm_compute. split; discriminate.
  - reflexivity.
  - reflexivity.
  - right. right. left.
  - not_in_text.
  - reflexivity.
  - vm_compute. discriminate.
  - reflexivity.
  - reflexivity.
  - reflexivity.
  - discriminate.
  - vm_compute. split; discriminate.
  - reflexivity.
  - reflexivity.
  - not_in_text.
  - reflexivity.
  - reflexivity.
  - vm_compute. discriminate.
  - vm_compute. discriminate.
  - exists w1, w2. split; [exact Hrun1|]. split; [exact Hrun2|].
    split; [exact Hout|]. split; [exact Hwire|].
    rewrite Hpk. vm_compute. reflexivity.
Defined.

(** ** Host requests for a host service *)

Ltac map_solve :=
  apply map_eq; intros ?i;
  repeat first [rewrite lookup_insert | rewrite lookup_delete];
  repeat match goal with |- context [decide ?P] => destruct (decide P) end;
  first [reflexivity | congruence].

Lemma fresh_key_insert_live {V} (m : gmap positive V) s x y :
  m !! s = Some x -> fresh_key (<[s := y]> m) = fresh_key m.
Proof.
  intros Hs. unfold fresh_key. f_equal. rewrite dom_insert_L.
  apply subseteq_union_1_L, singleton_subseteq_l.
  now apply (elem_of_dom_2 m s x).
Qed.

Lemma smart_socket_host_service_bound E w s so q qo p po rq s2o :
  socks w !! s = Some so -> close so = FN_smart_socket_close ->
  peer so = Some q -> q <> s -> socks w !! q = Some qo ->
  pkt_first so = Some p -> pkts w !! p = Some po -> next po = None ->
  let reply := handle_host_request E (hq_service rq) (hq_type rq) (hq_serial rq)
                 (fd qo) s in
  hr_status reply <> 0 -> has_prefix "transport" (hq_service rq) = false ->
  host_service_to_socket E (hq_service rq) (hq_serial rq) = Some s2o ->
  let s2 := fresh_key (socks w) in
  smart_socket_host_service E (asocket_close E) (asocket_ready E) s p rq w =
    (asocket_ready E s2;; ret 0)
      (with_pkts (delete p (pkts w))
         (with_socks
            (delete s
               (<[s2 := set_peer (Some q) s2o]>
                  (<[q := set_peer (Some s2) (notified qo)]> (socks w))))
            (with_fd_out (fd_out w ++ [(fd qo, hr_out reply);
                                       (fd qo, bytes_of_string "OKAY")]) w))).
Proof.
  intros Hs Hc Hp Hne Hq Hf Hpo Hn reply Hst Htr Hsvc s2.
  pose proof (fresh_key_None (socks w)) as Hfr. fold s2 in Hfr.
  assert (Hs2s : s2 <> s) by congruence.
  assert (Hs2q : s2 <> q) by congruence.
  unfold smart_socket_host_service. repeat mstep. fold reply.
  assert (Hgo : forall so1 w1,
    socks w1 !! s = Some so1 -> close so1 = FN_smart_socket_close ->
    peer so1 = Some q -> pkt_first so1 = Some p ->
    socks w1 !! q = Some qo -> pkts w1 !! p = Some po ->
    fresh_key (socks w1) = s2 -> socks w1 !! s2 = None ->
    (if hr_status reply =? 0 then smart_socket_fail (asocket_close E) s
     else if has_prefix "transport" (hq_service rq) then storep p (set_len 0);; ret 0
     else match host_service_to_socket E (hq_service rq) (hq_serial rq) with
          | None =>
              q <- peer_of s;; qo <- load q;;
              SendFail (fd qo) (bytes_of_string "unknown host service");;
              smart_socket_fail (asocket_close E) s
          | Some s2o =>
              s2 <- alloc s2o;;
              q <- peer_of s;; qo <- load q;; SendOkay (fd qo);;
              q <- peer_of s;; store q (set_ready FN_local_socket_ready);;
              q <- peer_of s;; store q (set_shutdown None);;
              q <- peer_of s;; store q (set_close FN_local_socket_close);;
              q <- peer_of s;; store q (set_peer (Some s2));;
              so <- load s;; store s2 (set_peer (peer so));;
              store s (set_peer None);;
              asocket_close E s;; asocket_ready E s2;; ret 0
          end) w1 =
    (asocket_ready E s2;; ret 0)
      (with_pkts (delete p (pkts w1))
         (with_socks
            (delete s
               (<[s2 := set_peer (Some q) s2o]>
                  (<[q := set_peer (Some s2) (notified qo)]> (socks w1))))
            (with_fd_out (fd_out w1 ++ [(fd qo, bytes_of_string "OKAY")]) w1)))).
  { intros so1 w1 Hs1 Hc1 Hp1 Hf1 Hq1 Hpo1 Hfresh Hnone.
    destruct (Z.eqb_spec (hr_status reply) 0) as [?|_]; [contradiction|].
    rewrite Htr, Hsvc.
    rewrite (bind_ok _ _ _ _ _ (alloc_ok _ _)). rewrite Hfresh.
    unfold SendOkay. repeat mstep. rewrite Hp1. repeat mstep.
    unfold notified. rsimpl. f_equal. f_equal. map_solve. }
  destruct (hr_bind reply) as [t|].
  - repeat mstep.
    rewrite (Hgo (set_transport (Some t) so)); try assumption; try reflexivity;
      wsimpl.
    + f_equal. rewrite <- app_assoc. cbn [app]. f_equal. map_solve.
    + apply lookup_insert_eq.
    + now rewrite lookup_insert_ne by congruence.
    + now apply fresh_key_insert_live with (x := so).
    + now rewrite lookup_insert_ne by congruence.
  - repeat mstep.
    rewrite (Hgo so); try assumption; try reflexivity; wsimpl.
    now rewrite <- app_assoc.
Qed.

Lemma smart_socket_host_service_unknown E w s so q qo lq p rq :
  smart_pair_ok w s so q qo lq ->
  pkt_first so = Some p -> is_Some (pkts w !! p) -> p ∉ lq ->
  let reply := handle_host_request E (hq_service rq) (hq_type rq) (hq_serial rq)
                 (fd qo) s in
  hr_status reply <> 0 -> has_prefix "transport" (hq_service rq) = false ->
  host_service_to_socket E (hq_service rq) (hq_serial rq) = None ->
  exists so1 w1,
    smart_socket_host_service E (asocket_close E) (asocket_ready E) s p rq w =
      Ok (-1) (smart_failed s so1 q qo lq w1)
    /\ pkt_first so1 = Some p
    /\ wire w1 = wire w
    /\ fd_out w1 = fd_out w ++
         [(fd qo, hr_out reply);
          (fd qo, bytes_of_string "FAIL" ++ hex4 20
                    ++ bytes_of_string "unknown host service")]
    /\ local_socket_list w1 = local_socket_list w
    /\ local_socket_closing_list w1 = local_socket_closing_list w.
Proof.
  intros Hpair Hf Hpo Hplq reply Hst Htr Hsvc.
  pose proof Hpair as (Hs & Hc & Hp & Hne & Hq & Hcq & Hex & Hw & Hl).
  unfold smart_socket_host_service. repeat mstep. fold reply.
  assert (Hgo : forall so1 w1,
    socks w1 !! s = Some so1 -> close so1 = FN_smart_socket_close ->
    peer so1 = Some q -> pkt_first so1 = Some p ->
    socks w1 !! q = Some qo -> pkts w1 = pkts w ->
    (if hr_status reply =? 0 then smart_socket_fail (asocket_close E) s
     else if has_prefix "transport" (hq_service rq) then storep p (set_len 0);; ret 0
     else match host_service_to_socket E (hq_service rq) (hq_serial rq) with
          | None =>
              q <- peer_of s;; qo <- load q;;
              SendFail (fd qo) (bytes_of_string "unknown host service");;
              smart_socket_fail (asocket_close E) s
          | Some s2o =>
              s2 <- alloc s2o;;
              q <- peer_of s;; qo <- load q;; SendOkay (fd qo);;
              q <- peer_of s;; store q (set_ready FN_local_socket_ready);;
              q <- peer_of s;; store q (set_shutdown None);;
              q <- peer_of s;; store q (set_close FN_local_socket_close);;
              q <- peer_of s;; store q (set_peer (Some s2));;
              so <- load s;; store s2 (set_peer (peer so));;
              store s (set_peer None);;
              asocket_close E s;; asocket_ready E s2;; ret 0
          end) w1 =
    Ok (-1) (smart_failed s so1 q qo lq
               (with_fd_out (fd_out w1 ++
                  [(fd qo, bytes_of_string "FAIL" ++ hex4 20
                            ++ bytes_of_string "unknown host service")]) w1))).
  { intros so1 w1 Hs1 Hc1 Hp1 Hf1 Hq1 Hpk.
    destruct (Z.eqb_spec (hr_status reply) 0) as [?|_]; [contradiction|].
    rewrite Htr, Hsvc. unfold SendFail. repeat mstep.
    apply smart_socket_fail_ok; wsimpl; rewrite ?Hpk; try assumption.
    intros a Ha. rewrite Hf1 in Ha. injection Ha as <-. auto. }
  destruct (hr_bind reply) as [t|].
  - repeat mstep.
    rewrite (Hgo (set_transport (Some t) so)); try assumption; try reflexivity;
      wsimpl.
    + eexists _, _. split; [reflexivity|]. wsimpl. rewrite <- app_assoc.
      repeat split; assumption.
    + apply lookup_insert_eq.
    + now rewrite lookup_insert_ne by congruence.
  - repeat mstep.
    rewrite (Hgo so); try assumption; try reflexivity; wsimpl.
    eexists _, _. split; [reflexivity|]. wsimpl. rewrite <- app_assoc.
    repeat split; assumption.
Qed.

(** X14: a host request for a host service, that is one for which
    [handle_host_request] returns a value other than 0 and whose service
    does not begin with ["transport"].  If [host_service_to_socket]
    knows no such service the client is sent, after what
    [handle_host_request] has written, FAIL with
    ["unknown host service"], the smart socket frees itself and closes
    the client's socket, and -1 is returned.  Otherwise the client is
    sent OKAY after what [handle_host_request] has written, and its
    socket is bound to the
    service socket as a plain local socket: each is the peer of the
    other; the smart socket and its buffer are freed; what remains is
    the first [ready] call on the service socket, after which 0 is
    returned. *)
Theorem host_service_request E w s so q qo lq p po prefix type
    (service : list byte) c rest :
  let L := Z.of_nat (length (bytes_of_string prefix ++ service)) in
  let reply := handle_host_request E service type None (fd qo) s in
  ADB_HOST E = true ->
  1 <= L <= MAX_PAYLOAD_V1 E -> MAX_PAYLOAD_V1 E < 65536 ->
  smart_pair_ok w s so q qo lq -> pkt_first so = None ->
  pkts w !! p = Some po -> next po = None -> p ∉ lq ->
  len po = 4 + L ->
  data po = hex4 L ++ (bytes_of_string prefix ++ service) ++ c :: rest ->
  (prefix, type) ∈ [("host-usb:"%string, kTransportUsb);
                    ("host-local:"%string, kTransportLocal);
                    ("host:"%string, kTransportAny)] ->
  x00 ∉ service ->
  has_prefix "transport" service = false ->
  hr_status reply <> 0 ->
  (host_service_to_socket E service None = None ->
   exists w',
     smart_socket_enqueue E (asocket_close E) (asocket_ready E) s p w = Ok (-1) w'
     /\ fd_out w' = fd_out w ++
          [(fd qo, hr_out reply);
           (fd qo, bytes_of_string "FAIL" ++ hex4 20
                     ++ bytes_of_string "unknown host service")]
     /\ wire w' = wire w
     /\ socks w' !! s = None /\ pkts w' !! p = None
     /\ (q ∉ local_socket_list w')
     /\ socks w' !! q =
          (if destroy_now qo then None
           else Some (draining (linked q w) (set_peer None qo))))
  /\ (forall s2o,
        host_service_to_socket E service None = Some s2o ->
        exists w1 s2,
          smart_socket_enqueue E (asocket_close E) (asocket_ready E) s p w =
            (asocket_ready E s2;; ret 0) w1
          /\ socks w !! s2 = None
          /\ fd_out w1 = fd_out w ++
               [(fd qo, hr_out reply); (fd qo, bytes_of_string "OKAY")]
          /\ wire w1 = wire w
          /\ socks w1 !! s = None /\ pkts w1 !! p = None
          /\ socks w1 !! q = Some (set_peer (Some s2) (notified qo))
          /\ socks w1 !! s2 = Some (set_peer (Some q) s2o)
          /\ local_socket_list w1 = local_socket_list w).
Proof.
  intros L reply HH HL HV Hpair Hf Hpo Hn Hplq Hlen Hdata Hin Hno Htr Hst.
  pose proof Hpair as (Hs & Hc & Hp & Hne & Hq & Hcq & Hex & Hw & Hl).
  set (so0 := set_pkt_last (Some p) (set_pkt_first (Some p) so)).
  set (po1 := set_data (hex4 L ++ bytes_of_string prefix ++ service ++ x00 :: rest) po).
  set (w0 := with_pkts (<[p := po1]> (pkts w))
               (with_socks (<[s := so0]> (socks w)) w)).
  rewrite (smart_socket_enqueue_request E _ _ s p w p L w0
             (host_request_frame E w s so p po prefix service c rest
                HL HV Hs Hf Hpo Hlen Hdata)).
  assert (Hp0 : pkts w0 !! p = Some po1) by (unfold w0; msimpl; apply lookup_insert_eq).
  assert (Hs0 : socks w0 !! s = Some so0) by (unfold w0; msimpl; apply lookup_insert_eq).
  assert (Hq0 : socks w0 !! q = Some qo).
  { unfold w0. msimpl. now rewrite lookup_insert_ne by congruence. }
  assert (Hpair0 : smart_pair_ok w0 s so0 q qo lq).
  { unfold w0. repeat split; try assumption; msimpl.
    now rewrite chainb_insert. }
  unfold smart_socket_dispatch. rewrite HH.
  rewrite (bind_ok _ _ _ _ _
             (smart_socket_match_host_plain w0 p po1 (hex4 L) rest prefix type service
                Hp0 eq_refl Hin eq_refl Hno)).
  split.
  - intros Hsvc.
    destruct (smart_socket_host_service_unknown E w0 s so0 q qo lq p
                {| hq_service := service; hq_serial := None; hq_type := type |}
                Hpair0 eq_refl (mk_is_Some _ _ Hp0) Hplq Hst Htr Hsvc)
      as (so1 & w1 & Hrun & Hf1 & Hwire & Hout & Hmain & Hclosing).
    destruct (smart_failed_spec s so1 q qo lq w1 Hne)
      as (Hs' & Hp' & Hwire' & Hout' & Hq1 & Hq2).
    eexists. split; [exact Hrun|].
    split; [rewrite Hout'; exact Hout|]. split; [rewrite Hwire'; exact Hwire|].
    split; [exact Hs'|].
    split; [now apply Hp'|]. split; [exact Hq1|].
    rewrite Hq2. unfold linked. now rewrite Hmain, Hclosing.
  - intros s2o Hsvc.
    rewrite (smart_socket_host_service_bound E w0 s so0 q qo p po1
               {| hq_service := service; hq_serial := None; hq_type := type |} s2o
               Hs0 Hc Hp Hne Hq0 eq_refl Hp0 Hn Hst Htr Hsvc).
    cbn [hq_service hq_type hq_serial]. fold reply.
    pose proof (fresh_key_None (socks w)) as Hfr.
    assert (Hfk : fresh_key (socks w0) = fresh_key (socks w)).
    { unfold w0. wsimpl. now apply fresh_key_insert_live with (x := so). }
    rewrite Hfk. set (s2 := fresh_key (socks w)) in *.
    assert (Hs2s : s2 <> s) by congruence.
    assert (Hs2q : s2 <> q) by congruence.
    eexists _, s2. split; [reflexivity|]. unfold w0. wsimpl.
    split; [exact Hfr|]. split; [reflexivity|]. split; [reflexivity|].
    rewrite lookup_delete_eq, delete_insert_eq.
    rewrite lookup_delete_eq.
    rewrite !lookup_delete_ne by congruence.
    rewrite lookup_insert_eq.
    rewrite lookup_insert_ne, lookup_insert_eq by congruence.
    repeat split.
Qed.

Lemma host_service_request_witness :
  exists w',
    smart_socket_enqueue Scenario.host_env (asocket_close Scenario.host_env)
      (asocket_ready Scenario.host_env) 2 100
      (Scenario.smart_pair "000chost:devices") = Ok (-1) w'
    /\ fd_out w' = [(10, []); (10, bytes_of_string "FAIL0014unknown host service")]
    /\ socks w' !! 1%positive = None.
Proof.
  destruct (host_service_request Scenario.host_env
              (Scenario.smart_pair "000chost:devices") 2%positive
              (Scenario.smart2 (Some 1%positive)) 1%positive
              (Scenario.local1 (Some 2%positive)) [] 100%positive
              (Scenario.packet_of "000chost:devices" 64)
              "host:"%string kTransportAny (bytes_of_string "devices")
              x00 (replicate 47 x00))
    as [Hunknown _].
  - reflexivity.
  - vm_compute. split; discriminate.
  - reflexivity.
  - repeat split; try reflexivity; discriminate.
  - reflexivity.
  - reflexivity.
  - reflexivity.
  - apply not_elem_of_nil.
  - reflexivity.
  - reflexivity.
  - right. right. left.
  - not_in_text.
  - reflexivity.
  - vm_compute. discriminate.
  - destruct (Hunknown eq_refl) as (w' & Hrun & Hout & _ & _ & _ & _ & Hq).
    exists w'. split; [exact Hrun|]. split; [exact Hout|exact Hq].
Defined.


(** ** The notify variants and the pairing with a smart socket *)

(** X15: [local_socket_ready_notify] reports success once.  The first
    [ready] call on a socket that carries it writes OKAY to the fd of
    the socket, puts the plain functions back and arms reading; a
    further [ready] call changes nothing and writes nothing. *)
Theorem ready_notify_reports_once E w s so :
  socks w !! s = Some so -> ready so = FN_local_socket_ready_notify ->
  let so1 := set_fde (fde_arm FDE_READ true (fde so)) (notified so) in
  let w1 := with_socks (<[s := so1]> (socks w))
              (with_fd_out (fd_out w ++ [(fd so, bytes_of_string "OKAY")]) w) in
  asocket_ready E s w = Ok tt w1 /\ asocket_ready E s w1 = Ok tt w1.
Proof.
  intros Hs Hr so1 w1. split.
  - unfold asocket_ready, call_depth. rewrite ready_dispatch_S. repeat mstep.
    rewrite Hr. unfold local_socket_ready_notify, SendOkay. repeat mstep.
    rewrite ready_dispatch_S. repeat mstep.
    unfold local_socket_ready, fdevent_add.
    erewrite store_ok by lookup_tac. msimpl. reflexivity.
  - unfold asocket_ready, call_depth. rewrite ready_dispatch_S.
    assert (Hs1 : socks w1 !! s = Some so1) by apply lookup_insert_eq.
    rewrite (bind_ok _ _ _ _ _ (load_ok _ _ _ Hs1)).
    change (ready so1) with FN_local_socket_ready.
    unfold local_socket_ready, fdevent_add.
    rewrite (store_ok _ _ _ _ Hs1). f_equal.
    unfold w1. wsimpl. rewrite insert_insert_eq.
    replace (set_fde (fde_arm FDE_READ true (fde so1)) so1) with so1; [reflexivity|].
    unfold so1. cbn. reflexivity.
Qed.

Lemma ready_notify_reports_once_witness :
  exists w1,
    asocket_ready Scenario.device_env 1 Scenario2.awaiting = Ok tt w1
    /\ fd_out w1 = [(10, bytes_of_string "OKAY")]
    /\ asocket_ready Scenario.device_env 1 w1 = Ok tt w1.
Proof.
  destruct (ready_notify_reports_once Scenario.device_env Scenario2.awaiting
              1%positive Scenario2.awaiting1 ltac:(reflexivity) ltac:(reflexivity))
    as [H1 H2].
  eexists. split; [exact H1|]. split; [reflexivity|exact H2].
Defined.

Lemma chainb_discarded ps first l a :
  chainb ps first l = true -> a ∈ l -> discard l ps !! a = None.
Proof.
  intros _ Ha. rewrite lookup_discard. now rewrite bool_decide_eq_true_2.
Qed.

(** X16: [local_socket_close_notify] reports failure once.  A socket
    that carries it and is closed (it has no peer while it waits for the
    answer to its OPEN) writes FAIL with the reason ["closed"] to its
    fd and is then closed as a plain local socket: without pending
    writes it is destroyed, its fd closed and its queue freed; with
    pending writes it moves to the closing list, and the close that
    follows destroys it without another message. *)
Theorem close_notify_reports_failure E w s so l :
  socks w !! s = Some so -> close so = FN_local_socket_close_notify ->
  peer so = None -> chainb (pkts w) (pkt_first so) l = true ->
  exit_on_close so = false ->
  (destroy_now so = false -> st_write (fde so) = true) ->
  exists w',
    asocket_close E s w = Ok tt w'
    /\ fd_out w' = fd_out w ++ [(fd so, bytes_of_string "FAIL0006closed")]
    /\ wire w' = wire w
    /\ (s ∉ local_socket_list w')
    /\ (destroy_now so = true ->
        socks w' !! s = None
        /\ fd_closed w' = fd_closed w ++ [fde_fd (fde so)]
        /\ forall a, a ∈ l -> pkts w' !! a = None)
    /\ (destroy_now so = false ->
        (s ∈ local_socket_closing_list w')
        /\ pkts w' = pkts w
        /\ (exists so', socks w' !! s = Some so' /\ closing so' = true
                        /\ close so' = FN_local_socket_close)
        /\ exists w'',
            asocket_close E s w' = Ok tt w''
            /\ fd_out w'' = fd_out w' /\ socks w'' !! s = None).
Proof.
  intros Hs Hc Hp Hl Hex Hw.
  unfold asocket_close, call_depth.
  rewrite (close_dispatch_peerless E 2 w s so l Hs Hp Hl).
  unfold close_peerless. rewrite Hc. unfold close_finish.
  change (destroy_now (notified so)) with (destroy_now so).
  change (exit_on_close (notified so)) with (exit_on_close so).
  change (st_write (fde (notified so))) with (st_write (fde so)).
  rewrite Hex.
  destruct (destroy_now so) eqn:Hd.
  - eexists. split; [reflexivity|]. unfold destroyed. wsimpl.
    split; [reflexivity|]. split; [reflexivity|].
    split; [apply not_elem_of_unlink|].
    split; [|discriminate]. intros _.
    split; [apply lookup_delete_eq|]. split; [reflexivity|].
    intros a Ha. now apply (chainb_discarded _ (pkt_first so)).
  - rewrite (Hw eq_refl).
    eexists. split; [reflexivity|]. unfold deferred. wsimpl.
    split; [reflexivity|]. split; [reflexivity|].
    split; [apply not_elem_of_unlink|].
    split; [discriminate|]. intros _.
    split; [apply elem_of_app; right; left|]. split; [reflexivity|].
    rewrite insert_insert_eq.
    split; [eexists; rewrite lookup_insert_eq; split; [reflexivity|]; now split|].
    match goal with |- context [close_dispatch E 4 s ?W] => set (w' := W) end.
    assert (Hs' : socks w' !! s = Some (draining (linked s w) (notified so)))
      by apply lookup_insert_eq.
    rewrite (close_dispatch_peerless E 2 w' s _ l Hs' Hp Hl).
    unfold close_peerless, close_finish. cbn [close draining notified set_id set_fde
      set_closing set_close set_shutdown set_ready destroy_now closing orb
      exit_on_close].
    rewrite Hex.
    eexists. split; [reflexivity|]. unfold destroyed. wsimpl.
    split; [reflexivity|apply lookup_delete_eq].
Qed.

Lemma close_notify_reports_failure_witness :
  exists w',
    asocket_close Scenario.device_env 1 Scenario2.awaiting = Ok tt w'
    /\ fd_out w' = [(10, bytes_of_string "FAIL0006closed")]
    /\ socks w' !! 1%positive = None
    /\ fd_closed w' = [10].
Proof.
  destruct (close_notify_reports_failure Scenario.device_env Scenario2.awaiting
              1%positive Scenario2.awaiting1 [])
    as (w' & Hrun & Hout & _ & _ & Hnow & _).
  - reflexivity.
  - reflexivity.
  - reflexivity.
  - reflexivity.
  - reflexivity.
  - discriminate.
  - destruct (Hnow eq_refl) as (Hs & Hfd & _).
    exists w'. split; [exact Hrun|]. split; [exact Hout|]. split; [exact Hs|exact Hfd].
Defined.

(** X17: [connect_to_smartsocket] pairs a local socket with a new smart
    socket: the smart socket is a fresh object that is on no list, has
    no transport, an empty queue and the smart functions; each socket is
    the peer of the other; the [ready] call arms reading on the local
    socket.  A plain local socket then forms with it the pair that
    [smart_socket_enqueue] expects. *)
Theorem connect_to_smartsocket_pairs E w s so :
  socks w !! s = Some so -> ready so = FN_local_socket_ready ->
  exists ss sso so' w',
    connect_to_smartsocket (asocket_ready E) s w = Ok tt w'
    /\ socks w !! ss = None
    /\ socks w' = <[s := so']> (<[ss := sso]> (socks w))
    /\ so' = set_fde (fde_arm FDE_READ true (fde so)) (set_peer (Some ss) so)
    /\ peer sso = Some s /\ transport sso = None /\ pkt_first sso = None
    /\ enqueue sso = FN_smart_socket_enqueue /\ close sso = FN_smart_socket_close
    /\ pkts w' = pkts w /\ wire w' = wire w /\ fd_out w' = fd_out w
    /\ local_socket_list w' = local_socket_list w
    /\ local_socket_closing_list w' = local_socket_closing_list w
    /\ smart_queue_ok w' sso
    /\ (forall l,
          close so = FN_local_socket_close -> exit_on_close so = false ->
          (destroy_now so = false -> st_write (fde so) = true) ->
          chainb (pkts w) (pkt_first so) l = true ->
          smart_pair_ok w' ss sso s so' l).
Proof.
  intros Hs Hr.
  pose proof (fresh_key_None (socks w)) as Hfr.
  set (ss := fresh_key (socks w)) in *.
  assert (Hne : ss <> s) by congruence.
  set (sso := {| id := 0; closing := false; has_write_error := false;
                 exit_on_close := false; peer := Some s; fde := zero_fde; fd := 0;
                 pkt_first := None; pkt_last := None; transport := None;
                 enqueue := FN_smart_socket_enqueue; ready := FN_smart_socket_ready;
                 shutdown := None; close := FN_smart_socket_close |}).
  set (so' := set_fde (fde_arm FDE_READ true (fde so)) (set_peer (Some ss) so)).
  assert (Hrun : connect_to_smartsocket (asocket_ready E) s w =
                 Ok tt (with_socks (<[s := so']> (<[ss := sso]> (socks w))) w)).
  { unfold connect_to_smartsocket, create_smart_socket.
    rewrite (bind_ok _ _ _ _ _ (alloc_ok _ _)). fold ss.
    repeat mstep.
    unfold asocket_ready, call_depth. rewrite ready_dispatch_S. repeat mstep.
    rewrite Hr. unfold local_socket_ready, fdevent_add.
    erewrite store_ok by lookup_tac. msimpl. rewrite <- Hr.
    f_equal. f_equal. map_solve. }
  exists ss, sso, so'. eexists. split; [exact Hrun|]. wsimpl.
  split; [exact Hfr|].
  do 12 (split; [reflexivity|]).
  split; [exact I|].
  intros l Hc Hex Hw Hl.
  repeat split; try assumption; try reflexivity; wsimpl.
  - rewrite lookup_insert_ne by congruence. apply lookup_insert_eq.
  - congruence.
  - apply lookup_insert_eq.
Qed.

Lemma connect_to_smartsocket_pairs_witness :
  exists w',
    connect_to_smartsocket (asocket_ready Scenario.host_env) 1
      (Scenario.local_alone "0010host:") = Ok tt w'
    /\ socks w' !! 2%positive = Some (Scenario.smart2 (Some 1%positive))
    /\ (peer <$> socks w' !! 1%positive) = Some (Some 2%positive).
Proof.
  destruct (connect_to_smartsocket_pairs Scenario.host_env
              (Scenario.local_alone "0010host:") 1%positive (Scenario.local1 None)
              ltac:(reflexivity) ltac:(reflexivity))
    as (ss & sso & so' & w' & Hrun & _).
  exists w'. split; [exact Hrun|].
  vm_compute in Hrun. injection Hrun as <-. split; reflexivity.
Defined.


(** ** The fd event handler: writing the queue *)

Lemma event_write_packet_S E cc fuel w fd0 s so p po :
  socks w !! s = Some so -> pkts w !! p = Some po ->
  0 <= ptr po -> ptr po + len po <= Z.of_nat (length (data po)) ->
  event_write_packet E cc (S fuel) fd0 s p w =
    if 0 <? len po then
      match write_oracle E (io_clock w) with
      | W_bytes m =>
          let r := Z.min (Z.pos m) (len po) in
          event_write_packet E cc fuel fd0 s p
            (with_pkts (<[p := advanced r po]> (pkts w))
               (written fd0
                  [take (Z.to_nat r) (drop (Z.to_nat (ptr po)) (data po))] 1 w))
      | W_zero =>
          (store s (set_has_write_error true);; cc s;; ret (Some tt))
            (written fd0 [] 1 w)
      | W_error e =>
          if e =? EAGAIN E then Ok (Some tt) (written fd0 [] 1 w)
          else (store s (set_has_write_error true);; cc s;; ret (Some tt))
                 (written fd0 [] 1 w)
      end
    else Ok None w.
Proof.
  intros Hs Hp Hptr Hcap.
  match goal with |- _ = ?R => set (rhs := R) end.
  cbn [event_write_packet]. repeat mstep. subst rhs.
  destruct (Z.ltb_spec 0 (len po)) as [Hpos|Hzero]; [|reflexivity].
  assert (Hbuf : Z.of_nat (length (drop (Z.to_nat (ptr po)) (data po))) >= len po).
  { rewrite length_drop. lia. }
  rewrite (bind_eq _ _ _ _ (adb_write_ok E fd0 _ (len po) w Hbuf)).
  destruct (write_oracle E (io_clock w)) as [m| |e].
  - cbn [fst snd].
    destruct (Z.eqb_spec (Z.min (Z.pos m) (len po)) (-1)) as [?|_]; [lia|].
    cbn [andb negb].
    destruct (Z.ltb_spec 0 (Z.min (Z.pos m) (len po))) as [_|?]; [|lia].
    unfold written. repeat mstep. reflexivity.
  - cbn [fst snd Z.eqb Z.ltb Z.compare andb negb]. reflexivity.
  - cbn [fst snd Z.eqb Z.ltb Z.compare andb negb].
    destruct (e =? EAGAIN E); reflexivity.
Qed.

Lemma event_write_packet_spec E cc fd0 s fuel :
  forall w so p po,
    socks w !! s = Some so -> pkts w !! p = Some po -> cursor_ok po ->
    (Z.to_nat (len po) < fuel)%nat ->
    exists (chunks : list (list byte)) (k : Z),
      0 <= k <= len po
      /\ concat chunks = take (Z.to_nat k) (pending po)
      /\ ((k = len po
           /\ event_write_packet E cc fuel fd0 s p w =
                Ok None (drained fd0 p po k chunks 0 w))
          \/ (k < len po
              /\ (exists i, write_oracle E i = W_error (EAGAIN E))
              /\ event_write_packet E cc fuel fd0 s p w =
                   Ok (Some tt) (drained fd0 p po k chunks 1 w))
          \/ (k < len po
              /\ (exists i, write_oracle E i = W_zero
                            \/ exists e, write_oracle E i = W_error e /\ e <> EAGAIN E)
              /\ event_write_packet E cc fuel fd0 s p w =
                   (store s (set_has_write_error true);; cc s;; ret (Some tt))
                     (drained fd0 p po k chunks 1 w))).
Proof.
  induction fuel as [|fuel IH]; intros w so p po Hs Hp (Hptr & Hlen & Hcap) Hfuel;
    [lia|].
  assert (Hid : forall stop, drained fd0 p po 0 [] stop w = written fd0 [] stop w).
  { intros stop. unfold drained. rewrite Z.add_0_r, Z.sub_0_r.
    replace (set_ptr (ptr po) (set_len (len po) po)) with po by now destruct po.
    rewrite insert_id by exact Hp. unfold written. now destruct w. }
  assert (Hw0 : written fd0 [] 0 w = w).
  { unfold written. cbn. rewrite app_nil_r, Nat.add_0_r. now destruct w. }
  rewrite (event_write_packet_S E cc fuel w fd0 s so p po Hs Hp Hptr Hcap).
  destruct (Z.ltb_spec 0 (len po)) as [Hpos|Hzero].
  2:{ exists [], 0. split; [lia|]. split; [reflexivity|].
      left. split; [lia|]. now rewrite Hid, Hw0. }
  destruct (write_oracle E (io_clock w)) as [m| |e] eqn:Horacle.
  - cbv zeta.
    set (r := Z.min (Z.pos m) (len po)).
    assert (Hr : 0 < r <= len po) by (unfold r; lia).
    set (buf := take (Z.to_nat r) (drop (Z.to_nat (ptr po)) (data po))).
    set (po' := advanced r po).
    set (w' := with_pkts (<[p := po']> (pkts w)) (written fd0 [buf] 1 w)).
    destruct (IH w' so p po') as (chunks & k & Hk & Hcat & Hcases).
    { exact Hs. }
    { unfold w'. cbn. apply lookup_insert_eq. }
    { unfold cursor_ok, po'. cbn. lia. }
    { unfold po'. cbn. lia. }
    exists (buf :: chunks), (r + k).
    unfold pending in Hcat |- *.
    cbn [ptr len data po' advanced set_ptr set_len] in Hk, Hcat.
    split; [lia|]. split.
    { cbn [concat]. rewrite Hcat. unfold buf.
      replace (Z.to_nat (ptr po + r)) with (Z.to_nat (ptr po) + Z.to_nat r)%nat by lia.
      rewrite <- drop_drop.
      rewrite !take_take.
      replace (Z.to_nat k `min` Z.to_nat (len po - r))%nat with (Z.to_nat k) by lia.
      replace (Z.to_nat (r + k) `min` Z.to_nat (len po))%nat
        with (Z.to_nat r + Z.to_nat k)%nat by lia.
      now rewrite take_take_drop. }
    assert (Hw1 : forall stop,
      drained fd0 p po' k chunks stop w'
      = drained fd0 p po (r + k) (buf :: chunks) stop w).
    { intros stop. unfold drained, w', po', advanced, written. cbn.
      rewrite insert_insert_eq.
      replace (ptr po + r + k) with (ptr po + (r + k)) by lia.
      replace (len po - r - k) with (len po - (r + k)) by lia.
      rewrite <- app_assoc. cbn.
      replace (io_clock w + 1 + (length chunks + stop))%nat
        with (io_clock w + S (length chunks + stop))%nat by lia.
      reflexivity. }
    rewrite !Hw1 in Hcases.
    cbn [len po' advanced set_len set_ptr] in Hcases.
    destruct Hcases as [(Hk1 & Hrun)|[(Hk1 & Ho & Hrun)|(Hk1 & Ho & Hrun)]].
    + left. split; [lia|exact Hrun].
    + right; left. split; [lia|]. split; [exact Ho|exact Hrun].
    + right; right. split; [lia|]. split; [exact Ho|exact Hrun].
  - exists [], 0. split; [lia|]. split; [reflexivity|].
    right; right. split; [lia|]. rewrite !Hid. split; [eauto|reflexivity].
  - exists [], 0. split; [lia|]. split; [reflexivity|].
    rewrite !Hid.
    destruct (Z.eqb_spec e (EAGAIN E)) as [->|Hne].
    + right; left. split; [lia|]. split; [eauto|reflexivity].
    + right; right. split; [lia|]. split; [eauto|reflexivity].
Qed.

Lemma pending_advanced (k : Z) po :
  cursor_ok po -> 0 <= k <= len po ->
  take (Z.to_nat k) (pending po) ++ pending (advanced k po) = pending po.
Proof.
  intros (Hptr & Hlen & Hcap) Hk. unfold pending, advanced. cbn [len ptr data set_len set_ptr].
  rewrite take_take.
  replace (Z.to_nat k `min` Z.to_nat (len po))%nat with (Z.to_nat k) by lia.
  replace (Z.to_nat (ptr po + k)) with (Z.to_nat (ptr po) + Z.to_nat k)%nat by lia.
  rewrite <- drop_drop, take_take_drop. f_equal. lia.
Qed.

Lemma pending_all po :
  0 <= len po -> take (Z.to_nat (len po)) (pending po) = pending po.
Proof.
  intros Hlen. unfold pending. rewrite take_take. f_equal. lia.
Qed.

Lemma backlog_agree ps1 ps2 (l : list positive) :
  (forall x, x ∈ l -> ps1 !! x = ps2 !! x) -> backlog ps1 l = backlog ps2 l.
Proof.
  intros Hl. unfold backlog. f_equal. induction l as [|a l IH]; [reflexivity|].
  cbn [map]. rewrite (Hl a) by left. f_equal. apply IH. intros x Hx. apply Hl. now right.
Qed.

Lemma backlog_cons ps a po (l : list positive) :
  ps !! a = Some po -> backlog ps (a :: l) = pending po ++ backlog ps l.
Proof. intros Ha. unfold backlog. cbn [map concat]. now rewrite Ha. Qed.

Lemma written_nothing fd0 w : written fd0 [] 0 w = w.
Proof. unfold written. cbn. rewrite app_nil_r, Nat.add_0_r. now destruct w. Qed.

Lemma set_queue_same so first :
  pkt_first so = first -> set_pkt_last (pkt_last so) (set_pkt_first first so) = so.
Proof. intros <-. now destruct so. Qed.

Lemma chainb_head_insert ps a po po' l :
  ps !! a = Some po -> next po' = next po ->
  chainb ps (Some a) (a :: l) = true ->
  chainb (<[a := po']> ps) (Some a) (a :: l) = true.
Proof.
  intros Ha Hn Hc. pose proof (chainb_head_fresh _ _ _ Hc) as Hfresh.
  apply chainb_cons in Hc as (_ & po0 & Ha0 & Hc).
  rewrite Ha in Ha0. injection Ha0 as <-.
  cbn [chainb]. rewrite Pos.eqb_refl, lookup_insert_eq, Hn. cbn [andb].
  now rewrite chainb_insert.
Qed.

Lemma bind_failed {A} (cc : positive -> M unit) s (k : option unit -> M A) (v : A) w :
  (forall x, k (Some x) = ret v) ->
  bind (store s (set_has_write_error true);; cc s;; ret (Some tt)) k w =
  (store s (set_has_write_error true);; cc s;; ret v) w.
Proof.
  intros Hk. unfold bind.
  destruct (store s (set_has_write_error true) w) as [[] w1| | | |]; try reflexivity.
  destruct (cc s w1) as [[] w2| | | |]; try reflexivity.
  unfold ret at 1. now rewrite Hk.
Qed.

(** The record of a socket after the head of its queue, which is
    followed by [n], has been taken off. *)
Lemma event_write_queue_pop E cc fuel fd0 s w so a ao :
  socks w !! s = Some so -> pkts w !! a = Some ao -> len ao = 0 ->
  (po <- loadp a;;
   (if len po =? 0 then
      store s (set_pkt_first (next po));;
      so <- load s;;
      (if bool_decide (pkt_first so = None)
       then store s (set_pkt_last None) else ret tt);;
      put_apacket a
    else ret tt);;
   event_write_queue E cc fuel fd0 s) w =
  event_write_queue E cc fuel fd0 s
    (with_pkts (delete a (pkts w))
       (with_socks
          (<[s := match next ao with
                  | None => set_pkt_last None (set_pkt_first None so)
                  | Some n => set_pkt_first (Some n) so
                  end]> (socks w)) w)).
Proof.
  intros Hs Ha Hlen.
  match goal with |- _ = ?R => set (rhs := R) end.
  repeat mstep. rewrite Hlen. cbn [Z.eqb]. repeat mstep.
  destruct (next ao) as [n|] eqn:Hn.
  - rewrite bool_decide_eq_false_2 by discriminate. repeat mstep. reflexivity.
  - rewrite bool_decide_eq_true_2 by reflexivity. repeat mstep. reflexivity.
Qed.

Lemma event_write_queue_spec E cc fd0 s (l : list positive) :
  forall fuel w so,
    socks w !! s = Some so ->
    chainb (pkts w) (pkt_first so) l = true ->
    (forall a po, a ∈ l -> pkts w !! a = Some po -> cursor_ok po) ->
    (length l < fuel)%nat ->
    exists (chunks : list (list byte)) (n : nat) (l1 l2 : list positive)
           (pl : option positive) (ps1 : gmap positive apacket),
      let so1 := set_pkt_last pl (set_pkt_first (head l2) so) in
      let W := with_pkts ps1
                 (with_socks (<[s := so1]> (socks w)) (written fd0 chunks n w)) in
      l = l1 ++ l2
      /\ concat chunks ++ backlog ps1 l2 = backlog (pkts w) l
      /\ chainb ps1 (head l2) l2 = true
      /\ (forall x, x ∈ l1 -> ps1 !! x = None)
      /\ (forall x, x ∉ l -> ps1 !! x = pkts w !! x)
      /\ (forall x po, x ∈ l2 -> ps1 !! x = Some po -> cursor_ok po)
      /\ (l2 <> [] -> pl = pkt_last so)
      /\ (l = [] -> pl = pkt_last so)
      /\ (l2 = [] -> l <> [] -> pl = None)
      /\ ((l2 = [] /\ event_write_queue E cc fuel fd0 s w = Ok false W)
          \/ (l2 <> []
              /\ (((exists i, write_oracle E i = W_error (EAGAIN E))
                   /\ event_write_queue E cc fuel fd0 s w = Ok true W)
                  \/ ((exists i, write_oracle E i = W_zero
                                 \/ exists e, write_oracle E i = W_error e
                                              /\ e <> EAGAIN E)
                      /\ event_write_queue E cc fuel fd0 s w =
                           (store s (set_has_write_error true);; cc s;; ret true) W)))).
Proof.
  induction l as [|a l IH]; intros fuel w so Hs Hl Hwf Hfuel.
  - apply chainb_nil in Hl.
    exists [], 0%nat, [], [], (pkt_last so), (pkts w). cbv zeta. cbn [head].
    rewrite (set_queue_same so None Hl), (insert_id _ _ _ Hs), written_nothing.
    split; [reflexivity|]. split; [reflexivity|]. split; [reflexivity|].
    split; [intros x Hx; now apply elem_of_nil in Hx|].
    split; [reflexivity|].
    split; [intros x po Hx; now apply elem_of_nil in Hx|].
    split; [congruence|]. split; [reflexivity|]. split; [congruence|].
    left. split; [reflexivity|].
    destruct fuel as [|fuel]; [cbn in Hfuel; lia|].
    cbn [event_write_queue]. repeat mstep. rewrite Hl. now destruct w.
  - pose proof (chainb_cons _ _ _ _ Hl) as (Hf & ao & Ha & Hl').
    assert (Hfresh : a ∉ l).
    { rewrite Hf in Hl. now apply chainb_head_fresh in Hl. }
    pose proof (Hwf a ao ltac:(left) Ha) as Hcur.
    destruct fuel as [|fuel]; [cbn in Hfuel; lia|].
    assert (Hstep : event_write_queue E cc (S fuel) fd0 s w =
      (res <- event_write_packet E cc (S (Z.to_nat (len ao))) fd0 s a;;
       match res with
       | Some _ => ret true
       | None =>
           po <- loadp a;;
           (if len po =? 0 then
              store s (set_pkt_first (next po));;
              so <- load s;;
              (if bool_decide (pkt_first so = None)
               then store s (set_pkt_last None) else ret tt);;
              put_apacket a
            else ret tt);;
           event_write_queue E cc fuel fd0 s
       end) w).
    { cbn [event_write_queue]. repeat mstep. rewrite Hf. repeat mstep. reflexivity. }
    destruct (event_write_packet_spec E cc fd0 s (S (Z.to_nat (len ao))) w so a ao
                Hs Ha Hcur ltac:(lia)) as (chunks & k & Hk & Hcat & Hcases).
    assert (Hsame : forall x, x ∈ l -> <[a := advanced k ao]> (pkts w) !! x = pkts w !! x).
    { intros x Hx. apply lookup_insert_ne. intros ->. contradiction. }
    assert (Hpart : forall stop,
      let W := with_pkts (<[a := advanced k ao]> (pkts w))
                 (with_socks (<[s := set_pkt_last (pkt_last so)
                                      (set_pkt_first (head (a :: l)) so)]> (socks w))
                    (written fd0 chunks (length chunks + stop) w)) in
      drained fd0 a ao k chunks stop w = W).
    { intros stop. cbn [head]. rewrite (set_queue_same so (Some a) Hf).
      rewrite (insert_id _ _ _ Hs). unfold drained, written. now destruct w. }
    destruct Hcases as [(Hk1 & Hrun)|Hstop].
    + (* the packet has been written in full *)
      set (w1 := drained fd0 a ao k chunks 0 w) in *.
      assert (Ha1 : pkts w1 !! a = Some (advanced k ao)) by apply lookup_insert_eq.
      assert (Hs1 : socks w1 !! s = Some so) by exact Hs.
      rewrite (bind_ok _ _ _ _ _ Hrun) in Hstep.
      rewrite (event_write_queue_pop E cc fuel fd0 s w1 so a (advanced k ao) Hs1 Ha1)
        in Hstep by (cbn; lia).
      change (next (advanced k ao)) with (next ao) in Hstep.
      set (so2 := match next ao with
                  | None => set_pkt_last None (set_pkt_first None so)
                  | Some n => set_pkt_first (Some n) so
                  end) in *.
      set (w2 := with_pkts (delete a (pkts w1))
                   (with_socks (<[s := so2]> (socks w1)) w1)) in *.
      assert (Hpk2 : pkts w2 = delete a (pkts w)).
      { unfold w2, w1, drained. cbn. apply delete_insert_eq. }
      assert (Hf2 : pkt_first so2 = next ao).
      { unfold so2. now destruct (next ao). }
      destruct (IH fuel w2 so2) as (chunks' & n' & l1' & l2' & pl' & ps1' & Hres).
      { unfold w2. cbn. apply lookup_insert_eq. }
      { rewrite Hpk2, Hf2. now apply chainb_delete. }
      { intros x po Hx Hpo. rewrite Hpk2 in Hpo.
        rewrite lookup_delete_ne in Hpo by (intros ->; contradiction).
        apply (Hwf x po); [now right|exact Hpo]. }
      { cbn in Hfuel. lia. }
      cbv zeta in Hres.
      destruct Hres as (Hsplit & Hcons & Hchain & Hgone & Hrest & Hwf' & Hpl & Hpl0
                        & Hpl1 & Hend).
      exists (chunks ++ chunks'), (length chunks + n')%nat, (a :: l1'), l2', pl', ps1'.
      cbv zeta.
      assert (HW : with_pkts ps1'
                     (with_socks (<[s := set_pkt_last pl' (set_pkt_first (head l2') so2)]>
                                    (socks w2)) (written fd0 chunks' n' w2))
                   = with_pkts ps1'
                       (with_socks (<[s := set_pkt_last pl' (set_pkt_first (head l2') so)]>
                                      (socks w))
                          (written fd0 (chunks ++ chunks') (length chunks + n') w))).
      { unfold w2, w1, drained, written. cbn.
        rewrite insert_insert_eq, map_app, <- app_assoc.
        f_equal; first [lia | unfold so2; now destruct (next ao)]. }
      rewrite HW in Hend. rewrite <- Hstep in Hend.
      split; [now rewrite Hsplit|].
      split.
      { rewrite concat_app, <- app_assoc, Hcons, (backlog_cons _ a ao) by exact Ha.
        rewrite Hcat, Hk1, pending_all by apply Hcur.
        f_equal. apply backlog_agree. intros x Hx. rewrite Hpk2.
        apply lookup_delete_ne. intros ->. contradiction. }
      split; [exact Hchain|].
      split.
      { intros x Hx. apply elem_of_cons in Hx as [->|Hx]; [|now apply Hgone].
        rewrite Hrest by exact Hfresh. rewrite Hpk2. apply lookup_delete_eq. }
      split.
      { intros x Hx. apply not_elem_of_cons in Hx as [Hxa Hxl].
        rewrite Hrest by exact Hxl. rewrite Hpk2. now apply lookup_delete_ne. }
      split; [exact Hwf'|].
      split.
      { intros Hne. rewrite (Hpl Hne). unfold so2.
        destruct (next ao) eqn:Hn; [reflexivity|].
        exfalso. apply Hne.
        destruct l; [|discriminate]. destruct l1'; [|discriminate].
        now destruct l2'. }
      split; [discriminate|].
      split.
      { intros Hl2 _. destruct l as [|b l0].
        - rewrite (Hpl0 eq_refl). unfold so2.
          destruct (next ao); [discriminate|reflexivity].
        - apply (Hpl1 Hl2). discriminate. }
      exact Hend.
    + (* the fd would block, or the write failed *)
      exists chunks, (length chunks + 1)%nat, [], (a :: l), (pkt_last so),
             (<[a := advanced k ao]> (pkts w)).
      cbv zeta.
      assert (Hk1 : k < len ao) by (destruct Hstop as [[? _]|[? _]]; assumption).
      assert (Hstop' :
        ((exists i, write_oracle E i = W_error (EAGAIN E))
         /\ event_write_packet E cc (S (Z.to_nat (len ao))) fd0 s a w =
              Ok (Some tt) (drained fd0 a ao k chunks 1 w))
        \/ ((exists i, write_oracle E i = W_zero
                       \/ exists e, write_oracle E i = W_error e /\ e <> EAGAIN E)
            /\ event_write_packet E cc (S (Z.to_nat (len ao))) fd0 s a w =
                 (store s (set_has_write_error true);; cc s;; ret (Some tt))
                   (drained fd0 a ao k chunks 1 w))).
      { destruct Hstop as [(_ & ? & ?)|(_ & ? & ?)]; [left|right]; now split. }
      clear Hstop.
      split; [reflexivity|].
      split.
      { rewrite (backlog_cons _ a (advanced k ao)) by apply lookup_insert_eq.
        rewrite (backlog_cons _ a ao) by exact Ha.
        rewrite Hcat, app_assoc, pending_advanced by (try assumption; lia).
        f_equal. now apply backlog_agree. }
      split.
      { cbn [head]. apply (chainb_head_insert _ a ao); [exact Ha|reflexivity|].
        now rewrite <- Hf. }
      split; [intros x Hx; now apply elem_of_nil in Hx|].
      split.
      { intros x Hx. apply not_elem_of_cons in Hx as [Hxa _].
        now apply lookup_insert_ne. }
      split.
      { intros x po Hx Hpo. apply elem_of_cons in Hx as [->|Hx].
        - rewrite lookup_insert_eq in Hpo. injection Hpo as <-.
          destruct Hcur as (? & ? & ?). unfold cursor_ok, advanced. cbn. lia.
        - rewrite Hsame in Hpo by exact Hx. apply (Hwf x po); [now right|exact Hpo]. }
      split; [reflexivity|]. split; [discriminate|]. split; [discriminate|].
      right. split; [discriminate|].
      rewrite <- (Hpart 1%nat). rewrite Hstep.
      destruct Hstop' as [(Ho & Hrun)|(Ho & Hrun)].
      * left. split; [exact Ho|]. now rewrite (bind_ok _ _ _ _ _ Hrun).
      * right. split; [exact Ho|]. unfold bind at 1. rewrite Hrun.
        now apply (bind_failed cc s).
Qed.

Lemma bind_close_ret {A B} (cc : positive -> M unit) s (a : A) (b : B)
    (k : A -> M B) w :
  k a = ret b -> bind (cc s;; ret a) k w = (cc s;; ret b) w.
Proof.
  intros Hk. unfold bind. destruct (cc s w) as [[] w1| | | |]; try reflexivity.
  unfold ret at 1. now rewrite Hk.
Qed.

Lemma event_write_outcome E H cc cr ce fd0 ev s so l w :
  socks w !! s = Some so ->
  chainb (pkts w) (pkt_first so) l = true ->
  (forall a po, a ∈ l -> pkts w !! a = Some po -> cursor_ok po) ->
  has_event ev FDE_WRITE = true -> has_event ev FDE_READ = false ->
  exists (chunks : list (list byte)) (n : nat) (l1 l2 : list positive)
         (pl : option positive) (ps1 : gmap positive apacket),
    let so1 := set_pkt_last pl (set_pkt_first (head l2) so) in
    let W := with_pkts ps1
               (with_socks (<[s := so1]> (socks w)) (written fd0 chunks n w)) in
    let run := local_socket_event_func E H cc cr ce fd0 ev s w in
    l = l1 ++ l2
    /\ concat chunks ++ backlog ps1 l2 = backlog (pkts w) l
    /\ chainb ps1 (head l2) l2 = true
    /\ (forall x, x ∈ l1 -> ps1 !! x = None)
    /\ (forall x, x ∉ l -> ps1 !! x = pkts w !! x)
    /\ (l2 <> [] -> pl = pkt_last so)
    /\ (l = [] -> pl = pkt_last so)
    /\ (l2 = [] -> l <> [] -> pl = None)
    /\ ((l2 = [] /\ closing so = true /\ run = (cc s;; ret tt) W)
        \/ (l2 = [] /\ closing so = false
            /\ match peer so with
               | Some q =>
                   run = (cr q;; ret tt)
                           (with_socks
                              (<[s := set_fde (fde_arm FDE_WRITE false (fde so1)) so1]>
                                 (socks w)) W)
               | None => run = Fault
               end)
        \/ (l2 <> []
            /\ (((exists i, write_oracle E i = W_error (EAGAIN E))
                 /\ run = Ok tt W)
                \/ ((exists i, write_oracle E i = W_zero
                               \/ exists e, write_oracle E i = W_error e
                                            /\ e <> EAGAIN E)
                    /\ run = (store s (set_has_write_error true);; cc s;; ret tt)
                               W)))).
Proof.
  intros Hs Hl Hwf Hwr Hrd.
  destruct (event_write_queue_spec E cc fd0 s l (S (size (pkts w))) w so Hs Hl Hwf)
    as (chunks & n & l1 & l2 & pl & ps1 & Hres).
  { pose proof (chainb_length _ _ _ Hl). lia. }
  cbv zeta in Hres.
  destruct Hres as (Hsplit & Hcons & Hchain & Hgone & Hrest & _ & Hpl & Hpl0 & Hpl1
                    & Hend).
  exists chunks, n, l1, l2, pl, ps1. cbv zeta.
  do 8 (split; [assumption|]).
  set (so1 := set_pkt_last pl (set_pkt_first (head l2) so)) in *.
  set (W := with_pkts ps1 (with_socks (<[s := so1]> (socks w)) (written fd0 chunks n w)))
    in *.
  assert (Hs1 : socks W !! s = Some so1) by apply lookup_insert_eq.
  assert (Hrun : local_socket_event_func E H cc cr ce fd0 ev s w =
                 (returned <- event_write_queue E cc (S (size (pkts w))) fd0 s;;
                  returned <- (if returned : bool then ret true
                               else
                                 so <- load s;;
                                 if closing so then cc s;; ret true
                                 else
                                   fdevent_del s FDE_WRITE;;
                                   q <- peer_of s;;
                                   cr q;;
                                   ret false);;
                  if returned : bool then ret tt else ret tt) w).
  { unfold local_socket_event_func, event_write. rewrite Hwr, Hrd.
    unfold bind, get. destruct (event_write_queue _ _ _ _ _ w) as [[] w1| | | |];
      try reflexivity.
    destruct (load s w1) as [so' w2| | | |]; try reflexivity.
    destruct (closing so').
    - destruct (cc s w2) as [[] w3| | | |]; reflexivity.
    - destruct (fdevent_del s FDE_WRITE w2) as [[] w3| | | |]; try reflexivity.
      destruct (peer_of s w3) as [q w4| | | |]; try reflexivity.
      destruct (cr q w4) as [[] w5| | | |]; try reflexivity.
      now destruct (has_event ev FDE_ERROR). }
  rewrite Hrun.
  destruct Hend as [(Hl2 & Hq)|(Hl2 & [(Ho & Hq)|(Ho & Hq)])].
  - rewrite (bind_ok _ _ _ _ _ Hq).
    rewrite (bind_assoc _ _ _ W), (bind_ok _ _ _ _ _ (load_ok _ _ _ Hs1)).
    change (closing so1) with (closing so).
    destruct (closing so) eqn:Hcl.
    + left. split; [exact Hl2|]. split; [reflexivity|].
      unfold bind. destruct (cc s W) as [[] w1| | | |]; reflexivity.
    + right; left. split; [exact Hl2|]. split; [reflexivity|].
      rewrite bind_assoc.
      rewrite (bind_ok _ _ _ _ _ (fdevent_del_ok _ _ _ _ Hs1)).
      destruct (peer so) as [q|] eqn:Hp.
      * rewrite bind_assoc.
        erewrite bind_ok by (eapply peer_of_ok; [apply lookup_insert_eq|exact Hp]).
        unfold W. wsimpl. rewrite insert_insert_eq.
        unfold bind. 
        match goal with |- context [cr q ?X] => destruct (cr q X) as [[] w1| | | |] end;
          reflexivity.
      * rewrite bind_assoc.
        erewrite bind_eq by (eapply peer_of_none; [apply lookup_insert_eq|exact Hp]).
        reflexivity.
  - right; right. split; [exact Hl2|]. left. split; [exact Ho|].
    rewrite (bind_ok _ _ _ _ _ Hq). reflexivity.
  - right; right. split; [exact Hl2|]. right. split; [exact Ho|].
    unfold bind at 1. rewrite Hq.
    unfold bind.
    destruct (store s (set_has_write_error true) W) as [[] w1| | | |]; try reflexivity.
    destruct (cc s w1) as [[] w2| | | |]; reflexivity.
Qed.

(** X18: a write event never loses, repeats or reorders queued bytes.
    On an event with [FDE_WRITE] (and without [FDE_READ]) the handler
    writes the queue of the socket to the fd, packet by packet, in
    [chunks]; the packets [l1] that are written in full are freed, the
    packets [l2] stay queued with the cursor of the first one advanced,
    and what has been written followed by what is still queued is what
    was queued before.  When the queue has been emptied, a closing
    socket is closed; any other socket stops watching for writability
    and calls [ready] on its peer (without a peer this dereferences a
    null pointer).  When the fd would block the handler returns; when a
    write fails or returns 0 it marks the socket and closes it. *)
Theorem event_write_keeps_order E H cc cr ce fd0 ev s so l w :
  socks w !! s = Some so ->
  chainb (pkts w) (pkt_first so) l = true ->
  (forall a po, a ∈ l -> pkts w !! a = Some po -> cursor_ok po) ->
  has_event ev FDE_WRITE = true -> has_event ev FDE_READ = false ->
  exists (chunks : list (list byte)) (n : nat) (l1 l2 : list positive)
         (pl : option positive) (ps1 : gmap positive apacket),
    let so1 := set_pkt_last pl (set_pkt_first (head l2) so) in
    let W := with_pkts ps1
               (with_socks (<[s := so1]> (socks w)) (written fd0 chunks n w)) in
    let run := local_socket_event_func E H cc cr ce fd0 ev s w in
    l = l1 ++ l2
    /\ concat chunks ++ backlog ps1 l2 = backlog (pkts w) l
    /\ chainb ps1 (head l2) l2 = true
    /\ (forall x, x ∈ l1 -> ps1 !! x = None)
    /\ (forall x, x ∉ l -> ps1 !! x = pkts w !! x)
    /\ (l2 <> [] -> pl = pkt_last so)
    /\ (l = [] -> pl = pkt_last so)
    /\ (l2 = [] -> l <> [] -> pl = None)
    /\ ((l2 = [] /\ closing so = true /\ run = (cc s;; ret tt) W)
        \/ (l2 = [] /\ closing so = false
            /\ match peer so with
               | Some q =>
                   run = (cr q;; ret tt)
                           (with_socks
                              (<[s := set_fde (fde_arm FDE_WRITE false (fde so1)) so1]>
                                 (socks w)) W)
               | None => run = Fault
               end)
        \/ (l2 <> []
            /\ (((exists i, write_oracle E i = W_error (EAGAIN E))
                 /\ run = Ok tt W)
                \/ ((exists i, write_oracle E i = W_zero
                               \/ exists e, write_oracle E i = W_error e
                                            /\ e <> EAGAIN E)
                    /\ run = (store s (set_has_write_error true);; cc s;; ret tt)
                               W)))).
Proof. exact (event_write_outcome E H cc cr ce fd0 ev s so l w). Qed.

Lemma event_write_keeps_order_witness :
  (exists chunks : list (list byte), concat chunks = bytes_of_string "data")
  /\ exists w',
      asocket_event Scenario.fast_env (Scenario2.host_reading "" (R_fail 11)) 10 2 1
        Scenario.backlog_pair = Ok tt w'
      /\ fd_out w' = [(10, bytes_of_string "data")]
      /\ pkts w' = ∅
      /\ wire w' = [(Some 7%positive, control_packet Scenario.fast_env A_OKAY 1 5)].
Proof.
  split.
  - destruct (event_write_keeps_order Scenario.fast_env
                (Scenario2.host_reading "" (R_fail 11))
                (asocket_close Scenario.fast_env) (asocket_ready Scenario.fast_env)
                (asocket_enqueue Scenario.fast_env) 10 2 1%positive
                (Scenario.local1_backlog (Some 3%positive)) [100%positive]
                Scenario.backlog_pair)
      as (chunks & n & l1 & l2 & pl & ps1 & _ & Hcons & _ & _ & _ & _ & _ & _ & Hend).
    + reflexivity.
    + reflexivity.
    + intros a po Ha Hpo. apply list_elem_of_singleton in Ha as ->.
      vm_compute in Hpo. injection Hpo as <-. vm_compute. repeat split; discriminate.
    + reflexivity.
    + reflexivity.
    + exists chunks.
      destruct Hend as [(-> & _)|[(-> & _)|(_ & [([i Hi] & _)|([i Hi] & _)])]].
      * now rewrite app_nil_r in Hcons.
      * now rewrite app_nil_r in Hcons.
      * discriminate.
      * destruct Hi as [Hi|(e & Hi & _)]; discriminate.
  - eexists. split; [vm_compute; reflexivity|]. repeat split.
Defined.


(** ** The fd event handler: reading *)

Lemma memcpy_append (pre tail got : list byte) :
  (length got <= length tail)%nat ->
  memcpy (pre ++ tail) (Z.of_nat (length pre)) got (Z.of_nat (length got))
  = Some (pre ++ got ++ drop (length got) tail).
Proof.
  intros Hfit. unfold memcpy.
  destruct (Z.leb_spec 0 (Z.of_nat (length pre))) as [_|?]; [|lia].
  destruct (Z.leb_spec 0 (Z.of_nat (length got))) as [_|?]; [|lia].
  destruct (Z.leb_spec (Z.of_nat (length pre) + Z.of_nat (length got))
              (Z.of_nat (length (pre ++ tail)))) as [_|Hbad].
  2:{ rewrite length_app in Hbad. lia. }
  destruct (Z.leb_spec (Z.of_nat (length got)) (Z.of_nat (length got))) as [_|?]; [|lia].
  cbn [andb]. f_equal.
  rewrite !Nat2Z.id, take_app_length.
  rewrite firstn_all.
  replace (Z.to_nat (Z.of_nat (length pre) + Z.of_nat (length got)))
    with (length pre + length got)%nat by lia.
  now rewrite <- drop_drop, drop_app_length.
Qed.

Lemma event_read_loop_spec E H p (chunks : list (list byte)) :
  forall fuel k avail r w po (pre tail : list byte),
    pkts w !! p = Some po -> data po = pre ++ tail ->
    reads H k chunks ->
    Z.of_nat (length (concat chunks)) <= avail ->
    avail <= Z.of_nat (length tail) ->
    (length chunks < fuel)%nat ->
    let T := Z.of_nat (length (concat chunks)) in
    let w' := with_pkts
                (<[p := set_data (pre ++ concat chunks
                                     ++ drop (length (concat chunks)) tail) po]>
                   (pkts w)) w in
    let run := event_read_loop E H fuel k p (Z.of_nat (length pre)) avail r w in
    (T = avail ->
     run = Ok (match last chunks with
               | Some c => Z.of_nat (length c)
               | None => r
               end, 0, false) w')
    /\ (T < avail -> read_blocks E H (k + length chunks) ->
        run = Ok (-1, avail - T, false) w')
    /\ (T < avail -> read_ends E H (k + length chunks) ->
        run = Ok (match read_oracle H (k + length chunks) with
                  | R_eof => 0
                  | _ => -1
                  end, avail - T, true) w').
Proof.
  induction chunks as [|c cs IH];
    intros fuel k avail r w po pre0 tail Hp Hdata Hreads Hfit Hcap Hfuel.
  - cbn [concat length] in *. cbv zeta. rewrite drop_0, app_nil_l, Nat.add_0_r.
    assert (Hw : with_pkts (<[p := set_data (pre0 ++ tail) po]> (pkts w)) w = w).
    { rewrite <- Hdata.
      replace (set_data (data po) po) with po by now destruct po.
      rewrite insert_id by exact Hp. now destruct w. }
    rewrite Hw.
    destruct fuel as [|fuel]; [cbn in Hfuel; lia|].
    split; [|split].
    + intros <-. cbn [last event_read_loop Z.ltb Z.compare]. reflexivity.
    + intros Hpos Hblock. cbn [event_read_loop].
      destruct (Z.ltb_spec 0 avail) as [_|?]; [|lia].
      unfold adb_read. unfold read_blocks in Hblock. rewrite Hblock.
      cbn [Z.eqb]. rewrite Z.eqb_refl, Z.sub_0_r. reflexivity.
    + intros Hpos Hend. cbn [event_read_loop].
      destruct (Z.ltb_spec 0 avail) as [_|?]; [|lia].
      unfold adb_read. rewrite Z.sub_0_r.
      destruct Hend as [->|(e & -> & Hne)].
      * reflexivity.
      * cbn [Z.eqb]. destruct (Z.eqb_spec e (EAGAIN E)) as [?|_]; [contradiction|].
        reflexivity.
  - destruct Hreads as ((b & bs & Hc & Hor) & Hreads).
    cbn [concat] in *. rewrite length_app in *.
    assert (Hclen : (0 < length c)%nat) by (rewrite Hc; cbn; lia).
    destruct fuel as [|fuel]; [cbn in Hfuel; lia|].
    set (po1 := set_data (pre0 ++ c ++ drop (length c) tail) po).
    set (w1 := with_pkts (<[p := po1]> (pkts w)) w).
    assert (Hstep : event_read_loop E H (S fuel) k p (Z.of_nat (length pre0)) avail r w
                    = event_read_loop E H fuel (S k) p
                        (Z.of_nat (length (pre0 ++ c)))
                        (avail - Z.of_nat (length c)) (Z.of_nat (length c)) w1).
    { cbn [event_read_loop].
      destruct (Z.ltb_spec 0 avail) as [_|?]; [|lia].
      unfold adb_read. rewrite Hor, <- Hc.
      rewrite take_ge by lia.
      destruct (Z.eqb_spec (Z.of_nat (length c)) (-1)) as [?|_]; [lia|].
      destruct (Z.ltb_spec 0 (Z.of_nat (length c))) as [_|?]; [|lia].
      repeat mstep. rewrite Hdata, memcpy_append by lia.
      repeat mstep. rewrite length_app, Nat2Z.inj_add. reflexivity. }
    rewrite Hstep.
    destruct (IH fuel (S k) (avail - Z.of_nat (length c)) (Z.of_nat (length c)) w1 po1
                (pre0 ++ c) (drop (length c) tail)) as (HA & HB & HC).
    { apply lookup_insert_eq. }
    { unfold po1. cbn. now rewrite <- app_assoc. }
    { exact Hreads. }
    { lia. }
    { rewrite length_drop. lia. }
    { cbn in Hfuel. lia. }
    assert (Hw1 : with_pkts
                    (<[p := set_data ((pre0 ++ c) ++ concat cs
                                        ++ drop (length (concat cs))
                                             (drop (length c) tail)) po1]>
                       (pkts w1)) w1
                  = with_pkts
                      (<[p := set_data (pre0 ++ (c ++ concat cs)
                                          ++ drop (length c + length (concat cs)) tail)
                                po]> (pkts w)) w).
    { unfold w1, po1. cbn. rewrite insert_insert_eq, drop_drop, <- !app_assoc.
      reflexivity. }
    cbv zeta in HA, HB, HC. rewrite Hw1 in HA, HB, HC.
    replace (S k + length cs)%nat with (k + length (c :: cs))%nat in HB, HC
      by (cbn; lia).
    cbv zeta. split; [|split].
    + intros HT. rewrite HA by lia. f_equal. f_equal. f_equal.
      destruct cs as [|c' cs']; [reflexivity|].
      change (last (c :: c' :: cs')) with (last (c' :: cs')).
      destruct (last (c' :: cs')) eqn:Hlast; [reflexivity|].
      apply last_None in Hlast. discriminate.
    + intros HT Hblock. rewrite HB by (try assumption; lia). f_equal. f_equal.
      f_equal. lia.
    + intros HT Hend. rewrite HC by (try assumption; lia). f_equal. f_equal.
      f_equal. lia.
Qed.

Lemma reads_length H k chunks :
  reads H k chunks -> (length chunks <= length (concat chunks))%nat.
Proof.
  revert k. induction chunks as [|c cs IH]; intros k Hr; [cbn; lia|].
  destruct Hr as ((b & bs & -> & _) & Hr). specialize (IH _ Hr).
  cbn [concat length]. rewrite length_app. cbn [length]. lia.
Qed.

Lemma handler_read_only E H cc cr ce fd0 ev s w :
  has_event ev FDE_WRITE = false -> has_event ev FDE_READ = true ->
  local_socket_event_func E H cc cr ce fd0 ev s w =
  (event_read E H cc ce fd0 s;; ret tt) w.
Proof.
  intros Hwr Hrd. unfold local_socket_event_func. rewrite Hwr, Hrd.
  unfold bind, ret.
  destruct (event_read E H cc ce fd0 s w) as [[] w1| | | |]; try reflexivity.
  now destruct (has_event ev FDE_ERROR).
Qed.

(** What the read part does up to the end of its loop: the bytes of
    [chunks] are in a fresh packet. *)
Lemma event_read_collected E H cc ce fd0 s so w (chunks : list (list byte)) :
  socks w !! s = Some so ->
  (forall q, peer so = Some q -> is_Some (socks w !! q)) ->
  reads H 0 chunks ->
  let mp := max_payload_of E w so in
  let T := Z.of_nat (length (concat chunks)) in
  let p := fresh_key (pkts w) in
  let w1 := with_pkts (<[p := set_len 0 (read_packet E (concat chunks))]> (pkts w)) w in
  0 < mp -> T <= mp ->
  forall r is_eof,
    (T = mp /\ is_eof = false
     /\ r = match last chunks with Some c => Z.of_nat (length c) | None => 0 end)
    \/ (T < mp /\ read_blocks E H (length chunks) /\ is_eof = false /\ r = -1)
    \/ (T < mp /\ read_ends E H (length chunks) /\ is_eof = true
        /\ r = match read_oracle H (length chunks) with R_eof => 0 | _ => -1 end) ->
    event_read E H cc ce fd0 s w =
      (so <- load s;;
       r <- (if (mp - T =? mp) || bool_decide (peer so = None) then
               put_apacket p;;
               ret (Some r)
             else
               storep p (set_len (mp - (mp - T)));;
               q <- peer_of s;;
               r <- ce q p;;
               if r <? 0 then ret None
               else
                 (if 0 <? r then fdevent_del s FDE_READ else ret tt);;
                 ret (Some r));;
       match r with
       | None => ret true
       | Some r =>
           so <- load s;;
           if (force_eof (fde so) && (r =? 0)) || is_eof then
             cc s;;
             ret true
           else ret false
       end) w1.
Proof.
  intros Hs Hq Hreads mp T p w1 Hmp HT r is_eof Hstop.
  pose proof (max_payload_of_le E w so) as Hle. fold mp in Hle.
  pose proof (reads_length _ _ _ Hreads) as Hlen.
  unfold event_read.
  rewrite (bind_ok _ _ _ _ _ (get_apacket_ok E w)). fold p.
  set (w0 := with_pkts (<[p := control_packet E A_NONE 0 0]> (pkts w)) w).
  assert (Hs0 : socks w0 !! s = Some so) by exact Hs.
  erewrite bind_ok by (apply get_max_payload_ok; [exact Hs0|exact Hq]).
  change (max_payload_of E w0 so) with mp.
  destruct (event_read_loop_spec E H p chunks (S (Z.to_nat mp)) 0%nat mp 0 w0
              (control_packet E A_NONE 0 0) []
              (replicate (Z.to_nat (MAX_PAYLOAD E)) x00)) as (HA & HB & HC).
  { apply lookup_insert_eq. }
  { reflexivity. }
  { exact Hreads. }
  { exact HT. }
  { rewrite length_replicate. lia. }
  { fold T in HT. lia. }
  cbv zeta in HA, HB, HC. cbn [length app Nat.add] in HA, HB, HC.
  change (Z.of_nat 0) with 0 in HA, HB, HC. fold T in HA, HB, HC.
  assert (Hw1 : with_pkts
                  (<[p := set_data (concat chunks
                                      ++ drop (length (concat chunks))
                                           (replicate (Z.to_nat (MAX_PAYLOAD E)) x00))
                            (control_packet E A_NONE 0 0)]> (pkts w0)) w0 = w1).
  { unfold w1, w0, read_packet, control_packet. cbn.
    rewrite insert_insert_eq, drop_replicate. reflexivity. }
  rewrite Hw1 in HA, HB, HC.
  destruct Hstop as [(HT1 & -> & ->)|[(HT1 & Hb & -> & ->)|(HT1 & He & -> & ->)]].
  - rewrite (bind_ok _ _ _ _ _ (HA HT1)). rewrite HT1, Z.sub_diag. reflexivity.
  - rewrite (bind_ok _ _ _ _ _ (HB HT1 Hb)). reflexivity.
  - rewrite (bind_ok _ _ _ _ _ (HC HT1 He)). reflexivity.
Qed.

Lemma fresh_packet_returned (w : world) (po : apacket) :
  put_apacket (fresh_key (pkts w))
    (with_pkts (<[fresh_key (pkts w) := po]> (pkts w)) w) = Ok tt w.
Proof.
  unfold put_apacket. cbn [pkts with_pkts]. rewrite lookup_insert_eq.
  rewrite delete_insert_eq, delete_id by apply fresh_key_None. now destruct w.
Qed.

(** X19: a read event with nothing to read.  When the first read would
    block the handler leaves the state exactly as it was, whether or not
    [force_eof] is set; when the first read reports the end of the input
    or an error, the handler closes the socket and does nothing else.
    In both cases the packet it had taken is given back. *)
Theorem event_read_nothing E H cc cr ce fd0 ev s so w :
  socks w !! s = Some so ->
  (forall q, peer so = Some q -> is_Some (socks w !! q)) ->
  0 < max_payload_of E w so ->
  has_event ev FDE_WRITE = false -> has_event ev FDE_READ = true ->
  (read_blocks E H 0 ->
   local_socket_event_func E H cc cr ce fd0 ev s w = Ok tt w)
  /\ (read_ends E H 0 ->
      local_socket_event_func E H cc cr ce fd0 ev s w = (cc s;; ret tt) w).
Proof.
  intros Hs Hq Hmp Hwr Hrd.
  rewrite (handler_read_only E H cc cr ce fd0 ev s w Hwr Hrd).
  set (w1 := with_pkts (<[fresh_key (pkts w) := set_len 0 (read_packet E [])]> (pkts w)) w).
  assert (Hs1 : socks w1 !! s = Some so) by exact Hs.
  split.
  - intros Hb. unfold bind at 1.
    rewrite (event_read_collected E H cc ce fd0 s so w [] Hs Hq I Hmp
               ltac:(cbn; lia) (-1) false)
      by (right; left; repeat split; [cbn; lia|exact Hb]).
    cbn [concat length]. change (Z.of_nat 0) with 0. rewrite Z.sub_0_r, Z.eqb_refl.
    cbn [orb]. fold w1.
    rewrite (bind_ok _ _ _ _ _ (load_ok _ _ _ Hs1)).
    rewrite !bind_assoc. unfold w1 at 1.
    rewrite (bind_ok _ _ _ _ _ (fresh_packet_returned w _)).
    unfold ret at 1. unfold bind at 1.
    rewrite (bind_ok _ _ _ _ _ (load_ok _ _ _ Hs)).
    cbn [Z.eqb]. rewrite andb_false_r. reflexivity.
  - intros He. unfold bind at 1.
    rewrite (event_read_collected E H cc ce fd0 s so w [] Hs Hq I Hmp
               ltac:(cbn; lia)
               (match read_oracle H 0 with R_eof => 0 | _ => -1 end) true)
      by (right; right; repeat split; [cbn; lia|exact He]).
    cbn [concat length]. change (Z.of_nat 0) with 0. rewrite Z.sub_0_r, Z.eqb_refl.
    cbn [orb]. fold w1.
    rewrite (bind_ok _ _ _ _ _ (load_ok _ _ _ Hs1)).
    rewrite !bind_assoc. unfold w1 at 1.
    rewrite (bind_ok _ _ _ _ _ (fresh_packet_returned w _)).
    unfold ret at 1. unfold bind at 1.
    rewrite (bind_ok _ _ _ _ _ (load_ok _ _ _ Hs)).
    rewrite orb_true_r.
    unfold bind. destruct (cc s w) as [[] w2| | | |]; reflexivity.
Qed.

Lemma event_read_nothing_witness :
  asocket_event Scenario.device_env (Scenario2.host_reading "" (R_fail 11)) 10 1 1
    (Scenario.remote_pair "hello") = Ok tt (Scenario.remote_pair "hello")
  /\ asocket_event Scenario.device_env (Scenario2.host_reading "" R_eof) 10 1 1
       (Scenario.remote_pair "hello")
     = (asocket_close Scenario.device_env 1;; ret tt) (Scenario.remote_pair "hello").
Proof.
  split.
  - apply (event_read_nothing Scenario.device_env
             (Scenario2.host_reading "" (R_fail 11))
             (asocket_close Scenario.device_env) (asocket_ready Scenario.device_env)
             (asocket_enqueue Scenario.device_env) 10 1 1%positive
             (Scenario.local1 (Some 3%positive)) (Scenario.remote_pair "hello"));
      try reflexivity.
    intros q [= <-]. now eexists.
  - apply (event_read_nothing Scenario.device_env
             (Scenario2.host_reading "" R_eof)
             (asocket_close Scenario.device_env) (asocket_ready Scenario.device_env)
             (asocket_enqueue Scenario.device_env) 10 1 1%positive
             (Scenario.local1 (Some 3%positive)) (Scenario.remote_pair "hello"));
      try reflexivity.
    + intros q [= <-]. now eexists.
    + left. reflexivity.
Defined.

Lemma event_read_remote E w s so q qo (got : list byte) :
  socks w !! s = Some so -> peer so = Some q -> socks w !! q = Some qo -> q <> s ->
  enqueue qo = FN_remote_socket_enqueue -> peer qo = Some s ->
  0 < Z.of_nat (length got) < 2 ^ 32 ->
  let p := fresh_key (pkts w) in
  let w1 := with_pkts (<[p := set_len 0 (read_packet E got)]> (pkts w)) w in
  (storep p (set_len (Z.of_nat (length got)));;
   q <- peer_of s;;
   r <- asocket_enqueue E q p;;
   if r <? 0 then ret None
   else
     (if 0 <? r then fdevent_del s FDE_READ else ret tt);;
     ret (Some r)) w1
  = Ok (Some 1)
      (emit (transport qo) (wrte_packet qo so (read_packet E got))
         (with_socks (<[s := set_fde (fde_arm FDE_READ false (fde so)) so]> (socks w))
            w)).
Proof.
  intros Hs Hp Hq Hne Henq Hqp Hlen p w1.
  assert (Hfr : pkts w !! p = None) by apply fresh_key_None.
  unfold w1. repeat mstep.
  unfold asocket_enqueue. repeat mstep. rewrite Henq.
  erewrite bind_ok.
  2:{ eapply (remote_socket_enqueue_ok _ q qo s so p);
        [lookup_tac|exact Hqp|lookup_tac|lookup_tac|rsimpl; lia]. }
  cbn [Z.ltb Z.compare]. unfold emit. repeat mstep. unfold ret. f_equal.
  rewrite delete_insert_eq, delete_id by exact Hfr.
  unfold wrte_packet, read_packet. rsimpl. now destruct w.
Qed.

(** X20: a read event on a local socket whose peer is a remote socket.
    The handler reads until the packet is full (the payload limit of
    the pair), the fd would block, or the input ends.  The bytes read,
    in the order of the reads, go out in a single WRTE packet on the
    transport of the peer, with the ids of the pair and their count in
    the header, and the socket stops watching for readability until the
    peer calls [ready]; the packet buffer is never overrun.  If the
    input ended, the socket is closed after the data has been sent. *)
Theorem event_read_forwards E H fd0 ev s so q qo w (chunks : list (list byte)) :
  socks w !! s = Some so -> peer so = Some q -> socks w !! q = Some qo -> q <> s ->
  enqueue qo = FN_remote_socket_enqueue -> peer qo = Some s ->
  has_event ev FDE_WRITE = false -> has_event ev FDE_READ = true ->
  reads H 0 chunks ->
  let got := concat chunks in
  let T := Z.of_nat (length got) in
  let mp := max_payload_of E w so in
  0 < T <= mp -> MAX_PAYLOAD E < 2 ^ 32 ->
  let W := emit (transport qo) (wrte_packet qo so (read_packet E got))
             (with_socks (<[s := set_fde (fde_arm FDE_READ false (fde so)) so]>
                            (socks w)) w) in
  (T = mp \/ (T < mp /\ read_blocks E H (length chunks)) ->
   asocket_event E H fd0 ev s w = Ok tt W)
  /\ (T < mp -> read_ends E H (length chunks) ->
      asocket_event E H fd0 ev s w = (asocket_close E s;; ret tt) W).
Proof.
  intros Hs Hp Hq Hne Henq Hqp Hwr Hrd Hreads got T mp HT HM W.
  pose proof (max_payload_of_le E w so) as Hle. fold mp in Hle.
  assert (Hpeer : forall x, peer so = Some x -> is_Some (socks w !! x)).
  { intros x Hx. rewrite Hp in Hx. injection Hx as <-. now exists qo. }
  unfold asocket_event.
  rewrite handler_read_only by assumption.
  set (p := fresh_key (pkts w)).
  set (w1 := with_pkts (<[p := set_len 0 (read_packet E got)]> (pkts w)) w).
  assert (Hs1 : socks w1 !! s = Some so) by exact Hs.
  assert (Hrest : forall r is_eof,
    (so <- load s;;
     r <- (if (mp - T =? mp) || bool_decide (peer so = None) then
             put_apacket p;;
             ret (Some r)
           else
             storep p (set_len (mp - (mp - T)));;
             q <- peer_of s;;
             r <- asocket_enqueue E q p;;
             if r <? 0 then ret None
             else
               (if 0 <? r then fdevent_del s FDE_READ else ret tt);;
               ret (Some r));;
     match r with
     | None => ret true
     | Some r =>
         so <- load s;;
         if (force_eof (fde so) && (r =? 0)) || is_eof then
           asocket_close E s;;
           ret true
         else ret false
     end) w1 =
    (if is_eof then asocket_close E s;; ret true else ret false) W).
  { intros r is_eof.
    rewrite (bind_ok _ _ _ _ _ (load_ok _ _ _ Hs1)).
    destruct (Z.eqb_spec (mp - T) mp) as [?|_]; [lia|].
    rewrite bool_decide_eq_false_2 by congruence. cbn [orb].
    replace (mp - (mp - T)) with (Z.of_nat (length got)) by (unfold T; lia).
    unfold w1, p.
    rewrite (bind_eq _ _ _ _
               (event_read_remote E w s so q qo got
                  Hs Hp Hq Hne Henq Hqp ltac:(fold T; lia))).
    fold W.
    assert (HsW : socks W !! s = Some (set_fde (fde_arm FDE_READ false (fde so)) so))
      by apply lookup_insert_eq.
    rewrite (bind_ok _ _ _ _ _ (load_ok _ _ _ HsW)).
    cbn [Z.eqb]. now rewrite andb_false_r. }
  pose proof HT as HT'. unfold T, mp, got in HT'.
  split.
  - intros [HT1|(HT1 & Hb)]; unfold bind at 1.
    + rewrite (event_read_collected E H _ _ fd0 s so w chunks Hs Hpeer Hreads
                 ltac:(lia) ltac:(lia)
                 (match last chunks with Some c => Z.of_nat (length c) | None => 0 end)
                 false)
        by (fold got T mp; left; now repeat split).
      fold got T mp p w1. now rewrite Hrest.
    + rewrite (event_read_collected E H _ _ fd0 s so w chunks Hs Hpeer Hreads
                 ltac:(lia) ltac:(lia) (-1) false)
        by (fold got T mp; right; left; now repeat split).
      fold got T mp p w1. now rewrite Hrest.
  - intros HT1 He. unfold bind at 1.
    rewrite (event_read_collected E H _ _ fd0 s so w chunks Hs Hpeer Hreads
               ltac:(lia) ltac:(lia)
               (match read_oracle H (length chunks) with R_eof => 0 | _ => -1 end)
               true)
      by (fold got T mp; right; right; now repeat split).
    fold got T mp p w1. rewrite Hrest.
    unfold bind. destruct (asocket_close E s W) as [[] w2| | | |]; reflexivity.
Qed.

Lemma event_read_forwards_witness :
  asocket_event Scenario.device_env (Scenario2.host_reading "hello" (R_fail 11)) 10 1 1
    (Scenario.remote_pair "data")
  = Ok tt
      (emit (Some 7%positive)
         (wrte_packet (Scenario.remote3 (Some 1%positive))
            (Scenario.local1 (Some 3%positive))
            (read_packet Scenario.device_env (bytes_of_string "hello")))
         (with_socks
            (<[1%positive :=
                 set_fde (fde_arm FDE_READ false (fde (Scenario.local1 (Some 3%positive))))
                   (Scenario.local1 (Some 3%positive))]>
               (socks (Scenario.remote_pair "data")))
            (Scenario.remote_pair "data"))).
Proof.
  apply (event_read_forwards Scenario.device_env
           (Scenario2.host_reading "hello" (R_fail 11)) 10 1 1%positive
           (Scenario.local1 (Some 3%positive)) 3%positive
           (Scenario.remote3 (Some 1%positive)) (Scenario.remote_pair "data")
           [bytes_of_string "hello"]).
  - reflexivity.
  - reflexivity.
  - reflexivity.
  - discriminate.
  - reflexivity.
  - reflexivity.
  - reflexivity.
  - reflexivity.
  - split; [|exact I]. eexists _, _. split; reflexivity.
  - vm_compute. split; [reflexivity|discriminate].
  - reflexivity.
  - right. split; reflexivity.
Defined.

(** A local socket [q] without queue, paired with the local socket [s]
    without queue, is closed: both are destroyed. *)
Lemma close_local_pair E w s so q qo :
  socks w !! q = Some qo -> peer qo = Some s -> q <> s ->
  socks w !! s = Some so ->
  close qo = FN_local_socket_close -> close so = FN_local_socket_close ->
  shutdown so = None ->
  pkt_first qo = None -> pkt_first so = None ->
  exit_on_close qo = false -> exit_on_close so = false ->
  exists w',
    asocket_close E q w = Ok tt w'
    /\ socks w' !! s = None /\ socks w' !! q = None
    /\ pkts w' = pkts w /\ wire w' = wire w /\ fd_out w' = fd_out w.
Proof.
  intros Hq Hqp Hne Hs Hcq Hcs Hsh Hfq Hfs Heq Hes.
  unfold asocket_close, call_depth. rewrite close_dispatch_S.
  rewrite (bind_ok _ _ _ _ _ (load_ok _ _ _ Hq)). rewrite Hcq.
  set (w1 := with_socks (<[s := set_peer None so]> (socks w)) w).
  assert (Hs1 : socks w1 !! s = Some (set_peer None so)) by apply lookup_insert_eq.
  assert (Hinner : close_dispatch E 3 s w1
                   = Ok tt (destroyed s (set_peer None so) [] w1)).
  { rewrite (close_dispatch_local E 2 w1 s (set_peer None so) [] Hs1 Hcs eq_refl).
    - unfold close_finish, destroy_now. cbn [pkt_first set_peer exit_on_close].
      rewrite Hfs, Hes. rewrite bool_decide_eq_true_2 by reflexivity.
      now rewrite !orb_true_r.
    - cbn [pkt_first set_peer]. now rewrite Hfs. }
  set (w3 := destroyed s (set_peer None so) [] w1) in *.
  assert (Hq3 : socks w3 !! q = Some qo).
  { unfold w3, destroyed, w1. cbn.
    rewrite lookup_delete_ne, lookup_insert_ne by congruence. exact Hq. }
  rewrite (local_socket_close_paired E (close_dispatch E 3) w q qo w3 [] Hq).
  - unfold close_finish, destroy_now. cbn [pkt_first set_peer exit_on_close].
    rewrite Hfq, Heq. rewrite bool_decide_eq_true_2 by reflexivity.
    rewrite !orb_true_r.
    eexists. split; [reflexivity|]. unfold destroyed, w3, destroyed, w1. cbn.
    rewrite lookup_delete_eq.
    rewrite lookup_delete_ne, lookup_insert_ne, lookup_delete_eq by congruence.
    repeat split.
  - unfold peer_torn_down. rewrite Hqp. split; [congruence|].
    exists so, w. split; [exact Hs|]. rewrite Hsh. split; [reflexivity|exact Hinner].
  - exact Hq3.
  - now rewrite Hfq.
Qed.

(** [local_socket_enqueue] on a socket whose first write fails: the
    pair is closed and 1 is returned. *)
Lemma local_enqueue_write_error E w s so q qo p po :
  socks w !! q = Some qo -> peer qo = Some s -> q <> s ->
  socks w !! s = Some so ->
  enqueue qo = FN_local_socket_enqueue ->
  close qo = FN_local_socket_close -> close so = FN_local_socket_close ->
  shutdown so = None ->
  pkt_first qo = None -> pkt_first so = None ->
  exit_on_close qo = false -> exit_on_close so = false ->
  pkts w !! p = Some po -> 0 < len po <= Z.of_nat (length (data po)) ->
  (write_oracle E (io_clock w) = W_zero
   \/ exists e, write_oracle E (io_clock w) = W_error e /\ e <> EAGAIN E) ->
  exists w',
    asocket_enqueue E q p w = Ok 1 w'
    /\ socks w' !! s = None /\ socks w' !! q = None.
Proof.
  intros Hq Hqp Hne Hs Henq Hcq Hcs Hsh Hfq Hfs Heq Hes Hp Hlen Hfail.
  unfold asocket_enqueue. rewrite (bind_ok _ _ _ _ _ (load_ok _ _ _ Hq)), Henq.
  destruct (local_socket_enqueue_write_through E (asocket_close E) w q qo p po
              Hq Hp ltac:(lia) Hfq) as (chunks & k & Hk & Hcat & Hor & Hcases).
  assert (Hnil : chunks = []).
  { destruct chunks as [|c cs]; [reflexivity|]. exfalso.
    destruct (Hor 0%nat ltac:(cbn; lia)) as (m & Hm).
    rewrite Nat.add_0_r in Hm.
    destruct Hfail as [Hf|(e & Hf & _)]; congruence. }
  subst chunks. cbn [length] in Hcases. rewrite Nat.add_0_r in Hcases.
  destruct Hcases as [(Hk1 & _)|[(_ & Hagain & _)|(_ & _ & Hrun)]].
  - exfalso. cbn [concat] in Hcat. symmetry in Hcat.
    apply (f_equal length) in Hcat. rewrite length_take in Hcat. cbn in Hcat. lia.
  - exfalso. destruct Hfail as [Hf|(e & Hf & He)]; congruence.
  - rewrite Hrun.
    match goal with |- context [(asocket_close E q;; ret 1) ?W] => set (w2 := W) end.
    destruct (close_local_pair E w2 s so q (set_has_write_error true qo))
      as (w' & Hclose & Hs' & Hq' & _); try assumption.
    { unfold w2. cbn. apply lookup_insert_eq. }
    { unfold w2. cbn. now rewrite lookup_insert_ne by congruence. }
    exists w'. rewrite (bind_ok _ _ _ _ _ Hclose). now split.
Qed.

(** X21: the handler trusts the return value of [enqueue].  When the
    peer is a local socket whose write fails, [local_socket_enqueue]
    closes the pair, which frees the socket the handler works on, and
    returns 1; the handler takes this for "not ready" and goes on to
    use the socket it was called for: a use after free.  (A negative
    return value is what makes the handler return at once.) *)
Theorem event_read_uses_freed_socket E H fd0 ev s so q qo w
    (chunks : list (list byte)) :
  socks w !! s = Some so -> peer so = Some q -> socks w !! q = Some qo -> q <> s ->
  peer qo = Some s ->
  enqueue qo = FN_local_socket_enqueue ->
  close qo = FN_local_socket_close -> close so = FN_local_socket_close ->
  shutdown so = None ->
  pkt_first qo = None -> pkt_first so = None ->
  exit_on_close qo = false -> exit_on_close so = false ->
  has_event ev FDE_WRITE = false -> has_event ev FDE_READ = true ->
  reads H 0 chunks ->
  let T := Z.of_nat (length (concat chunks)) in
  let mp := max_payload_of E w so in
  0 < T <= mp ->
  T = mp \/ read_blocks E H (length chunks) \/ read_ends E H (length chunks) ->
  (write_oracle E (io_clock w) = W_zero
   \/ exists e, write_oracle E (io_clock w) = W_error e /\ e <> EAGAIN E) ->
  asocket_event E H fd0 ev s w = Fault.
Proof.
  intros Hs Hp Hq Hne Hqp Henq Hcq Hcs Hsh Hfq Hfs Heq Hes Hwr Hrd Hreads T mp HT
    Hstop Hfail.
  pose proof (max_payload_of_le E w so) as Hle. fold mp in Hle.
  assert (Hpeer : forall x, peer so = Some x -> is_Some (socks w !! x)).
  { intros x Hx. rewrite Hp in Hx. injection Hx as <-. now exists qo. }
  unfold asocket_event.
  rewrite handler_read_only by assumption.
  set (p := fresh_key (pkts w)).
  set (w1 := with_pkts (<[p := set_len 0 (read_packet E (concat chunks))]> (pkts w)) w).
  assert (Hs1 : socks w1 !! s = Some so) by exact Hs.
  assert (Hrest : forall r is_eof,
    (so <- load s;;
     r <- (if (mp - T =? mp) || bool_decide (peer so = None) then
             put_apacket p;;
             ret (Some r)
           else
             storep p (set_len (mp - (mp - T)));;
             q <- peer_of s;;
             r <- asocket_enqueue E q p;;
             if r <? 0 then ret None
             else
               (if 0 <? r then fdevent_del s FDE_READ else ret tt);;
               ret (Some r));;
     match r with
     | None => ret true
     | Some r =>
         so <- load s;;
         if (force_eof (fde so) && (r =? 0)) || is_eof then
           asocket_close E s;;
           ret true
         else ret false
     end) w1 = Fault).
  { intros r is_eof.
    rewrite (bind_ok _ _ _ _ _ (load_ok _ _ _ Hs1)).
    destruct (Z.eqb_spec (mp - T) mp) as [?|_]; [lia|].
    rewrite bool_decide_eq_false_2 by congruence. cbn [orb].
    replace (mp - (mp - T)) with T by lia.
    unfold w1.
    rewrite !bind_assoc.
    erewrite bind_ok by (eapply storep_ok; cbn; apply lookup_insert_eq).
    cbn [pkts with_pkts]. rewrite insert_insert_eq.
    rewrite !bind_assoc.
    erewrite bind_ok by (eapply peer_of_ok; [exact Hs|exact Hp]).
    rewrite !bind_assoc.
    match goal with |- _ ?W = _ => set (w2 := W) end.
    destruct (local_enqueue_write_error E w2 s so q qo p
                (set_len T (set_len 0 (read_packet E (concat chunks)))))
      as (w' & Hrun & Hs' & Hq'); try assumption.
    { unfold w2. cbn. apply lookup_insert_eq. }
    { unfold read_packet. cbn [len data set_len]. rewrite length_app, length_replicate.
      fold T. lia. }
    rewrite (bind_ok _ _ _ _ _ Hrun).
    cbn [Z.ltb Z.compare]. rewrite !bind_assoc.
    unfold bind at 1. unfold fdevent_del, store. now rewrite Hs'. }
  unfold bind at 1.
  pose proof HT as HT'. unfold T, mp in HT'.
  destruct Hstop as [HT1|[Hb|He]].
  - rewrite (event_read_collected E H _ _ fd0 s so w chunks Hs Hpeer Hreads
               ltac:(lia) ltac:(lia)
               (match last chunks with Some c => Z.of_nat (length c) | None => 0 end)
               false)
      by (fold T mp; left; now repeat split).
    fold T mp p w1. now rewrite Hrest.
  - destruct (Z.eq_dec T mp) as [HT1|HT1].
    + rewrite (event_read_collected E H _ _ fd0 s so w chunks Hs Hpeer Hreads
                 ltac:(lia) ltac:(lia)
                 (match last chunks with Some c => Z.of_nat (length c) | None => 0 end)
                 false)
        by (fold T mp; left; now repeat split).
      fold T mp p w1. now rewrite Hrest.
    + rewrite (event_read_collected E H _ _ fd0 s so w chunks Hs Hpeer Hreads
                 ltac:(lia) ltac:(lia) (-1) false)
        by (fold T mp; right; left; repeat split; [lia|exact Hb]).
      fold T mp p w1. now rewrite Hrest.
  - destruct (Z.eq_dec T mp) as [HT1|HT1].
    + rewrite (event_read_collected E H _ _ fd0 s so w chunks Hs Hpeer Hreads
                 ltac:(lia) ltac:(lia)
                 (match last chunks with Some c => Z.of_nat (length c) | None => 0 end)
                 false)
        by (fold T mp; left; now repeat split).
      fold T mp p w1. now rewrite Hrest.
    + rewrite (event_read_collected E H _ _ fd0 s so w chunks Hs Hpeer Hreads
                 ltac:(lia) ltac:(lia)
                 (match read_oracle H (length chunks) with R_eof => 0 | _ => -1 end)
                 true)
        by (fold T mp; right; right; repeat split; [lia|exact He]).
      fold T mp p w1. now rewrite Hrest.
Qed.

Lemma event_read_uses_freed_socket_witness :
  asocket_event Scenario.broken_pipe_env
    (Scenario2.host_reading "hello" (R_fail 11)) 10 1 1 Scenario2.local_pair = Fault.
Proof.
  apply (event_read_uses_freed_socket Scenario.broken_pipe_env
           (Scenario2.host_reading "hello" (R_fail 11)) 10 1 1%positive
           (Scenario.local1 (Some 4%positive)) 4%positive
           (Scenario2.local4 (Some 1%positive)) Scenario2.local_pair
           [bytes_of_string "hello"]); try reflexivity.
  - discriminate.
  - split; [|exact I]. eexists _, _. split; reflexivity.
  - vm_compute. split; [reflexivity|discriminate].
  - right. left. reflexivity.
  - right. exists 32. split; [reflexivity|discriminate].
Defined.


(** ** A queue that is written in full *)

(** X22: when the fd takes every write, a write event empties the
    queue: all queued bytes are written, in order, and all queued
    packets are freed.  A socket whose close had been deferred is then
    destroyed (its fd is closed and it leaves the closing list); any
    other socket stops watching for writability and tells its peer that
    it is ready, which for a remote peer is an OKAY packet with the ids
    of the pair. *)
Theorem event_write_drains E H fd0 ev s so l w :
  socks w !! s = Some so ->
  chainb (pkts w) (pkt_first so) l = true ->
  (forall a po, a ∈ l -> pkts w !! a = Some po -> cursor_ok po) ->
  has_event ev FDE_WRITE = true -> has_event ev FDE_READ = false ->
  (forall i, exists m, write_oracle E i = W_bytes m) ->
  exists chunks : list (list byte),
    concat chunks = backlog (pkts w) l
    /\ (closing so = true -> peer so = None ->
        close so = FN_local_socket_close -> exit_on_close so = false ->
        exists w',
          asocket_event E H fd0 ev s w = Ok tt w'
          /\ fd_out w' = fd_out w ++ map (pair fd0) chunks
          /\ wire w' = wire w
          /\ socks w' !! s = None
          /\ (s ∉ local_socket_list w') /\ (s ∉ local_socket_closing_list w')
          /\ fd_closed w' = fd_closed w ++ [fde_fd (fde so)]
          /\ forall a, a ∈ l -> pkts w' !! a = None)
    /\ (closing so = false ->
        forall q qo,
          peer so = Some q -> q <> s -> socks w !! q = Some qo ->
          ready qo = FN_remote_socket_ready -> peer qo = Some s ->
          exists w' so',
            asocket_event E H fd0 ev s w = Ok tt w'
            /\ fd_out w' = fd_out w ++ map (pair fd0) chunks
            /\ wire w' = wire w ++
                 [(transport qo, control_packet E A_OKAY (id so) (id qo))]
            /\ socks w' !! s = Some so'
            /\ pkt_first so' = None /\ st_write (fde so') = false
            /\ st_read (fde so') = st_read (fde so) /\ peer so' = Some q
            /\ forall a, a ∈ l -> pkts w' !! a = None).
Proof.
  intros Hs Hl Hwf Hwr Hrd Hall.
  destruct (event_write_outcome E H (asocket_close E) (asocket_ready E)
              (asocket_enqueue E) fd0 ev s so l w Hs Hl Hwf Hwr Hrd)
    as (chunks & n & l1 & l2 & pl & ps1 & Hres).
  cbv zeta in Hres.
  destruct Hres as (Hsplit & Hcons & Hchain & Hgone & Hrest & Hpl & Hpl0 & Hpl1 & Hend).
  assert (Hl2 : l2 = []).
  { destruct Hend as [(? & _)|[(? & _)|(_ & [([i Hi] & _)|([i Hi] & _)])]];
      try assumption; exfalso; destruct (Hall i) as (m & Hm).
    - congruence.
    - destruct Hi as [Hi|(e & Hi & _)]; congruence. }
  subst l2. rewrite app_nil_r in Hsplit. subst l1.
  unfold backlog at 1 in Hcons. cbn [map concat] in Hcons. rewrite app_nil_r in Hcons.
  cbn [head] in Hend.
  set (so1 := set_pkt_last pl (set_pkt_first None so)) in *.
  set (W := with_pkts ps1 (with_socks (<[s := so1]> (socks w)) (written fd0 chunks n w)))
    in *.
  exists chunks. split; [exact Hcons|]. split.
  - intros Hcl Hp Hc Hex.
    destruct Hend as [(_ & _ & Hrun)|[(_ & Hcl' & _)|(Hne & _)]];
      [|congruence|congruence].
    unfold asocket_event. rewrite Hrun.
    assert (Hs1 : socks W !! s = Some so1) by apply lookup_insert_eq.
    assert (Hclose : asocket_close E s W = Ok tt (destroyed s so1 [] W)).
    { unfold asocket_close, call_depth.
      rewrite (close_dispatch_peerless E 2 W s so1 [] Hs1 Hp eq_refl).
      unfold close_peerless. change (close so1) with (close so). rewrite Hc.
      unfold close_finish, destroy_now.
      change (closing so1) with (closing so).
      change (exit_on_close so1) with (exit_on_close so).
      now rewrite Hcl, Hex. }
    rewrite (bind_ok _ _ _ _ _ Hclose).
    eexists. split; [reflexivity|]. unfold destroyed, W, written. cbn.
    split; [reflexivity|]. split; [reflexivity|].
    split; [apply lookup_delete_eq|].
    split; [apply not_elem_of_unlink|]. split; [apply not_elem_of_unlink|].
    split; [reflexivity|exact Hgone].
  - intros Hcl q qo Hp Hne Hq Hr Hqp.
    destruct Hend as [(_ & Hcl' & _)|[(_ & _ & Hrun)|(Hne' & _)]];
      [congruence| |congruence].
    rewrite Hp in Hrun. unfold asocket_event. rewrite Hrun.
    set (so2 := set_fde (fde_arm FDE_WRITE false (fde so1)) so1) in *.
    match goal with |- context [(asocket_ready E q;; ret tt) ?X] => set (W2 := X) end.
    assert (Hs2 : socks W2 !! s = Some so2) by apply lookup_insert_eq.
    assert (Hq2 : socks W2 !! q = Some qo).
    { unfold W2. cbn. now rewrite lookup_insert_ne by congruence. }
    assert (Hready : asocket_ready E q W2
                     = Ok tt (emit (transport qo)
                                (control_packet E A_OKAY (id so2) (id qo)) W2)).
    { unfold asocket_ready, call_depth. rewrite ready_dispatch_S.
      rewrite (bind_ok _ _ _ _ _ (load_ok _ _ _ Hq2)), Hr.
      now apply (remote_socket_ready_ok E W2 q qo s so2). }
    rewrite (bind_ok _ _ _ _ _ Hready).
    exists (emit (transport qo) (control_packet E A_OKAY (id so2) (id qo)) W2), so2.
    split; [reflexivity|]. unfold emit, W2, W, written. cbn.
    rewrite lookup_insert_eq.
    split; [reflexivity|]. split; [reflexivity|]. split; [reflexivity|].
    split; [reflexivity|]. split; [reflexivity|]. split; [reflexivity|].
    split; [exact Hp|exact Hgone].
Qed.

Lemma event_write_drains_witness :
  exists w',
    asocket_event Scenario.fast_env (Scenario2.host_reading "" (R_fail 11)) 10 2 1
      Scenario.backlog_pair = Ok tt w'
    /\ fd_out w' = [(10, bytes_of_string "data")]
    /\ wire w' = [(Some 7%positive, control_packet Scenario.fast_env A_OKAY 1 5)]
    /\ pkts w' !! 100%positive = None.
Proof.
  destruct (event_write_drains Scenario.fast_env
              (Scenario2.host_reading "" (R_fail 11)) 10 2 1%positive
              (Scenario.local1_backlog (Some 3%positive)) [100%positive]
              Scenario.backlog_pair)
    as (chunks & Hcat & _ & Hopen).
  - reflexivity.
  - reflexivity.
  - intros a po Ha Hpo. apply list_elem_of_singleton in Ha as ->.
    vm_compute in Hpo. injection Hpo as <-. vm_compute. repeat split; discriminate.
  - reflexivity.
  - reflexivity.
  - intros i. now exists 4096%positive.
  - destruct (Hopen eq_refl 3%positive (Scenario.remote3 (Some 1%positive))
                eq_refl ltac:(discriminate) eq_refl eq_refl eq_refl)
      as (w' & so' & Hrun & Hout & Hwire & _ & _ & _ & _ & _ & Hfree).
    exists w'. split; [exact Hrun|].
    vm_compute in Hrun. injection Hrun as <-. repeat split.
Defined.


(** ** Sockets for local services *)

(** X23: [create_local_service_socket] for a service other than the two
    [jdwp] ones.  If [service_to_fd] cannot open the service the result
    is null and nothing is created or registered.  Otherwise the result
    is a new local socket on the fd that [service_to_fd] returned,
    registered like any socket from [create_local_socket].  It is marked
    [exit_on_close] only in the device build, and there only for
    ["root:"] (when not yet root, on a debuggable build), ["unroot:"]
    (when root), ["usb:"] and ["tcpip:"]: closing such a socket ends
    the process. *)
Theorem create_local_service_socket_spec E H (name : list byte) transport w :
  let fd0 := service_to_fd H name transport in
  ADB_HOST E = true
  \/ (strcmp_eq name "jdwp" = false /\ strcmp_eq name "track-jdwp" = false) ->
  (fd0 < 0 -> create_local_service_socket E H name transport w = Ok None w)
  /\ (0 <= fd0 -> ids_ok w -> local_socket_next_id w < 2 ^ 32 - 1 ->
      exists s so' w',
        create_local_service_socket E H name transport w = Ok (Some s) w'
        /\ socks w !! s = None
        /\ socks w' = <[s := so']> (socks w)
        /\ fd so' = fd0 /\ fde_fd (fde so') = fd0
        /\ id so' = local_socket_next_id w
        /\ peer so' = None /\ close so' = FN_local_socket_close
        /\ local_socket_list w' = local_socket_list w ++ [s]
        /\ ids_ok w'
        /\ (ADB_HOST E = true -> exit_on_close so' = false)
        /\ (ADB_HOST E = false ->
            exit_on_close so' =
              (has_prefix "root:" name && negb (getuid H =? 0)
                 && __android_log_is_debuggable H)
              || (has_prefix "unroot:" name && (getuid H =? 0))
              || has_prefix "usb:" name
              || has_prefix "tcpip:" name)).
Proof.
  intros fd0 Hplain.
  assert (Hskip : create_local_service_socket E H name transport w =
    (if fd0 <? 0 then ret None
     else
       s <- create_local_socket fd0;;
       (if negb (ADB_HOST E)
           && ((has_prefix "root:" name && negb (getuid H =? 0)
                && __android_log_is_debuggable H)
               || (has_prefix "unroot:" name && (getuid H =? 0))
               || has_prefix "usb:" name
               || has_prefix "tcpip:" name)
        then store s (set_exit_on_close true)
        else ret tt);;
       ret (Some s)) w).
  { unfold create_local_service_socket. fold fd0.
    destruct Hplain as [->|[-> ->]]; [reflexivity|].
    now rewrite !andb_false_r. }
  rewrite Hskip. split.
  - intros Hneg. destruct (Z.ltb_spec fd0 0) as [_|?]; [reflexivity|lia].
  - intros Hpos Hok Hlt. destruct (Z.ltb_spec fd0 0) as [?|_]; [lia|].
    destruct (proj2 (create_local_socket_run w fd0 Hok) Hlt)
      as (s & so' & w' & Hrun & Hfresh & Hsocks & Hid & Hfd & Hfde & Hpeer & _ & _
          & Hclose & Hlist & Hnext & _ & _ & _ & Hok' & _).
    rewrite (bind_ok _ _ _ _ _ Hrun).
    assert (Hs' : socks w' !! s = Some so') by (rewrite Hsocks; apply lookup_insert_eq).
    assert (Hex0 : exit_on_close so' = false).
    { unfold create_local_socket in Hrun.
      rewrite (bind_ok _ _ _ _ _ (alloc_ok _ w)) in Hrun.
      erewrite bind_eq in Hrun
        by (eapply install_local_socket_ok; cbn; apply lookup_insert_eq).
      cbn in Hrun. destruct (_ =? 0) in Hrun; [discriminate|].
      unfold fdevent_install in Hrun.
      erewrite bind_ok in Hrun by (eapply store_ok; cbn; apply lookup_insert_eq).
      cbn in Hrun. injection Hrun as Hs0 Hw0. subst w'. cbn in Hs'.
      rewrite insert_insert_eq in Hs'. subst s. rewrite lookup_insert_eq in Hs'.
      injection Hs' as <-. reflexivity. }
    destruct (negb (ADB_HOST E)
              && ((has_prefix "root:" name && negb (getuid H =? 0)
                   && __android_log_is_debuggable H)
                  || (has_prefix "unroot:" name && (getuid H =? 0))
                  || has_prefix "usb:" name
                  || has_prefix "tcpip:" name)) eqn:Hmark.
    + apply andb_true_iff in Hmark as [Hdev Hcond].
      rewrite (bind_ok _ _ _ _ _ (store_ok _ _ _ _ Hs')).
      exists s, (set_exit_on_close true so'). eexists.
      split; [reflexivity|]. cbn [socks with_socks local_socket_list].
      split; [exact Hfresh|].
      split; [rewrite Hsocks; apply insert_insert_eq|].
      cbn [fd fde id peer close set_exit_on_close exit_on_close].
      do 6 (split; [assumption|]).
      split.
      { destruct Hok' as (Hn & Hnd & Hlive & Hinj).
        split; [exact Hn|]. split; [exact Hnd|]. cbn. split.
        - intros x Hx. destruct (Hlive x Hx) as (xo & Hxo & Hidx).
          destruct (decide (x = s)) as [->|Hxs].
          + rewrite lookup_insert_eq. eexists. split; [reflexivity|].
            rewrite Hs' in Hxo. injection Hxo as <-. exact Hidx.
          + rewrite lookup_insert_ne by congruence. eauto.
        - intros s1 s2 so1 so2 H1 H2 Hs1 Hs2 Heq.
          assert (Hsame : forall x xo, <[s := set_exit_on_close true so']> (socks w') !! x
                                       = Some xo ->
                    exists xo', socks w' !! x = Some xo' /\ id xo' = id xo).
          { intros x xo Hx. destruct (decide (x = s)) as [->|Hxs].
            - rewrite lookup_insert_eq in Hx. injection Hx as <-. now exists so'.
            - rewrite lookup_insert_ne in Hx by congruence. now exists xo. }
          destruct (Hsame _ _ Hs1) as (xo1 & Hx1 & Hi1).
          destruct (Hsame _ _ Hs2) as (xo2 & Hx2 & Hi2).
          apply (Hinj s1 s2 xo1 xo2); try assumption. congruence. }
      split.
      { intros HH. rewrite HH in Hdev. discriminate. }
      intros _. now rewrite Hcond.
    + exists s, so', w'. split; [reflexivity|].
      do 9 (split; [assumption|]).
      split; [intros _; exact Hex0|].
      intros HH. rewrite HH in Hmark. cbn [negb andb] in Hmark.
      now rewrite Hmark.
Qed.

Lemma create_local_service_socket_spec_witness :
  exists s so' w',
    create_local_service_socket Scenario.device_env
      (Scenario2.host_reading "" R_eof) (bytes_of_string "usb:") (Some 7%positive)
      (Scenario.remote_pair "hello") = Ok (Some s) w'
    /\ socks w' !! s = Some so'
    /\ fd so' = 12 /\ id so' = 2
    /\ exit_on_close so' = true.
Proof.
  destruct (proj2 (create_local_service_socket_spec Scenario.device_env
                     (Scenario2.host_reading "" R_eof) (bytes_of_string "usb:")
                     (Some 7%positive) (Scenario.remote_pair "hello")
                     (or_intror (conj eq_refl eq_refl)))
              ltac:(cbn; lia) ltac:(ids_ok_single) ltac:(reflexivity))
    as (s & so' & w' & Hrun & _ & Hsocks & Hfd & _ & Hid & _ & _ & _ & _ & _ & Hex).
  exists s, so', w'. split; [exact Hrun|].
  split; [rewrite Hsocks; apply lookup_insert_eq|].
  split; [exact Hfd|]. split; [exact Hid|].
  exact (Hex eq_refl).
Defined.


(** ** Closing a remote socket *)

(** [remote_socket_close] of a socket paired with a plain local socket:
    the peer is closed on its own, then the remote socket is freed. *)
Lemma remote_socket_close_run E w s so q qo l :
  socks w !! s = Some so -> close so = FN_remote_socket_close ->
  peer so = Some q -> q <> s ->
  socks w !! q = Some qo -> close qo = FN_local_socket_close ->
  chainb (pkts w) (pkt_first qo) l = true ->
  asocket_close E s w =
    (_ <- close_finish q (set_peer None qo) l;; free s)
      (with_socks (<[q := set_peer None qo]> (socks w)) w).
Proof.
  intros Hs Hc Hp Hne Hq Hcq Hl.
  unfold asocket_close, call_depth. rewrite close_dispatch_S.
  rewrite (bind_ok _ _ _ _ _ (load_ok _ _ _ Hs)). rewrite Hc.
  unfold remote_socket_close.
  rewrite (bind_ok _ _ _ _ _ (load_ok _ _ _ Hs)). rewrite Hp.
  set (w1 := with_socks (<[q := set_peer None qo]> (socks w)) w).
  assert (Hq1 : socks w1 !! q = Some (set_peer None qo)) by apply lookup_insert_eq.
  assert (Hs1 : socks w1 !! s = Some so).
  { unfold w1. cbn. rewrite lookup_insert_ne by congruence. exact Hs. }
  rewrite bind_assoc, (bind_ok _ _ _ _ _ (peer_of_ok _ _ _ _ Hs Hp)).
  rewrite bind_assoc, (bind_ok _ _ _ _ _ (store_ok _ _ _ _ Hq)). fold w1.
  rewrite bind_assoc, (bind_ok _ _ _ _ _ (peer_of_ok _ _ _ _ Hs1 Hp)).
  unfold bind.
  rewrite (close_dispatch_local E 2 w1 q (set_peer None qo) l Hq1 Hcq eq_refl Hl).
  reflexivity.
Qed.

(** X24: closing a remote socket that is paired with a plain local
    socket sends nothing: no CLSE goes to the transport and nothing is
    written to the fd.  The remote socket is freed and the local peer is
    closed on its own: it is destroyed at once (fd closed, queue freed,
    off both lists) when its queue is empty or it is already closing or
    has a write error, and otherwise it is kept, without peer, on the
    closing list with its queue, watching for writability only.  Every
    other socket keeps its record. *)
Theorem remote_socket_close_silent E w s so q qo l :
  socks w !! s = Some so -> close so = FN_remote_socket_close ->
  peer so = Some q -> q <> s ->
  socks w !! q = Some qo -> close qo = FN_local_socket_close ->
  chainb (pkts w) (pkt_first qo) l = true ->
  exit_on_close qo = false ->
  (destroy_now qo = false -> st_write (fde qo) = true) ->
  exists w',
    asocket_close E s w = Ok tt w'
    /\ socks w' !! s = None
    /\ wire w' = wire w /\ fd_out w' = fd_out w
    /\ (q ∉ local_socket_list w')
    /\ (forall x, x <> s -> x <> q -> socks w' !! x = socks w !! x)
    /\ (destroy_now qo = true ->
        socks w' !! q = None
        /\ fd_closed w' = fd_closed w ++ [fde_fd (fde qo)]
        /\ (q ∉ local_socket_closing_list w')
        /\ forall a, a ∈ l -> pkts w' !! a = None)
    /\ (destroy_now qo = false ->
        exists qo',
          socks w' !! q = Some qo'
          /\ closing qo' = true /\ peer qo' = None
          /\ pkt_first qo' = pkt_first qo
          /\ st_read (fde qo') = false /\ st_write (fde qo') = true
          /\ q ∈ local_socket_closing_list w'
          /\ pkts w' = pkts w /\ fd_closed w' = fd_closed w).
Proof.
  intros Hs Hc Hp Hne Hq Hcq Hl Hex Hw.
  rewrite (remote_socket_close_run E w s so q qo l Hs Hc Hp Hne Hq Hcq Hl).
  set (w1 := with_socks (<[q := set_peer None qo]> (socks w)) w).
  unfold bind, close_finish.
  assert (Hd : destroy_now (set_peer None qo) = destroy_now qo) by reflexivity.
  rewrite Hd. cbn [exit_on_close set_peer fde]. rewrite Hex.
  destruct (destroy_now qo) eqn:Hnow.
  - erewrite free_ok
      by (unfold destroyed, w1; cbn;
          rewrite lookup_delete_ne, lookup_insert_ne by congruence; exact Hs).
    eexists. split; [reflexivity|]. unfold destroyed, w1. cbn.
    split; [apply lookup_delete_eq|].
    split; [reflexivity|]. split; [reflexivity|].
    split; [apply not_elem_of_unlink|].
    split.
    { intros x Hxs Hxq.
      now rewrite !lookup_delete_ne, lookup_insert_ne by congruence. }
    split; [|discriminate].
    intros _. split.
    { rewrite lookup_delete_ne by congruence. apply lookup_delete_eq. }
    split; [reflexivity|]. split; [apply not_elem_of_unlink|].
    intros a Ha. rewrite lookup_discard.
    now rewrite bool_decide_eq_true_2.
  - rewrite (Hw eq_refl).
    erewrite free_ok
      by (unfold deferred, w1; cbn;
          rewrite lookup_insert_ne by congruence;
          rewrite lookup_insert_ne by congruence; exact Hs).
    eexists. split; [reflexivity|]. unfold deferred. cbn.
    split; [apply lookup_delete_eq|].
    split; [reflexivity|]. split; [reflexivity|].
    split; [apply not_elem_of_unlink|].
    split.
    { intros x Hxs Hxq.
      now rewrite lookup_delete_ne, !lookup_insert_ne by congruence. }
    split; [discriminate|].
    intros _. eexists. split.
    { rewrite lookup_delete_ne by congruence. apply lookup_insert_eq. }
    unfold draining. rsimpl.
    split; [reflexivity|]. split; [reflexivity|]. split; [reflexivity|].
    split; [reflexivity|]. split; [exact (Hw eq_refl)|].
    split; [|split; reflexivity].
    apply elem_of_app. right. apply list_elem_of_singleton. reflexivity.
Qed.

Lemma remote_socket_close_silent_witness :
  exists w' qo',
    asocket_close Scenario.device_env 3 Scenario.backlog_pair = Ok tt w'
    /\ wire w' = []
    /\ socks w' !! 3%positive = None
    /\ socks w' !! 1%positive = Some qo'
    /\ closing qo' = true /\ peer qo' = None
    /\ local_socket_list w' = [] /\ local_socket_closing_list w' = [1%positive].
Proof.
  destruct (remote_socket_close_silent Scenario.device_env Scenario.backlog_pair
              3%positive (Scenario.remote3 (Some 1%positive)) 1%positive
              (Scenario.local1_backlog (Some 3%positive)) [100%positive])
    as (w' & Hrun & Hgone & Hwire & _ & _ & _ & _ & Hkeep).
  - reflexivity.
  - reflexivity.
  - reflexivity.
  - discriminate.
  - reflexivity.
  - reflexivity.
  - reflexivity.
  - reflexivity.
  - reflexivity.
  - destruct (Hkeep eq_refl) as (qo' & Hq' & Hcl & Hpeer & _).
    exists w', qo'. split; [exact Hrun|]. split; [exact Hwire|].
    split; [exact Hgone|]. split; [exact Hq'|]. split; [exact Hcl|].
    split; [exact Hpeer|].
    vm_compute in Hrun. injection Hrun as <-. split; reflexivity.
Defined.
